(** * jqPlot funnel renderer: layout solver and hit tester

    A shallow embedding of [src/plugins/jqplot.funnelRenderer.js]:
    the series initialisation ([init], with its highlight colours), the
    normalisation of the data ([setGridData], [makeGridData]), the
    layout pass of [draw] (bases, lengths, vertices) and its painting
    ([drawSection]), the legend ([FunnelLegendRenderer.prototype.draw]),
    the hooks [preInit] and [postInit], the pointer hit test
    ([checkIntersection]) and the pointer handlers ([highlight],
    [unhighlight], [handleMove], [handleMouseDown], [handleMouseUp],
    [handleClick], [handleRightClick]).

    Numbers.  A JavaScript number is modelled by an exact rational
    extended with [NaN] and the two infinities, so that a division by
    zero behaves as in the source (it yields [NaN] or an infinity and
    raises nothing).  Rounding is abstracted away and the sign of zero is
    not tracked.  The funnel angle is only ever used through
    [Math.tan (Math.atan r)]; an angle is therefore represented by its
    tangent.

    Because doubles round, a statement about the magnitude of a
    computed number (the sum of the lengths, the area of a section) is
    given with a margin that the exact result does not need, for plot
    areas of an ordinary size; the exact result stands beside it as a
    lemma.  The loop of the solver is also embedded over an arbitrary
    arithmetic ([arith], [loop_section]), and what is proved of it
    there holds for doubles as well.  A loop counter is a double too:
    counting with [i++] stops at [2^53], so a loop whose bound is
    larger does not end ([turns]). *)

From Stdlib Require Import String QArith Qcanon Qround List Lia Lqa Bool Arith.
From Stdlib Require Import Sorting.Sorted Sorting.Permutation.
Import ListNotations.

(** ** JavaScript numbers *)

Inductive number : Type :=
| Fin (q : Qc)
| PosInf
| NegInf
| NaN.

Declare Scope js_scope.
Delimit Scope js_scope with js.
Bind Scope js_scope with number.

Definition of_Z (z : Z) : number := Fin (Q2Qc (inject_Z z)).
Definition of_frac (a : Z) (b : positive) : number := Fin (Q2Qc (a # b)).

Definition Qc_sign (q : Qc) : comparison := Qccompare q 0%Qc.

Definition inf_of_sign (c : comparison) : number :=
  match c with
  | Gt => PosInf
  | Lt => NegInf
  | Eq => NaN
  end.

Definition flip (c : comparison) : comparison := CompOpp c.

Definition neg (a : number) : number :=
  match a with
  | Fin q => Fin (- q)%Qc
  | PosInf => NegInf
  | NegInf => PosInf
  | NaN => NaN
  end.

Definition add (a b : number) : number :=
  match a, b with
  | NaN, _ | _, NaN => NaN
  | Fin x, Fin y => Fin (x + y)%Qc
  | PosInf, NegInf | NegInf, PosInf => NaN
  | PosInf, _ | _, PosInf => PosInf
  | NegInf, _ | _, NegInf => NegInf
  end.

Definition sub (a b : number) : number := add a (neg b).

Definition mul (a b : number) : number :=
  match a, b with
  | NaN, _ | _, NaN => NaN
  | Fin x, Fin y => Fin (x * y)%Qc
  | PosInf, Fin y | Fin y, PosInf => inf_of_sign (Qc_sign y)
  | NegInf, Fin y | Fin y, NegInf => inf_of_sign (flip (Qc_sign y))
  | PosInf, PosInf | NegInf, NegInf => PosInf
  | PosInf, NegInf | NegInf, PosInf => NegInf
  end.

Definition Qc_is_zero (q : Qc) : bool :=
  match Qc_sign q with Eq => true | _ => false end.

Definition Qc_is_neg (q : Qc) : bool :=
  match Qc_sign q with Lt => true | _ => false end.

(** [x / 0] is an infinity of the sign of [x], and [0 / 0] is [NaN]. *)
Definition div (a b : number) : number :=
  match a, b with
  | NaN, _ | _, NaN => NaN
  | Fin x, Fin y =>
      if Qc_is_zero y then inf_of_sign (Qc_sign x) else Fin (x / y)%Qc
  | Fin _, (PosInf | NegInf) => Fin 0%Qc
  | PosInf, Fin y => if Qc_is_neg y then NegInf else PosInf
  | NegInf, Fin y => if Qc_is_neg y then PosInf else NegInf
  | (PosInf | NegInf), (PosInf | NegInf) => NaN
  end.

Definition Math_abs (a : number) : number :=
  match a with
  | Fin q => Fin (if Qc_is_neg q then - q else q)%Qc
  | PosInf | NegInf => PosInf
  | NaN => NaN
  end.

(** The order of two numbers; [None] as soon as one of them is [NaN]
    (every comparison with [NaN] is false). *)
Definition num_compare (a b : number) : option comparison :=
  match a, b with
  | NaN, _ | _, NaN => None
  | Fin x, Fin y => Some (Qccompare x y)
  | PosInf, PosInf | NegInf, NegInf => Some Eq
  | PosInf, _ | _, NegInf => Some Gt
  | NegInf, _ | _, PosInf => Some Lt
  end.

Definition num_gt (a b : number) : bool :=
  match num_compare a b with Some Gt => true | _ => false end.
Definition num_lt (a b : number) : bool :=
  match num_compare a b with Some Lt => true | _ => false end.
Definition num_ge (a b : number) : bool :=
  match num_compare a b with Some Gt | Some Eq => true | _ => false end.
Definition num_le (a b : number) : bool :=
  match num_compare a b with Some Lt | Some Eq => true | _ => false end.

Infix "+" := add : js_scope.
Infix "-" := sub : js_scope.
Infix "*" := mul : js_scope.
Infix "/" := div : js_scope.
Infix ">?" := num_gt (at level 70, no associativity) : js_scope.
Infix "<?" := num_lt (at level 70, no associativity) : js_scope.
Infix ">=?" := num_ge (at level 70, no associativity) : js_scope.
Infix "<=?" := num_le (at level 70, no associativity) : js_scope.

Definition is_finite (a : number) : bool :=
  match a with Fin _ => true | _ => false end.

Definition is_NaN (a : number) : bool :=
  match a with NaN => true | _ => false end.

(** Decidable equality of numbers, to compare computed results. *)
Definition number_eqb (a b : number) : bool :=
  match a, b with
  | Fin x, Fin y => Qc_eq_bool x y
  | PosInf, PosInf | NegInf, NegInf | NaN, NaN => true
  | _, _ => false
  end.

(** ** Angles

    [draw] stores [Math.atan r] in [_angle] and only ever reads it back
    through [Math.tan]; on the reals [tan (atan r) = r]. *)

Record angle : Type := { tangent : number }.

Definition Math_atan (r : number) : angle := {| tangent := r |}.
Definition Math_tan (a : angle) : number := tangent a.

(** ** Arrays

    A JavaScript array of numbers is a list; a hole (an element of
    [new Array(n)] never written) reads as [undefined], which every
    arithmetic operation of the source turns into [NaN]. *)

Definition new_Array (n : nat) : list number := repeat NaN n.

(** [a[i]] in an arithmetic context. *)
Definition array_get (a : list number) (i : nat) : number := nth i a NaN.

(** [a[i] = v]: writing past the end extends the array with holes. *)
Definition array_set (a : list number) (i : nat) (v : number) : list number :=
  if (i <? List.length a)%nat
  then firstn i a ++ v :: skipn (S i) a
  else a ++ repeat NaN (i - List.length a) ++ [v].

(** [Array.prototype.sort (comparefn)]: the result is the stable
    arrangement of the elements by [comparefn]; [b] moves in front of
    [a] only when [comparefn (a, b) > 0], and a [NaN] returned by
    [comparefn] counts as [0]. *)
Fixpoint sort_insert {A : Type} (comparefn : A -> A -> number)
    (x : A) (sorted : list A) : list A :=
  match sorted with
  | [] => [x]
  | y :: rest =>
      if (comparefn y x >? of_Z 0)%js
      then x :: y :: rest
      else y :: sort_insert comparefn x rest
  end.

Definition Array_sort {A : Type} (comparefn : A -> A -> number)
    (a : list A) : list A :=
  fold_left (fun sorted x => sort_insert comparefn x sorted) a [].

(** ** The series object

    Only the properties read or written by the modelled functions are
    kept.  A data point is the pair [[label, value]]. *)

Definition datapoint : Type := string * number.
Definition point : Type := number * number.

(** The four corners pushed by [draw] for one section, in the order of
    the pushes: top left, top right, bottom right, bottom left. *)
Record quad : Type := { v0 : point; v1 : point; v2 : point; v3 : point }.

Record padding_t : Type :=
  { top : number; right : number; bottom : number; left : number }.

(** A property that holds a boolean option: it may be missing
    ([undefined]), [null], or a boolean. *)
Inductive flag : Type :=
| Undefined
| Null
| Boolean (b : bool).

Definition truthy (f : flag) : bool :=
  match f with Boolean true => true | _ => false end.

(** [f == null] *)
Definition eq_null (f : flag) : bool :=
  match f with Undefined | Null => true | Boolean _ => false end.

Inductive renderer_t : Type :=
| FunnelRenderer
| LineRenderer.

Record series_t : Type :=
  { data : list datapoint;
    _unorderedData : list datapoint;
    gridData : list datapoint;
    padding : padding_t;
    sectionMargin : number;
    widthRatio : number;
    highlightMouseOver : flag;
    highlightMouseDown : flag;
    _highlightedPoint : option nat;
    _bases : list number;
    _atot : number;
    _areas : list number;
    _lengths : list number;
    _angle : angle;
    _length : number;
    _vertices : list quad;
    renderer : renderer_t;
    index : nat }.

(** The renderer options handed to [init]; [None] is a property the
    user did not give. *)
Record options_t : Type :=
  { o_padding_top : option number;
    o_padding_right : option number;
    o_padding_bottom : option number;
    o_padding_left : option number;
    o_sectionMargin : option number;
    o_widthRatio : option number;
    o_highlightMouseOver : flag;
    o_highlightMouseDown : flag }.

(** [$.extend (true, this, options)] copies every property of [options]
    that is not [undefined] onto [this] (a [null] is copied), and merges
    [padding] side by side. *)
Definition extend_number (mine : number) (given : option number) : number :=
  match given with Some v => v | None => mine end.

Definition extend_flag (mine given : flag) : flag :=
  match given with Undefined => mine | _ => given end.

Definition extend (this : series_t) (options : options_t) : series_t :=
  {| data := data this;
     _unorderedData := _unorderedData this;
     gridData := gridData this;
     padding :=
       {| top := extend_number (top (padding this)) (o_padding_top options);
          right := extend_number (right (padding this)) (o_padding_right options);
          bottom := extend_number (bottom (padding this)) (o_padding_bottom options);
          left := extend_number (left (padding this)) (o_padding_left options) |};
     sectionMargin := extend_number (sectionMargin this) (o_sectionMargin options);
     widthRatio := extend_number (widthRatio this) (o_widthRatio options);
     highlightMouseOver :=
       extend_flag (highlightMouseOver this) (o_highlightMouseOver options);
     highlightMouseDown :=
       extend_flag (highlightMouseDown this) (o_highlightMouseDown options);
     _highlightedPoint := _highlightedPoint this;
     _bases := _bases this;
     _atot := _atot this;
     _areas := _areas this;
     _lengths := _lengths this;
     _angle := _angle this;
     _length := _length this;
     _vertices := _vertices this;
     renderer := renderer this;
     index := index this |}.

(** ** [FunnelRenderer.prototype.init] *)

(** The property defaults assigned at the top of [init]. *)
Definition init_defaults (this : series_t) : series_t :=
  {| data := data this;
     _unorderedData := _unorderedData this;
     gridData := gridData this;
     padding := {| top := of_Z 20; right := of_Z 20;
                   bottom := of_Z 20; left := of_Z 20 |};
     sectionMargin := of_Z 6;
     widthRatio := of_frac 2 10;
     highlightMouseOver := Boolean true;
     highlightMouseDown := Boolean false;
     _highlightedPoint := _highlightedPoint this;
     _bases := _bases this;
     _atot := _atot this;
     _areas := _areas this;
     _lengths := _lengths this;
     _angle := _angle this;
     _length := _length this;
     _vertices := _vertices this;
     renderer := renderer this;
     index := index this |}.

(** [if (options.highlightMouseDown && options.highlightMouseOver == null)
       options.highlightMouseOver = false;] *)
Definition init_options (options : options_t) : options_t :=
  if truthy (o_highlightMouseDown options)
     && eq_null (o_highlightMouseOver options)
  then {| o_padding_top := o_padding_top options;
          o_padding_right := o_padding_right options;
          o_padding_bottom := o_padding_bottom options;
          o_padding_left := o_padding_left options;
          o_sectionMargin := o_sectionMargin options;
          o_widthRatio := o_widthRatio options;
          o_highlightMouseOver := Boolean false;
          o_highlightMouseDown := o_highlightMouseDown options |}
  else options.

(** [function (a, b) { return b[1] - a[1]; }] *)
Definition by_value_desc (a b : datapoint) : number := (snd b - snd a)%js.

(** The private state reset by [init], the copy of the data kept in
    [_unorderedData], and the sort of [data]. *)
Definition init_state (this : series_t) : series_t :=
  {| data := Array_sort by_value_desc (data this);
     _unorderedData := data this;
     gridData := gridData this;
     padding := padding this;
     sectionMargin := sectionMargin this;
     widthRatio := widthRatio this;
     highlightMouseOver := highlightMouseOver this;
     highlightMouseDown := highlightMouseDown this;
     _highlightedPoint := None;
     _bases := [];
     _atot := _atot this;
     _areas := [];
     _lengths := [];
     _angle := _angle this;
     _length := _length this;
     _vertices := _vertices this;
     renderer := renderer this;
     index := index this |}.

(** [init], without the highlight colours (they play no part in the
    layout or in the hit test). *)
Definition init (this : series_t) (options : options_t) : series_t :=
  init_state (extend (init_defaults this) (init_options options)).

(** ** [setGridData] and [makeGridData] *)

(** The first loop of both functions: the running [sum] and the copy
    [td] of the data. *)
Fixpoint sum_and_copy (d : list datapoint) (sum : number)
    (td : list datapoint) : number * list datapoint :=
  match d with
  | [] => (sum, td)
  | p :: rest => sum_and_copy rest (sum + snd p)%js (td ++ [(fst p, snd p)])
  end.

(** The second loop: [td[i][1] = td[i][1] / sum]. *)
Fixpoint normalize (td : list datapoint) (sum : number) : list datapoint :=
  match td with
  | [] => []
  | p :: rest => (fst p, (snd p / sum)%js) :: normalize rest sum
  end.

Definition with_grid (this : series_t) (gd : list datapoint)
    (bases lengths : list number) : series_t :=
  {| data := data this;
     _unorderedData := _unorderedData this;
     gridData := gd;
     padding := padding this;
     sectionMargin := sectionMargin this;
     widthRatio := widthRatio this;
     highlightMouseOver := highlightMouseOver this;
     highlightMouseDown := highlightMouseDown this;
     _highlightedPoint := _highlightedPoint this;
     _bases := bases;
     _atot := _atot this;
     _areas := _areas this;
     _lengths := lengths;
     _angle := _angle this;
     _length := _length this;
     _vertices := _vertices this;
     renderer := renderer this;
     index := index this |}.

Definition setGridData (this : series_t) : series_t :=
  let '(sum, td) := sum_and_copy (data this) (of_Z 0) [] in
  let td := normalize td sum in
  with_grid this td
    (new_Array (List.length td + 1)) (new_Array (List.length td)).

(** [makeGridData (data, plot)] returns [td] and leaves [gridData] as it
    was; the parameter [data] is never read. *)
Definition makeGridData (this : series_t) (data_arg : list datapoint)
    : list datapoint * series_t :=
  let '(sum, td) := sum_and_copy (data this) (of_Z 0) [] in
  let td := normalize td sum in
  (td, with_grid this (gridData this)
         (new_Array (List.length td + 1)) (new_Array (List.length td))).

(** ** [FunnelRenderer.prototype.draw]: the layout pass

    The canvas is represented by its [width] and [height]; the calls
    that paint the sections ([drawSection]) are left out. *)

Record legendInfo_t : Type :=
  { placement : string;
    location : string;
    width : number;
    height : number;
    xoffset : number;
    yoffset : number }.

(** Offset due to the legend, and its direction. *)
Record legend_offset_t : Type :=
  { offx : number; offy : number; trans : Z }.

Definition legend_offset (legendInfo : option legendInfo_t)
    : legend_offset_t :=
  match legendInfo with
  | Some li =>
      if String.eqb (placement li) "inside" then
        if String.eqb (location li) "nw" || String.eqb (location li) "w"
           || String.eqb (location li) "sw"
        then {| offx := (width li + xoffset li)%js; offy := of_Z 0;
                trans := 1%Z |}
        else if String.eqb (location li) "ne" || String.eqb (location li) "e"
                || String.eqb (location li) "se"
        then {| offx := (width li + xoffset li)%js; offy := of_Z 0;
                trans := (-1)%Z |}
        else if String.eqb (location li) "n"
        then {| offx := of_Z 0; offy := (height li + yoffset li)%js;
                trans := 1%Z |}
        else if String.eqb (location li) "s"
        then {| offx := of_Z 0; offy := (height li + yoffset li)%js;
                trans := (-1)%Z |}
        else {| offx := of_Z 0; offy := of_Z 0; trans := 1%Z |}
      else {| offx := of_Z 0; offy := of_Z 0; trans := 1%Z |}
  | None => {| offx := of_Z 0; offy := of_Z 0; trans := 1%Z |}
  end.

(** The offsets of the funnel from the edges of the canvas. *)
Definition loff (this : series_t) (legendInfo : option legendInfo_t) : number :=
  if (trans (legend_offset legendInfo) =? 1)%Z
  then (left (padding this) + offx (legend_offset legendInfo))%js
  else left (padding this).

Definition toff (this : series_t) (legendInfo : option legendInfo_t) : number :=
  if (trans (legend_offset legendInfo) =? 1)%Z
  then (top (padding this) + offy (legend_offset legendInfo))%js
  else top (padding this).

Definition roff (this : series_t) (legendInfo : option legendInfo_t) : number :=
  if (trans (legend_offset legendInfo) =? -1)%Z
  then (right (padding this) + offx (legend_offset legendInfo))%js
  else right (padding this).

Definition boff (this : series_t) (legendInfo : option legendInfo_t) : number :=
  if (trans (legend_offset legendInfo) =? -1)%Z
  then (bottom (padding this) + offy (legend_offset legendInfo))%js
  else bottom (padding this).

Definition tolerance : number := of_frac 1 10000.

(** The variables of the solver loops. *)
Record solver : Type :=
  { bases : list number;
    lengths : list number;
    guess : number;
    err : number;
    count : nat;
    lsum : number }.

(** [err > this._lengths[i]*tolerance && count < 100] *)
Definition solve_test (i : nat) (st : solver) : bool :=
  (err st >? array_get (lengths st) i * tolerance)%js
  && (count st <? 100)%nat.

(** One turn of the [while] loop for section [i]. *)
Definition solve_step (areas : list number) (ang : angle) (i : nat)
    (st : solver) : solver :=
  let lengths1 :=
    array_set (lengths st) i
      (array_get areas i
       / (array_get (bases st) i - array_get (lengths st) i * Math_tan ang))%js in
  let err1 := Math_abs (array_get lengths1 i - guess st)%js in
  let bases1 :=
    array_set (bases st) (i + 1)
      (array_get (bases st) i
       - of_Z 2 * array_get lengths1 i * Math_tan ang)%js in
  {| bases := bases1;
     lengths := lengths1;
     guess := array_get lengths1 i;
     err := err1;
     count := S (count st);
     lsum := lsum st |}.

(** The [while] loop; [fuel] bounds the number of turns, and the test
    on [count] stops the loop after [100] of them. *)
Fixpoint solve_while (fuel : nat) (areas : list number) (ang : angle)
    (i : nat) (st : solver) : solver :=
  match fuel with
  | O => st
  | S fuel' =>
      if solve_test i st
      then solve_while fuel' areas ang i (solve_step areas ang i st)
      else st
  end.

(** The statements before the [while] loop, for section [i]. *)
Definition solve_start (areas : list number) (i : nat) (st : solver)
    : solver :=
  let g := (array_get areas i / array_get (bases st) i)%js in
  {| bases := bases st;
     lengths := array_set (lengths st) i g;
     guess := g;
     err := of_Z 999999;
     count := 0;
     lsum := lsum st |}.

(** The body of the [for] loop over the sections. *)
Definition solve_section (areas : list number) (ang : angle)
    (st : solver) (i : nat) : solver :=
  let st1 := solve_while 100 areas ang i (solve_start areas i st) in
  {| bases := bases st1;
     lengths := lengths st1;
     guess := guess st1;
     err := err st1;
     count := count st1;
     lsum := (lsum st1 + array_get (lengths st1) i)%js |}.

Definition solve_sections (areas : list number) (ang : angle)
    (st : solver) : solver :=
  fold_left (solve_section areas ang) (seq 0 (List.length areas)) st.

(** [findleft] and [findright] are the same computation on the corner
    pairs [(p0, p2)] and [(p1, p3)]. *)
Definition findleft (p0 p2 : point) (l : number) : point :=
  let m := ((snd p0 - snd p2) / (fst p0 - fst p2))%js in
  let b := (snd p0 - m * fst p0)%js in
  let y := (l + snd p0)%js in
  (((y - b) / m)%js, y).

Definition findright (p1 p3 : point) (l : number) : point :=
  let m := ((snd p1 - snd p3) / (fst p1 - fst p3))%js in
  let b := (snd p1 - m * fst p1)%js in
  let y := (l + snd p1)%js in
  (((y - b) / m)%js, y).

(** The margin applied to the top edge of section [i] of [n]; [adj] is
    the value left by the previous turn. *)
Definition top_adj (sm : number) (n i : nat) (adj : number) : number :=
  let adj := if (i =? 0)%nat then of_Z 0 else adj in
  if (i =? 1)%nat then (sm / of_Z 3)%js
  else if (0 <? i)%nat && (i <? n - 1)%nat then (sm / of_Z 2)%js
  else if (i =? n - 1)%nat then (of_Z 2 * sm / of_Z 3)%js
  else adj.

(** The margin applied to the bottom edge of section [i] of [n]. *)
Definition bottom_adj (sm : number) (n i : nat) (adj : number) : number :=
  if (i =? 0)%nat then (of_Z (-2) * sm / of_Z 3)%js
  else if (0 <? i)%nat && (i <? n - 1)%nat then (neg sm / of_Z 2)%js
  else if (i =? n - 1)%nat then of_Z 0
  else adj.

(** The variables of the loop that computes the vertices. *)
Record vertex_loop : Type :=
  { h : number; adj : number; vertices : list quad }.

Definition vertex_step (p0 p1 p2 p3 : point) (sm : number) (n : nat)
    (lens : list number) (st : vertex_loop) (i : nat) : vertex_loop :=
  let adj_top := top_adj sm n i (adj st) in
  let c0 := findleft p0 p2 (h st + adj_top)%js in
  let c1 := findright p1 p3 (h st + adj_top)%js in
  let h1 := (h st + array_get lens i)%js in
  let adj_bottom := bottom_adj sm n i adj_top in
  let c2 := findright p1 p3 (h1 + adj_bottom)%js in
  let c3 := findleft p0 p2 (h1 + adj_bottom)%js in
  {| h := h1;
     adj := adj_bottom;
     vertices := vertices st ++ [ {| v0 := c0; v1 := c1; v2 := c2; v3 := c3 |} ] |}.

(** The four corners of the entire trapezoid. *)
Record trapezoid : Type := { p0 : point; p1 : point; p2 : point; p3 : point }.

Definition corners (bases : list number) (ltot loff toff : number)
    : trapezoid :=
  let last := array_get bases (List.length bases - 1) in
  let p2 := ((loff + (array_get bases 0 - last) / of_Z 2)%js,
             (toff + ltot)%js) in
  {| p0 := (loff, toff);
     p1 := ((loff + array_get bases 0)%js, toff);
     p2 := p2;
     p3 := ((fst p2 + last)%js, snd p2) |}.

(** The locals of [draw], in the order of their assignments: [_bases]
    once [_bases[0]] is set, [ltot], [_atot], [_angle], [_areas], and
    the solver variables after the loop over the sections. *)
Definition draw_bases0 (this : series_t) (cw : number)
    (legendInfo : option legendInfo_t) : list number :=
  array_set (_bases this) 0
    (cw - loff this legendInfo - roff this legendInfo)%js.

Definition draw_ltot (this : series_t) (ch : number)
    (legendInfo : option legendInfo_t) : number :=
  (ch - toff this legendInfo - boff this legendInfo)%js.

Definition draw_hend (this : series_t) (cw : number)
    (legendInfo : option legendInfo_t) : number :=
  (array_get (draw_bases0 this cw legendInfo) 0 * widthRatio this)%js.

Definition draw_atot (this : series_t) (cw ch : number)
    (legendInfo : option legendInfo_t) : number :=
  (draw_ltot this ch legendInfo / of_Z 2
   * (array_get (draw_bases0 this cw legendInfo) 0
      + array_get (draw_bases0 this cw legendInfo) 0 * widthRatio this))%js.

Definition draw_angle (this : series_t) (cw ch : number)
    (legendInfo : option legendInfo_t) : angle :=
  Math_atan
    ((array_get (draw_bases0 this cw legendInfo) 0
      - draw_hend this cw legendInfo)
     / of_Z 2 / draw_ltot this ch legendInfo)%js.

Definition draw_areas (this : series_t) (cw ch : number)
    (gd : list datapoint) (legendInfo : option legendInfo_t) : list number :=
  _areas this
  ++ map (fun p => (snd p * draw_atot this cw ch legendInfo)%js) gd.

Definition draw_solver (this : series_t) (cw ch : number)
    (gd : list datapoint) (legendInfo : option legendInfo_t) : solver :=
  solve_sections (draw_areas this cw ch gd legendInfo)
    (draw_angle this cw ch legendInfo)
    {| bases := draw_bases0 this cw legendInfo;
       lengths := _lengths this;
       guess := NaN; err := NaN; count := 0; lsum := of_Z 0 |}.

Definition draw_corners (this : series_t) (cw ch : number)
    (gd : list datapoint) (legendInfo : option legendInfo_t) : trapezoid :=
  corners (bases (draw_solver this cw ch gd legendInfo))
    (draw_ltot this ch legendInfo)
    (loff this legendInfo) (toff this legendInfo).

Definition draw (this : series_t) (canvas_width canvas_height : number)
    (gd : list datapoint) (legendInfo : option legendInfo_t) : series_t :=
  let cw := canvas_width in
  let ch := canvas_height in
  let st := draw_solver this cw ch gd legendInfo in
  let c := draw_corners this cw ch gd legendInfo in
  let vl :=
    fold_left
      (vertex_step (p0 c) (p1 c) (p2 c) (p3 c) (sectionMargin this)
         (List.length gd) (lengths st))
      (seq 0 (List.length gd))
      {| h := of_Z 0; adj := of_Z 0; vertices := [] |} in
  {| data := data this;
     _unorderedData := _unorderedData this;
     gridData := gridData this;
     padding := padding this;
     sectionMargin := sectionMargin this;
     widthRatio := widthRatio this;
     highlightMouseOver := highlightMouseOver this;
     highlightMouseDown := highlightMouseDown this;
     _highlightedPoint := _highlightedPoint this;
     _bases := bases st;
     _atot := draw_atot this cw ch legendInfo;
     _areas := draw_areas this cw ch gd legendInfo;
     _lengths := lengths st;
     _angle := draw_angle this cw ch legendInfo;
     _length := draw_ltot this ch legendInfo;
     _vertices := vertices vl;
     renderer := renderer this;
     index := index this |}.

(** ** The plot, [postInit] and [checkIntersection] *)

Record plot_t : Type :=
  { series : list series_t;
    _processGetNeighbor : bool }.

Definition set_highlightMouseDown (s : series_t) (f : flag) : series_t :=
  {| data := data s;
     _unorderedData := _unorderedData s;
     gridData := gridData s;
     padding := padding s;
     sectionMargin := sectionMargin s;
     widthRatio := widthRatio s;
     highlightMouseOver := highlightMouseOver s;
     highlightMouseDown := f;
     _highlightedPoint := _highlightedPoint s;
     _bases := _bases s;
     _atot := _atot s;
     _areas := _areas s;
     _lengths := _lengths s;
     _angle := _angle s;
     _length := _length s;
     _vertices := _vertices s;
     renderer := renderer s;
     index := index s |}.

(** The body of the loop of [postInit]. *)
Definition postInit_series (s : series_t) : series_t :=
  match renderer s with
  | FunnelRenderer =>
      if truthy (highlightMouseOver s)
      then set_highlightMouseDown s (Boolean false)
      else s
  | LineRenderer => s
  end.

(** [postInit], called with the plot as [this]; the binding of the
    [mouseout] handler is left out. *)
Definition postInit (this : plot_t) : plot_t :=
  {| series := map postInit_series (series this);
     _processGetNeighbor := false |}.

(** The outcome of a call: a returned value, or the [TypeError] raised
    when a property of [undefined] is read. *)
Inductive completion (A : Type) : Type :=
| Return (a : A)
| TypeError.

Arguments Return {A} a.
Arguments TypeError {A}.

(** [findedge (l, p1, p2)] *)
Definition findedge (l : number) (p1 p2 : point) : point :=
  let m := ((snd p1 - snd p2) / (fst p1 - fst p2))%js in
  let b := (snd p1 - m * fst p1)%js in
  let y := (l + snd p1)%js in
  (((y - b) / m)%js, y).

(** The test of the loop of [checkIntersection] on the section [cv]. *)
Definition over_section (x y : number) (lex rex : point) (cv : quad) : bool :=
  (y >=? snd (v0 cv))%js && (y <=? snd (v3 cv))%js
  && (x >=? fst lex)%js && (x <=? fst rex)%js.

(** The loop of [checkIntersection], from section [i] on; [v] holds the
    sections not yet tested.  The value returned on a match is
    [[s.index, i, s.data[i]]]; [None] is [null]. *)
Fixpoint check_sections (s : series_t) (x y : number) (lex rex : point)
    (v : list quad) (i : nat) : option (nat * nat * option datapoint) :=
  match v with
  | [] => None
  | cv :: rest =>
      if over_section x y lex rex cv
      then Some (index s, i, nth_error (data s) i)
      else check_sections s x y lex rex rest (S i)
  end.

Definition checkIntersection (gridpos : point) (plot : plot_t)
    : completion (option (nat * nat * option datapoint)) :=
  match series plot with
  | [] => TypeError
  | s :: _ =>
      let x := fst gridpos in
      let y := snd gridpos in
      let v := _vertices s in
      match v, nth_error v (List.length v - 1) with
      | vfirst :: _, Some vlast =>
          let lex := findedge y (v0 vfirst) (v3 vlast) in
          let rex := findedge y (v1 vfirst) (v2 vlast) in
          Return (check_sections s x y lex rex v 0)
      | _, _ => TypeError
      end
  end.

(** ** Vocabulary of the statements *)

(** The sum of the values of the data, as accumulated by [sum += ...]. *)
Definition total (d : list datapoint) : number :=
  fold_left add (map snd d) (of_Z 0).

(** [a] may stand before [b] in a descending arrangement. *)
Definition desc (a b : datapoint) : Prop := (snd a >=? snd b)%js = true.

Definition has_value (p : datapoint) : Prop := is_NaN (snd p) = false.

(** A series object holding [d], before [init] has run: the renderer
    properties are still missing. *)
Definition new_series (d : list datapoint) : series_t :=
  {| data := d;
     _unorderedData := [];
     gridData := [];
     padding := {| top := NaN; right := NaN; bottom := NaN; left := NaN |};
     sectionMargin := NaN;
     widthRatio := NaN;
     highlightMouseOver := Undefined;
     highlightMouseDown := Undefined;
     _highlightedPoint := None;
     _bases := [];
     _atot := NaN;
     _areas := [];
     _lengths := [];
     _angle := Math_atan NaN;
     _length := NaN;
     _vertices := [];
     renderer := FunnelRenderer;
     index := 0 |}.

(** No renderer option given. *)
Definition no_options : options_t :=
  {| o_padding_top := None;
     o_padding_right := None;
     o_padding_bottom := None;
     o_padding_left := None;
     o_sectionMargin := None;
     o_widthRatio := None;
     o_highlightMouseOver := Undefined;
     o_highlightMouseDown := Undefined |}.

(** Boolean equalities, to state the value of a computed result. *)
Definition point_eqb (p q : point) : bool :=
  number_eqb (fst p) (fst q) && number_eqb (snd p) (snd q).

Definition quad_eqb (a b : quad) : bool :=
  point_eqb (v0 a) (v0 b) && point_eqb (v1 a) (v1 b)
  && point_eqb (v2 a) (v2 b) && point_eqb (v3 a) (v3 b).

Fixpoint list_eqb {A : Type} (eqb : A -> A -> bool) (l m : list A) : bool :=
  match l, m with
  | [], [] => true
  | a :: l', b :: m' => eqb a b && list_eqb eqb l' m'
  | _, _ => false
  end.

(** Both highlight options enabled by the user. *)
Definition highlight_both : options_t :=
  {| o_padding_top := None;
     o_padding_right := None;
     o_padding_bottom := None;
     o_padding_left := None;
     o_sectionMargin := None;
     o_widthRatio := None;
     o_highlightMouseOver := Boolean true;
     o_highlightMouseDown := Boolean true |}.

(** A plot of one series. *)
Definition plot_of (s : series_t) : plot_t :=
  {| series := [s]; _processGetNeighbor := true |}.

(** Two data points of value zero. *)
Definition zeros : list datapoint :=
  [("A"%string, of_Z 0); ("B"%string, of_Z 0)].

(** The series of [zeros], initialised and normalised. *)
Definition zeros_series : series_t :=
  setGridData (init (new_series zeros) no_options).

(** The fixed-point iteration in the words of the specification: the
    initial guess [area / base], then
    [length = area / (base - length * tan (angle))]. *)
Fixpoint iterate (area base tanA : number) (k : nat) : number :=
  match k with
  | O => (area / base)%js
  | S k' => (area / (base - iterate area base tanA k' * tanA))%js
  end.

(** [|length - previous guess| <= length * 1e-4], for the [k]-th
    estimate ([1 <= k]). *)
Definition within_tolerance (area base tanA : number) (k : nat) : bool :=
  (Math_abs (iterate area base tanA k - iterate area base tanA (k - 1))
   <=? iterate area base tanA k * tolerance)%js.

(** The first of the estimates [k], [k + 1], ..., [k + n - 1] within
    the tolerance, and [k + n] when there is none. *)
Fixpoint first_within (area base tanA : number) (k n : nat) : nat :=
  match n with
  | O => k
  | S n' =>
      if within_tolerance area base tanA k then k
      else first_within area base tanA (S k) n'
  end.

(** The number of the estimate that is kept: the first one among the
    estimates [1] to [99] within the tolerance, and otherwise the
    estimate [100]. *)
Definition iterations (area base tanA : number) : nat :=
  first_within area base tanA 1 99.

(** The variables of the solver after [k] turns of the loop for
    section [i], entered in the state [st]. *)
Definition after_turns (areas : list number) (ang : angle) (i : nat)
    (st : solver) (k : nat) : solver :=
  match k with
  | O => solve_start areas i st
  | S k' =>
      let l := iterate (array_get areas i) (array_get (bases st) i)
                 (Math_tan ang) in
      {| bases :=
           array_set (bases st) (i + 1)
             (array_get (bases st) i - of_Z 2 * l k * Math_tan ang)%js;
         lengths := array_set (lengths st) i (l k);
         guess := l k;
         err := Math_abs (l k - l k')%js;
         count := k;
         lsum := lsum st |}
  end.

(** The estimates of the height of section [i], when its loop is
    entered in the state [st]. *)
Definition estimate (areas : list number) (ang : angle) (st : solver)
    (i k : nat) : number :=
  iterate (array_get areas i) (array_get (bases st) i) (Math_tan ang) k.

Definition tolerance_met (areas : list number) (ang : angle) (st : solver)
    (i k : nat) : bool :=
  within_tolerance (array_get areas i) (array_get (bases st) i)
    (Math_tan ang) k.

(** The number of the estimate that the specification keeps. *)
Definition kept (areas : list number) (ang : angle) (st : solver)
    (i : nat) : nat :=
  iterations (array_get areas i) (array_get (bases st) i) (Math_tan ang).

(** The solver variables at the start of [draw], for the bases [b]. *)
Definition solver_of (b : list number) (l : list number) : solver :=
  {| bases := b; lengths := l; guess := NaN; err := NaN;
     count := 0; lsum := of_Z 0 |}.

(** A single data point, initialised with the default options and
    normalised. *)
Definition one_point : list datapoint := [("A"%string, of_Z 5)].

Definition one_series : series_t :=
  setGridData (init (new_series one_point) no_options).

(** The value of [h] when the vertices of section [i] are computed: the
    lengths of the sections above it, added up from [0]. *)
Definition height_above (lens : list number) (i : nat) : number :=
  fold_left (fun h j => (h + array_get lens j)%js) (seq 0 i) (of_Z 0).

(** The quadrilateral of section [i] of [n], in closed form. *)
Definition section_quad (p0 p1 p2 p3 : point) (sm : number) (n : nat)
    (lens : list number) (i : nat) : quad :=
  {| v0 := findleft p0 p2 (height_above lens i + top_adj sm n i (of_Z 0))%js;
     v1 := findright p1 p3 (height_above lens i + top_adj sm n i (of_Z 0))%js;
     v2 := findright p1 p3
             (height_above lens (S i) + bottom_adj sm n i (of_Z 0))%js;
     v3 := findleft p0 p2
             (height_above lens (S i) + bottom_adj sm n i (of_Z 0))%js |}.

(** The heights of the top edge and of the bottom edge of a section. *)
Definition edge_ys (q : quad) : number * number := (snd (v0 q), snd (v3 q)).

(** Three data points, initialised with the default options and
    normalised. *)
Definition three_points : list datapoint :=
  [("A"%string, of_Z 10); ("B"%string, of_Z 30); ("C"%string, of_Z 20)].

Definition three_series : series_t :=
  setGridData (init (new_series three_points) no_options).

Definition three_drawn : series_t :=
  draw three_series (of_Z 300) (of_Z 300) (gridData three_series) None.

Definition one_drawn : series_t :=
  draw one_series (of_Z 300) (of_Z 300) (gridData one_series) None.

(** The abscissa, at the height [y], of the line through [p] and [q]. *)
Definition line_x_at (p q : point) (y : number) : number :=
  let m := ((snd p - snd q) / (fst p - fst q))%js in
  let b := (snd p - m * fst p)%js in
  ((y - b) / m)%js.

(** The hit test in the words of the specification: the first section
    whose vertical range contains the [y] of the pointer and for which
    the [x] of the pointer lies between the two boundary lines of the
    envelope, evaluated at the [y] of the pointer. *)
Definition over_section_at_y (x y : number) (vfirst vlast cv : quad) : bool :=
  (y >=? snd (v0 cv))%js && (y <=? snd (v3 cv))%js
  && (x >=? line_x_at (v0 vfirst) (v3 vlast) y)%js
  && (x <=? line_x_at (v1 vfirst) (v2 vlast) y)%js.

Fixpoint first_over (test : quad -> bool) (v : list quad) (i : nat)
    : option nat :=
  match v with
  | [] => None
  | cv :: rest => if test cv then Some i else first_over test rest (S i)
  end.

Definition hitTest (gridpos : point) (v : list quad) : option nat :=
  match v, nth_error v (List.length v - 1) with
  | vfirst :: _, Some vlast =>
      first_over (over_section_at_y (fst gridpos) (snd gridpos) vfirst vlast)
        v 0
  | _, _ => None
  end.

(** The centroid of a quadrilateral, for the round trip of the
    specification: the mean of its four corners. *)
Definition centroidOf (q : quad) : point :=
  (((fst (v0 q) + fst (v1 q) + fst (v2 q) + fst (v3 q)) / of_Z 4)%js,
   ((snd (v0 q) + snd (v1 q) + snd (v2 q) + snd (v3 q)) / of_Z 4)%js).

(** The height of the centre of area of a trapezoid, for those who read
    "centroid" so: [y0 + h * (a + 2 * b) / (3 * (a + b))] for the top
    width [a], the bottom width [b] and the height [h]. *)
Definition area_centroid_y (q : quad) : number :=
  (snd (v0 q)
   + (snd (v3 q) - snd (v0 q))
     * ((fst (v1 q) - fst (v0 q)) + of_Z 2 * (fst (v2 q) - fst (v3 q)))
     / (of_Z 3 * ((fst (v1 q) - fst (v0 q)) + (fst (v2 q) - fst (v3 q)))))%js.

(** A legend placed inside the plot, at the top. *)
Definition legend_north : legendInfo_t :=
  {| placement := "inside";
     location := "n";
     width := of_Z 80;
     height := of_Z 120;
     xoffset := of_Z 12;
     yoffset := of_Z 12 |}.

Definition one_drawn_under_legend : series_t :=
  draw one_series (of_Z 300) (of_Z 300) (gridData one_series)
    (Some legend_north).

(** The estimates of the fixed-point iteration, on rationals. *)
Fixpoint iterate_q (a b t : Qc) (k : nat) : Qc :=
  match k with
  | O => (a / b)%Qc
  | S k' => (a / (b - iterate_q a b t k' * t))%Qc
  end.

Definition Qc_of_Z (z : Z) : Qc := Q2Qc (inject_Z z).

Definition Qc_sum (l : list Qc) : Qc := fold_right Qcplus 0%Qc l.

(** The sections still to be solved fit in what is left of the
    envelope: a trapezoid of top base [b] and height [H], with walls of
    slope [t], holds the area [R]. *)
Definition fits (R H b t : Qc) : Prop :=
  (0 <= t /\ 0 <= H /\ 0 <= b - Qc_of_Z 2 * H * t /\ R <= H * (b - H * t))%Qc.

(** A funnel with [widthRatio = 0]. *)
Definition pyramid_options : options_t :=
  {| o_padding_top := None;
     o_padding_right := None;
     o_padding_bottom := None;
     o_padding_left := None;
     o_sectionMargin := None;
     o_widthRatio := Some (of_Z 0);
     o_highlightMouseOver := Undefined;
     o_highlightMouseDown := Undefined |}.

Definition pyramid_series : series_t :=
  setGridData (init (new_series one_point) pyramid_options).

Definition pyramid_drawn : series_t :=
  draw pyramid_series (of_Z 300) (of_Z 300) (gridData pyramid_series) None.

(** Data in descending order, with two points of equal value. *)
Definition ties_points : list datapoint :=
  [("A"%string, of_Z 30); ("B"%string, of_Z 20); ("C"%string, of_Z 20)].

(** ** Painting: [drawSection] and the last loops of [draw]

    A colour is a string.  The strings the code builds itself are
    kept by their parts: [rgb r g b] is ['rgb(' + r + ',' + g + ',' + b
    + ')'] and [rgba r g b a] is the like string with four parts. *)

Inductive color : Type :=
| css (s : string)
| rgb (r g b : number)
| rgba (r g b a : number).

(** The calls made on a canvas context.  An assignment to [fillStyle]
    or [strokeStyle] is recorded with the value assigned ([None] is
    [undefined]).  [ctx_translate_polar r a] is the call
    [translate(r * Math.cos(a / 180 * Math.PI),
               r * Math.sin(a / 180 * Math.PI))]. *)
Inductive ctx_call : Type :=
| ctx_save
| ctx_restore
| ctx_translate_polar (r a : number)
| ctx_beginPath
| ctx_fillStyle (c : option color)
| ctx_strokeStyle (c : option color)
| ctx_moveTo (x y : number)
| ctx_lineTo (x y : number)
| ctx_closePath
| ctx_fill
| ctx_stroke
| ctx_clearRect (x y w h : number).

(** The properties of a series that the painting reads. *)
Record paint_t : Type :=
  { fill : flag;
    shadow : flag;
    shadowOffset : number;
    shadowAngle : number;
    shadowAlpha : number;
    shadowDepth : number;
    seriesColors : list string;
    highlightColors : list color }.

(** The largest value a loop counter reaches: [2^53].  The counter is a
    number like any other; up to [2^53] every [i++] is exact, and
    [2^53 + 1] is rounded back to [2^53], so that from there on [i++]
    leaves the counter as it is. *)
Definition counter_limit : Z := 9007199254740992.

(** The number of turns of [for (var i=0; i<bound; i++)]: the number
    of naturals below [bound] when [bound] is at most [2^53], and
    [None], for a loop that never ends, when [bound] is larger: the
    counter then stays at [2^53], below [bound]. *)
Definition turns (bound : number) : option nat :=
  match bound with
  | Fin q =>
      if (Qceiling (this q) <=? counter_limit)%Z
      then Some (Z.to_nat (Qceiling (this q)))
      else None
  | PosInf => None
  | NegInf | NaN => Some 0%nat
  end.

(** A piece of painting: the calls made on the context, and how the
    piece ended; [None] when it never ends. *)
Definition painting : Type := option (list ctx_call * completion unit).

Definition paint_then (a b : painting) : painting :=
  match a with
  | None => None
  | Some (calls, TypeError) => Some (calls, TypeError)
  | Some (calls, Return _) =>
      match b with
      | None => None
      | Some (calls', r) => Some (calls ++ calls', r)
      end
  end.

(** [for (var i=0; i<n; i++) body(i)] *)
Definition paint_loop (body : nat -> painting) (n : nat) : painting :=
  fold_right (fun i rest => paint_then (body i) rest)
    (Some ([], Return tt)) (seq 0 n).

(** The inner function [doDraw]; [verts] is [None] when the argument
    [vertices] of [drawSection] is [undefined], and reading
    [vertices[0]] then raises a [TypeError]. *)
Definition doDraw (this : paint_t) (verts : option quad)
    (c : option color) : painting :=
  match verts with
  | None =>
      Some ([ctx_beginPath; ctx_fillStyle c; ctx_strokeStyle c], TypeError)
  | Some q =>
      Some ([ctx_beginPath; ctx_fillStyle c; ctx_strokeStyle c;
             ctx_moveTo (fst (v0 q)) (snd (v0 q));
             ctx_lineTo (fst (v1 q)) (snd (v1 q));
             ctx_lineTo (fst (v2 q)) (snd (v2 q));
             ctx_lineTo (fst (v3 q)) (snd (v3 q));
             ctx_closePath;
             if truthy (fill this) then ctx_fill else ctx_stroke],
            Return tt)
  end.

(** One turn of the loop that paints the shadow. *)
Definition shadow_turn (this : paint_t) (verts : option quad)
    (c : option color) : painting :=
  paint_then
    (Some ([ctx_save;
            ctx_translate_polar (shadowOffset this) (shadowAngle this)],
           Return tt))
    (doDraw this verts c).

Definition drawSection (this : paint_t) (verts : option quad)
    (c : option color) (isShadow : bool) : painting :=
  paint_then (Some ([ctx_save], Return tt))
    (paint_then
       (if isShadow
        then match turns (shadowDepth this) with
             | Some n => paint_loop (fun _ => shadow_turn this verts c) n
             | None => paint_then (shadow_turn this verts c) None
             end
        else doDraw this verts c)
       (paint_then
          (if isShadow
           then match turns (shadowDepth this) with
                | Some n =>
                    paint_loop (fun _ => Some ([ctx_restore], Return tt)) n
                | None => None
                end
           else Some ([], Return tt))
          (Some ([ctx_restore], Return tt)))).

(** The end of [draw]: the shadows of all the sections, then the
    sections; [verts] is [this._vertices] and [n] is [gd.length]. *)
Definition draw_painting (this : paint_t) (verts : list quad) (n : nat)
    : painting :=
  paint_then
    (if truthy (shadow this)
     then paint_loop
            (fun i =>
               drawSection this (nth_error verts i)
                 (Some (rgba (of_Z 0) (of_Z 0) (of_Z 0) (shadowAlpha this)))
                 true)
            n
     else Some ([], Return tt))
    (paint_loop
       (fun i =>
          drawSection this (nth_error verts i)
            (option_map css (nth_error (seriesColors this) i)) false)
       n).

(** ** The pointer handlers

    A series with the properties read by the painting, and the plot
    with what the handlers read and write: the series, the index kept
    in [plot.plugins.funnelRenderer.highlightedSeriesIndex] ([None] is
    [null] or [undefined]), the size of the highlight canvas, the calls
    made on its context, and the events triggered on [plot.target],
    the oldest first. *)

Record funnel_series : Type :=
  { layout : series_t;
    paint : paint_t }.

Definition hit : Type := (nat * nat * option datapoint)%type.

Inductive event : Type :=
| jqplotDataMouseOver (ins : hit)
| jqplotDataHighlight (ins : hit)
| jqplotDataUnhighlight
| jqplotDataClick (ins : hit)
| jqplotDataRightClick (ins : hit).

Record funnel_plot : Type :=
  { all_series : list funnel_series;
    processGetNeighbor : bool;
    highlightedSeriesIndex : option nat;
    canvas_width : number;
    canvas_height : number;
    highlightCanvas : list ctx_call;
    triggered : list event }.

(** The plot as [checkIntersection] sees it. *)
Definition as_plot (plot : funnel_plot) : plot_t :=
  {| series := map layout (all_series plot);
     _processGetNeighbor := processGetNeighbor plot |}.

Definition set_highlightedPoint (s : series_t) (p : option nat) : series_t :=
  {| data := data s;
     _unorderedData := _unorderedData s;
     gridData := gridData s;
     padding := padding s;
     sectionMargin := sectionMargin s;
     widthRatio := widthRatio s;
     highlightMouseOver := highlightMouseOver s;
     highlightMouseDown := highlightMouseDown s;
     _highlightedPoint := p;
     _bases := _bases s;
     _atot := _atot s;
     _areas := _areas s;
     _lengths := _lengths s;
     _angle := _angle s;
     _length := _length s;
     _vertices := _vertices s;
     renderer := renderer s;
     index := index s |}.

Definition mark (s : funnel_series) (p : option nat) : funnel_series :=
  {| layout := set_highlightedPoint (layout s) p; paint := paint s |}.

(** [l[i] = x] on a list that holds an entry [i]. *)
Fixpoint replace_nth {A : Type} (l : list A) (i : nat) (x : A) : list A :=
  match l, i with
  | [], _ => []
  | _ :: rest, O => x :: rest
  | y :: rest, S i' => y :: replace_nth rest i' x
  end.

(** A handler: the plot it leaves and how it ended; [None] when it
    never ends. *)
Definition action (A : Type) : Type :=
  funnel_plot -> option (funnel_plot * completion A).

Definition ret {A : Type} (a : A) : action A :=
  fun plot => Some (plot, Return a).

Definition throw {A : Type} : action A :=
  fun plot => Some (plot, TypeError).

Definition bind {A B : Type} (m : action A) (f : A -> action B) : action B :=
  fun plot =>
    match m plot with
    | None => None
    | Some (plot', TypeError) => Some (plot', TypeError)
    | Some (plot', Return a) => f a plot'
    end.

Definition then_ {A B : Type} (m : action A) (m' : action B) : action B :=
  bind m (fun _ => m').

(** [plot.target.trigger(e)] *)
Definition trigger (e : event) : action unit :=
  fun plot =>
    Some ({| all_series := all_series plot;
             processGetNeighbor := processGetNeighbor plot;
             highlightedSeriesIndex := highlightedSeriesIndex plot;
             canvas_width := canvas_width plot;
             canvas_height := canvas_height plot;
             highlightCanvas := highlightCanvas plot;
             triggered := triggered plot ++ [e] |},
          Return tt).

(** A piece of painting on the context of the highlight canvas. *)
Definition on_canvas (p : painting) : action unit :=
  fun plot =>
    match p with
    | None => None
    | Some (calls, r) =>
        Some ({| all_series := all_series plot;
                 processGetNeighbor := processGetNeighbor plot;
                 highlightedSeriesIndex := highlightedSeriesIndex plot;
                 canvas_width := canvas_width plot;
                 canvas_height := canvas_height plot;
                 highlightCanvas := highlightCanvas plot ++ calls;
                 triggered := triggered plot |},
              r)
    end.

(** [canvas._ctx.clearRect(0, 0, canvas._ctx.canvas.width,
    canvas._ctx.canvas.height)] *)
Definition clear_canvas : action unit :=
  fun plot =>
    on_canvas
      (Some ([ctx_clearRect (of_Z 0) (of_Z 0)
                (canvas_width plot) (canvas_height plot)],
             Return tt))
      plot.

Definition set_series (l : list funnel_series) (hsi : option nat)
    : action unit :=
  fun plot =>
    Some ({| all_series := l;
             processGetNeighbor := processGetNeighbor plot;
             highlightedSeriesIndex := hsi;
             canvas_width := canvas_width plot;
             canvas_height := canvas_height plot;
             highlightCanvas := highlightCanvas plot;
             triggered := triggered plot |},
          Return tt).

(** [highlight (plot, sidx, pidx)]: the canvas is cleared before
    [s._highlightedPoint] is written, and that write raises a
    [TypeError] when [plot.series[sidx]] is [undefined].  Only the
    funnel renderer has a [drawSection]: on a series of another
    renderer, [s.renderer.drawSection.call] raises a [TypeError]. *)
Definition highlight (sidx pidx : nat) : action unit :=
  fun plot =>
    match nth_error (all_series plot) sidx with
    | None => then_ clear_canvas throw plot
    | Some s =>
        then_ clear_canvas
          (then_
             (set_series (replace_nth (all_series plot) sidx
                            (mark s (Some pidx)))
                (Some sidx))
             (match renderer (layout s) with
              | FunnelRenderer =>
                  on_canvas
                    (drawSection (paint s)
                       (nth_error (_vertices (layout s)) pidx)
                       (nth_error (highlightColors (paint s)) pidx)
                       false)
              | LineRenderer => throw
              end))
          plot
    end.

Definition unhighlight : action unit :=
  fun plot =>
    then_ clear_canvas
      (then_
         (set_series (map (fun s => mark s None) (all_series plot)) None)
         (trigger jqplotDataUnhighlight))
      plot.

(** [ins[0] == plot.plugins.funnelRenderer.highlightedSeriesIndex &&
    ins[1] == plot.series[ins[0]]._highlightedPoint] *)
Definition is_highlighted (plot : funnel_plot) (s : funnel_series)
    (k i : nat) : bool :=
  match highlightedSeriesIndex plot, _highlightedPoint (layout s) with
  | Some k', Some i' => (k =? k')%nat && (i =? i')%nat
  | _, _ => false
  end.

Definition handleMove (gridpos : point) : action unit :=
  fun plot =>
    match checkIntersection gridpos (as_plot plot) with
    | TypeError => throw plot
    | Return None => unhighlight plot
    | Return (Some (k, i, d)) =>
        then_ (trigger (jqplotDataMouseOver (k, i, d)))
          (fun plot1 =>
             match nth_error (all_series plot1) k with
             | None => throw plot1
             | Some s =>
                 if truthy (highlightMouseOver (layout s))
                    && negb (is_highlighted plot1 s k i)
                 then then_ (trigger (jqplotDataHighlight (k, i, d)))
                        (highlight k i) plot1
                 else ret tt plot1
             end)
          plot
    end.

Definition handleMouseDown (gridpos : point) : action unit :=
  fun plot =>
    match checkIntersection gridpos (as_plot plot) with
    | TypeError => throw plot
    | Return None => unhighlight plot
    | Return (Some (k, i, d)) =>
        match nth_error (all_series plot) k with
        | None => throw plot
        | Some s =>
            if truthy (highlightMouseDown (layout s))
               && negb (is_highlighted plot s k i)
            then then_ (trigger (jqplotDataHighlight (k, i, d)))
                   (highlight k i) plot
            else ret tt plot
        end
    end.

Definition handleMouseUp : action unit :=
  fun plot =>
    match highlightedSeriesIndex plot with
    | None => ret tt plot
    | Some idx =>
        match nth_error (all_series plot) idx with
        | None => throw plot
        | Some s =>
            if truthy (highlightMouseDown (layout s))
            then unhighlight plot
            else ret tt plot
        end
    end.

Definition handleClick (gridpos : point) : action unit :=
  fun plot =>
    match checkIntersection gridpos (as_plot plot) with
    | TypeError => throw plot
    | Return None => ret tt plot
    | Return (Some ins) => trigger (jqplotDataClick ins) plot
    end.

(** After the hit test, [handleRightClick] has the statements of
    [handleMouseUp]. *)
Definition handleRightClick (gridpos : point) : action unit :=
  fun plot =>
    match checkIntersection gridpos (as_plot plot) with
    | TypeError => throw plot
    | Return intersection =>
        then_ handleMouseUp
          (match intersection with
           | Some ins => trigger (jqplotDataRightClick ins)
           | None => ret tt
           end)
          plot
    end.

(** The calls of [drawSection] for a section that is not a shadow. *)
Definition polygon (this : paint_t) (q : quad) (c : option color)
    : list ctx_call :=
  [ctx_save; ctx_beginPath; ctx_fillStyle c; ctx_strokeStyle c;
   ctx_moveTo (fst (v0 q)) (snd (v0 q));
   ctx_lineTo (fst (v1 q)) (snd (v1 q));
   ctx_lineTo (fst (v2 q)) (snd (v2 q));
   ctx_lineTo (fst (v3 q)) (snd (v3 q));
   ctx_closePath;
   if truthy (fill this) then ctx_fill else ctx_stroke;
   ctx_restore].

Definition clearRect_all (plot : funnel_plot) : ctx_call :=
  ctx_clearRect (of_Z 0) (of_Z 0) (canvas_width plot) (canvas_height plot).

(** What a canvas shows: the calls made since it was last cleared. *)
Fixpoint since_clear_from (shown calls : list ctx_call) : list ctx_call :=
  match calls with
  | [] => shown
  | ctx_clearRect _ _ _ _ :: rest => since_clear_from [] rest
  | c :: rest => since_clear_from (shown ++ [c]) rest
  end.

Definition since_clear (calls : list ctx_call) : list ctx_call :=
  since_clear_from [] calls.

(** The pointer events the plugin listens to (the hooks pushed at the
    end of the file, and the [mouseout] handler bound by [postInit]),
    and the handling of a sequence of them. *)
Inductive pointer_event : Type :=
| jqplotMouseMove (gridpos : point)
| jqplotMouseDown (gridpos : point)
| jqplotMouseUp
| jqplotClick (gridpos : point)
| jqplotRightClick (gridpos : point)
| mouseout.

Definition handle (e : pointer_event) : action unit :=
  match e with
  | jqplotMouseMove gridpos => handleMove gridpos
  | jqplotMouseDown gridpos => handleMouseDown gridpos
  | jqplotMouseUp => handleMouseUp
  | jqplotClick gridpos => handleClick gridpos
  | jqplotRightClick gridpos => handleRightClick gridpos
  | mouseout => unhighlight
  end.

Fixpoint handle_all (events : list pointer_event) : action unit :=
  match events with
  | [] => ret tt
  | e :: rest => then_ (handle e) (handle_all rest)
  end.

(** The highlight canvas agrees with the highlight state: nothing is
    shown while no series is recorded as highlighted, and otherwise
    the series recorded is the first one, it records a section that
    exists, and the canvas shows that section in its highlight
    colour. *)
Definition highlight_shown (plot : funnel_plot) : Prop :=
  match highlightedSeriesIndex plot with
  | None => since_clear (highlightCanvas plot) = []
  | Some k =>
      k = 0%nat
      /\ exists s others i cv,
           all_series plot = s :: others
           /\ _highlightedPoint (layout s) = Some i
           /\ nth_error (_vertices (layout s)) i = Some cv
           /\ since_clear (highlightCanvas plot)
              = polygon (paint s) cv (nth_error (highlightColors (paint s)) i)
  end.

(** A drawn funnel series stands first in the plot, under the index
    [0]. *)
Definition funnel_first (plot : funnel_plot) : Prop :=
  exists s others,
    all_series plot = s :: others
    /\ index (layout s) = 0%nat
    /\ renderer (layout s) = FunnelRenderer
    /\ _vertices (layout s) <> [].

(** A handler that ends without an exception and keeps the canvas in
    agreement with the highlight state. *)
Definition keeps_shown (m : action unit) : Prop :=
  forall plot, funnel_first plot -> highlight_shown plot ->
    exists plot',
      m plot = Some (plot', Return tt)
      /\ funnel_first plot' /\ highlight_shown plot'.

(** A plot of the funnel of one data point, after [postPlotDraw]: no
    section is highlighted and nothing was painted on the highlight
    canvas. *)
Definition example_paint : paint_t :=
  {| fill := Boolean true;
     shadow := Boolean true;
     shadowOffset := of_Z 2;
     shadowAngle := of_Z 45;
     shadowAlpha := of_frac 7 100;
     shadowDepth := of_Z 5;
     seriesColors := ["#4bb2c5"%string];
     highlightColors := [rgb (of_Z 147) (of_Z 208) (of_Z 220)] |}.

Definition pointer_plot (s : series_t) : funnel_plot :=
  {| all_series := [ {| layout := s; paint := example_paint |} ];
     processGetNeighbor := false;
     highlightedSeriesIndex := None;
     canvas_width := of_Z 300;
     canvas_height := of_Z 300;
     highlightCanvas := [];
     triggered := [] |}.

(** The same funnel with the option [highlightMouseDown: true]. *)
Definition mouse_down_options : options_t :=
  {| o_padding_top := None;
     o_padding_right := None;
     o_padding_bottom := None;
     o_padding_left := None;
     o_sectionMargin := None;
     o_widthRatio := None;
     o_highlightMouseOver := Undefined;
     o_highlightMouseDown := Boolean true |}.

Definition mouse_down_series : series_t :=
  setGridData (init (new_series one_point) mouse_down_options).

Definition mouse_down_drawn : series_t :=
  draw mouse_down_series (of_Z 300) (of_Z 300) (gridData mouse_down_series)
    None.

(** The depth of the stack of saved states of a context after [calls],
    from the depth [depth]; [None] when a [restore] finds the stack
    empty. *)
Fixpoint stack_after (calls : list ctx_call) (depth : nat) : option nat :=
  match calls with
  | [] => Some depth
  | ctx_save :: rest => stack_after rest (S depth)
  | ctx_restore :: rest =>
      match depth with
      | O => None
      | S depth' => stack_after rest depth'
      end
  | _ :: rest => stack_after rest depth
  end.

(** The number of paths painted by [calls]. *)
Definition is_painted (c : ctx_call) : bool :=
  match c with
  | ctx_fill | ctx_stroke => true
  | _ => false
  end.

Definition painted (calls : list ctx_call) : nat :=
  List.length (filter is_painted calls).

(** The calls that paint section [i] in its series colour. *)
Definition section_polygon (this : paint_t) (verts : list quad) (i : nat)
    : list ctx_call :=
  match nth_error verts i with
  | Some q => polygon this q (option_map css (nth_error (seriesColors this) i))
  | None => []
  end.

(** The calls of [doDraw] on a quadrilateral, and the calls of
    [drawSection] for a shadow of [n] strokes. *)
Definition path (this : paint_t) (q : quad) (c : option color)
    : list ctx_call :=
  [ctx_beginPath; ctx_fillStyle c; ctx_strokeStyle c;
   ctx_moveTo (fst (v0 q)) (snd (v0 q));
   ctx_lineTo (fst (v1 q)) (snd (v1 q));
   ctx_lineTo (fst (v2 q)) (snd (v2 q));
   ctx_lineTo (fst (v3 q)) (snd (v3 q));
   ctx_closePath;
   if truthy (fill this) then ctx_fill else ctx_stroke].

Definition shadow_polygon (this : paint_t) (q : quad) (c : option color)
    (n : nat) : list ctx_call :=
  ctx_save
  :: flat_map
       (fun _ =>
          ctx_save
          :: ctx_translate_polar (shadowOffset this) (shadowAngle this)
          :: path this q c)
       (seq 0 n)
     ++ flat_map (fun _ => [ctx_restore]) (seq 0 n)
     ++ [ctx_restore].

(** The calls that paint the shadow of section [i], of [n] strokes. *)
Definition section_shadow (this : paint_t) (verts : list quad) (n i : nat)
    : list ctx_call :=
  match nth_error verts i with
  | Some q =>
      shadow_polygon this q
        (Some (rgba (of_Z 0) (of_Z 0) (of_Z 0) (shadowAlpha this))) n
  | None => []
  end.

(** ** The highlight colours of [init]

    [parseInt(x, 10)] on a number [x]: the number is first turned into
    a string, and the digits in front of the first character that is
    not a digit are read.  For [1e-6 <= |x| < 1e21] the string is in
    decimal notation and the result is [x] without its fraction; a
    number outside that range is written with an exponent, and the
    result is its first digit.  [NaN] and the infinities give [NaN]. *)

(** The first decimal digit of a positive integer. *)
Fixpoint first_digit_from (fuel : nat) (z : Z) : Z :=
  match fuel with
  | O => z
  | S fuel' => if (z <? 10)%Z then z else first_digit_from fuel' (z / 10)%Z
  end.

Definition first_digit_int (z : Z) : Z :=
  first_digit_from (S (Z.to_nat (Z.log2 z))) z.

(** The first digit other than zero of [n / d], for [0 < n < d]. *)
Fixpoint first_digit_below (fuel : nat) (n d : Z) : Z :=
  match fuel with
  | O => 0%Z
  | S fuel' =>
      if (d <=? n)%Z then (n / d)%Z else first_digit_below fuel' (10 * n)%Z d
  end.

Definition first_digit (n d : Z) : Z :=
  if (d <=? n)%Z then first_digit_int (n / d)%Z
  else first_digit_below (S (S (Z.to_nat (Z.log2 d)))) n d.

Definition parseInt10 (x : number) : number :=
  match x with
  | Fin q =>
      let n := Qnum (this q) in
      let d := Z.pos (Qden (this q)) in
      if (n =? 0)%Z then of_Z 0
      else if (Z.abs n * 10 ^ 6 <? d)%Z || (10 ^ 21 * d <=? Z.abs n)%Z
           then of_Z (Z.sgn n * first_digit (Z.abs n) d)
           else of_Z (Z.quot n d)
  | PosInf | NegInf | NaN => NaN
  end.

(** The body of the loop over [j]: the new value of a component
    [newrgb[j]], given the sum of the three components. *)
Definition highlight_component (sum c : number) : number :=
  parseInt10
    (if (sum >? of_Z 570)%js
     then (c * of_frac 8 10)%js
     else (c + of_frac 4 10 * (of_Z 255 - c))%js).

(** The highlight colour pushed for a series colour of components
    [rgba]. *)
Definition highlight_of (rgba : list number) : color :=
  let sum := (array_get rgba 0 + array_get rgba 1 + array_get rgba 2)%js in
  rgb (highlight_component sum (array_get rgba 0))
      (highlight_component sum (array_get rgba 1))
      (highlight_component sum (array_get rgba 2)).

(** The end of [init]; [$.jqplot.getColorComponents] belongs to the
    core of jqPlot and is a parameter here. *)
Definition init_highlightColors (getColorComponents : string -> list number)
    (this : paint_t) : paint_t :=
  if (List.length (highlightColors this) =? 0)%nat
  then {| fill := fill this;
          shadow := shadow this;
          shadowOffset := shadowOffset this;
          shadowAngle := shadowAngle this;
          shadowAlpha := shadowAlpha this;
          shadowDepth := shadowDepth this;
          seriesColors := seriesColors this;
          highlightColors :=
            map (fun c => highlight_of (getColorComponents c))
              (seriesColors this) |}
  else this.

(** The series of [example_paint] before its highlight colours are
    set, and the components of its series colour ["#4bb2c5"]. *)
Definition fresh_paint : paint_t :=
  {| fill := Boolean true;
     shadow := Boolean true;
     shadowOffset := of_Z 2;
     shadowAngle := of_Z 45;
     shadowAlpha := of_frac 7 100;
     shadowDepth := of_Z 5;
     seriesColors := ["#4bb2c5"%string];
     highlightColors := [] |}.

Definition example_components (c : string) : list number :=
  [of_Z 75; of_Z 178; of_Z 197; of_Z 1].

(** ** [preInit]

    The options of the plot, with the properties that [preInit] reads
    or writes; [None] is a property that is missing.  A renderer other
    than the funnel's stands for any other value. *)

Inductive axis_renderer_t : Type :=
| FunnelAxisRenderer
| LinearAxisRenderer.

Inductive legend_renderer_t : Type :=
| FunnelLegendRenderer
| TableLegendRenderer.

Record axes_options : Type :=
  { axes_renderer : option axis_renderer_t }.

Record legend_options : Type :=
  { legend_renderer : option legend_renderer_t;
    preDraw : flag }.

Record series_options : Type :=
  { series_renderer : option renderer_t }.

Record plot_options : Type :=
  { axesDefaults : option axes_options;
    legend : option legend_options;
    seriesDefaults : option series_options;
    series_opts : option (list series_options) }.

(** [x || {}] *)
Definition or_empty {A : Type} (x : option A) (empty : A) : A :=
  match x with
  | Some a => a
  | None => empty
  end.

(** [o.renderer == $.jqplot.FunnelRenderer] *)
Definition is_funnel (o : series_options) : bool :=
  match series_renderer o with
  | Some FunnelRenderer => true
  | _ => false
  end.

(** The value of [setopts] after the loop. *)
Definition setopts (options : plot_options) : bool :=
  if is_funnel (or_empty (seriesDefaults options) {| series_renderer := None |})
  then true
  else match series_opts options with
       | Some l => fold_left (fun set o => if is_funnel o then true else set)
                     l false
       | None => false
       end.

(** [preInit (target, data, options)], as the caller sees its options
    afterwards: when [options] is [undefined] the object made by
    [options || {}] is local to [preInit], and the caller sees
    nothing of it. *)
Definition preInit (options : option plot_options) : option plot_options :=
  match options with
  | None => None
  | Some o =>
      let axes := or_empty (axesDefaults o) {| axes_renderer := None |} in
      let leg :=
        or_empty (legend o) {| legend_renderer := None; preDraw := Undefined |} in
      let defaults :=
        or_empty (seriesDefaults o) {| series_renderer := None |} in
      if setopts o
      then Some {| axesDefaults :=
                     Some {| axes_renderer := Some FunnelAxisRenderer |};
                   legend :=
                     Some {| legend_renderer := Some FunnelLegendRenderer;
                             preDraw := Boolean true |};
                   seriesDefaults := Some defaults;
                   series_opts := series_opts o |}
      else Some {| axesDefaults := Some axes;
                   legend := Some leg;
                   seriesDefaults := Some defaults;
                   series_opts := series_opts o |}
  end.

(** Some series asks for the funnel renderer, in its own options or
    through the defaults of the series. *)
Definition asks_for_funnel (o : plot_options) : Prop :=
  (exists d, seriesDefaults o = Some d
             /\ series_renderer d = Some FunnelRenderer)
  \/ (exists l s, series_opts o = Some l /\ In s l
                  /\ series_renderer s = Some FunnelRenderer).

(** The options of a plot with one funnel series and a legend
    renderer chosen by the user. *)
Definition funnel_options : plot_options :=
  {| axesDefaults := None;
     legend := Some {| legend_renderer := Some TableLegendRenderer;
                       preDraw := Undefined |};
     seriesDefaults := None;
     series_opts := Some [ {| series_renderer := Some FunnelRenderer |} ] |}.

(** ** The legend: [FunnelLegendRenderer.prototype.draw]

    The legend lists the data points of the first series.  The table
    it builds is kept by its style and its rows; a row holds, for each
    data point it shows, the pair of cells made for the point: the
    colour of the swatch, the label, the [padding-top] of the two
    cells, and whether the label was set as text or as HTML.  The
    variable [reverse] of the source is always [false]. *)

Definition Math_ceil (x : number) : number :=
  match x with
  | Fin q => of_Z (Qceiling (this q))
  | PosInf | NegInf | NaN => x
  end.

(** A property that holds a number or [null] ([None]), in a test. *)
Definition truthy_number (x : option number) : bool :=
  match x with
  | Some (Fin q) => negb (Qc_is_zero q)
  | Some PosInf | Some NegInf => true
  | Some NaN | None => false
  end.

Definition number_of (x : option number) : number :=
  match x with
  | Some v => v
  | None => of_Z 0
  end.

(** A property that holds a string or is missing, in a test. *)
Definition truthy_string (x : option string) : bool :=
  match x with
  | Some (String _ _) => true
  | Some EmptyString | None => false
  end.

Record legend_entry : Type :=
  { swatch : option string;
    label : string;
    padding_top : string;
    as_text : bool }.

Record legend_table : Type :=
  { style : string;
    rows : list (list legend_entry) }.

Record legend_series : Type :=
  { series_show : flag;
    series_data : list datapoint;
    series_colors : list string }.

Record legend_t : Type :=
  { show : flag;
    background : option string;
    border : option string;
    fontSize : option string;
    fontFamily : option string;
    textColor : option string;
    numberRows : option number;
    numberColumns : option number;
    labels : list string;
    rowSpacing : string;
    escapeHtml : flag;
    _series : list legend_series;
    _elem : option legend_table }.

(** [(x) ? name + x + ';' : ''] *)
Definition style_part (name : string) (x : option string) : string :=
  match x with
  | Some (String _ _ as v) => (name ++ v ++ ";")%string
  | Some EmptyString | None => EmptyString
  end.

Definition legend_style (this : legend_t) : string :=
  ("position:absolute;"
   ++ style_part "background:" (background this)
   ++ style_part "border:" (border this)
   ++ style_part "font-size:" (fontSize this)
   ++ style_part "font-family:" (fontFamily this)
   ++ style_part "color:" (textColor this))%string.

(** The values of [nr] and [nc] for [n] data points. *)
Definition legend_grid (this : legend_t) (n : nat) : number * number :=
  if truthy_number (numberRows this)
  then (number_of (numberRows this),
        if truthy_number (numberColumns this)
        then number_of (numberColumns this)
        else Math_ceil (of_Z (Z.of_nat n) / number_of (numberRows this))%js)
  else if truthy_number (numberColumns this)
       then (Math_ceil
               (of_Z (Z.of_nat n) / number_of (numberColumns this))%js,
             number_of (numberColumns this))
       else (of_Z (Z.of_nat n), of_Z 1).

(** [this.labels[idx] || pd[idx][0].toString()] *)
Definition label_of (this : legend_t) (pd : list datapoint) (idx : nat)
    : string :=
  match nth_error (labels this) idx with
  | Some (String _ _ as l) => l
  | Some EmptyString | None =>
      match nth_error pd idx with
      | Some p => fst p
      | None => EmptyString
      end
  end.

(** The variables of the two loops: [idx], the number of calls made
    to [colorGenerator.next()], and the cells added to the row. *)
Record legend_loop : Type :=
  { idx : nat;
    nexts : nat;
    cells : list legend_entry }.

(** One turn of the loop over [j], in the row [i]; [next k] is the
    value returned by the call number [k] of [colorGenerator.next()]. *)
Definition legend_cell (next : nat -> option string) (this : legend_t)
    (pd : list datapoint) (i : nat) (st : legend_loop) : legend_loop :=
  if (idx st <? List.length pd)%nat
  then {| idx := S (idx st);
          nexts := S (nexts st);
          cells :=
            cells st
            ++ [ {| swatch := next (nexts st);
                    label := label_of this pd (idx st);
                    padding_top :=
                      if (0 <? i)%nat then rowSpacing this else "0"%string;
                    as_text := truthy (escapeHtml this) |} ] |}
  else {| idx := S (idx st); nexts := nexts st; cells := cells st |}.

(** The loop over [j], of [c] turns. *)
Fixpoint legend_row (next : nat -> option string) (this : legend_t)
    (pd : list datapoint) (i c : nat) (st : legend_loop) : legend_loop :=
  match c with
  | O => st
  | S c' => legend_row next this pd i c' (legend_cell next this pd i st)
  end.

(** The loop over [i], from the row [i] on, of [r] turns; [c] is the
    number of turns of the loop over [j], [None] when that loop never
    ends. *)
Fixpoint legend_rows (next : nat -> option string) (this : legend_t)
    (pd : list datapoint) (c : option nat) (r i : nat) (st : legend_loop)
    : option (list (list legend_entry)) :=
  match r with
  | O => Some []
  | S r' =>
      match c with
      | None => None
      | Some c' =>
          let st' :=
            legend_row next this pd i c'
              {| idx := idx st; nexts := nexts st; cells := [] |} in
          match legend_rows next this pd c r' (S i) st' with
          | Some rest => Some (cells st' :: rest)
          | None => None
          end
      end
  end.

(** [draw]: the element it returns, which is also left in
    [this._elem]; [None] when the call never ends.  Reading
    [s.seriesColors] raises a [TypeError] when the legend has no
    series. *)
Definition legend_draw (next : nat -> option string) (this : legend_t)
    : option (completion (option legend_table)) :=
  if truthy (show this)
  then match _series this with
       | [] => Some TypeError
       | s :: _ =>
           if truthy (series_show s)
           then
             let pd := series_data s in
             let (nr, nc) := legend_grid this (List.length pd) in
             match turns nr with
             | None => None
             | Some r =>
                 match legend_rows next this pd (turns nc) r 0
                         {| idx := 0; nexts := 0; cells := [] |} with
                 | Some l =>
                     Some (Return
                             (Some {| style := legend_style this;
                                      rows := l |}))
                 | None => None
                 end
             end
           else Some (Return (Some {| style := legend_style this;
                                      rows := [] |}))
       end
  else Some (Return (_elem this)).

(** The pair of cells of the data point [k], in the row [i]. *)
Definition legend_entry_at (next : nat -> option string) (this : legend_t)
    (pd : list datapoint) (i k : nat) : legend_entry :=
  {| swatch := next k;
     label := label_of this pd k;
     padding_top := if (0 <? i)%nat then rowSpacing this else "0"%string;
     as_text := truthy (escapeHtml this) |}.

(** The row [i] of a legend of [c] columns for [n] data points: the
    points from [i * c] on, up to [c] of them. *)
Definition legend_row_at (next : nat -> option string) (this : legend_t)
    (pd : list datapoint) (c i : nat) : list legend_entry :=
  map (legend_entry_at next this pd i)
    (seq (Nat.min (i * c) (List.length pd))
       (Nat.min (S i * c) (List.length pd)
        - Nat.min (i * c) (List.length pd))).

(** A limit on the rows or on the columns that is not set ([null],
    [0] or [NaN]), or is a positive number. *)
Definition unlimited_or_positive (x : option number) : Prop :=
  truthy_number x = false \/ exists q, x = Some (Fin q) /\ (0 < q)%Qc.

(** The legend of the funnel of three data points, limited to two
    rows, and its colour generator. *)
Definition example_legend : legend_t :=
  {| show := Boolean true;
     background := None;
     border := None;
     fontSize := None;
     fontFamily := None;
     textColor := None;
     numberRows := Some (of_Z 2);
     numberColumns := None;
     labels := [];
     rowSpacing := "0.5em"%string;
     escapeHtml := Boolean false;
     _series :=
       [ {| series_show := Boolean true;
            series_data := data three_series;
            series_colors :=
              ["#4bb2c5"%string; "#EAA228"%string; "#c5b47f"%string] |} ];
     _elem := None |}.

Definition example_next (k : nat) : option string :=
  nth_error ["#4bb2c5"%string; "#EAA228"%string; "#c5b47f"%string] k.

(** A funnel with [widthRatio = 1]: the top and the bottom have the
    same width. *)
Definition cylinder_options : options_t :=
  {| o_padding_top := None;
     o_padding_right := None;
     o_padding_bottom := None;
     o_padding_left := None;
     o_sectionMargin := None;
     o_widthRatio := Some (of_Z 1);
     o_highlightMouseOver := Undefined;
     o_highlightMouseDown := Undefined |}.

Definition cylinder_series : series_t :=
  setGridData (init (new_series one_point) cylinder_options).

(** Two data points, the second of which gets a section less than a
    pixel high. *)
Definition thin_points : list datapoint :=
  [("A"%string, of_Z 999); ("B"%string, of_Z 1)].

Definition thin_series : series_t :=
  setGridData (init (new_series thin_points) no_options).

(** A funnel drawn against the top of the canvas: [padding.top] is
    [0]. *)
Definition flush_options : options_t :=
  {| o_padding_top := Some (of_Z 0);
     o_padding_right := None;
     o_padding_bottom := None;
     o_padding_left := None;
     o_sectionMargin := None;
     o_widthRatio := None;
     o_highlightMouseOver := Undefined;
     o_highlightMouseDown := Undefined |}.

Definition flush_series : series_t :=
  setGridData (init (new_series three_points) flush_options).

(** ** The solver loop over any arithmetic

    Which statements the solver loop runs depends on the numbers only
    through the operations it applies to them.  [arith N] gathers those
    operations on a type [N] of numbers.  On the exact numbers of this
    file they are those of [exact_arith], and the loop is
    [solve_section]; on the doubles of a JavaScript engine they are the
    rounded operations of IEEE 754.  What holds of [loop_section] for
    every [arith] holds however the operations round, overflow or treat
    [NaN]. *)
Record arith (N : Type) : Type :=
  { op_hole : N;
    op_lit : Q -> N;
    op_add : N -> N -> N;
    op_sub : N -> N -> N;
    op_mul : N -> N -> N;
    op_div : N -> N -> N;
    op_abs : N -> N;
    op_gt : N -> N -> bool;
    op_le : N -> N -> bool }.

Arguments op_hole {N} _.
Arguments op_lit {N} _ _.
Arguments op_add {N} _ _ _.
Arguments op_sub {N} _ _ _.
Arguments op_mul {N} _ _ _.
Arguments op_div {N} _ _ _.
Arguments op_abs {N} _ _.
Arguments op_gt {N} _ _ _.
Arguments op_le {N} _ _ _.

(** The arithmetic of this file: [op_hole] is what a hole of an array
    gives in an operation, [op_lit] the number a literal denotes. *)
Definition exact_arith : arith number :=
  {| op_hole := NaN;
     op_lit := fun q => Fin (Q2Qc q);
     op_add := add;
     op_sub := sub;
     op_mul := mul;
     op_div := div;
     op_abs := Math_abs;
     op_gt := num_gt;
     op_le := num_le |}.

(** [a[i]] and [a[i] = v], as [array_get] and [array_set]. *)
Definition elt {N : Type} (A : arith N) (a : list N) (i : nat) : N :=
  nth i a (op_hole A).

Definition put {N : Type} (A : arith N) (a : list N) (i : nat) (v : N)
    : list N :=
  if (i <? List.length a)%nat
  then firstn i a ++ v :: skipn (S i) a
  else a ++ repeat (op_hole A) (i - List.length a) ++ [v].

(** The variables of the solver loops. *)
Record vars (N : Type) : Type :=
  { v_bases : list N;
    v_lengths : list N;
    v_guess : N;
    v_err : N;
    v_count : nat;
    v_lsum : N }.

Arguments v_bases {N} _.
Arguments v_lengths {N} _.
Arguments v_guess {N} _.
Arguments v_err {N} _.
Arguments v_count {N} _.
Arguments v_lsum {N} _.

(** [0.0001], the [tolerance] of [draw]. *)
Definition loop_tolerance {N : Type} (A : arith N) : N :=
  op_lit A (1 # 10000).

(** [err > this._lengths[i]*tolerance && count < 100] *)
Definition loop_test {N : Type} (A : arith N) (i : nat) (st : vars N)
    : bool :=
  op_gt A (v_err st) (op_mul A (elt A (v_lengths st) i) (loop_tolerance A))
  && (v_count st <? 100)%nat.

(** One turn of the [while] loop for section [i]; [tanA] is the value
    of [Math.tan(this._angle)]. *)
Definition loop_step {N : Type} (A : arith N) (areas : list N) (tanA : N)
    (i : nat) (st : vars N) : vars N :=
  let lengths1 :=
    put A (v_lengths st) i
      (op_div A (elt A areas i)
         (op_sub A (elt A (v_bases st) i)
            (op_mul A (elt A (v_lengths st) i) tanA))) in
  let err1 := op_abs A (op_sub A (elt A lengths1 i) (v_guess st)) in
  let bases1 :=
    put A (v_bases st) (i + 1)
      (op_sub A (elt A (v_bases st) i)
         (op_mul A (op_mul A (op_lit A 2) (elt A lengths1 i)) tanA)) in
  {| v_bases := bases1;
     v_lengths := lengths1;
     v_guess := elt A lengths1 i;
     v_err := err1;
     v_count := S (v_count st);
     v_lsum := v_lsum st |}.

(** The [while] loop, with [fuel] bounding the number of turns. *)
Fixpoint loop_while {N : Type} (A : arith N) (fuel : nat) (areas : list N)
    (tanA : N) (i : nat) (st : vars N) : vars N :=
  match fuel with
  | O => st
  | S fuel' =>
      if loop_test A i st
      then loop_while A fuel' areas tanA i (loop_step A areas tanA i st)
      else st
  end.

(** The statements before the [while] loop, for section [i]. *)
Definition loop_start {N : Type} (A : arith N) (areas : list N) (i : nat)
    (st : vars N) : vars N :=
  let g := op_div A (elt A areas i) (elt A (v_bases st) i) in
  {| v_bases := v_bases st;
     v_lengths := put A (v_lengths st) i g;
     v_guess := g;
     v_err := op_lit A 999999;
     v_count := 0;
     v_lsum := v_lsum st |}.

(** The body of the [for] loop over the sections. *)
Definition loop_section {N : Type} (A : arith N) (areas : list N) (tanA : N)
    (st : vars N) (i : nat) : vars N :=
  let st1 := loop_while A 100 areas tanA i (loop_start A areas i st) in
  {| v_bases := v_bases st1;
     v_lengths := v_lengths st1;
     v_guess := v_guess st1;
     v_err := v_err st1;
     v_count := v_count st1;
     v_lsum := op_add A (v_lsum st1) (elt A (v_lengths st1) i) |}.

(** The variables of [solve_section] as those of [loop_section]. *)
Definition vars_of (st : solver) : vars number :=
  {| v_bases := bases st;
     v_lengths := lengths st;
     v_guess := guess st;
     v_err := err st;
     v_count := count st;
     v_lsum := lsum st |}.

(** The fixed-point iteration in the words of the specification, in
    the arithmetic [A]: the initial guess [area / base], then
    [length = area / (base - length * tan (angle))]. *)
Fixpoint fixed_point {N : Type} (A : arith N) (area base tanA : N) (k : nat)
    : N :=
  match k with
  | O => op_div A area base
  | S k' =>
      op_div A area (op_sub A base (op_mul A (fixed_point A area base tanA k') tanA))
  end.

(** [|length - previous guess|] for the estimate [k] ([1 <= k]). *)
Definition moved {N : Type} (A : arith N) (area base tanA : N) (k : nat)
    : N :=
  op_abs A (op_sub A (fixed_point A area base tanA k)
              (fixed_point A area base tanA (k - 1))).

(** [|length - previous guess| <= length * 1e-4], the stopping rule of
    the specification. *)
Definition converged {N : Type} (A : arith N) (area base tanA : N) (k : nat)
    : bool :=
  op_le A (moved A area base tanA k)
    (op_mul A (fixed_point A area base tanA k) (loop_tolerance A)).

(** [|length - previous guess| > length * 1e-4], the test of the
    loop. *)
Definition goes_on {N : Type} (A : arith N) (area base tanA : N) (k : nat)
    : bool :=
  op_gt A (moved A area base tanA k)
    (op_mul A (fixed_point A area base tanA k) (loop_tolerance A)).

(** The first of the estimates [k], ..., [k + n - 1] that has
    converged, and [k + n] when there is none. *)
Fixpoint first_converged {N : Type} (A : arith N) (area base tanA : N)
    (k n : nat) : nat :=
  match n with
  | O => k
  | S n' =>
      if converged A area base tanA k then k
      else first_converged A area base tanA (S k) n'
  end.

(** The estimate that the specification keeps for section [i], when
    its loop is entered with the variables [st]: the first one among
    the estimates [1] to [99] that has converged, and otherwise the
    estimate [100]. *)
Definition last_estimate {N : Type} (A : arith N) (areas : list N) (tanA : N)
    (st : vars N) (i : nat) : nat :=
  first_converged A (elt A areas i) (elt A (v_bases st) i) tanA 1 99.

Definition section_estimate {N : Type} (A : arith N) (areas : list N)
    (tanA : N) (st : vars N) (i k : nat) : N :=
  fixed_point A (elt A areas i) (elt A (v_bases st) i) tanA k.

Definition section_converged {N : Type} (A : arith N) (areas : list N)
    (tanA : N) (st : vars N) (i k : nat) : bool :=
  converged A (elt A areas i) (elt A (v_bases st) i) tanA k.

Definition section_goes_on {N : Type} (A : arith N) (areas : list N)
    (tanA : N) (st : vars N) (i k : nat) : bool :=
  goes_on A (elt A areas i) (elt A (v_bases st) i) tanA k.

(** The variables after [k] turns of the loop for section [i], entered
    with the variables [st]. *)
Definition loop_after {N : Type} (A : arith N) (areas : list N) (tanA : N)
    (i : nat) (st : vars N) (k : nat) : vars N :=
  match k with
  | O => loop_start A areas i st
  | S k' =>
      let l := section_estimate A areas tanA st i in
      {| v_bases :=
           put A (v_bases st) (i + 1)
             (op_sub A (elt A (v_bases st) i)
                (op_mul A (op_mul A (op_lit A 2) (l k)) tanA));
         v_lengths := put A (v_lengths st) i (l k);
         v_guess := l k;
         v_err := op_abs A (op_sub A (l k) (l k'));
         v_count := k;
         v_lsum := v_lsum st |}
  end.

(** * Properties *)

(** ** Numbers *)

Lemma number_eqb_eq (a b : number) : number_eqb a b = true -> a = b.
Proof.
  destruct a, b; simpl; try discriminate; try reflexivity.
  intros H. f_equal. now apply Qc_eq_bool_correct.
Qed.

Lemma point_eqb_eq (p q : point) : point_eqb p q = true -> p = q.
Proof.
  destruct p, q. unfold point_eqb. simpl.
  intros H. apply andb_true_iff in H as [H1 H2].
  f_equal; now apply number_eqb_eq.
Qed.

Lemma quad_eqb_eq (a b : quad) : quad_eqb a b = true -> a = b.
Proof.
  destruct a, b. unfold quad_eqb. simpl.
  rewrite !andb_true_iff. intros [[[H0 H1] H2] H3].
  f_equal; now apply point_eqb_eq.
Qed.

Lemma list_eqb_eq {A : Type} (eqb : A -> A -> bool) :
  (forall a b, eqb a b = true -> a = b) ->
  forall l m, list_eqb eqb l m = true -> l = m.
Proof.
  intros Heq. induction l as [|a l IH]; destruct m as [|b m]; simpl;
    try discriminate; try reflexivity.
  intros H. apply andb_true_iff in H as [H1 H2].
  f_equal; [now apply Heq | now apply IH].
Qed.

(** Transfer of a statement on [Qc] to the same statement on [Q]. *)
Lemma this_plus (x y : Qc) : (this (x + y)%Qc == this x + this y)%Q.
Proof. unfold Qcplus, Q2Qc. cbn [this]. apply Qred_correct. Qed.

Lemma this_mult (x y : Qc) : (this (x * y)%Qc == this x * this y)%Q.
Proof. unfold Qcmult, Q2Qc. cbn [this]. apply Qred_correct. Qed.

Lemma this_opp (x : Qc) : (this (- x)%Qc == - this x)%Q.
Proof. unfold Qcopp, Q2Qc. cbn [this]. apply Qred_correct. Qed.

Lemma this_minus (x y : Qc) : (this (x - y)%Qc == this x - this y)%Q.
Proof. unfold Qcminus. rewrite this_plus, this_opp. reflexivity. Qed.

Lemma this_inv (x : Qc) : (this (/ x)%Qc == / this x)%Q.
Proof. unfold Qcinv, Q2Qc. cbn [this]. apply Qred_correct. Qed.

Lemma this_div (x y : Qc) : (this (x / y)%Qc == this x / this y)%Q.
Proof. unfold Qcdiv. rewrite this_mult, this_inv. reflexivity. Qed.

Lemma this_Q2Qc (q : Q) : (this (Q2Qc q) == q)%Q.
Proof. unfold Q2Qc. cbn [this]. apply Qred_correct. Qed.

Lemma Qc_eq_iff (x y : Qc) : x = y <-> (this x == this y)%Q.
Proof. split; [intros ->; reflexivity | apply Qc_is_canon]. Qed.

Ltac qc2q :=
  repeat match goal with
  | H : @eq Qc _ _ |- _ => apply Qc_eq_iff in H
  | H : ~ @eq Qc _ _ |- _ => rewrite Qc_eq_iff in H
  | |- @eq Qc _ _ => apply Qc_is_canon
  | |- ~ @eq Qc _ _ => rewrite Qc_eq_iff
  end;
  unfold Qcle, Qclt in *;
  repeat (rewrite ?this_plus, ?this_mult, ?this_opp, ?this_minus,
            ?this_inv, ?this_div, ?this_Q2Qc in * ).

Lemma Qccompare_sub (x y : Qc) : ((x - y) ?= 0)%Qc = (x ?= y)%Qc.
Proof.
  destruct (x ?= y)%Qc eqn:E.
  - apply Qceq_alt in E. subst. apply (proj1 (Qceq_alt _ _)). ring.
  - apply Qclt_alt in E. apply (proj1 (Qclt_alt _ _)). qc2q. simpl. lra.
  - apply Qcgt_alt in E. apply (proj1 (Qcgt_alt _ _)). qc2q. simpl. lra.
Qed.

(** On numbers other than [NaN], the comparator of [init] moves [x] in
    front of [y] exactly when [x > y]. *)
Lemma gt_sub_zero (x y : number) :
  is_NaN x = false -> is_NaN y = false ->
  ((x - y) >? of_Z 0)%js = (x >? y)%js.
Proof.
  destruct x as [p| | |], y as [q| | |]; simpl; try discriminate;
    intros _ _; try reflexivity.
  unfold num_gt, sub, neg, add, of_Z, num_compare.
  change (p + - q)%Qc with (p - q)%Qc.
  change (Q2Qc (inject_Z 0)) with 0%Qc.
  now rewrite Qccompare_sub.
Qed.

Lemma not_gt_ge (x y : number) :
  is_NaN x = false -> is_NaN y = false ->
  (x >? y)%js = false -> (y >=? x)%js = true.
Proof.
  destruct x as [p| | |], y as [q| | |]; simpl; try discriminate;
    intros _ _; unfold num_gt, num_ge, num_compare; try easy.
  unfold Qccompare. rewrite <- (Qcompare_antisym p q).
  destruct (p ?= q)%Q; simpl; easy.
Qed.

Lemma gt_ge (x y : number) : (x >? y)%js = true -> (x >=? y)%js = true.
Proof.
  unfold num_gt, num_ge. destruct (num_compare x y) as [[]|]; easy.
Qed.

Lemma ge_trans (x y z : number) :
  (x >=? y)%js = true -> (y >=? z)%js = true -> (x >=? z)%js = true.
Proof.
  destruct x as [p| | |], y as [q| | |], z as [r| | |];
    unfold num_ge, num_compare; try easy.
  destruct (p ?= q)%Qc eqn:E1; try easy;
    destruct (q ?= r)%Qc eqn:E2; try easy; intros _ _.
  - apply Qceq_alt in E1, E2. subst.
    now rewrite (proj1 (Qceq_alt r r) eq_refl).
  - apply Qceq_alt in E1. subst. now rewrite E2.
  - apply Qceq_alt in E2. subst. now rewrite E1.
  - apply Qcgt_alt in E1, E2.
    assert (H : (p > r)%Qc) by (eapply Qclt_trans; eauto).
    apply Qcgt_alt in H. now rewrite H.
Qed.

(** ** [Array.prototype.sort] with the comparator of [init] *)

Section Sorting.

Variable A : Type.
Variable comparefn : A -> A -> number.

Lemma sort_insert_perm (x : A) (l : list A) :
  Permutation (x :: l) (sort_insert comparefn x l).
Proof.
  induction l as [|y l IH]; simpl.
  - apply Permutation_refl.
  - destruct (comparefn y x >? of_Z 0)%js.
    + apply Permutation_refl.
    + eapply perm_trans; [apply perm_swap | now apply perm_skip].
Qed.

Lemma fold_insert_perm (a acc : list A) :
  Permutation (a ++ acc)
    (fold_left (fun sorted x => sort_insert comparefn x sorted) a acc).
Proof.
  revert acc. induction a as [|x a IH]; intros acc; simpl.
  - apply Permutation_refl.
  - eapply perm_trans; [| apply IH].
    eapply perm_trans; [apply Permutation_middle |].
    apply Permutation_app_head. apply sort_insert_perm.
Qed.

Lemma Array_sort_perm (a : list A) :
  Permutation a (Array_sort comparefn a).
Proof.
  unfold Array_sort.
  rewrite <- (app_nil_r a) at 1. apply fold_insert_perm.
Qed.

End Sorting.

Lemma desc_of_test (x y : datapoint) :
  has_value x -> has_value y ->
  (by_value_desc y x >? of_Z 0)%js = true -> desc x y.
Proof.
  unfold by_value_desc, desc, has_value. intros Hx Hy H.
  rewrite gt_sub_zero in H by assumption. now apply gt_ge.
Qed.

Lemma desc_of_test_false (x y : datapoint) :
  has_value x -> has_value y ->
  (by_value_desc y x >? of_Z 0)%js = false -> desc y x.
Proof.
  unfold by_value_desc, desc, has_value. intros Hx Hy H.
  rewrite gt_sub_zero in H by assumption. now apply not_gt_ge.
Qed.

Lemma desc_trans (x y z : datapoint) : desc x y -> desc y z -> desc x z.
Proof. unfold desc. apply ge_trans. Qed.

Lemma sort_insert_sorted (x : datapoint) (l : list datapoint) :
  has_value x -> Forall has_value l ->
  StronglySorted desc l ->
  StronglySorted desc (sort_insert by_value_desc x l).
Proof.
  intros Hx Hl Hs. induction Hs as [|y l Hs IH Hy]; simpl.
  - constructor; constructor.
  - inversion Hl as [|? ? Hvy Hvl]; subst.
    destruct (by_value_desc y x >? of_Z 0)%js eqn:E.
    + constructor; [now constructor |].
      assert (Hxy : desc x y) by now apply desc_of_test.
      constructor; [assumption |].
      eapply Forall_impl; [| exact Hy].
      intros z Hz. now apply desc_trans with y.
    + constructor; [now apply IH |].
      eapply Permutation_Forall; [apply sort_insert_perm |].
      constructor; [now apply desc_of_test_false | assumption].
Qed.

Lemma fold_insert_sorted (a acc : list datapoint) :
  Forall has_value a -> Forall has_value acc ->
  StronglySorted desc acc ->
  StronglySorted desc
    (fold_left (fun sorted x => sort_insert by_value_desc x sorted) a acc).
Proof.
  revert acc. induction a as [|x a IH]; intros acc Ha Hacc Hs; simpl.
  - assumption.
  - inversion Ha as [|? ? Hx Ha']; subst.
    apply IH; [assumption | | now apply sort_insert_sorted].
    eapply Permutation_Forall; [apply sort_insert_perm |].
    now constructor.
Qed.

Lemma Array_sort_sorted (a : list datapoint) :
  Forall has_value a -> StronglySorted desc (Array_sort by_value_desc a).
Proof.
  intros Ha. unfold Array_sort.
  apply fold_insert_sorted; [assumption | constructor | constructor].
Qed.

(** ** [init] *)

Lemma init_data (this : series_t) (options : options_t) :
  data (init this options) = Array_sort by_value_desc (data this).
Proof. reflexivity. Qed.

(** C4.  After [init], [data] holds the data points in descending order
    of value: it is a rearrangement of the data given by the user in
    which a point never stands before a point of greater value, and
    [_unorderedData] holds the data in the order given.  The values are
    numbers ([NaN] has no place in an order). *)
Theorem init_sorts_descending (this : series_t) (options : options_t) :
  Forall has_value (data this) ->
  StronglySorted desc (data (init this options))
  /\ Permutation (data this) (data (init this options))
  /\ _unorderedData (init this options) = data this.
Proof.
  intros Hv. rewrite init_data. split; [| split].
  - now apply Array_sort_sorted.
  - apply Array_sort_perm.
  - reflexivity.
Qed.

(** The example of the specification: [[A,10], [B,30], [C,20]] becomes
    [[B,30], [C,20], [A,10]], and [_unorderedData] keeps the order
    given. *)
Lemma init_sorts_descending_witness :
  Forall has_value (data (new_series three_points))
  /\ (StronglySorted desc (data (init (new_series three_points) no_options))
      /\ Permutation (data (new_series three_points))
           (data (init (new_series three_points) no_options))
      /\ _unorderedData (init (new_series three_points) no_options)
         = data (new_series three_points))
  /\ data (init (new_series three_points) no_options)
     = [("B"%string, of_Z 30); ("C"%string, of_Z 20); ("A"%string, of_Z 10)]
  /\ _unorderedData (init (new_series three_points) no_options)
     = [("A"%string, of_Z 10); ("B"%string, of_Z 30); ("C"%string, of_Z 20)].
Proof.
  assert (H : Forall has_value (data (new_series three_points)))
    by (repeat constructor).
  split; [exact H |]. split; [| split].
  - exact (init_sorts_descending (new_series three_points) no_options H).
  - vm_compute. reflexivity.
  - reflexivity.
Defined.

(** ** The highlight flags: [init] and [postInit] *)

Lemma init_highlightMouseOver (this : series_t) (options : options_t) :
  truthy (o_highlightMouseDown options) = true ->
  eq_null (o_highlightMouseOver options) = true ->
  highlightMouseOver (init this options) = Boolean false.
Proof.
  intros Hd Ho. unfold init, init_options. rewrite Hd, Ho. reflexivity.
Qed.

Lemma postInit_series_exclusive (s : series_t) :
  renderer s = FunnelRenderer ->
  truthy (highlightMouseOver (postInit_series s))
  && truthy (highlightMouseDown (postInit_series s)) = false.
Proof.
  intros Hr. unfold postInit_series. rewrite Hr.
  destruct (truthy (highlightMouseOver s)) eqn:E; simpl.
  - apply andb_false_r.
  - now rewrite E.
Qed.

Lemma postInit_series_renderer (s : series_t) :
  renderer (postInit_series s) = renderer s.
Proof.
  unfold postInit_series.
  destruct (renderer s) eqn:E; [destruct (truthy _) |]; simpl; congruence.
Qed.

Lemma postInit_series_forces (s : series_t) :
  renderer s = FunnelRenderer ->
  truthy (highlightMouseOver s) = true ->
  highlightMouseDown (postInit_series s) = Boolean false
  /\ highlightMouseOver (postInit_series s) = highlightMouseOver s.
Proof.
  intros Hr Ho. unfold postInit_series. rewrite Hr, Ho. now split.
Qed.

(** C10.  Once [postInit] has run, no funnel series [s] of the plot has
    [highlightMouseOver] and [highlightMouseDown] both true.  The two
    mechanisms: [init] sets [highlightMouseOver] to [false] when the
    options enable [highlightMouseDown] and leave [highlightMouseOver]
    unspecified, and [postInit] sets [highlightMouseDown] to [false] on
    every funnel series whose [highlightMouseOver] is true. *)
Theorem postInit_highlight_exclusive
    (plot : plot_t) (s this : series_t) (options : options_t) :
  In s (series (postInit plot)) ->
  renderer s = FunnelRenderer ->
  truthy (highlightMouseOver s) && truthy (highlightMouseDown s) = false
  /\ (truthy (o_highlightMouseDown options) = true ->
      eq_null (o_highlightMouseOver options) = true ->
      highlightMouseOver (init this options) = Boolean false)
  /\ (forall s0, In s0 (series plot) ->
      renderer s0 = FunnelRenderer ->
      truthy (highlightMouseOver s0) = true ->
      In (postInit_series s0) (series (postInit plot))
      /\ highlightMouseDown (postInit_series s0) = Boolean false).
Proof.
  intros Hin Hr. split; [| split].
  - simpl in Hin. apply in_map_iff in Hin as [s0 [<- Hs0]].
    apply postInit_series_exclusive.
    now rewrite <- postInit_series_renderer.
  - apply init_highlightMouseOver.
  - intros s0 Hs0 Hr0 Ho. split.
    + simpl. now apply in_map.
    + now apply postInit_series_forces.
Qed.

(** A plot whose single funnel series was initialised with both
    highlight options enabled: both flags are true after [init], and no
    longer after [postInit]. *)
Lemma postInit_highlight_exclusive_witness :
  In (postInit_series (init (new_series [("A"%string, of_Z 1)]) highlight_both))
     (series (postInit (plot_of (init (new_series [("A"%string, of_Z 1)])
                                   highlight_both))))
  /\ renderer (postInit_series (init (new_series [("A"%string, of_Z 1)])
                                  highlight_both)) = FunnelRenderer
  /\ truthy (highlightMouseOver (init (new_series [("A"%string, of_Z 1)])
                                   highlight_both))
     && truthy (highlightMouseDown (init (new_series [("A"%string, of_Z 1)])
                                      highlight_both)) = true
  /\ truthy (highlightMouseOver
               (postInit_series (init (new_series [("A"%string, of_Z 1)])
                                   highlight_both)))
     && truthy (highlightMouseDown
                  (postInit_series (init (new_series [("A"%string, of_Z 1)])
                                      highlight_both))) = false.
Proof.
  assert (Hin : In (postInit_series (init (new_series [("A"%string, of_Z 1)])
                                       highlight_both))
                   (series (postInit (plot_of (init (new_series [("A"%string, of_Z 1)])
                                                 highlight_both)))))
    by (left; reflexivity).
  split; [exact Hin |]. split; [reflexivity |]. split; [reflexivity |].
  exact (proj1 (postInit_highlight_exclusive
                  (plot_of (init (new_series [("A"%string, of_Z 1)]) highlight_both))
                  (postInit_series (init (new_series [("A"%string, of_Z 1)])
                                      highlight_both))
                  (new_series [("A"%string, of_Z 1)]) highlight_both
                  Hin eq_refl)).
Defined.

(** ** [setGridData] and [makeGridData] *)

Lemma sum_and_copy_spec (d : list datapoint) (sum : number)
    (td : list datapoint) :
  sum_and_copy d sum td = (fold_left add (map snd d) sum, td ++ d).
Proof.
  revert sum td. induction d as [|[l v] d IH]; intros sum td; simpl.
  - now rewrite app_nil_r.
  - rewrite IH. now rewrite <- app_assoc.
Qed.

Lemma normalize_spec (td : list datapoint) (sum : number) :
  normalize td sum = map (fun p => (fst p, (snd p / sum)%js)) td.
Proof. induction td as [|p td IH]; simpl; [| rewrite IH]; reflexivity. Qed.

Lemma setGridData_gridData (this : series_t) :
  gridData (setGridData this)
  = map (fun p => (fst p, (snd p / total (data this))%js)) (data this).
Proof.
  unfold setGridData. rewrite sum_and_copy_spec. simpl.
  now rewrite normalize_spec.
Qed.

(** C9.  [makeGridData (data, plot)] returns the array that
    [setGridData (plot)] stores in [gridData], namely the data
    normalised by the sum of its values; its parameter [data] plays no
    part; and both leave the same [_bases] and [_lengths]. *)
Theorem makeGridData_setGridData
    (this : series_t) (data_arg data_arg' : list datapoint) :
  fst (makeGridData this data_arg) = gridData (setGridData this)
  /\ fst (makeGridData this data_arg)
     = map (fun p => (fst p, (snd p / total (data this))%js)) (data this)
  /\ makeGridData this data_arg = makeGridData this data_arg'
  /\ _bases (snd (makeGridData this data_arg)) = _bases (setGridData this)
  /\ _lengths (snd (makeGridData this data_arg)) = _lengths (setGridData this)
  /\ gridData (snd (makeGridData this data_arg)) = gridData this.
Proof.
  assert (H : fst (makeGridData this data_arg) = gridData (setGridData this)).
  { unfold makeGridData, setGridData.
    destruct (sum_and_copy (data this) (of_Z 0) []) as [sum td].
    reflexivity. }
  split; [exact H |]. split; [rewrite H; apply setGridData_gridData |].
  unfold makeGridData, setGridData.
  destruct (sum_and_copy (data this) (of_Z 0) []) as [sum td].
  repeat split.
Qed.

Lemma div_zero_not_finite (v : number) : is_finite (v / Fin 0%Qc)%js = false.
Proof.
  destruct v as [q| | |]; simpl; try reflexivity.
  change (Qc_is_zero 0%Qc) with true. cbn iota.
  now destruct (Qc_sign q).
Qed.

(** C3, as stated, fails: the values of [zeros] sum to zero, and yet
    [setGridData] returns weights, all [NaN], and [draw] returns one
    quadrilateral per data point whose corners have [NaN] coordinates;
    no error stops the layout. *)
Lemma zero_total_yields_NaN_geometry :
  total zeros = of_Z 0
  /\ gridData zeros_series = [("A"%string, NaN); ("B"%string, NaN)]
  /\ _lengths (draw zeros_series (of_Z 300) (of_Z 300) (gridData zeros_series) None)
     = [NaN; NaN]
  /\ _vertices (draw zeros_series (of_Z 300) (of_Z 300) (gridData zeros_series) None)
     = [ {| v0 := (NaN, of_Z 20); v1 := (NaN, of_Z 20);
            v2 := (NaN, NaN); v3 := (NaN, NaN) |};
         {| v0 := (NaN, NaN); v1 := (NaN, NaN);
            v2 := (NaN, NaN); v3 := (NaN, NaN) |} ].
Proof.
  split; [| split; [| split]].
  - apply number_eqb_eq. vm_compute. reflexivity.
  - vm_compute. reflexivity.
  - vm_compute. reflexivity.
  - apply (list_eqb_eq quad_eqb quad_eqb_eq). vm_compute. reflexivity.
Qed.

(** ** Arrays *)

Lemma array_get_set_same (a : list number) (i : nat) (v : number) :
  array_get (array_set a i v) i = v.
Proof.
  unfold array_get, array_set.
  destruct (i <? List.length a)%nat eqn:E.
  - apply Nat.ltb_lt in E.
    rewrite app_nth2; rewrite length_firstn, Nat.min_l by lia; [| lia].
    now rewrite Nat.sub_diag.
  - apply Nat.ltb_ge in E.
    rewrite app_nth2 by lia. rewrite app_nth2; rewrite repeat_length; [| lia].
    now replace (i - List.length a - (i - List.length a))%nat with 0%nat by lia.
Qed.

Lemma nth_update_other (a : list number) (i j : nat) (v : number) :
  (i < List.length a)%nat -> i <> j ->
  nth j (firstn i a ++ v :: skipn (S i) a) NaN = nth j a NaN.
Proof.
  revert i j. induction a as [|x a IH]; intros i j Hi Hij; simpl in Hi.
  - lia.
  - destruct i as [|i], j as [|j]; simpl; try reflexivity; try lia.
    apply IH; lia.
Qed.

Lemma array_get_set_other (a : list number) (i j : nat) (v : number) :
  i <> j -> array_get (array_set a i v) j = array_get a j.
Proof.
  intros Hij. unfold array_get, array_set.
  destruct (i <? List.length a)%nat eqn:E.
  - apply Nat.ltb_lt in E. now apply nth_update_other.
  - apply Nat.ltb_ge in E.
    destruct (Nat.lt_ge_cases j (List.length a)) as [Hlt | Hge].
    + now rewrite app_nth1 by lia.
    + rewrite app_nth2 by lia. rewrite (nth_overflow a) by lia.
      destruct (Nat.lt_ge_cases (j - List.length a) (i - List.length a))
        as [Hlt' | Hge'].
      * rewrite app_nth1 by (rewrite repeat_length; lia).
        apply nth_repeat_lt. lia.
      * rewrite app_nth2 by (rewrite repeat_length; lia).
        rewrite repeat_length. apply nth_overflow. simpl. lia.
Qed.

Lemma array_set_length (a : list number) (i : nat) (v : number) :
  List.length (array_set a i v) = Nat.max (List.length a) (S i).
Proof.
  unfold array_set. destruct (i <? List.length a)%nat eqn:E.
  - apply Nat.ltb_lt in E.
    rewrite length_app, length_firstn. cbn [List.length].
    rewrite length_skipn. lia.
  - apply Nat.ltb_ge in E.
    rewrite !length_app, repeat_length. simpl. lia.
Qed.

Lemma array_set_set (a : list number) (i : nat) (u v : number) :
  array_set (array_set a i u) i v = array_set a i v.
Proof.
  apply nth_ext with (d := NaN) (d' := NaN).
  - rewrite !array_set_length. lia.
  - intros j _. fold (array_get (array_set (array_set a i u) i v) j).
    fold (array_get (array_set a i v) j).
    destruct (Nat.eq_dec i j) as [-> | Hne].
    + now rewrite !array_get_set_same.
    + now rewrite !array_get_set_other by assumption.
Qed.

(** ** The solver loop *)

Lemma gt_negb_le (x y : number) :
  is_NaN x = false -> is_NaN y = false -> (x >? y)%js = negb (x <=? y)%js.
Proof.
  destruct x as [p| | |], y as [q| | |]; simpl; try discriminate;
    intros _ _; try reflexivity.
  unfold num_gt, num_le, num_compare. now destruct (p ?= q)%Qc.
Qed.

Lemma abs_sub_finite (x y : number) :
  is_finite x = true -> is_finite y = true ->
  is_NaN (Math_abs (x - y)%js) = false.
Proof. destruct x, y; simpl; try discriminate; reflexivity. Qed.

Lemma mul_tolerance_finite (x : number) :
  is_finite x = true -> is_NaN (x * tolerance)%js = false.
Proof. destruct x; simpl; try discriminate; reflexivity. Qed.

(** More fuel than the turns left before [count] reaches [100] is
    never used: the loop always ends, after at most [100 - count]
    turns. *)
Lemma solve_while_fuel (areas : list number) (ang : angle) (i : nat) :
  forall (fuel : nat) (st : solver),
    (100 - count st <= fuel)%nat ->
    solve_while fuel areas ang i st
    = solve_while (100 - count st) areas ang i st.
Proof.
  induction fuel as [|fuel IH]; intros st Hf.
  - replace (100 - count st)%nat with 0%nat by lia. reflexivity.
  - cbn [solve_while]. destruct (solve_test i st) eqn:Et.
    + assert (Hc : (count st < 100)%nat).
      { unfold solve_test in Et. apply andb_true_iff in Et as [_ Et].
        now apply Nat.ltb_lt in Et. }
      destruct (100 - count st)%nat as [|m] eqn:Em; [lia |].
      cbn [solve_while]. rewrite Et.
      rewrite IH by (cbn [solve_step count]; lia).
      f_equal. cbn [solve_step count]. lia.
    + destruct (100 - count st)%nat as [|m]; [reflexivity |].
      cbn [solve_while]. now rewrite Et.
Qed.

Lemma solve_step_after_turns (areas : list number) (ang : angle) (i : nat)
    (st : solver) (k : nat) :
  solve_step areas ang i (after_turns areas ang i st k)
  = after_turns areas ang i st (S k).
Proof.
  assert (Hne : (i + 1)%nat <> i) by lia.
  destruct k as [|k]; unfold solve_step, after_turns, solve_start;
    cbn [bases lengths guess err count lsum iterate].
  - rewrite !array_get_set_same, array_set_set. reflexivity.
  - rewrite !array_get_set_same, !array_set_set.
    rewrite (array_get_set_other _ _ _ _ Hne). reflexivity.
Qed.

Lemma solve_test_after_turns (areas : list number) (ang : angle) (i : nat)
    (st : solver) (k : nat) :
  let a := array_get areas i in
  let b := array_get (bases st) i in
  is_finite (iterate a b (Math_tan ang) k) = true ->
  is_finite (iterate a b (Math_tan ang) (S k)) = true ->
  solve_test i (after_turns areas ang i st (S k))
  = negb (within_tolerance a b (Math_tan ang) (S k)) && (S k <? 100)%nat.
Proof.
  intros a b Hk HSk. unfold solve_test, after_turns, within_tolerance.
  cbn [bases lengths guess err count lsum].
  rewrite array_get_set_same.
  replace (S k - 1)%nat with k by lia.
  rewrite gt_negb_le;
    [reflexivity | now apply abs_sub_finite | now apply mul_tolerance_finite].
Qed.

Lemma first_within_bounds (a b t : number) (n k : nat) :
  (k <= first_within a b t k n <= k + n)%nat.
Proof.
  revert k. induction n as [|n IH]; intros k; cbn [first_within].
  - lia.
  - destruct (within_tolerance a b t k); [lia |].
    specialize (IH (S k)). lia.
Qed.

(** [first_within] returns the first estimate within the tolerance. *)
Lemma first_within_first (a b t : number) (n k j : nat) :
  (k <= j < first_within a b t k n)%nat -> within_tolerance a b t j = false.
Proof.
  revert k. induction n as [|n IH]; intros k Hj; cbn [first_within] in Hj.
  - lia.
  - destruct (within_tolerance a b t k) eqn:E; [lia |].
    destruct (Nat.eq_dec j k) as [-> | Hne]; [assumption |].
    apply (IH (S k)). lia.
Qed.

Lemma first_within_stop (a b t : number) (n k : nat) :
  first_within a b t k n = (k + n)%nat
  \/ within_tolerance a b t (first_within a b t k n) = true.
Proof.
  revert k. induction n as [|n IH]; intros k; cbn [first_within].
  - left. lia.
  - destruct (within_tolerance a b t k) eqn:E; [now right |].
    destruct (IH (S k)) as [H | H]; [left; lia | now right].
Qed.

(** From the state after [k >= 1] turns, the loop stops at the first
    estimate within the tolerance, and at the latest at the estimate
    [100]. *)
Lemma solve_while_after_turns (areas : list number) (ang : angle) (i : nat)
    (st : solver) :
  let a := array_get areas i in
  let b := array_get (bases st) i in
  forall (n k : nat),
    (k + n = 99)%nat ->
    (forall j, (j <= first_within a b (Math_tan ang) (S k) n)%nat ->
               is_finite (iterate a b (Math_tan ang) j) = true) ->
    solve_while n areas ang i (after_turns areas ang i st (S k))
    = after_turns areas ang i st (first_within a b (Math_tan ang) (S k) n).
Proof.
  intros a b. induction n as [|n IH]; intros k Hk Hfin.
  - reflexivity.
  - pose proof (first_within_bounds a b (Math_tan ang) (S n) (S k)) as Hb.
    cbn [solve_while].
    rewrite solve_test_after_turns by (apply Hfin; lia).
    fold a b. cbn [first_within] in *.
    destruct (within_tolerance a b (Math_tan ang) (S k)) eqn:E.
    + reflexivity.
    + replace (S k <? 100)%nat with true by (symmetry; apply Nat.ltb_lt; lia).
      cbn [negb andb].
      rewrite solve_step_after_turns. apply IH; [lia | exact Hfin].
Qed.

(** The whole loop for one section, entered in the state [st]. *)
Lemma solve_while_section (areas : list number) (ang : angle) (i : nat)
    (st : solver) :
  let a := array_get areas i in
  let b := array_get (bases st) i in
  (of_Z 999999 >? iterate a b (Math_tan ang) 0 * tolerance)%js = true ->
  (forall j, (j <= iterations a b (Math_tan ang))%nat ->
             is_finite (iterate a b (Math_tan ang) j) = true) ->
  solve_while 100 areas ang i (solve_start areas i st)
  = after_turns areas ang i st (iterations a b (Math_tan ang)).
Proof.
  intros a b Hentry Hfin.
  change (solve_start areas i st) with (after_turns areas ang i st 0).
  cbn [solve_while].
  assert (Ht : solve_test i (after_turns areas ang i st 0) = true).
  { unfold solve_test, after_turns, solve_start.
    cbn [bases lengths guess err count lsum].
    rewrite array_get_set_same. fold a b.
    cbn [iterate] in Hentry. now rewrite Hentry. }
  rewrite Ht, solve_step_after_turns.
  now apply (solve_while_after_turns areas ang i st 99 0).
Qed.

(** ** The solver loop over any arithmetic *)

Lemma elt_put_same {N : Type} (A : arith N) (a : list N) (i : nat) (v : N) :
  elt A (put A a i v) i = v.
Proof.
  unfold elt, put.
  destruct (i <? List.length a)%nat eqn:E.
  - apply Nat.ltb_lt in E.
    rewrite app_nth2; rewrite length_firstn, Nat.min_l by lia; [| lia].
    now rewrite Nat.sub_diag.
  - apply Nat.ltb_ge in E.
    rewrite app_nth2 by lia. rewrite app_nth2; rewrite repeat_length; [| lia].
    now replace (i - List.length a - (i - List.length a))%nat with 0%nat by lia.
Qed.

Lemma put_put {N : Type} (A : arith N) (a : list N) (i : nat) (u v : N) :
  put A (put A a i u) i v = put A a i v.
Proof.
  unfold put at 2 3.
  destruct (i <? List.length a)%nat eqn:E.
  - apply Nat.ltb_lt in E. unfold put.
    assert (Hl : List.length (firstn i a ++ u :: skipn (S i) a) = List.length a).
    { rewrite length_app, length_firstn. cbn [List.length].
      rewrite length_skipn. lia. }
    rewrite Hl. replace (i <? List.length a)%nat with true
      by (symmetry; now apply Nat.ltb_lt).
    assert (Hi : List.length (firstn i a) = i)
      by (rewrite length_firstn; lia).
    rewrite firstn_app, Hi, Nat.sub_diag, firstn_O, app_nil_r.
    rewrite firstn_all2 by lia.
    f_equal. f_equal.
    rewrite skipn_app, Hi.
    rewrite (skipn_all2 (firstn i a)) by lia.
    replace (S i - i)%nat with 1%nat by lia. reflexivity.
  - apply Nat.ltb_ge in E. unfold put.
    assert (Hl : List.length (a ++ repeat (op_hole A) (i - List.length a) ++ [u])
                 = S i).
    { rewrite !length_app, repeat_length. simpl. lia. }
    rewrite Hl. replace (i <? S i)%nat with true
      by (symmetry; apply Nat.ltb_lt; lia).
    rewrite app_assoc.
    assert (Hi : List.length (a ++ repeat (op_hole A) (i - List.length a)) = i).
    { rewrite length_app, repeat_length. lia. }
    rewrite firstn_app, Hi, Nat.sub_diag, firstn_O, app_nil_r.
    rewrite firstn_all2 by lia.
    rewrite skipn_all2 by (rewrite length_app, Hi; simpl; lia).
    now rewrite <- app_assoc.
Qed.

Lemma elt_put_next {N : Type} (A : arith N) (a : list N) (i : nat) (v : N) :
  elt A (put A a (i + 1) v) i = elt A a i.
Proof.
  unfold elt, put.
  destruct (i + 1 <? List.length a)%nat eqn:E.
  - apply Nat.ltb_lt in E.
    rewrite app_nth1 by (rewrite length_firstn; lia).
    clear E. revert i. induction a as [|x a IH]; intros i.
    + now destruct i.
    + destruct i as [|i]; [reflexivity |].
      change (S i + 1)%nat with (S (i + 1)). cbn [firstn nth]. apply IH.
  - apply Nat.ltb_ge in E.
    destruct (Nat.lt_ge_cases i (List.length a)) as [Hlt | Hge].
    + now rewrite app_nth1 by lia.
    + rewrite app_nth2 by lia. rewrite (nth_overflow a) by lia.
      rewrite app_nth1 by (rewrite repeat_length; lia).
      apply nth_repeat_lt. lia.
Qed.

(** More fuel than the turns left before [count] reaches [100] is
    never used: the loop always ends. *)
Lemma loop_while_fuel {N : Type} (A : arith N) (areas : list N) (tanA : N)
    (i : nat) :
  forall (fuel : nat) (st : vars N),
    (100 - v_count st <= fuel)%nat ->
    loop_while A fuel areas tanA i st
    = loop_while A (100 - v_count st) areas tanA i st.
Proof.
  induction fuel as [|fuel IH]; intros st Hf.
  - replace (100 - v_count st)%nat with 0%nat by lia. reflexivity.
  - cbn [loop_while]. destruct (loop_test A i st) eqn:Et.
    + assert (Hc : (v_count st < 100)%nat).
      { unfold loop_test in Et. apply andb_true_iff in Et as [_ Et].
        now apply Nat.ltb_lt in Et. }
      destruct (100 - v_count st)%nat as [|m] eqn:Em; [lia |].
      cbn [loop_while]. rewrite Et.
      rewrite IH by (cbn [loop_step v_count]; lia).
      f_equal. cbn [loop_step v_count]. lia.
    + destruct (100 - v_count st)%nat as [|m]; [reflexivity |].
      cbn [loop_while]. now rewrite Et.
Qed.

Lemma loop_step_after {N : Type} (A : arith N) (areas : list N) (tanA : N)
    (i : nat) (st : vars N) (k : nat) :
  loop_step A areas tanA i (loop_after A areas tanA i st k)
  = loop_after A areas tanA i st (S k).
Proof.
  destruct k as [|k]; unfold loop_step, loop_after, loop_start,
    section_estimate;
    cbn [v_bases v_lengths v_guess v_err v_count v_lsum fixed_point].
  - rewrite !elt_put_same, put_put. reflexivity.
  - rewrite !elt_put_same, !put_put, elt_put_next. reflexivity.
Qed.

Lemma loop_test_after {N : Type} (A : arith N) (areas : list N) (tanA : N)
    (i : nat) (st : vars N) (k : nat) :
  loop_test A i (loop_after A areas tanA i st (S k))
  = section_goes_on A areas tanA st i (S k) && (S k <? 100)%nat.
Proof.
  unfold loop_test, loop_after, section_goes_on, goes_on, moved,
    section_estimate.
  cbn [v_bases v_lengths v_guess v_err v_count v_lsum].
  rewrite elt_put_same.
  now replace (S k - 1)%nat with k by lia.
Qed.

Lemma first_converged_bounds {N : Type} (A : arith N) (a b t : N) (n k : nat) :
  (k <= first_converged A a b t k n <= k + n)%nat.
Proof.
  revert k. induction n as [|n IH]; intros k; cbn [first_converged].
  - lia.
  - destruct (converged A a b t k); [lia |].
    specialize (IH (S k)). lia.
Qed.

Lemma first_converged_first {N : Type} (A : arith N) (a b t : N)
    (n k j : nat) :
  (k <= j < first_converged A a b t k n)%nat -> converged A a b t j = false.
Proof.
  revert k. induction n as [|n IH]; intros k Hj; cbn [first_converged] in Hj.
  - lia.
  - destruct (converged A a b t k) eqn:E; [lia |].
    destruct (Nat.eq_dec j k) as [-> | Hne]; [assumption |].
    apply (IH (S k)). lia.
Qed.

Lemma first_converged_stop {N : Type} (A : arith N) (a b t : N) (n k : nat) :
  first_converged A a b t k n = (k + n)%nat
  \/ converged A a b t (first_converged A a b t k n) = true.
Proof.
  revert k. induction n as [|n IH]; intros k; cbn [first_converged].
  - left. lia.
  - destruct (converged A a b t k) eqn:E; [now right |].
    destruct (IH (S k)) as [H | H]; [left; lia | now right].
Qed.

(** From the variables after [k >= 1] turns, the loop stops at the
    first estimate that has converged, and at the latest at the
    estimate [100]. *)
Lemma loop_while_after {N : Type} (A : arith N) (areas : list N) (tanA : N)
    (i : nat) (st : vars N) :
  forall (n k : nat),
    (k + n = 99)%nat ->
    (forall j,
        (S k <= j <= first_converged A (elt A areas i) (elt A (v_bases st) i)
                        tanA (S k) n)%nat ->
        section_goes_on A areas tanA st i j
        = negb (section_converged A areas tanA st i j)) ->
    loop_while A n areas tanA i (loop_after A areas tanA i st (S k))
    = loop_after A areas tanA i st
        (first_converged A (elt A areas i) (elt A (v_bases st) i) tanA (S k) n).
Proof.
  induction n as [|n IH]; intros k Hk Hcmp.
  - reflexivity.
  - pose proof (first_converged_bounds A (elt A areas i)
                  (elt A (v_bases st) i) tanA (S n) (S k)) as Hb.
    cbn [loop_while]. rewrite loop_test_after.
    rewrite Hcmp by lia. unfold section_converged.
    cbn [first_converged] in *.
    destruct (converged A (elt A areas i) (elt A (v_bases st) i) tanA (S k))
      eqn:E.
    + reflexivity.
    + replace (S k <? 100)%nat with true by (symmetry; apply Nat.ltb_lt; lia).
      cbn [negb andb].
      rewrite loop_step_after. apply IH; [lia |].
      intros j Hj. apply Hcmp. lia.
Qed.

(** The loop of the exact arithmetic is [solve_section]. *)
Lemma loop_while_exact (areas : list number) (ang : angle) (i : nat) :
  forall (fuel : nat) (st : solver),
    loop_while exact_arith fuel areas (Math_tan ang) i (vars_of st)
    = vars_of (solve_while fuel areas ang i st).
Proof.
  induction fuel as [|fuel IH]; intros st.
  - reflexivity.
  - cbn [loop_while solve_while].
    change (loop_test exact_arith i (vars_of st)) with (solve_test i st).
    destruct (solve_test i st); [| reflexivity].
    change (loop_step exact_arith areas (Math_tan ang) i (vars_of st))
      with (vars_of (solve_step areas ang i st)).
    apply IH.
Qed.

Lemma loop_section_exact (areas : list number) (ang : angle) (st : solver)
    (i : nat) :
  loop_section exact_arith areas (Math_tan ang) (vars_of st) i
  = vars_of (solve_section areas ang st i).
Proof.
  unfold loop_section, solve_section.
  change (loop_start exact_arith areas i (vars_of st))
    with (vars_of (solve_start areas i st)).
  rewrite loop_while_exact. reflexivity.
Qed.

(** In the exact arithmetic the two comparisons are complementary on
    finite estimates. *)
Lemma exact_tests_complementary (areas : list number) (tanA : number)
    (st : vars number) (i j : nat) :
  is_finite (section_estimate exact_arith areas tanA st i (j - 1)) = true ->
  is_finite (section_estimate exact_arith areas tanA st i j) = true ->
  section_goes_on exact_arith areas tanA st i j
  = negb (section_converged exact_arith areas tanA st i j).
Proof.
  intros H1 H2. unfold section_goes_on, section_converged, goes_on, converged.
  apply gt_negb_le.
  - now apply abs_sub_finite.
  - now apply mul_tolerance_finite.
Qed.

(** C1.  Let the loop for section [i] be entered with the variables
    [st], in any arithmetic.  Suppose that the first test of the loop,
    made against the initial error [999999], passes (the initial guess
    [areas[i] / bases[i]] is below [999999 / 1e-4], as it is whenever
    the sections fit a plot area less than [9999990000] high), and that
    on the estimates up to the one kept the test [>] of the loop is the
    negation of the [<=] of the stopping rule (neither side is [NaN]).
    Then [lengths[i]] is the estimate number [K] of the fixed-point
    iteration [length = areas[i] / (bases[i] - length * tan (angle))]
    started at the guess [areas[i] / bases[i]], [bases[i+1]] is
    [bases[i] - 2 * lengths[i] * tan (angle)], and [K] is the first
    number from [1] on whose estimate differs from the previous one by
    at most [1e-4] times itself, or [100] when there is none: the
    estimate [100] is kept as it is.  The loop always ends, and no
    error is raised: fuel beyond [100] turns is never used. *)
Theorem loop_section_fixed_point {N : Type} (A : arith N)
    (areas : list N) (tanA : N) (st : vars N) (i : nat) :
  op_gt A (op_lit A 999999)
    (op_mul A (section_estimate A areas tanA st i 0) (loop_tolerance A)) = true ->
  (forall j, (1 <= j <= last_estimate A areas tanA st i)%nat ->
             section_goes_on A areas tanA st i j
             = negb (section_converged A areas tanA st i j)) ->
  elt A (v_lengths (loop_section A areas tanA st i)) i
  = section_estimate A areas tanA st i (last_estimate A areas tanA st i)
  /\ elt A (v_bases (loop_section A areas tanA st i)) (i + 1)
     = op_sub A (elt A (v_bases st) i)
         (op_mul A
            (op_mul A (op_lit A 2)
               (section_estimate A areas tanA st i
                  (last_estimate A areas tanA st i)))
            tanA)
  /\ v_count (loop_section A areas tanA st i) = last_estimate A areas tanA st i
  /\ (1 <= last_estimate A areas tanA st i <= 100)%nat
  /\ (last_estimate A areas tanA st i = 100%nat
      \/ section_converged A areas tanA st i (last_estimate A areas tanA st i)
         = true)
  /\ (forall j, (1 <= j < last_estimate A areas tanA st i)%nat ->
                section_converged A areas tanA st i j = false)
  /\ (forall fuel, (100 <= fuel)%nat ->
        loop_while A fuel areas tanA i (loop_start A areas i st)
        = loop_while A 100 areas tanA i (loop_start A areas i st)).
Proof.
  intros Hentry Hcmp.
  pose proof (first_converged_bounds A (elt A areas i) (elt A (v_bases st) i)
                tanA 99 1) as Hb.
  fold (last_estimate A areas tanA st i) in Hb.
  assert (Hloop : loop_while A 100 areas tanA i (loop_start A areas i st)
                  = loop_after A areas tanA i st
                      (last_estimate A areas tanA st i)).
  { change (loop_start A areas i st) with (loop_after A areas tanA i st 0).
    cbn [loop_while].
    assert (Ht : loop_test A i (loop_after A areas tanA i st 0) = true).
    { unfold loop_test, loop_after, loop_start.
      cbn [v_bases v_lengths v_guess v_err v_count v_lsum].
      rewrite elt_put_same.
      unfold section_estimate in Hentry. cbn [fixed_point] in Hentry.
      now rewrite Hentry. }
    rewrite Ht, loop_step_after.
    apply (loop_while_after A areas tanA i st 99 0); [reflexivity |].
    intros j Hj. apply Hcmp. unfold last_estimate. lia. }
  assert (Hrun : loop_section A areas tanA st i
                 = let st1 := loop_after A areas tanA i st
                                (last_estimate A areas tanA st i) in
                   {| v_bases := v_bases st1; v_lengths := v_lengths st1;
                      v_guess := v_guess st1; v_err := v_err st1;
                      v_count := v_count st1;
                      v_lsum := op_add A (v_lsum st1)
                                  (elt A (v_lengths st1) i) |}).
  { unfold loop_section. now rewrite Hloop. }
  clear Hloop.
  destruct (last_estimate A areas tanA st i) as [|k] eqn:Hk; [lia |].
  split; [| split; [| split; [| split; [| split; [| split]]]]].
  - rewrite Hrun. cbn. apply elt_put_same.
  - rewrite Hrun. cbn. apply elt_put_same.
  - rewrite Hrun. reflexivity.
  - lia.
  - rewrite <- Hk. unfold last_estimate, section_converged.
    destruct (first_converged_stop A (elt A areas i) (elt A (v_bases st) i)
                tanA 99 1) as [H | H]; [left; exact H | right; exact H].
  - intros j Hj. rewrite <- Hk in Hj. unfold last_estimate in Hj.
    unfold section_converged.
    now apply first_converged_first with (n := 99%nat) (k := 1%nat).
  - intros fuel Hfuel. rewrite loop_while_fuel by (simpl; lia). reflexivity.
Qed.

(** The single section of a funnel [260] wide and [260] high with
    [widthRatio = 0.2], in the exact arithmetic: the estimate [18] is
    kept. *)
Lemma loop_section_fixed_point_witness :
  last_estimate exact_arith [of_Z 40560] (of_frac 2 5)
    (vars_of (solver_of [of_Z 260; NaN] [NaN])) 0 = 18%nat
  /\ v_count (loop_section exact_arith [of_Z 40560] (of_frac 2 5)
                (vars_of (solver_of [of_Z 260; NaN] [NaN])) 0)
     = last_estimate exact_arith [of_Z 40560] (of_frac 2 5)
         (vars_of (solver_of [of_Z 260; NaN] [NaN])) 0.
Proof.
  assert (Hk : last_estimate exact_arith [of_Z 40560] (of_frac 2 5)
                 (vars_of (solver_of [of_Z 260; NaN] [NaN])) 0 = 18%nat)
    by (vm_compute; reflexivity).
  split; [exact Hk |].
  refine (proj1 (proj2 (proj2
            (loop_section_fixed_point exact_arith [of_Z 40560] (of_frac 2 5)
               (vars_of (solver_of [of_Z 260; NaN] [NaN])) 0 _ _)))).
  - vm_compute. reflexivity.
  - rewrite Hk. intros j Hj.
    do 19 (destruct j as [|j]; [try lia; vm_compute; reflexivity |]). lia.
Defined.

(** ** The vertices *)

Lemma top_adj_indep (sm : number) (n i : nat) (a b : number) :
  (i < n)%nat -> top_adj sm n i a = top_adj sm n i b.
Proof.
  intros Hi. unfold top_adj.
  destruct (i =? 1)%nat; [reflexivity |].
  destruct ((0 <? i)%nat && (i <? n - 1)%nat) eqn:E1; [reflexivity |].
  destruct (i =? n - 1)%nat eqn:E2; [reflexivity |].
  destruct (i =? 0)%nat eqn:E3; [reflexivity |].
  apply Nat.eqb_neq in E2, E3. apply andb_false_iff in E1 as [E1 | E1].
  - apply Nat.ltb_ge in E1. lia.
  - apply Nat.ltb_ge in E1. lia.
Qed.

Lemma bottom_adj_indep (sm : number) (n i : nat) (a b : number) :
  (i < n)%nat -> bottom_adj sm n i a = bottom_adj sm n i b.
Proof.
  intros Hi. unfold bottom_adj.
  destruct (i =? 0)%nat eqn:E3; [reflexivity |].
  destruct ((0 <? i)%nat && (i <? n - 1)%nat) eqn:E1; [reflexivity |].
  destruct (i =? n - 1)%nat eqn:E2; [reflexivity |].
  apply Nat.eqb_neq in E2, E3. apply andb_false_iff in E1 as [E1 | E1].
  - apply Nat.ltb_ge in E1. lia.
  - apply Nat.ltb_ge in E1. lia.
Qed.

Lemma height_above_S (lens : list number) (i : nat) :
  height_above lens (S i) = (height_above lens i + array_get lens i)%js.
Proof.
  unfold height_above. rewrite seq_S, fold_left_app. reflexivity.
Qed.

(** The loop over the sections computes the closed form. *)
Lemma vertex_loop_prefix (p0 p1 p2 p3 : point) (sm : number) (n : nat)
    (lens : list number) (m : nat) :
  (m <= n)%nat ->
  exists a,
    fold_left (vertex_step p0 p1 p2 p3 sm n lens) (seq 0 m)
      {| h := of_Z 0; adj := of_Z 0; vertices := [] |}
    = {| h := height_above lens m;
         adj := a;
         vertices := map (section_quad p0 p1 p2 p3 sm n lens) (seq 0 m) |}.
Proof.
  induction m as [|m IH]; intros Hm.
  - exists (of_Z 0). reflexivity.
  - destruct IH as [a IH]; [lia |].
    rewrite seq_S, fold_left_app, IH, map_app. cbn [fold_left map Nat.add].
    exists (bottom_adj sm n m (of_Z 0)).
    unfold vertex_step. cbn [h adj vertices].
    rewrite <- height_above_S.
    rewrite (top_adj_indep sm n m a (of_Z 0)) by lia.
    rewrite (bottom_adj_indep sm n m (top_adj sm n m (of_Z 0)) (of_Z 0)) by lia.
    reflexivity.
Qed.

Lemma draw_vertices (this : series_t) (cw ch : number)
    (gd : list datapoint) (legendInfo : option legendInfo_t) :
  _vertices (draw this cw ch gd legendInfo)
  = map (section_quad
           (p0 (draw_corners this cw ch gd legendInfo))
           (p1 (draw_corners this cw ch gd legendInfo))
           (p2 (draw_corners this cw ch gd legendInfo))
           (p3 (draw_corners this cw ch gd legendInfo))
           (sectionMargin this) (List.length gd)
           (_lengths (draw this cw ch gd legendInfo)))
      (seq 0 (List.length gd)).
Proof.
  unfold draw. cbn [_vertices _lengths].
  destruct (vertex_loop_prefix
              (p0 (draw_corners this cw ch gd legendInfo))
              (p1 (draw_corners this cw ch gd legendInfo))
              (p2 (draw_corners this cw ch gd legendInfo))
              (p3 (draw_corners this cw ch gd legendInfo))
              (sectionMargin this) (List.length gd)
              (lengths (draw_solver this cw ch gd legendInfo))
              (List.length gd) (Nat.le_refl (List.length gd))) as [a Ha].
  rewrite Ha. reflexivity.
Qed.

Lemma edge_ys_section_quad (p0 p1 p2 p3 : point) (sm : number) (n : nat)
    (lens : list number) (i : nat) :
  edge_ys (section_quad p0 p1 p2 p3 sm n lens i)
  = ((height_above lens i + top_adj sm n i (of_Z 0) + snd p0)%js,
     (height_above lens (S i) + bottom_adj sm n i (of_Z 0) + snd p0)%js).
Proof. reflexivity. Qed.

(** The margins of the sections of a funnel of [n >= 2] sections. *)
Lemma top_adj_first (sm : number) (n : nat) :
  (2 <= n)%nat -> top_adj sm n 0 (of_Z 0) = of_Z 0.
Proof.
  intros Hn. unfold top_adj.
  destruct (0 =? n - 1)%nat eqn:E; [apply Nat.eqb_eq in E; lia | reflexivity].
Qed.

Lemma bottom_adj_first (sm : number) (n : nat) :
  bottom_adj sm n 0 (of_Z 0) = (of_Z (-2) * sm / of_Z 3)%js.
Proof. reflexivity. Qed.

Lemma top_adj_second (sm : number) (n : nat) :
  top_adj sm n 1 (of_Z 0) = (sm / of_Z 3)%js.
Proof. reflexivity. Qed.

Lemma top_adj_inner (sm : number) (n i : nat) :
  (2 <= i < n - 1)%nat -> top_adj sm n i (of_Z 0) = (sm / of_Z 2)%js.
Proof.
  intros Hi. unfold top_adj.
  destruct (i =? 1)%nat eqn:E1; [apply Nat.eqb_eq in E1; lia |].
  replace (0 <? i)%nat with true by (symmetry; apply Nat.ltb_lt; lia).
  replace (i <? n - 1)%nat with true by (symmetry; apply Nat.ltb_lt; lia).
  reflexivity.
Qed.

Lemma bottom_adj_inner (sm : number) (n i : nat) :
  (1 <= i < n - 1)%nat -> bottom_adj sm n i (of_Z 0) = (neg sm / of_Z 2)%js.
Proof.
  intros Hi. unfold bottom_adj.
  destruct (i =? 0)%nat eqn:E1; [apply Nat.eqb_eq in E1; lia |].
  replace (0 <? i)%nat with true by (symmetry; apply Nat.ltb_lt; lia).
  replace (i <? n - 1)%nat with true by (symmetry; apply Nat.ltb_lt; lia).
  reflexivity.
Qed.

Lemma top_adj_last (sm : number) (n : nat) :
  (3 <= n)%nat -> top_adj sm n (n - 1) (of_Z 0) = (of_Z 2 * sm / of_Z 3)%js.
Proof.
  intros Hn. unfold top_adj.
  destruct (n - 1 =? 1)%nat eqn:E1; [apply Nat.eqb_eq in E1; lia |].
  replace (n - 1 <? n - 1)%nat with false
    by (symmetry; apply Nat.ltb_ge; lia).
  rewrite andb_false_r, Nat.eqb_refl. reflexivity.
Qed.

Lemma bottom_adj_last (sm : number) (n : nat) :
  (2 <= n)%nat -> bottom_adj sm n (n - 1) (of_Z 0) = of_Z 0.
Proof.
  intros Hn. unfold bottom_adj.
  destruct (n - 1 =? 0)%nat eqn:E1; [apply Nat.eqb_eq in E1; lia |].
  replace (n - 1 <? n - 1)%nat with false
    by (symmetry; apply Nat.ltb_ge; lia).
  rewrite andb_false_r, Nat.eqb_refl. reflexivity.
Qed.

(** The heights of the edges of section [i] of a funnel drawn by
    [draw], for every [i] below the number [n] of sections. *)
Lemma draw_edge_ys (this : series_t) (cw ch : number)
    (gd : list datapoint) (legendInfo : option legendInfo_t) (i : nat) :
  (i < List.length gd)%nat ->
  option_map edge_ys (nth_error (_vertices (draw this cw ch gd legendInfo)) i)
  = Some
      ((height_above (_lengths (draw this cw ch gd legendInfo)) i
        + top_adj (sectionMargin this) (List.length gd) i (of_Z 0)
        + toff this legendInfo)%js,
       (height_above (_lengths (draw this cw ch gd legendInfo)) (S i)
        + bottom_adj (sectionMargin this) (List.length gd) i (of_Z 0)
        + toff this legendInfo)%js).
Proof.
  intros Hi. rewrite draw_vertices.
  rewrite nth_error_map, nth_error_nth' with (d := 0%nat)
    by (rewrite length_seq; lia).
  rewrite seq_nth by lia. reflexivity.
Qed.

Lemma three_series_facts :
  List.length (gridData three_series) = 3%nat
  /\ sectionMargin three_series = of_Z 6
  /\ toff three_series None = of_Z 20.
Proof. repeat split; vm_compute; reflexivity. Qed.

Lemma margins_of_six :
  (of_Z (-2) * of_Z 6 / of_Z 3)%js = of_Z (-4)
  /\ (of_Z 6 / of_Z 3)%js = of_Z 2
  /\ (neg (of_Z 6) / of_Z 2)%js = of_Z (-3)
  /\ (of_Z 2 * of_Z 6 / of_Z 3)%js = of_Z 4.
Proof. repeat split; apply number_eqb_eq; vm_compute; reflexivity. Qed.

(** C5 on a funnel of three sections (the data [[A,10], [B,30], [C,20]],
    the default options with [sectionMargin = 6], a canvas of [300] by
    [300]); [l0], [l1], [l2] are the lengths of the sections and [20] is
    the top offset.  The top edge of section [0] and the bottom edge of
    section [2] are not inset; at the boundary after section [0] the
    margin is split [4] above and [2] below; but at the boundary before
    the last section it is split [3] above and [4] below, that is
    [sectionMargin / 2] and [2 * sectionMargin / 3], where the claim
    has [sectionMargin / 3] and [2 * sectionMargin / 3]. *)
Theorem three_sections_margins :
  map edge_ys (_vertices three_drawn)
  = [ ((of_Z 0 + of_Z 0 + of_Z 20)%js,
       (of_Z 0 + array_get (_lengths three_drawn) 0 + of_Z (-4) + of_Z 20)%js);
      ((of_Z 0 + array_get (_lengths three_drawn) 0 + of_Z 2 + of_Z 20)%js,
       (of_Z 0 + array_get (_lengths three_drawn) 0
        + array_get (_lengths three_drawn) 1 + of_Z (-3) + of_Z 20)%js);
      ((of_Z 0 + array_get (_lengths three_drawn) 0
        + array_get (_lengths three_drawn) 1 + of_Z 4 + of_Z 20)%js,
       (of_Z 0 + array_get (_lengths three_drawn) 0
        + array_get (_lengths three_drawn) 1
        + array_get (_lengths three_drawn) 2 + of_Z 0 + of_Z 20)%js) ].
Proof.
  destruct three_series_facts as (Hn & Hsm & Htoff).
  destruct margins_of_six as (E1 & E2 & E3 & E4).
  unfold three_drawn at 1. rewrite draw_vertices, Hn, Hsm.
  fold three_drawn.
  cbn [seq map]. rewrite !edge_ys_section_quad.
  change (snd (p0 (draw_corners three_series (of_Z 300) (of_Z 300)
                     (gridData three_series) None)))
    with (toff three_series None).
  rewrite Htoff.
  rewrite bottom_adj_first, top_adj_second.
  rewrite (top_adj_first (of_Z 6) 3) by lia.
  rewrite (bottom_adj_inner (of_Z 6) 3 1) by lia.
  rewrite (top_adj_last (of_Z 6) 3 ltac:(lia)
           : top_adj (of_Z 6) 3 2 (of_Z 0) = _).
  rewrite (bottom_adj_last (of_Z 6) 3 ltac:(lia)
           : bottom_adj (of_Z 6) 3 2 (of_Z 0) = _).
  rewrite E1, E2, E3, E4.
  reflexivity.
Qed.

(** A funnel of a single section: whatever the input, its top edge is
    placed [2 * sectionMargin / 3] below the top of the envelope, and
    its bottom edge [2 * sectionMargin / 3] above the end of the
    section. *)
Lemma single_section_edges (this : series_t) (cw ch : number)
    (gd : list datapoint) (legendInfo : option legendInfo_t) :
  List.length gd = 1%nat ->
  map edge_ys (_vertices (draw this cw ch gd legendInfo))
  = [ ((of_Z 0 + of_Z 2 * sectionMargin this / of_Z 3
        + toff this legendInfo)%js,
       (of_Z 0 + array_get (_lengths (draw this cw ch gd legendInfo)) 0
        + of_Z (-2) * sectionMargin this / of_Z 3
        + toff this legendInfo)%js) ].
Proof.
  intros Hn. rewrite draw_vertices, Hn. reflexivity.
Qed.

(** C6 on a funnel of one data point (the default options, a canvas of
    [300] by [300]): [draw] yields exactly one quadrilateral, but it
    does not span the envelope, whose top is at height [20] and whose
    bottom is at height [280]: the top edge is at [24], inset by
    [2 * sectionMargin / 3 = 4], and the bottom edge is at
    [lengths[0] + 16], inset by [4] from the end [lengths[0] + 20] of
    the section, which itself is above [280]. *)
Theorem single_section_is_inset :
  List.length (_vertices one_drawn) = 1%nat
  /\ map edge_ys (_vertices one_drawn)
     = [ (of_Z 24, (array_get (_lengths one_drawn) 0 + of_Z 16)%js) ]
  /\ snd (p0 (draw_corners one_series (of_Z 300) (of_Z 300)
                (gridData one_series) None)) = of_Z 20
  /\ snd (p2 (draw_corners one_series (of_Z 300) (of_Z 300)
                (gridData one_series) None)) = of_Z 280
  /\ (array_get (_lengths one_drawn) 0 + of_Z 20 <? of_Z 280)%js = true.
Proof.
  split; [| split; [| split; [| split]]].
  - vm_compute. reflexivity.
  - apply (list_eqb_eq point_eqb point_eqb_eq). vm_compute. reflexivity.
  - apply number_eqb_eq. vm_compute. reflexivity.
  - apply number_eqb_eq. vm_compute. reflexivity.
  - vm_compute. reflexivity.
Qed.

(** ** The hit test *)

(** [findedge (l, p1, p2)] evaluates the line through [p1] and [p2] at
    the height [l + p1[1]]. *)
Lemma findedge_line (l : number) (p q : point) :
  findedge l p q = (line_x_at p q (l + snd p)%js, (l + snd p)%js).
Proof. reflexivity. Qed.

Lemma check_sections_first_over (s : series_t) (x y : number)
    (lex rex : point) (v : list quad) (i : nat) :
  check_sections s x y lex rex v i
  = option_map (fun j => (index s, j, nth_error (data s) j))
      (first_over (over_section x y lex rex) v i).
Proof.
  revert i. induction v as [|cv v IH]; intros i; simpl.
  - reflexivity.
  - destruct (over_section x y lex rex cv); [reflexivity | apply IH].
Qed.

(** [first_over] returns the first section that passes the test. *)
Lemma first_over_Some (test : quad -> bool) (v : list quad) (k i : nat) :
  first_over test v k = Some i ->
  (k <= i)%nat
  /\ (exists cv, nth_error v (i - k) = Some cv /\ test cv = true)
  /\ (forall j cv, (j < i - k)%nat -> nth_error v j = Some cv ->
                   test cv = false).
Proof.
  revert k. induction v as [|c v IH]; intros k; simpl.
  - discriminate.
  - destruct (test c) eqn:E.
    + intros [= <-]. rewrite Nat.sub_diag. split; [lia |]. split.
      * exists c. now split.
      * intros j cv Hj. lia.
    + intros H. apply IH in H as (Hk & (cv & Hcv & Ht) & Hbefore).
      split; [lia |]. split.
      * exists cv. split; [| assumption].
        replace (i - k)%nat with (S (i - S k)) by lia. exact Hcv.
      * intros j cv' Hj Hnth. destruct j as [|j].
        -- simpl in Hnth. now injection Hnth as <-.
        -- simpl in Hnth. apply (Hbefore j); [lia | assumption].
Qed.

Lemma first_over_None (test : quad -> bool) (v : list quad) (k : nat) :
  first_over test v k = None <-> Forall (fun cv => test cv = false) v.
Proof.
  revert k. induction v as [|c v IH]; intros k; simpl.
  - split; [constructor | reflexivity].
  - destruct (test c) eqn:E.
    + split; [discriminate |]. intros H. inversion H; congruence.
    + rewrite IH. split; [now constructor | intros H; now inversion H].
Qed.

(** What [checkIntersection] computes, on a plot whose first series
    [s] has the sections [vfirst :: rest]: the first section, from the
    top, whose vertical range contains [y] and for which [x] lies
    between the two boundary lines evaluated at [y + vfirst[0][1]]. *)
Lemma checkIntersection_first_over (x y : number) (s : series_t)
    (others : list series_t) (gn : bool) (vfirst vlast : quad)
    (rest : list quad) :
  _vertices s = vfirst :: rest ->
  nth_error (vfirst :: rest) (List.length rest) = Some vlast ->
  checkIntersection (x, y)
    {| series := s :: others; _processGetNeighbor := gn |}
  = Return
      (option_map (fun j => (index s, j, nth_error (data s) j))
         (first_over
            (over_section x y
               (line_x_at (v0 vfirst) (v3 vlast) (y + snd (v0 vfirst))%js,
                (y + snd (v0 vfirst))%js)
               (line_x_at (v1 vfirst) (v2 vlast) (y + snd (v1 vfirst))%js,
                (y + snd (v1 vfirst))%js))
            (vfirst :: rest) 0)).
Proof.
  intros Hv Hlast. unfold checkIntersection. cbn [series fst snd].
  rewrite Hv.
  replace (List.length (vfirst :: rest) - 1)%nat with (List.length rest)
    by (simpl; lia).
  rewrite Hlast.
  rewrite check_sections_first_over, !findedge_line. reflexivity.
Qed.

(** No abscissa lies between a left boundary and a right boundary that
    have crossed. *)
Lemma crossed_boundaries (x l r : number) :
  (l >? r)%js = true -> (x >=? l)%js && (x <=? r)%js = false.
Proof.
  destruct x as [a| | |], l as [b| | |], r as [c| | |];
    unfold num_gt, num_ge, num_le, num_compare; try easy;
    try (intros _; apply andb_false_r).
  destruct (b ?= c)%Qc eqn:E1; try easy. intros _.
  apply (proj2 (Qcgt_alt _ _)) in E1.
  destruct (a ?= b)%Qc eqn:E2; destruct (a ?= c)%Qc eqn:E3; try easy;
    exfalso.
  - apply (proj2 (Qceq_alt _ _)) in E2. apply (proj2 (Qceq_alt _ _)) in E3.
    qc2q. lra.
  - apply (proj2 (Qceq_alt _ _)) in E2. apply (proj2 (Qclt_alt _ _)) in E3.
    qc2q. lra.
  - apply (proj2 (Qcgt_alt _ _)) in E2. apply (proj2 (Qceq_alt _ _)) in E3.
    qc2q. lra.
  - apply (proj2 (Qcgt_alt _ _)) in E2. apply (proj2 (Qclt_alt _ _)) in E3.
    qc2q. lra.
Qed.

(** C2 on the funnel of one data point (the default options, a canvas
    of [300] by [300]) and the pointer [(75, 150)].  The single section
    spans the heights [24] to about [276]; the left boundary line is at
    about [72] at the height [150] of the pointer, so the pointer lies
    between the boundary lines and the hit test of the specification
    returns the section [0].  [checkIntersection] returns [null]: it
    evaluates the boundary lines at the height [150 + 24], where the
    left boundary is beyond [75]. *)
Theorem pointer_inside_section_missed :
  checkIntersection (of_Z 75, of_Z 150) (plot_of one_drawn) = Return None
  /\ hitTest (of_Z 75, of_Z 150) (_vertices one_drawn) = Some 0%nat
  /\ map (fun q =>
            ((snd (v0 q) <=? of_Z 150)%js && (of_Z 150 <=? snd (v3 q))%js,
             (line_x_at (v0 q) (v3 q) (of_Z 150) <? of_Z 75)%js,
             (fst (findedge (of_Z 150) (v0 q) (v3 q)) >? of_Z 75)%js,
             number_eqb (snd (findedge (of_Z 150) (v0 q) (v3 q))) (of_Z 174)))
       (_vertices one_drawn)
     = [(true, true, true, true)].
Proof.
  split; [| split]; vm_compute; reflexivity.
Qed.

(** On a plot whose first series has a single section [q], no pointer
    at a height where the two boundary lines computed by
    [checkIntersection] have crossed hits the section. *)
Lemma crossed_misses (s : series_t) (q : quad) (x y : number) :
  _vertices s = [q] ->
  (fst (findedge y (v0 q) (v3 q)) >? fst (findedge y (v1 q) (v2 q)))%js = true ->
  checkIntersection (x, y) (plot_of s) = Return None.
Proof.
  intros Hv Hcross. unfold checkIntersection, plot_of. cbn [series fst snd].
  rewrite Hv. cbn [List.length Nat.sub nth_error check_sections].
  assert (Hover : over_section x y (findedge y (v0 q) (v3 q))
                    (findedge y (v1 q) (v2 q)) q = false).
  { unfold over_section.
    destruct (y >=? snd (v0 q))%js; [| reflexivity].
    destruct (y <=? snd (v3 q))%js; [| reflexivity].
    exact (crossed_boundaries x _ _ Hcross). }
  now rewrite Hover.
Qed.

(** C8 on the funnel of one data point drawn under a legend placed
    inside the plot at the top (the default options, a canvas of [300]
    by [300], a legend [120] high at the offset [12]).  The top offset
    is [152] and the single section spans the heights [156] to about
    [276]; the mean of its corners is at [(150, 216)] or so.  The hit
    test of the specification finds the section [0] there;
    [checkIntersection] returns [null], because it evaluates the
    boundary lines at the height [216 + 156], below the point where
    they cross.  No pointer at the height of that centroid hits the
    section, and none at the height of its centre of area either. *)
Theorem centroid_under_legend_missed :
  map (fun q => checkIntersection (centroidOf q)
                  (plot_of one_drawn_under_legend))
    (_vertices one_drawn_under_legend)
  = [Return None]
  /\ map (fun q => hitTest (centroidOf q) (_vertices one_drawn_under_legend))
       (_vertices one_drawn_under_legend)
     = [Some 0%nat]
  /\ (forall x,
        map (fun q => checkIntersection (x, snd (centroidOf q))
                        (plot_of one_drawn_under_legend))
          (_vertices one_drawn_under_legend)
        = [Return None])
  /\ (forall x,
        map (fun q => checkIntersection (x, area_centroid_y q)
                        (plot_of one_drawn_under_legend))
          (_vertices one_drawn_under_legend)
        = [Return None]).
Proof.
  assert (Hcross :
            map (fun q =>
                   ((fst (findedge (snd (centroidOf q)) (v0 q) (v3 q))
                     >? fst (findedge (snd (centroidOf q)) (v1 q) (v2 q)))%js,
                    (fst (findedge (area_centroid_y q) (v0 q) (v3 q))
                     >? fst (findedge (area_centroid_y q) (v1 q) (v2 q)))%js))
              (_vertices one_drawn_under_legend)
            = [(true, true)]) by (vm_compute; reflexivity).
  split; [vm_compute; reflexivity |].
  split; [vm_compute; reflexivity |].
  destruct (_vertices one_drawn_under_legend) as [|q [|q' rest]] eqn:Ev;
    try discriminate Hcross.
  injection Hcross as Hmean Harea.
  split; intros x; cbn [map]; f_equal;
    apply crossed_misses with (q := q); assumption.
Qed.

(** ** The sum of the lengths *)

(** *** Arithmetic of one section, on [Q] *)

Section TrapezoidQ.

Open Scope Q_scope.

Lemma pos_of_prod (x d a : Q) : 0 < a -> 0 < d -> x * d == a -> 0 < x.
Proof.
  intros Ha Hd E. destruct (Qlt_le_dec 0 x) as [|Hx]; [assumption |].
  exfalso.
  assert (x * d <= 0 * d) by (apply Qmult_le_compat_r; lra). lra.
Qed.

Lemma le_of_prod (x y d : Q) : 0 < d -> x * d <= y * d -> x <= y.
Proof.
  intros Hd Hle. destruct (Qlt_le_dec y x) as [Hlt|]; [| assumption].
  exfalso.
  assert (y * d < x * d) by (apply Qmult_lt_compat_r; lra). lra.
Qed.

(** A positive area fits only in a trapezoid of positive height, whose
    width at mid-height is positive. *)
Lemma fits_positive (R H b t : Q) :
  0 < R -> 0 <= t -> 0 <= H -> 0 <= b - 2 * H * t -> R <= H * (b - H * t) ->
  0 < H /\ 0 < b - H * t /\ 0 < b.
Proof.
  intros HR Ht HH Hb HRle.
  assert (H0 : 0 < H).
  { destruct (Qlt_le_dec 0 H) as [|Hle]; [assumption |].
    assert (E : H == 0) by lra. rewrite E in HRle. lra. }
  assert (0 <= H * t) by (apply Qmult_le_0_compat; lra).
  assert (Hd : 0 < b - H * t).
  { destruct (Qlt_le_dec 0 (b - H * t)) as [|Hle]; [assumption |]. exfalso.
    assert (H * (b - H * t) <= H * 0).
    { rewrite !(Qmult_comm H). apply Qmult_le_compat_r; lra. }
    lra. }
  split; [assumption |]. split; [assumption | lra].
Qed.

(** The initial guess [e = a / b]. *)
Lemma guess_bounds (a b t H e : Q) :
  0 < a -> 0 <= t -> 0 < H -> 0 < b -> 0 < b - H * t ->
  a <= H * (b - H * t) -> e * b == a ->
  0 < e /\ e <= H /\ e * (b - e * t) <= a /\ 0 < b - e * t.
Proof.
  intros Ha Ht HH Hb Hd Hle He.
  assert (He0 : 0 < e) by (apply (pos_of_prod e b a); assumption).
  assert (0 <= H * t) by (apply Qmult_le_0_compat; lra).
  assert (HeH : e <= H).
  { apply (le_of_prod e H b); [assumption |].
    assert (E : H * (b - H * t) == H * b - H * (H * t)) by ring.
    assert (0 <= H * (H * t)) by (apply Qmult_le_0_compat; lra).
    lra. }
  assert (Het : e * t <= H * t) by (apply Qmult_le_compat_r; lra).
  split; [assumption |]. split; [assumption |]. split; [| lra].
  assert (E : e * (b - e * t) == e * b - e * (e * t)) by ring.
  assert (0 <= e * (e * t)).
  { apply Qmult_le_0_compat; [lra |]. apply Qmult_le_0_compat; lra. }
  lra.
Qed.

(** One update [e' = a / (b - e * t)] of an estimate [e]. *)
Lemma update_bounds (a b t H e e' : Q) :
  0 < a -> 0 <= t -> 0 < H -> 0 < b - H * t -> a <= H * (b - H * t) ->
  0 < e -> e <= H -> e * (b - e * t) <= a -> e' * (b - e * t) == a ->
  0 < e' /\ e' <= H /\ e' * (b - e' * t) <= a /\ 0 < b - e' * t.
Proof.
  intros Ha Ht HH Hd Hle He0 HeH Hea He'.
  assert (Het : e * t <= H * t) by (apply Qmult_le_compat_r; lra).
  assert (Hd' : 0 < b - e * t) by lra.
  assert (He'0 : 0 < e') by (apply (pos_of_prod e' (b - e * t) a); assumption).
  assert (Hmono : e <= e')
    by (apply (le_of_prod e e' (b - e * t)); [assumption | lra]).
  assert (He'H : e' <= H).
  { apply (le_of_prod e' H (b - e * t)); [assumption |].
    assert (H * (b - H * t) <= H * (b - e * t)).
    { rewrite !(Qmult_comm H). apply Qmult_le_compat_r; lra. }
    lra. }
  assert (He't : e * t <= e' * t) by (apply Qmult_le_compat_r; lra).
  assert (He't' : e' * t <= H * t) by (apply Qmult_le_compat_r; lra).
  split; [assumption |]. split; [assumption |]. split; [| lra].
  assert (e' * (b - e' * t) <= e' * (b - e * t)).
  { rewrite !(Qmult_comm e'). apply Qmult_le_compat_r; lra. }
  lra.
Qed.

(** What is left of the envelope below a section of height [l]. *)
Lemma rest_fits (R a b t H l : Q) :
  R <= H * (b - H * t) -> 0 <= b - 2 * H * t ->
  l <= H -> l * (b - l * t) <= a ->
  0 <= H - l
  /\ 0 <= (b - 2 * l * t) - 2 * (H - l) * t
  /\ R - a <= (H - l) * ((b - 2 * l * t) - (H - l) * t).
Proof.
  intros HR Hb Hl Hla. split; [lra |]. split; [lra |].
  assert (E : (H - l) * ((b - 2 * l * t) - (H - l) * t)
              == H * (b - H * t) - l * (b - l * t)) by ring.
  lra.
Qed.

End TrapezoidQ.

Ltac qlin := first [lra | nra].

(** *** How fast the estimates of one section settle

    For a section of area [a] under a base [b], with walls of slope
    [t], that fits ([4 * a * t <= b * b]: the equation of the section
    has a solution).  [e0], [e], [e'] are three successive estimates
    and [m] is the number of the estimate [e], plus one. *)

Lemma mul_le_l (x y z : Q) : (0 <= z -> x <= y -> z * x <= z * y)%Q.
Proof.
  intros Hz Hxy. rewrite (Qmult_comm z x), (Qmult_comm z y).
  now apply Qmult_le_compat_r.
Qed.

Lemma square_le (x y : Q) : (0 <= x -> x <= y -> x * x <= y * y)%Q.
Proof.
  intros Hx Hxy. apply Qle_trans with (x * y)%Q.
  - now apply mul_le_l.
  - apply Qmult_le_compat_r; [assumption | lra].
Qed.

Section RateQ.

Open Scope Q_scope.

Variables a b t : Q.
Hypothesis Ha : 0 < a.
Hypothesis Hb : 0 < b.
Hypothesis Ht : 0 <= t.
Hypothesis HD : 4 * a * t <= b * b.

Lemma rate_pos (e m : Q) :
  1 <= m -> 0 < e -> e * b * (m + 1) <= 2 * a * m ->
  2 * (m + 1) * (e * t) <= b * m /\ 0 < b - e * t.
Proof.
  intros Hm He HA.
  assert (H1 : 2 * (m + 1) * (e * t) <= b * m).
  { assert (K1 : e * b * (m + 1) * t <= 2 * a * m * t)
      by (apply Qmult_le_compat_r; assumption).
    assert (K2 : m * (4 * a * t) <= m * (b * b))
      by (apply mul_le_l; qlin).
    apply (le_of_prod _ _ b); [assumption |]. qlin. }
  split; [exact H1 |].
  assert (H0 : 0 <= e * t) by (apply Qmult_le_0_compat; qlin).
  destruct (Qlt_le_dec (e * t) b) as [|Hle]; [qlin |]. exfalso.
  assert (2 * (m + 1) * b <= 2 * (m + 1) * (e * t))
    by (apply mul_le_l; qlin).
  assert (0 < b * (m + 2)) by (apply Qmult_lt_0_compat; qlin).
  qlin.
Qed.

Lemma rate_next (e e' m : Q) :
  1 <= m -> 0 < e -> e * b * (m + 1) <= 2 * a * m ->
  e' * (b - e * t) == a ->
  0 < b - e * t /\ 0 < e' /\ e' * b * (m + 2) <= 2 * a * (m + 1).
Proof.
  intros Hm He HA E.
  destruct (rate_pos e m Hm He HA) as [H1 Hd].
  assert (He' : 0 < e').
  { destruct (Qlt_le_dec 0 e') as [|Hle]; [assumption |]. exfalso.
    assert (e' * (b - e * t) <= 0 * (b - e * t))
      by (apply Qmult_le_compat_r; qlin).
    qlin. }
  split; [exact Hd |]. split; [exact He' |].
  assert (K : e' * (2 * (m + 1) * (e * t)) <= e' * (b * m))
    by (apply mul_le_l; qlin).
  qlin.
Qed.

Lemma rate_first (e0 e1 : Q) :
  e0 * b == a -> e1 * (b - e0 * t) == a ->
  0 < e0 /\ 0 < e1 /\ e0 <= e1 /\ (e1 - e0) * 4 <= e1
  /\ e0 * b * (1 + 1) <= 2 * a * 1.
Proof.
  intros E0 E1.
  assert (He0 : 0 < e0).
  { destruct (Qlt_le_dec 0 e0) as [|Hle]; [assumption |]. exfalso.
    assert (e0 * b <= 0 * b) by (apply Qmult_le_compat_r; qlin). qlin. }
  assert (HA0 : e0 * b * (1 + 1) <= 2 * a * 1) by qlin.
  destruct (rate_next e0 e1 1) as (Hd & He1 & _); try assumption; try qlin.
  assert (Hid : (e1 - e0) * b == e1 * (e0 * t)) by qlin.
  assert (H4 : 4 * (e0 * t) <= b).
  { assert (Eat : e0 * b * t == a * t) by (rewrite E0; reflexivity).
    apply (le_of_prod _ _ b); [assumption |]. qlin. }
  assert (H0 : 0 <= e0 * t) by (apply Qmult_le_0_compat; qlin).
  split; [exact He0 |]. split; [exact He1 |]. split; [| split].
  - apply (le_of_prod _ _ b); [assumption |].
    assert (0 <= e1 * (e0 * t)) by (apply Qmult_le_0_compat; qlin). qlin.
  - apply (le_of_prod _ _ b); [assumption |].
    assert (e1 * (4 * (e0 * t)) <= e1 * b) by (apply mul_le_l; qlin).
    qlin.
  - exact HA0.
Qed.

Lemma rate_step (e0 e e' m : Q) :
  1 <= m -> 0 < e0 -> 0 < e -> 0 < e' -> e0 <= e ->
  e * (b - e0 * t) == a -> e' * (b - e * t) == a ->
  e * b * (m + 1) <= 2 * a * m ->
  (e - e0) * (m * m) <= e ->
  e <= e' /\ (e' - e) * ((m + 1) * (m + 1)) <= e'.
Proof.
  intros Hm He0 He He' Hmono E E' HA HB.
  set (u := e - e0) in *.
  assert (Hu : 0 <= u) by (unfold u; qlin).
  assert (Hid : (e' - e) * a == e' * (e * t * u)).
  { unfold u.
    transitivity ((e' - e) * (e * (b - e0 * t))); [now rewrite E |].
    transitivity (e * (e' * (b - e * t)) - e * e' * (e0 * t)
                  - e * (e * (b - e0 * t)) + e * e' * (e * t)); [ring |].
    rewrite E', E. ring. }
  assert (Het : 0 <= e * t) by (apply Qmult_le_0_compat; qlin).
  assert (Hm2 : 0 < m * m) by (apply Qmult_lt_0_compat; qlin).
  assert (Hb2 : 0 < b * b) by (apply Qmult_lt_0_compat; qlin).
  assert (Hkey : e * t * u * ((m + 1) * (m + 1)) <= a).
  { apply (le_of_prod _ _ ((m * m) * (b * b)));
      [apply Qmult_lt_0_compat; assumption |].
    (* u * m^2 <= e *)
    assert (K1 : e * t * ((m + 1) * (m + 1)) * (b * b) * (u * (m * m))
                 <= e * t * ((m + 1) * (m + 1)) * (b * b) * e).
    { apply mul_le_l; [| assumption].
      repeat apply Qmult_le_0_compat; qlin. }
    (* (e b (m+1))^2 <= (2 a m)^2 *)
    assert (Hx : 0 <= e * b * (m + 1))
      by (repeat apply Qmult_le_0_compat; qlin).
    assert (K2 : (e * b * (m + 1)) * (e * b * (m + 1))
                 <= (2 * a * m) * (2 * a * m))
      by (apply square_le; assumption).
    assert (K3 : t * ((e * b * (m + 1)) * (e * b * (m + 1)))
                 <= t * ((2 * a * m) * (2 * a * m)))
      by (apply mul_le_l; assumption).
    assert (K4 : a * (m * m) * (4 * a * t) <= a * (m * m) * (b * b)).
    { apply mul_le_l; [| assumption].
      repeat apply Qmult_le_0_compat; qlin. }
    apply Qle_trans
      with (e * t * ((m + 1) * (m + 1)) * (b * b) * (u * (m * m)));
      [apply Qle_lteq; right; ring |].
    apply Qle_trans with (e * t * ((m + 1) * (m + 1)) * (b * b) * e);
      [exact K1 |].
    apply Qle_trans with (t * ((e * b * (m + 1)) * (e * b * (m + 1))));
      [apply Qle_lteq; right; ring |].
    apply Qle_trans with (t * ((2 * a * m) * (2 * a * m))); [exact K3 |].
    apply Qle_trans with (a * (m * m) * (4 * a * t));
      [apply Qle_lteq; right; ring |].
    apply Qle_trans with (a * (m * m) * (b * b)); [exact K4 |].
    apply Qle_lteq; right; ring. }
  assert (Hprod : 0 <= e * t * u) by (apply Qmult_le_0_compat; assumption).
  split.
  - apply (le_of_prod _ _ a); [assumption |].
    assert (0 <= e' * (e * t * u)) by (apply Qmult_le_0_compat; qlin).
    qlin.
  - apply (le_of_prod _ _ a); [assumption |].
    apply Qle_trans with (e' * (e * t * u * ((m + 1) * (m + 1)))).
    + apply Qle_lteq; right.
      transitivity ((e' - e) * a * ((m + 1) * (m + 1))); [ring |].
      rewrite Hid. ring.
    + apply mul_le_l; qlin.
Qed.

(** What the estimate kept leaves of the area. *)
Lemma rate_deficit (e0 e m tol : Q) :
  1 <= m -> 0 < e0 -> 0 < e -> e0 <= e ->
  e * (b - e0 * t) == a ->
  e * b * (m + 1) <= 2 * a * m ->
  0 <= tol ->
  e - e0 <= e * tol ->
  0 <= a - e * (b - e * t)
  /\ a - e * (b - e * t) <= tol * (t * (e * e))
  /\ t * (e * e) <= a.
Proof.
  intros Hm He0 He Hmono E HA Htol Hstop.
  assert (Hid : a - e * (b - e * t) == e * t * (e - e0)).
  { rewrite <- E. ring. }
  assert (Het : 0 <= e * t) by (apply Qmult_le_0_compat; qlin).
  assert (Hb2 : 0 < b * b) by (apply Qmult_lt_0_compat; qlin).
  split; [| split].
  - rewrite Hid. apply Qmult_le_0_compat; qlin.
  - rewrite Hid.
    apply Qle_trans with (e * t * (e * tol)).
    + apply mul_le_l; assumption.
    + apply Qle_lteq; right; ring.
  - assert (Hx : 0 <= e * b) by (apply Qmult_le_0_compat; qlin).
    assert (Hle : e * b <= 2 * a).
    { apply (le_of_prod _ _ (m + 1)); [qlin |].
      assert (2 * a * m <= 2 * a * (m + 1)) by (apply mul_le_l; qlin).
      qlin. }
    assert (K1 : (e * b) * (e * b) <= (2 * a) * (2 * a))
      by (apply square_le; assumption).
    assert (K2 : t * ((e * b) * (e * b)) <= t * ((2 * a) * (2 * a)))
      by (apply mul_le_l; assumption).
    assert (K3 : a * (4 * a * t) <= a * (b * b)) by (apply mul_le_l; qlin).
    apply (le_of_prod _ _ (b * b)); [assumption |].
    apply Qle_trans with (t * ((e * b) * (e * b)));
      [apply Qle_lteq; right; ring |].
    apply Qle_trans with (t * ((2 * a) * (2 * a))); [exact K2 |].
    apply Qle_trans with (a * (4 * a * t)); [apply Qle_lteq; right; ring |].
    exact K3.
Qed.

End RateQ.

(** *** The estimates of one section, on [Qc] *)

Lemma iterate_q_bounds (a b t H R : Qc) :
  (0 < a)%Qc -> (a <= R)%Qc -> fits R H b t ->
  forall k,
    (0 < iterate_q a b t k
     /\ iterate_q a b t k <= H
     /\ iterate_q a b t k * (b - iterate_q a b t k * t) <= a
     /\ 0 < b - iterate_q a b t k * t)%Qc.
Proof.
  intros Ha HaR (Ht & HH & Hb & HR). unfold Qc_of_Z in Hb.
  qc2q.
  destruct (fits_positive (this R) (this H) (this b) (this t))
    as (HH0 & Hd & Hb0); try assumption; try lra.
  assert (HaH : (this a <= this H * (this b - this H * this t))%Q) by lra.
  induction k as [|k IH]; cbn [iterate_q]; qc2q.
  - apply guess_bounds with (H := this H); try assumption.
    field. lra.
  - destruct IH as (He0 & HeH & Hea & Hde).
    apply update_bounds with (H := this H) (e := this (iterate_q a b t k));
      try assumption.
    field. lra.
Qed.

Lemma fits_base_positive (a b t H R : Qc) :
  (0 < a)%Qc -> (a <= R)%Qc -> fits R H b t -> (0 < b)%Qc.
Proof.
  intros Ha HaR (Ht & HH & Hb & HR). unfold Qc_of_Z in Hb.
  qc2q.
  destruct (fits_positive (this R) (this H) (this b) (this t))
    as (HH0 & Hd & Hb0); try assumption; lra.
Qed.

(** *** The estimates of one section settle within the tolerance

    [e k] is the estimate number [k]; the estimates grow, the estimate
    [k] is at most [2 * (a / b) * (k + 1) / (k + 2)], and the step to
    the estimate [k + 1] is at most that estimate divided by
    [(k + 2) ^ 2]. *)

Lemma Q_of_succ (k : nat) :
  (inject_Z (Z.of_nat (S k)) == inject_Z (Z.of_nat k) + 1)%Q.
Proof.
  replace (Z.of_nat (S k)) with (Z.of_nat k + 1)%Z by lia.
  now rewrite inject_Z_plus.
Qed.

Lemma Q_of_nat_nonneg (k : nat) : (0 <= inject_Z (Z.of_nat k))%Q.
Proof. change 0%Q with (inject_Z 0). rewrite <- Zle_Qle. lia. Qed.

Lemma iterate_q_rate (a b t : Qc) :
  (0 < a)%Qc -> (0 < b)%Qc -> (0 <= t)%Qc ->
  (Qc_of_Z 4 * a * t <= b * b)%Qc ->
  forall k,
    let e := this (iterate_q a b t k) in
    let e' := this (iterate_q a b t (S k)) in
    let m := (inject_Z (Z.of_nat k) + 1)%Q in
    (0 < e /\ 0 < e' /\ e <= e'
     /\ e * this b * (m + 1) <= 2 * this a * m
     /\ (e' - e) * ((m + 1) * (m + 1)) <= e'
     /\ e' * (this b - e * this t) == this a)%Q.
Proof.
  intros Ha Hb Ht HD. unfold Qc_of_Z in HD. qc2q.
  change (this 0%Qc) with 0%Q in *.
  unfold inject_Z in HD.
  assert (HD' : (4 * this a * this t <= this b * this b)%Q) by lra.
  assert (Estep : forall k,
            (0 < this b - this (iterate_q a b t k) * this t)%Q ->
            (this (iterate_q a b t (S k))
             * (this b - this (iterate_q a b t k) * this t) == this a)%Q).
  { intros k Hd. cbn [iterate_q]. qc2q. field. lra. }
  induction k as [|k IH]; cbv zeta.
  - assert (E0 : (this (iterate_q a b t 0) * this b == this a)%Q).
    { cbn [iterate_q]. qc2q. field. lra. }
    assert (He0 : (0 < this (iterate_q a b t 0))%Q).
    { apply (pos_of_prod _ (this b) (this a)); assumption. }
    change (inject_Z (Z.of_nat 0)) with 0%Q.
    assert (HA0 : (this (iterate_q a b t 0) * this b * (0 + 1 + 1)
                   <= 2 * this a * (0 + 1))%Q) by lra.
    destruct (rate_pos (this a) (this b) (this t) Hb Ht HD'
                (this (iterate_q a b t 0)) (0 + 1)) as [_ Hd];
      [lra | assumption | assumption |].
    pose proof (Estep 0%nat Hd) as E1.
    destruct (rate_first (this a) (this b) (this t) Ha Hb Ht HD'
                (this (iterate_q a b t 0)) (this (iterate_q a b t 1))
                E0 E1) as (_ & He1 & Hmono & HB & _).
    repeat split; try assumption.
  - cbv zeta in IH. destruct IH as (He & He' & Hmono & HA & HB & E).
    set (m := (inject_Z (Z.of_nat k) + 1)%Q) in *.
    assert (Hm : (1 <= m)%Q).
    { unfold m. pose proof (Q_of_nat_nonneg k). lra. }
    assert (Em : (inject_Z (Z.of_nat (S k)) + 1 == m + 1)%Q).
    { unfold m. rewrite Q_of_succ. reflexivity. }
    rewrite Em.
    destruct (rate_next (this a) (this b) (this t) Ha Hb Ht HD'
                (this (iterate_q a b t k)) (this (iterate_q a b t (S k)))
                m Hm He HA E) as (_ & _ & HA').
    assert (HA'' : (this (iterate_q a b t (S k)) * this b * (m + 1 + 1)
                    <= 2 * this a * (m + 1))%Q) by lra.
    destruct (rate_pos (this a) (this b) (this t) Hb Ht HD'
                (this (iterate_q a b t (S k))) (m + 1)) as [_ Hd'];
      [lra | assumption | assumption |].
    pose proof (Estep (S k) Hd') as E'.
    assert (He'' : (0 < this (iterate_q a b t (S (S k))))%Q).
    { apply (pos_of_prod _ _ (this a) Ha Hd' E'). }
    assert (Hm1 : (1 <= m + 1)%Q) by lra.
    destruct (rate_step (this a) (this b) (this t) Ha Hb Ht HD'
                (this (iterate_q a b t k)) (this (iterate_q a b t (S k)))
                (this (iterate_q a b t (S (S k)))) (m + 1)
                Hm1 He He' He'' Hmono E E' HA'' HB)
      as (Hmono' & HB').
    repeat split; assumption.
Qed.

(** *** From rationals to numbers *)

Lemma Qc_is_zero_false (b : Qc) : b <> 0%Qc -> Qc_is_zero b = false.
Proof.
  intros Hb. unfold Qc_is_zero, Qc_sign.
  destruct (b ?= 0)%Qc eqn:E; try reflexivity.
  apply (proj2 (Qceq_alt _ _)) in E. contradiction.
Qed.

Lemma div_Fin (a b : Qc) : b <> 0%Qc -> (Fin a / Fin b)%js = Fin (a / b)%Qc.
Proof. intros Hb. simpl. now rewrite Qc_is_zero_false. Qed.

Lemma gt_Fin (x y : Qc) : (y < x)%Qc -> (Fin x >? Fin y)%js = true.
Proof.
  intros H. unfold num_gt, num_compare.
  now rewrite (proj1 (Qcgt_alt x y) H).
Qed.

Lemma Qc_pos_neq (x : Qc) : (0 < x)%Qc -> x <> 0%Qc.
Proof. intros H E. subst. qc2q. lra. Qed.

Lemma iterate_Fin (a b t : Qc) (k : nat) :
  b <> 0%Qc ->
  (forall j, (j < k)%nat -> (b - iterate_q a b t j * t)%Qc <> 0%Qc) ->
  iterate (Fin a) (Fin b) (Fin t) k = Fin (iterate_q a b t k).
Proof.
  intros Hb. induction k as [|k IH]; intros Hd; cbn [iterate iterate_q].
  - now apply div_Fin.
  - rewrite IH by (intros j Hj; apply Hd; lia).
    apply div_Fin. apply Hd. lia.
Qed.

Lemma first_within_le (a b t : number) (n k j : nat) :
  (k <= j < k + n)%nat -> within_tolerance a b t j = true ->
  (first_within a b t k n <= j)%nat.
Proof.
  revert k. induction n as [|n IH]; intros k Hj Hw; cbn [first_within].
  - lia.
  - destruct (within_tolerance a b t k) eqn:E; [lia |].
    destruct (Nat.eq_dec j k) as [-> | Hne]; [congruence |].
    apply IH; [lia | assumption].
Qed.

Lemma le_Fin (x y : Qc) : (Fin x <=? Fin y)%js = true <-> (x <= y)%Qc.
Proof.
  unfold num_le, num_compare. split.
  - intros H. destruct (x ?= y)%Qc eqn:E; try discriminate.
    + apply Qceq_alt in E. subst. apply Qcle_refl.
    + apply Qclt_le_weak. now apply Qclt_alt.
  - intros H. destruct (x ?= y)%Qc eqn:E; try reflexivity.
    apply Qcgt_alt in E. exfalso. apply (Qclt_not_le _ _ E H).
Qed.

(** The test [|length - previous guess| <= length * 1e-4] on two
    estimates, the later one the larger. *)
Lemma within_tolerance_Fin (a b t : Qc) (k : nat) :
  iterate (Fin a) (Fin b) (Fin t) k = Fin (iterate_q a b t k) ->
  iterate (Fin a) (Fin b) (Fin t) (S k) = Fin (iterate_q a b t (S k)) ->
  (iterate_q a b t k <= iterate_q a b t (S k))%Qc ->
  within_tolerance (Fin a) (Fin b) (Fin t) (S k) = true
  <-> (this (iterate_q a b t (S k)) - this (iterate_q a b t k)
       <= this (iterate_q a b t (S k)) * (1 # 10000))%Q.
Proof.
  intros Ek ESk Hmono. unfold within_tolerance.
  replace (S k - 1)%nat with k by lia. rewrite Ek, ESk.
  set (e := iterate_q a b t k) in *. set (e' := iterate_q a b t (S k)) in *.
  assert (Hneg : Qc_is_neg (e' + - e)%Qc = false).
  { unfold Qc_is_neg, Qc_sign.
    destruct ((e' + - e) ?= 0)%Qc eqn:E; try reflexivity.
    apply Qclt_alt in E. exfalso. qc2q. change (this 0%Qc) with 0%Q in E.
    lra. }
  cbn [sub neg add Math_abs]. rewrite Hneg.
  unfold tolerance, of_frac. cbn [mul]. rewrite le_Fin.
  unfold Qcle. rewrite this_plus, this_opp, this_mult, this_Q2Qc.
  split; intros H; lra.
Qed.

(** An area that fits under the base [b] has a solution: the
    discriminant of its equation is not negative. *)
Lemma fits_discriminant (a b t H R : Qc) :
  (0 < a)%Qc -> (a <= R)%Qc -> fits R H b t ->
  (Qc_of_Z 4 * a * t <= b * b)%Qc.
Proof.
  intros Ha HaR (Ht & HH & Hb & HR). unfold Qc_of_Z in *. qc2q.
  change (this 0%Qc) with 0%Q in *. unfold inject_Z in *.
  assert (K1 : (this a * this t <= this H * (this b - this H * this t) * this t)%Q)
    by (apply Qmult_le_compat_r; lra).
  assert (K2 : (0 <= ((this b - (2 # 1) * this H * this t)
                      * (this b - (2 # 1) * this H * this t)))%Q)
    by (apply Qmult_le_0_compat; lra).
  lra.
Qed.

(** The loop for section [i], entered with a base [b], an area [a] and
    remaining sections that fit in the envelope left: the length kept
    is positive, it does not exceed the height [H] left, the section
    it cuts off holds at most the area [a], and what it leaves of the
    area is at most [1e-4 * t * l * l], itself at most [1e-4 * a]:
    the loop stops on its tolerance, before the cap of [100] turns. *)
Lemma solve_section_close (areas : list number) (ang : angle) (st : solver)
    (i : nat) (a b t s H R : Qc) :
  array_get areas i = Fin a ->
  array_get (bases st) i = Fin b ->
  Math_tan ang = Fin t ->
  lsum st = Fin s ->
  (0 < a)%Qc -> (a <= R)%Qc -> fits R H b t ->
  (H < Qc_of_Z 9999990000)%Qc ->
  exists l : Qc,
    (0 < l /\ l <= H /\ l * (b - l * t) <= a
     /\ a - l * (b - l * t) <= Q2Qc (1 # 10000) * (t * (l * l))
     /\ t * (l * l) <= a)%Qc
    /\ bases (solve_section areas ang st i)
       = array_set (bases st) (i + 1) (Fin (b - Qc_of_Z 2 * l * t)%Qc)
    /\ lengths (solve_section areas ang st i)
       = array_set (lengths st) i (Fin l)
    /\ lsum (solve_section areas ang st i) = Fin (s + l)%Qc.
Proof.
  intros Ea Eb Et Es Ha HaR Hfits HH.
  pose proof (iterate_q_bounds a b t H R Ha HaR Hfits) as Hbounds.
  pose proof (fits_base_positive a b t H R Ha HaR Hfits) as Hb0.
  pose proof (fits_discriminant a b t H R Ha HaR Hfits) as HD.
  assert (Ht : (0 <= t)%Qc) by apply Hfits.
  pose proof (iterate_q_rate a b t Ha Hb0 Ht HD) as Hrate. cbv zeta in Hrate.
  assert (Hest : forall k, iterate (Fin a) (Fin b) (Fin t) k
                           = Fin (iterate_q a b t k)).
  { intros k. apply iterate_Fin; [now apply Qc_pos_neq |].
    intros j _. apply Qc_pos_neq. apply (Hbounds j). }
  assert (Hentry : (of_Z 999999
                    >? iterate (array_get areas i) (array_get (bases st) i)
                         (Math_tan ang) 0 * tolerance)%js = true).
  { rewrite Ea, Eb, Et, Hest. apply gt_Fin.
    destruct (Hbounds 0%nat) as (_ & Hle & _). unfold Qc_of_Z in HH.
    qc2q. unfold inject_Z in *. lra. }
  assert (Hfin : forall j,
             (j <= iterations (array_get areas i) (array_get (bases st) i)
                     (Math_tan ang))%nat ->
             is_finite (iterate (array_get areas i) (array_get (bases st) i)
                          (Math_tan ang) j) = true).
  { intros j _. rewrite Ea, Eb, Et, Hest. reflexivity. }
  assert (Hwithin : forall k,
             within_tolerance (Fin a) (Fin b) (Fin t) (S k) = true
             <-> (this (iterate_q a b t (S k)) - this (iterate_q a b t k)
                  <= this (iterate_q a b t (S k)) * (1 # 10000))%Q).
  { intros k. apply within_tolerance_Fin; [apply Hest | apply Hest |].
    unfold Qcle. apply (Hrate k). }
  assert (H99 : within_tolerance (Fin a) (Fin b) (Fin t) 99 = true).
  { apply (Hwithin 98%nat).
    destruct (Hrate 98%nat) as (_ & He' & _ & _ & HB & _).
    change (inject_Z (Z.of_nat 98) + 1 + 1)%Q with (100 # 1)%Q in HB.
    lra. }
  pose proof (first_within_bounds (array_get areas i) (array_get (bases st) i)
                (Math_tan ang) 99 1) as HK.
  pose proof (first_within_stop (array_get areas i) (array_get (bases st) i)
                (Math_tan ang) 99 1) as Hstop.
  pose proof (first_within_le (array_get areas i) (array_get (bases st) i)
                (Math_tan ang) 99 1 99) as Hle.
  fold (iterations (array_get areas i) (array_get (bases st) i) (Math_tan ang))
    in HK, Hstop, Hle.
  unfold solve_section.
  rewrite (solve_while_section areas ang i st Hentry Hfin).
  rewrite Ea, Eb, Et in HK, Hstop, Hle |- *.
  specialize (Hle ltac:(lia) H99).
  destruct (iterations (Fin a) (Fin b) (Fin t)) as [|k]; [lia |].
  destruct Hstop as [Hstop | Hstop]; [lia |].
  apply Hwithin in Hstop.
  destruct (Hrate k) as (He & He' & Hmono & HA & HB & E).
  destruct (Hrate (S k)) as (_ & _ & _ & HA' & _).
  assert (Hm : (1 <= inject_Z (Z.of_nat (S k)) + 1)%Q).
  { pose proof (Q_of_nat_nonneg (S k)). lra. }
  unfold Qc_of_Z in HD. qc2q. change (this 0%Qc) with 0%Q in *.
  unfold inject_Z in HD.
  assert (HD' : (4 * this a * this t <= this b * this b)%Q) by lra.
  destruct (rate_deficit (this a) (this b) (this t) Ha Hb0 Ht HD'
              (this (iterate_q a b t k)) (this (iterate_q a b t (S k)))
              (inject_Z (Z.of_nat (S k)) + 1) (1 # 10000)
              Hm He He' Hmono E HA' ltac:(lra) Hstop)
    as (Hd0 & Hd1 & Hd2).
  exists (iterate_q a b t (S k)).
  split; [| split; [| split]].
  - destruct (Hbounds (S k)) as (H1 & H2 & H3 & _).
    split; [exact H1 |]. split; [exact H2 |]. split; [exact H3 |].
    split; qc2q; lra.
  - unfold after_turns. cbn [bases]. now rewrite ?Ea, ?Eb, ?Et, Hest.
  - unfold after_turns. cbn [lengths]. now rewrite ?Ea, ?Eb, ?Et, Hest.
  - unfold after_turns. cbn [lsum lengths].
    now rewrite array_get_set_same, ?Ea, ?Eb, ?Et, Hest, Es.
Qed.

Lemma Qc_sum_nonneg (l : list Qc) :
  Forall (fun a => (0 < a)%Qc) l -> (0 <= Qc_sum l)%Qc.
Proof.
  induction 1 as [|a l Ha _ IH]; cbn [Qc_sum fold_right].
  - qc2q. lra.
  - fold (Qc_sum l). qc2q. lra.
Qed.

(** What is left of the envelope below the section just solved still
    holds the sections that remain. *)
Lemma fits_rest (a b t H l R : Qc) :
  fits (a + R) H b t ->
  (l <= H)%Qc -> (l * (b - l * t) <= a)%Qc ->
  fits R (H - l) (b - Qc_of_Z 2 * l * t) t.
Proof.
  unfold fits, Qc_of_Z. intros (Ht & HH & Hb & HR) Hl Hla. qc2q.
  destruct (rest_fits (this a + this R) (this a) (this b) (this t)
              (this H) (this l)) as (H1 & H2 & H3); try assumption.
  repeat split; try assumption; unfold inject_Z in *; lra.
Qed.

(** The part of the envelope left below the sections solved so far,
    on [Q]: [H] and [b] are the height and the base left before a
    section of length [l] and area [a], [x] is the sum of the lengths
    of the sections after it, and [D] bounds what they leave. *)
Lemma close_step (a b t H l x R c D : Q) :
  (0 <= t -> 0 < l -> 0 <= x -> 0 <= c ->
   a - l * (b - l * t) <= c * (t * (l * l)) ->
   D <= (H - l) * ((b - 2 * l * t) - (H - l) * t) - R + c * (t * (x * x)) ->
   D <= H * (b - H * t) - (a + R) + c * (t * ((l + x) * (l + x))))%Q.
Proof.
  intros Ht Hl Hx Hc Hdef HD.
  assert (E : ((H - l) * ((b - 2 * l * t) - (H - l) * t)
               == H * (b - H * t) - l * (b - l * t))%Q) by ring.
  assert (Hsq : (l * l + x * x <= (l + x) * (l + x))%Q).
  { assert (0 <= l * x)%Q by (apply Qmult_le_0_compat; lra).
    assert (E2 : ((l + x) * (l + x) == l * l + x * x + 2 * (l * x))%Q)
      by ring.
    lra. }
  assert (Hct : (0 <= c * t)%Q) by (apply Qmult_le_0_compat; assumption).
  assert (K : (c * t * (l * l + x * x) <= c * t * ((l + x) * (l + x)))%Q)
    by (apply mul_le_l; assumption).
  assert (E3 : (c * (t * (l * l)) + c * (t * (x * x))
                == c * t * (l * l + x * x))%Q) by ring.
  assert (E4 : (c * (t * ((l + x) * (l + x)))
                == c * t * ((l + x) * (l + x)))%Q) by ring.
  lra.
Qed.

(** The loop over the sections [k], [k + 1], ... whose areas are
    [rest]: the sum of the lengths grows by at most the height [H]
    left, and the part of the envelope left below the last section
    holds no more than the envelope had to spare, and what the stops
    on the tolerance leave. *)
Lemma solve_sections_close (areas : list number) (ang : angle) (t : Qc) :
  Math_tan ang = Fin t ->
  forall (rest : list Qc) (k : nat) (st : solver) (b H s : Qc),
    (forall j, (j < List.length rest)%nat ->
               array_get areas (k + j) = Fin (nth j rest 0%Qc)) ->
    Forall (fun a => (0 < a)%Qc) rest ->
    fits (Qc_sum rest) H b t ->
    (H < Qc_of_Z 9999990000)%Qc ->
    array_get (bases st) k = Fin b ->
    lsum st = Fin s ->
    exists S : Qc,
      lsum (fold_left (solve_section areas ang) (seq k (List.length rest)) st)
      = Fin S
      /\ (s <= S)%Qc /\ (S <= s + H)%Qc /\ (rest <> [] -> (s < S)%Qc)
      /\ ((s + H - S)
          * ((b - Qc_of_Z 2 * (S - s) * t) - (s + H - S) * t)
          <= H * (b - H * t) - Qc_sum rest
             + Q2Qc (1 # 10000) * (t * ((S - s) * (S - s))))%Qc.
Proof.
  intros Et. induction rest as [|a rest IH];
    intros k st b H s Hareas Hpos Hfits HH Eb Es.
  - exists s. cbn [List.length seq fold_left].
    destruct Hfits as (_ & H0 & _).
    split; [assumption |]. split; [qc2q; lra |].
    split; [qc2q; lra |]. split; [congruence |].
    cbn [Qc_sum fold_right]. unfold Qc_of_Z. qc2q.
    change (this 0%Qc) with 0%Q. unfold inject_Z.
    apply Qle_lteq. right. ring.
  - inversion Hpos as [|? ? Ha Hrest]; subst.
    cbn [List.length seq fold_left]. cbn [Qc_sum fold_right] in Hfits |- *.
    fold (Qc_sum rest) in Hfits |- *.
    pose proof (Qc_sum_nonneg rest Hrest) as Hsum.
    assert (HaR : (a <= a + Qc_sum rest)%Qc) by (qc2q; lra).
    assert (Ea : array_get areas k = Fin a).
    { rewrite <- (Nat.add_0_r k) at 1. apply (Hareas 0%nat). simpl. lia. }
    assert (Ht : (0 <= t)%Qc) by apply Hfits.
    destruct (solve_section_close areas ang st k a b t s H (a + Qc_sum rest)
                Ea Eb Et Es Ha HaR Hfits HH)
      as (l & (Hl0 & HlH & Hla & Hdef & _) & Ebases & _ & Elsum).
    destruct (IH (S k) (solve_section areas ang st k)
                (b - Qc_of_Z 2 * l * t)%Qc (H - l)%Qc (s + l)%Qc)
      as (S' & ES' & Hlo & Hhi & _ & Hclose).
    + intros j Hj. replace (S k + j)%nat with (k + S j)%nat by lia.
      apply (Hareas (S j)). simpl. lia.
    + assumption.
    + now apply fits_rest with (a := a).
    + qc2q. lra.
    + rewrite Ebases, Nat.add_1_r. apply array_get_set_same.
    + assumption.
    + exists S'. split; [assumption |].
      split; [qc2q; lra |]. split; [qc2q; lra |].
      split; [intros _; qc2q; lra |].
      unfold Qc_of_Z in *. qc2q. change (this 0%Qc) with 0%Q in *.
      unfold inject_Z in *.
      set (x := (this S' - (this s + this l))%Q) in *.
      assert (Hx : (0 <= x)%Q) by (unfold x; lra).
      pose proof (close_step (this a) (this b) (this t) (this H) (this l) x
                    (this (Qc_sum rest)) (1 # 10000)
                    ((this s + this H - this S')
                     * (this b - (2 # 1) * (this S' - this s) * this t
                        - (this s + this H - this S') * this t))
                    Ht Hl0 Hx ltac:(lra) Hdef) as Hstep.
      assert (Elx : (this l + x == this S' - this s)%Q) by (unfold x; ring).
      rewrite Elx in Hstep. apply Hstep.
      eapply Qle_trans; [| exact Hclose].
      apply Qle_lteq. right. unfold x. ring.
Qed.

(** *** The running sum [lsum] is the sum of the lengths *)

Lemma solve_while_others (areas : list number) (ang : angle) (i : nat) :
  forall (fuel : nat) (st : solver),
    lsum (solve_while fuel areas ang i st) = lsum st
    /\ (forall j, j <> i ->
          array_get (lengths (solve_while fuel areas ang i st)) j
          = array_get (lengths st) j).
Proof.
  induction fuel as [|fuel IH]; intros st; cbn [solve_while].
  - now split.
  - destruct (solve_test i st); [| now split].
    destruct (IH (solve_step areas ang i st)) as [Hl Hj]. split.
    + rewrite Hl. reflexivity.
    + intros j Hne. rewrite (Hj j Hne). unfold solve_step. cbn [lengths].
      apply array_get_set_other. congruence.
Qed.

Lemma solve_section_others (areas : list number) (ang : angle)
    (st : solver) (i : nat) :
  lsum (solve_section areas ang st i)
  = (lsum st + array_get (lengths (solve_section areas ang st i)) i)%js
  /\ (forall j, j <> i ->
        array_get (lengths (solve_section areas ang st i)) j
        = array_get (lengths st) j).
Proof.
  unfold solve_section. cbn [lsum lengths].
  destruct (solve_while_others areas ang i 100 (solve_start areas i st))
    as [Hl Hj].
  split.
  - now rewrite Hl.
  - intros j Hne. rewrite (Hj j Hne). unfold solve_start. cbn [lengths].
    apply array_get_set_other. congruence.
Qed.

Lemma solve_sections_keep (areas : list number) (ang : angle) :
  forall (m k : nat) (st : solver) (j : nat),
    (j < k)%nat ->
    array_get (lengths (fold_left (solve_section areas ang) (seq k m) st)) j
    = array_get (lengths st) j.
Proof.
  induction m as [|m IH]; intros k st j Hj; cbn [seq fold_left].
  - reflexivity.
  - rewrite IH by lia.
    apply (solve_section_others areas ang st k). lia.
Qed.

Lemma lsum_is_sum_of_lengths (areas : list number) (ang : angle) :
  forall (m k : nat) (st : solver),
    lsum (fold_left (solve_section areas ang) (seq k m) st)
    = fold_left
        (fun h j =>
           (h + array_get
                  (lengths (fold_left (solve_section areas ang) (seq k m) st))
                  j)%js)
        (seq k m) (lsum st).
Proof.
  induction m as [|m IH]; intros k st; cbn [seq fold_left].
  - reflexivity.
  - rewrite IH at 1.
    rewrite (proj1 (solve_section_others areas ang st k)).
    rewrite (solve_sections_keep areas ang m (S k) _ k) by lia.
    reflexivity.
Qed.

(** *** The envelope holds all the sections *)

Lemma envelope_fits (pw ph wr : Qc) :
  (0 < pw)%Qc -> (0 < ph)%Qc -> (0 <= wr)%Qc -> (wr <= 1)%Qc ->
  fits (ph / Qc_of_Z 2 * (pw + pw * wr))%Qc ph pw
    ((pw - pw * wr) / Qc_of_Z 2 / ph)%Qc
  /\ (0 < ph / Qc_of_Z 2 * (pw + pw * wr))%Qc.
Proof.
  intros Hpw Hph Hwr0 Hwr1. unfold fits, Qc_of_Z. qc2q.
  unfold inject_Z.
  set (T := ((this pw - this pw * this wr) / (2 # 1) / this ph)%Q).
  set (A := (this ph / (2 # 1) * (this pw + this pw * this wr))%Q).
  assert (ET : (T * ((2 # 1) * this ph) == this pw - this pw * this wr)%Q)
    by (unfold T; field; lra).
  assert (Hprod : (0 <= this pw * this wr)%Q)
    by (apply Qmult_le_0_compat; lra).
  assert (Hprod1 : (this pw * this wr <= this pw * 1)%Q).
  { rewrite !(Qmult_comm (this pw)). apply Qmult_le_compat_r; lra. }
  assert (HT : (0 <= T)%Q).
  { apply (le_of_prod 0 T ((2 # 1) * this ph)); [lra |]. rewrite ET. lra. }
  assert (E2 : ((2 # 1) * this ph * T == this pw - this pw * this wr)%Q)
    by (unfold T; field; lra).
  assert (E3 : (this ph * (this pw - this ph * T) == A)%Q)
    by (unfold T, A; field; lra).
  assert (EA : ((2 # 1) * A == this ph * (this pw + this pw * this wr))%Q)
    by (unfold A; field).
  assert (HA : (0 < this ph * (this pw + this pw * this wr))%Q)
    by (apply Qmult_lt_0_compat; lra).
  repeat split; try assumption; lra.
Qed.

Lemma Qc_sum_scale (A : Qc) (ws : list Qc) :
  Qc_sum (map (fun w => (w * A)%Qc) ws) = (Qc_sum ws * A)%Qc.
Proof.
  induction ws as [|w ws IH]; cbn [map Qc_sum fold_right].
  - ring.
  - fold (Qc_sum (map (fun w => (w * A)%Qc) ws)). fold (Qc_sum ws).
    rewrite IH. ring.
Qed.

Lemma array_get_map_Fin (l : list Qc) (j : nat) :
  (j < List.length l)%nat -> array_get (map Fin l) j = Fin (nth j l 0%Qc).
Proof.
  intros Hj. unfold array_get.
  rewrite (nth_indep _ NaN (Fin 0%Qc)) by (now rewrite length_map).
  apply (map_nth Fin).
Qed.

(** The height [d = ph - S] left below the last section, from what
    the sections leave of their areas. *)
Lemma close_sum (pw ph wr t S : Q) :
  (0 < pw -> 0 <= wr -> wr <= 1 ->
   (2 # 1) * ph * t == pw - pw * wr -> 0 <= t ->
   0 < S -> S <= ph ->
   (ph - S) * ((pw - (2 # 1) * S * t) - (ph - S) * t)
   <= (1 # 10000) * (t * (S * S)) ->
   (100 # 1) * (ph - S) <= S)%Q.
Proof.
  intros Hpw Hwr0 Hwr1 E2 Ht HS HSph Hclose.
  set (d := (ph - S)%Q) in *.
  assert (Hd : (0 <= d)%Q) by (unfold d; lra).
  assert (Ed : (d * ((pw - (2 # 1) * S * t) - d * t)
                == d * (pw * wr) + t * (d * d))%Q).
  { transitivity (d * (pw - (2 # 1) * ph * t) + t * (d * d))%Q;
      [unfold d; ring |].
    rewrite E2. ring. }
  rewrite Ed in Hclose.
  assert (Hpwwr : (0 <= pw * wr)%Q) by (apply Qmult_le_0_compat; lra).
  assert (Hdw : (0 <= d * (pw * wr))%Q) by (apply Qmult_le_0_compat; lra).
  destruct (Qlt_le_dec 0 t) as [Ht0 | Ht0].
  - assert (K : (t * ((100 # 1) * d * ((100 # 1) * d)) <= t * (S * S))%Q).
    { assert (E : (t * ((100 # 1) * d * ((100 # 1) * d))
                   == (10000 # 1) * (t * (d * d)))%Q) by ring.
      lra. }
    destruct (Qlt_le_dec S ((100 # 1) * d)) as [Hlt |]; [| assumption].
    exfalso.
    assert (K1 : (S * S < (100 # 1) * d * ((100 # 1) * d))%Q).
    { apply Qle_lt_trans with (S * ((100 # 1) * d))%Q.
      - apply mul_le_l; lra.
      - apply Qmult_lt_compat_r; lra. }
    assert (K2 : (t * (S * S) < t * ((100 # 1) * d * ((100 # 1) * d)))%Q).
    { rewrite !(Qmult_comm t). apply Qmult_lt_compat_r; assumption. }
    lra.
  - assert (Et : (t == 0)%Q) by lra.
    rewrite Et in E2, Hclose.
    assert (Ewr : (pw * wr == pw)%Q) by lra.
    rewrite Ewr in Hclose.
    assert (Hz : (d * pw <= 0 * pw)%Q) by lra.
    assert (d <= 0)%Q by (apply (le_of_prod d 0 pw); assumption).
    lra.
Qed.

(** The sum of the lengths in the exact arithmetic of this file: it
    does not exceed the plot height, and it is short of it by at most
    a hundredth of itself. *)
Lemma sum_of_lengths_exact
    (this : series_t) (cw ch : number) (gd : list datapoint)
    (legendInfo : option legendInfo_t) (pw ph wr : Qc) (ws : list Qc) :
  _areas this = [] ->
  (cw - loff this legendInfo - roff this legendInfo)%js = Fin pw ->
  (ch - toff this legendInfo - boff this legendInfo)%js = Fin ph ->
  widthRatio this = Fin wr ->
  map snd gd = map Fin ws ->
  Forall (fun w => (0 < w)%Qc) ws ->
  Qc_sum ws = 1%Qc ->
  (0 < pw)%Qc -> (0 < ph)%Qc -> (ph < Qc_of_Z 9999990000)%Qc ->
  (0 <= wr)%Qc -> (wr <= 1)%Qc ->
  exists S : Qc,
    height_above (_lengths (draw this cw ch gd legendInfo)) (List.length gd)
    = Fin S
    /\ (0 < S)%Qc /\ (S <= ph)%Qc
    /\ (Qc_of_Z 100 * (ph - S) <= S)%Qc.
Proof.
  intros Hareas Epw Eph Ewr Ews Hws Hsum Hpw Hph Hbound Hwr0 Hwr1.
  destruct (envelope_fits pw ph wr Hpw Hph Hwr0 Hwr1) as [Hfits HA].
  set (A := (ph / Qc_of_Z 2 * (pw + pw * wr))%Qc) in *.
  set (t := ((pw - pw * wr) / Qc_of_Z 2 / ph)%Qc) in *.
  assert (H2 : Qc_of_Z 2 <> 0%Qc) by (intros E; discriminate E).
  assert (Hph0 : ph <> 0%Qc) by now apply Qc_pos_neq.
  assert (Eb0 : array_get (draw_bases0 this cw legendInfo) 0 = Fin pw).
  { unfold draw_bases0. now rewrite array_get_set_same. }
  assert (Eatot : draw_atot this cw ch legendInfo = Fin A).
  { unfold draw_atot, draw_ltot. rewrite Eb0, Eph, Ewr.
    change (of_Z 2) with (Fin (Qc_of_Z 2)). now rewrite div_Fin. }
  assert (Et : Math_tan (draw_angle this cw ch legendInfo) = Fin t).
  { unfold draw_angle, draw_hend, draw_ltot, Math_tan, Math_atan.
    cbn [tangent]. rewrite Eb0, Eph, Ewr.
    change (of_Z 2) with (Fin (Qc_of_Z 2)). cbn [mul sub add neg].
    rewrite div_Fin by assumption.
    rewrite div_Fin by assumption. reflexivity. }
  assert (Ear : draw_areas this cw ch gd legendInfo
                = map Fin (map (fun w => (w * A)%Qc) ws)).
  { unfold draw_areas. rewrite Hareas, Eatot. cbn [app].
    rewrite <- (map_map snd (fun x => (x * Fin A)%js)), Ews, !map_map.
    reflexivity. }
  assert (Hlen : List.length gd = List.length ws).
  { pose proof (f_equal (@List.length number) Ews) as E.
    now rewrite !length_map in E. }
  assert (Hn : List.length (draw_areas this cw ch gd legendInfo)
               = List.length (map (fun w => (w * A)%Qc) ws))
    by (now rewrite Ear, length_map).
  destruct (solve_sections_close (draw_areas this cw ch gd legendInfo)
              (draw_angle this cw ch legendInfo) t Et
              (map (fun w => (w * A)%Qc) ws) 0
              {| bases := draw_bases0 this cw legendInfo;
                 lengths := _lengths this;
                 guess := NaN; err := NaN; count := 0; lsum := of_Z 0 |}
              pw ph (Qc_of_Z 0))
    as (S & ES & Hlo & Hhi & Hpos & Hclose).
  - intros j Hj. rewrite Ear. now apply array_get_map_Fin.
  - apply Forall_forall. intros x Hx.
    apply in_map_iff in Hx as (w & <- & Hw).
    rewrite Forall_forall in Hws. specialize (Hws w Hw).
    clear - Hws HA. qc2q. apply Qmult_lt_0_compat; assumption.
  - rewrite Qc_sum_scale, Hsum. replace (1 * A)%Qc with A by ring.
    exact Hfits.
  - assumption.
  - exact Eb0.
  - reflexivity.
  - exists S.
    assert (Esum : height_above (_lengths (draw this cw ch gd legendInfo))
                     (List.length gd) = Fin S).
    { rewrite <- ES. rewrite <- Hn.
      unfold height_above, draw. cbn [_lengths].
      unfold draw_solver, solve_sections.
      rewrite (lsum_is_sum_of_lengths (draw_areas this cw ch gd legendInfo)
                 (draw_angle this cw ch legendInfo)
                 (List.length (draw_areas this cw ch gd legendInfo)) 0).
      cbn [lsum].
      replace (List.length gd)
        with (List.length (draw_areas this cw ch gd legendInfo))
        by (rewrite Hn, length_map; congruence).
      reflexivity. }
    assert (HS0 : (0 < S)%Qc).
    { assert (Hs : (Qc_of_Z 0 < S)%Qc).
      { apply Hpos. destruct ws as [|w ws]; [| discriminate].
        cbn in Hsum. discriminate Hsum. }
      exact Hs. }
    assert (HSph : (S <= ph)%Qc).
    { unfold Qc_of_Z in Hhi. clear - Hhi. qc2q. unfold inject_Z in Hhi. lra. }
    split; [exact Esum |]. split; [exact HS0 |]. split; [exact HSph |].
    rewrite Qc_sum_scale, Hsum in Hclose.
    assert (Hphq : (0 < Qcanon.this ph)%Q) by exact Hph.
    assert (EA : (ph * (pw - ph * t) - 1 * A = 0)%Qc).
    { unfold A, t, Qc_of_Z. apply Qc_is_canon.
      repeat (rewrite ?this_plus, ?this_mult, ?this_opp, ?this_minus,
                ?this_inv, ?this_div, ?this_Q2Qc).
      unfold inject_Z. change (Qcanon.this 0%Qc) with 0%Q.
      change (Qcanon.this 1%Qc) with 1%Q. field. lra. }
    assert (E2t : (Qc_of_Z 2 * ph * t = pw - pw * wr)%Qc).
    { unfold t, Qc_of_Z. apply Qc_is_canon.
      repeat (rewrite ?this_plus, ?this_mult, ?this_opp, ?this_minus,
                ?this_inv, ?this_div, ?this_Q2Qc).
      unfold inject_Z. field. lra. }
    assert (Ht : (0 <= t)%Qc) by apply Hfits.
    rewrite EA in Hclose.
    clear - Hclose E2t Ht HS0 HSph Hpw Hwr0 Hwr1.
    unfold Qc_of_Z in *. qc2q. change (Qcanon.this 0%Qc) with 0%Q in *.
    unfold inject_Z in *.
    apply (close_sum (Qcanon.this pw) (Qcanon.this ph) (Qcanon.this wr)
             (Qcanon.this t) (Qcanon.this S));
      try assumption.
    eapply Qle_trans; [| eapply Qle_trans; [exact Hclose |]];
      apply Qle_lteq; right; ring.
Qed.

(** A length below [1000000] is below [999999 / 1e-4]. *)
Lemma below_sentinel (x : Qc) :
  (x < Qc_of_Z 1000000)%Qc -> (x < Qc_of_Z 9999990000)%Qc.
Proof.
  intros H. apply Qclt_trans with (Qc_of_Z 1000000); [exact H | reflexivity].
Qed.

(** C7, as the code has it.  Take a series whose [_areas] is empty (as
    [init] leaves it), a plot area [pw] wide and [ph] high, each of at
    least one pixel and below [1000000], a [widthRatio] between [0]
    and [1], and positive weights that sum to [1].  Then the sum of
    the lengths computed by [draw] is within one hundredth of the plot
    height [ph]: it lies between [0.99 * ph] and [1.01 * ph].  (In the
    exact arithmetic of this file the sum lies between
    [100 / 101 * ph] and [ph], by [sum_of_lengths_exact]; the bounds
    stated leave room for the rounding of the numbers.) *)
Theorem sum_of_lengths_within_a_hundredth
    (this : series_t) (cw ch : number) (gd : list datapoint)
    (legendInfo : option legendInfo_t) (pw ph wr : Qc) (ws : list Qc) :
  _areas this = [] ->
  (cw - loff this legendInfo - roff this legendInfo)%js = Fin pw ->
  (ch - toff this legendInfo - boff this legendInfo)%js = Fin ph ->
  widthRatio this = Fin wr ->
  map snd gd = map Fin ws ->
  Forall (fun w => (0 < w)%Qc) ws ->
  Qc_sum ws = 1%Qc ->
  (1 <= pw)%Qc -> (pw < Qc_of_Z 1000000)%Qc ->
  (1 <= ph)%Qc -> (ph < Qc_of_Z 1000000)%Qc ->
  (0 <= wr)%Qc -> (wr <= 1)%Qc ->
  exists S : Qc,
    height_above (_lengths (draw this cw ch gd legendInfo)) (List.length gd)
    = Fin S
    /\ (Q2Qc (99 # 100) * ph <= S)%Qc
    /\ (S <= Q2Qc (101 # 100) * ph)%Qc.
Proof.
  intros Hareas Epw Eph Ewr Ews Hws Hsum Hpw1 _ Hph1 Hph6 Hwr0 Hwr1.
  pose proof (below_sentinel ph Hph6) as Hbound.
  assert (Hpw : (0 < pw)%Qc).
  { apply Qclt_le_trans with 1%Qc; [reflexivity | exact Hpw1]. }
  assert (Hph : (0 < ph)%Qc).
  { apply Qclt_le_trans with 1%Qc; [reflexivity | exact Hph1]. }
  destruct (sum_of_lengths_exact this cw ch gd legendInfo pw ph wr ws
              Hareas Epw Eph Ewr Ews Hws Hsum Hpw Hph Hbound Hwr0 Hwr1)
    as (S & ES & HS0 & HSph & Hshort).
  exists S. split; [exact ES |].
  clear - Hph HS0 HSph Hshort. unfold Qc_of_Z in Hshort. qc2q.
  change (Qcanon.this 0%Qc) with 0%Q in *. unfold inject_Z in Hshort.
  split; lra.
Qed.

(** The funnel of one data point with [widthRatio = 0] on a canvas of
    [300] by [300]: a plot area of [260] by [260] and the single
    weight [1]. *)
Lemma sum_of_lengths_within_a_hundredth_witness :
  _areas pyramid_series = []
  /\ (of_Z 300 - loff pyramid_series None - roff pyramid_series None)%js
     = Fin (Qc_of_Z 260)
  /\ (of_Z 300 - toff pyramid_series None - boff pyramid_series None)%js
     = Fin (Qc_of_Z 260)
  /\ widthRatio pyramid_series = Fin (Qc_of_Z 0)
  /\ map snd (gridData pyramid_series) = map Fin [1%Qc]
  /\ Forall (fun w => (0 < w)%Qc) [1%Qc]
  /\ Qc_sum [1%Qc] = 1%Qc
  /\ (1 <= Qc_of_Z 260)%Qc
  /\ (Qc_of_Z 260 < Qc_of_Z 1000000)%Qc
  /\ (0 <= Qc_of_Z 0)%Qc
  /\ (Qc_of_Z 0 <= 1)%Qc
  /\ exists S : Qc,
       height_above
         (_lengths (draw pyramid_series (of_Z 300) (of_Z 300)
                      (gridData pyramid_series) None))
         (List.length (gridData pyramid_series))
       = Fin S
       /\ (Q2Qc (99 # 100) * Qc_of_Z 260 <= S)%Qc
       /\ (S <= Q2Qc (101 # 100) * Qc_of_Z 260)%Qc.
Proof.
  assert (H1 : _areas pyramid_series = []) by (vm_compute; reflexivity).
  assert (H2 : (of_Z 300 - loff pyramid_series None
                - roff pyramid_series None)%js = Fin (Qc_of_Z 260))
    by (apply number_eqb_eq; vm_compute; reflexivity).
  assert (H3 : (of_Z 300 - toff pyramid_series None
                - boff pyramid_series None)%js = Fin (Qc_of_Z 260))
    by (apply number_eqb_eq; vm_compute; reflexivity).
  assert (H4 : widthRatio pyramid_series = Fin (Qc_of_Z 0))
    by (apply number_eqb_eq; vm_compute; reflexivity).
  assert (H5 : map snd (gridData pyramid_series) = map Fin [1%Qc])
    by (apply (list_eqb_eq number_eqb number_eqb_eq); vm_compute; reflexivity).
  assert (H6 : Forall (fun w => (0 < w)%Qc) [1%Qc])
    by (constructor; [reflexivity | constructor]).
  assert (H7 : Qc_sum [1%Qc] = 1%Qc) by (apply Qc_is_canon; reflexivity).
  assert (H8 : (1 <= Qc_of_Z 260)%Qc) by (intros E; discriminate E).
  assert (H9 : (Qc_of_Z 260 < Qc_of_Z 1000000)%Qc) by reflexivity.
  assert (H10 : (0 <= Qc_of_Z 0)%Qc) by (intros E; discriminate E).
  assert (H11 : (Qc_of_Z 0 <= 1)%Qc) by (intros E; discriminate E).
  repeat (split; [assumption |]).
  exact (sum_of_lengths_within_a_hundredth pyramid_series (of_Z 300)
           (of_Z 300) (gridData pyramid_series) None (Qc_of_Z 260)
           (Qc_of_Z 260) (Qc_of_Z 0) [1%Qc]
           H1 H2 H3 H4 H5 H6 H7 H8 H9 H8 H9 H10 H11).
Defined.

(** C7, as stated, fails.  With [widthRatio = 0] and one data point
    (weight [1]) on a canvas of [300] by [300], the plot height is
    [260] and the tolerance allows a gap of [260 * 1e-4 = 0.026]; the
    single length is short of the plot height by more than [2]
    (the estimates are [260 * (k + 1) / (k + 2)], and the loop stops
    near the cap of [100] turns). *)
Lemma pyramid_sum_of_lengths_short :
  total (gridData pyramid_series) = of_Z 1
  /\ Forall (fun p => (snd p >? of_Z 0)%js = true) (gridData pyramid_series)
  /\ _length pyramid_drawn = of_Z 260
  /\ (_length pyramid_drawn * tolerance <? of_frac 3 100)%js = true
  /\ (Math_abs (height_above (_lengths pyramid_drawn)
                  (List.length (gridData pyramid_series))
                - _length pyramid_drawn)
      >? of_Z 2)%js = true.
Proof.
  split; [| split; [| split; [| split]]].
  - apply number_eqb_eq. vm_compute. reflexivity.
  - repeat constructor.
  - apply number_eqb_eq. vm_compute. reflexivity.
  - vm_compute. reflexivity.
  - vm_compute. reflexivity.
Qed.

(** With the default [widthRatio = 0.2] the single length is closer to
    the plot height, but the gap (about [0.039]) still exceeds
    [260 * 1e-4 = 0.026]. *)
Example default_sum_of_lengths_short :
  _length one_drawn = of_Z 260
  /\ (Math_abs (height_above (_lengths one_drawn)
                  (List.length (gridData one_series))
                - _length one_drawn)
      >? _length one_drawn * tolerance)%js = true
  /\ (Math_abs (height_above (_lengths one_drawn)
                  (List.length (gridData one_series))
                - _length one_drawn)
      <? of_frac 4 100)%js = true.
Proof.
  split; [| split].
  - apply number_eqb_eq. vm_compute. reflexivity.
  - vm_compute. reflexivity.
  - vm_compute. reflexivity.
Qed.

(** * Further properties of the code *)

(** ** The weights of [setGridData] *)

Lemma fold_add_Fin (vs : list Qc) (s : Qc) :
  fold_left add (map Fin vs) (Fin s) = Fin (s + Qc_sum vs)%Qc.
Proof.
  revert s. induction vs as [|v vs IH]; intros s; cbn [map fold_left].
  - cbn. f_equal. ring.
  - cbn [add]. rewrite IH. cbn [Qc_sum fold_right]. fold (Qc_sum vs).
    f_equal. ring.
Qed.

Lemma total_Fin (d : list datapoint) (vs : list Qc) :
  map snd d = map Fin vs -> total d = Fin (Qc_sum vs).
Proof.
  intros E. unfold total. rewrite E.
  change (of_Z 0) with (Fin 0%Qc). rewrite fold_add_Fin. f_equal. ring.
Qed.

Lemma Qc_sum_div (S : Qc) (vs : list Qc) :
  Qc_sum (map (fun v => (v / S)%Qc) vs) = (Qc_sum vs / S)%Qc.
Proof.
  induction vs as [|v vs IH]; cbn [map Qc_sum fold_right].
  - unfold Qcdiv. ring.
  - fold (Qc_sum (map (fun v => (v / S)%Qc) vs)). fold (Qc_sum vs).
    rewrite IH. unfold Qcdiv. ring.
Qed.

Lemma ge_Fin (x y : Qc) : (Fin x >=? Fin y)%js = true <-> (y <= x)%Qc.
Proof.
  unfold num_ge, num_compare. split.
  - intros H. destruct (x ?= y)%Qc eqn:E; try discriminate.
    + apply Qceq_alt in E. subst. apply Qcle_refl.
    + apply Qclt_le_weak. now apply Qcgt_alt.
  - intros H. destruct (x ?= y)%Qc eqn:E; try reflexivity.
    apply Qclt_alt in E. exfalso. apply (Qclt_not_le _ _ E H).
Qed.

Lemma values_Fin (d : list datapoint) (vs : list Qc) :
  map snd d = map Fin vs ->
  Forall (fun p => exists v, In v vs /\ snd p = Fin v) d.
Proof.
  revert vs. induction d as [|p d IH]; intros [|v vs] E;
    try discriminate; constructor.
  - exists v. split; [now left |]. now injection E.
  - injection E as _ E. apply IH in E.
    eapply Forall_impl; [| exact E].
    intros q (w & Hw & Eq). exists w. split; [now right | exact Eq].
Qed.

Lemma Qc_sum_member (vs : list Qc) :
  Forall (fun w => (0 <= w)%Qc) vs ->
  (0 <= Qc_sum vs)%Qc /\ forall v, In v vs -> (v <= Qc_sum vs)%Qc.
Proof.
  induction 1 as [|w vs Hw Hvs [Hs IH]].
  - split; [apply Qcle_refl | intros v []].
  - cbn [Qc_sum fold_right]. fold (Qc_sum vs). split.
    + qc2q. change (Qcanon.this 0%Qc) with 0%Q in *. lra.
    + intros v [-> | Hin].
      * qc2q. change (Qcanon.this 0%Qc) with 0%Q in *. lra.
      * specialize (IH v Hin). qc2q.
        change (Qcanon.this 0%Qc) with 0%Q in *. lra.
Qed.

Lemma Qc_div_le (x y S : Qc) : (0 < S)%Qc -> (x <= y)%Qc -> (x / S <= y / S)%Qc.
Proof.
  intros HS Hxy. unfold Qcdiv.
  apply Qcmult_le_compat_r; [exact Hxy |].
  apply Qclt_le_weak. qc2q. change (Qcanon.this 0%Qc) with 0%Q in *.
  now apply Qinv_lt_0_compat.
Qed.

(** Dividing the values by a positive number keeps a descending
    order. *)
Lemma sorted_div (S : Qc) (d : list datapoint) :
  (0 < S)%Qc ->
  Forall (fun p => exists v, snd p = Fin v) d ->
  StronglySorted desc d ->
  StronglySorted desc (map (fun p => (fst p, (snd p / Fin S)%js)) d).
Proof.
  intros HS Hfin Hsorted.
  assert (HS0 : S <> 0%Qc).
  { intros E0. rewrite E0 in HS. discriminate HS. }
  induction Hsorted as [|p d Hd IH Hp]; cbn [map].
  - constructor.
  - apply Forall_cons_iff in Hfin as [(v & Ep) Hfin].
    constructor; [now apply IH |].
    apply Forall_map. rewrite Forall_forall in *.
    intros q Hq. destruct (Hfin q Hq) as (w & Eq).
    specialize (Hp q Hq). unfold desc in *. cbn [snd].
    rewrite Ep, Eq in *. rewrite !div_Fin by exact HS0.
    apply ge_Fin. apply ge_Fin in Hp. now apply Qc_div_le.
Qed.

(** X3.  For finite values that are not negative, with a positive sum,
    [setGridData] stores one weight per data point under the same
    labels and in the same order; every weight lies between [0] and
    [1], and the weights of data in descending order of value are in
    descending order. *)
Theorem setGridData_weights_ordered (this : series_t) (vs : list Qc) :
  map snd (data this) = map Fin vs ->
  Forall (fun v => (0 <= v)%Qc) vs ->
  (0 < Qc_sum vs)%Qc ->
  map fst (gridData (setGridData this)) = map fst (data this)
  /\ Forall (fun p => (snd p >=? of_Z 0)%js = true
                      /\ (snd p <=? of_Z 1)%js = true)
       (gridData (setGridData this))
  /\ (StronglySorted desc (data this) ->
      StronglySorted desc (gridData (setGridData this))).
Proof.
  intros E Hvs HS.
  assert (HS0 : Qc_sum vs <> 0%Qc).
  { intros E0. rewrite E0 in HS. discriminate HS. }
  pose proof (values_Fin (data this) vs E) as Hfin.
  rewrite setGridData_gridData, (total_Fin (data this) vs E).
  split; [| split].
  - rewrite map_map. reflexivity.
  - apply Forall_map. eapply Forall_impl; [| exact Hfin].
    intros p (v & Hin & Ep). cbn [snd]. rewrite Ep, div_Fin by exact HS0.
    split.
    + apply ge_Fin. change (Q2Qc (inject_Z 0)) with 0%Qc.
      assert (E0 : (0 / Qc_sum vs)%Qc = 0%Qc) by (unfold Qcdiv; ring).
      rewrite <- E0. apply Qc_div_le; [exact HS |].
      rewrite Forall_forall in Hvs. now apply Hvs.
    + apply le_Fin. change (Q2Qc (inject_Z 1)) with 1%Qc.
      assert (E1 : (Qc_sum vs / Qc_sum vs)%Qc = 1%Qc) by (field; exact HS0).
      rewrite <- E1. apply Qc_div_le; [exact HS |].
      now apply (proj2 (Qc_sum_member vs Hvs)).
  - intros Hsorted. apply sorted_div; [exact HS | | exact Hsorted].
    eapply Forall_impl; [| exact Hfin].
    intros p (v & _ & Ep). now exists v.
Qed.

Lemma setGridData_weights_ordered_witness :
  map snd (data (init (new_series three_points) no_options))
  = map Fin [Qc_of_Z 30; Qc_of_Z 20; Qc_of_Z 10]
  /\ StronglySorted desc (gridData three_series).
Proof.
  assert (H1 : map snd (data (init (new_series three_points) no_options))
               = map Fin [Qc_of_Z 30; Qc_of_Z 20; Qc_of_Z 10])
    by (vm_compute; reflexivity).
  assert (H2 : Forall (fun v => (0 <= v)%Qc)
                 [Qc_of_Z 30; Qc_of_Z 20; Qc_of_Z 10])
    by (repeat constructor; discriminate).
  assert (H3 : (0 < Qc_sum [Qc_of_Z 30; Qc_of_Z 20; Qc_of_Z 10])%Qc)
    by reflexivity.
  split; [exact H1 |].
  apply (proj2 (proj2 (setGridData_weights_ordered
                         (init (new_series three_points) no_options)
                         [Qc_of_Z 30; Qc_of_Z 20; Qc_of_Z 10] H1 H2 H3))).
  repeat constructor; vm_compute; reflexivity.
Defined.

(** ** [init] on data that is already in descending order *)

Lemma ge_test_false (x y : number) :
  (y >=? x)%js = true -> ((x - y) >? of_Z 0)%js = false.
Proof.
  intros H.
  assert (Hx : is_NaN x = false)
    by (destruct x, y; try reflexivity; discriminate H).
  assert (Hy : is_NaN y = false)
    by (destruct x, y; try reflexivity; discriminate H).
  rewrite (gt_sub_zero x y Hx Hy).
  destruct x as [p| | |], y as [q| | |]; try reflexivity;
    try discriminate H.
  revert H. unfold num_gt, num_ge, num_compare, Qccompare.
  rewrite <- (Qcompare_antisym p q). destruct (p ?= q)%Q; simpl; easy.
Qed.

Lemma sort_insert_last (x : datapoint) (l : list datapoint) :
  Forall (fun y => desc y x) l ->
  sort_insert by_value_desc x l = l ++ [x].
Proof.
  induction 1 as [|y l Hy _ IH]; cbn [sort_insert app].
  - reflexivity.
  - unfold by_value_desc at 1. rewrite (ge_test_false _ _ Hy).
    now rewrite IH.
Qed.

Lemma sorted_app_before (x : datapoint) (l1 l2 : list datapoint) :
  StronglySorted desc (l1 ++ x :: l2) -> Forall (fun y => desc y x) l1.
Proof.
  induction l1 as [|y l1 IH]; cbn [app]; intros H.
  - constructor.
  - inversion H as [|? ? Hs Hall]; subst. constructor.
    + rewrite Forall_forall in Hall. apply Hall.
      apply in_or_app. right. now left.
    + now apply IH.
Qed.

Lemma fold_insert_sorted_id (a acc : list datapoint) :
  StronglySorted desc (acc ++ a) ->
  fold_left (fun sorted x => sort_insert by_value_desc x sorted) a acc
  = acc ++ a.
Proof.
  revert acc. induction a as [|x a IH]; intros acc H; cbn [fold_left].
  - now rewrite app_nil_r.
  - rewrite (sort_insert_last x acc (sorted_app_before x acc a H)).
    rewrite IH; rewrite <- app_assoc; [reflexivity | exact H].
Qed.

(** X1.  Data that already stands in descending order of value is left by
    [init] exactly as it is: points of equal value keep their places,
    and so does a point whose value is an infinity. *)
Theorem init_keeps_descending_data (this : series_t) (options : options_t) :
  StronglySorted desc (data this) ->
  data (init this options) = data this
  /\ _unorderedData (init this options) = data this.
Proof.
  intros H. split; [| reflexivity].
  rewrite init_data. unfold Array_sort.
  now rewrite (fold_insert_sorted_id (data this) [] H).
Qed.

Lemma init_keeps_descending_data_witness :
  StronglySorted desc (data (new_series ties_points))
  /\ data (init (new_series ties_points) no_options) = ties_points.
Proof.
  assert (H : StronglySorted desc (data (new_series ties_points))).
  { repeat (constructor; try (vm_compute; reflexivity)). }
  split; [exact H |].
  exact (proj1 (init_keeps_descending_data
                  (new_series ties_points) no_options H)).
Defined.

(** ** The quadrilaterals of [draw] *)

(** X6.  Whatever the input, [draw] leaves one quadrilateral for each grid
    data point, and in each of them the two top corners have the same
    height and the two bottom corners have the same height. *)
Theorem draw_one_level_quad_per_point (this : series_t) (cw ch : number)
    (gd : list datapoint) (legendInfo : option legendInfo_t) :
  List.length (_vertices (draw this cw ch gd legendInfo)) = List.length gd
  /\ Forall (fun q => snd (v0 q) = snd (v1 q) /\ snd (v3 q) = snd (v2 q))
       (_vertices (draw this cw ch gd legendInfo)).
Proof.
  rewrite draw_vertices. split.
  - now rewrite length_map, length_seq.
  - apply Forall_forall. intros q Hq.
    apply in_map_iff in Hq as (i & <- & _). split; reflexivity.
Qed.

(** ** The bases and the lengths of the sections *)

Lemma narrowing_q (b t H l : Q) :
  (0 <= t)%Q -> (0 < l)%Q -> (l <= H)%Q ->
  (b - (2 # 1) * l * t <= b)%Q
  /\ (b - (2 # 1) * H * t <= b - (2 # 1) * l * t)%Q.
Proof.
  intros Ht Hl HlH.
  assert (0 <= l * t)%Q by (apply Qmult_le_0_compat; lra).
  assert (l * t <= H * t)%Q by (apply Qmult_le_compat_r; lra).
  assert (E1 : ((2 # 1) * l * t == (2 # 1) * (l * t))%Q) by ring.
  assert (E2 : ((2 # 1) * H * t == (2 # 1) * (H * t))%Q) by ring.
  split; lra.
Qed.

Lemma narrowing (b t H l : Qc) :
  (0 <= t)%Qc -> (0 < l)%Qc -> (l <= H)%Qc ->
  (b - Qc_of_Z 2 * l * t <= b)%Qc
  /\ (b - Qc_of_Z 2 * H * t <= b - Qc_of_Z 2 * l * t)%Qc.
Proof.
  intros Ht Hl HlH. unfold Qc_of_Z. qc2q. unfold inject_Z.
  now apply narrowing_q.
Qed.

(** The loop over the sections [k], [k + 1], ... whose areas are
    [rest]: the entries written before are kept, and for each section
    the length is positive, the lower base is the upper base less
    twice the length times the slope, both bases lie between the base
    [b] the loop is entered with and the base at the bottom of the
    envelope left, and the section holds at most its area, and all of
    it but a ten-thousandth at most. *)
Lemma solve_sections_layout (areas : list number) (ang : angle) (t : Qc) :
  Math_tan ang = Fin t ->
  forall (rest : list Qc) (k : nat) (st : solver) (b H s : Qc),
    (forall j, (j < List.length rest)%nat ->
               array_get areas (k + j) = Fin (nth j rest 0%Qc)) ->
    Forall (fun a => (0 < a)%Qc) rest ->
    fits (Qc_sum rest) H b t ->
    (H < Qc_of_Z 9999990000)%Qc ->
    array_get (bases st) k = Fin b ->
    lsum st = Fin s ->
    (forall j, (j <= k)%nat ->
       array_get
         (bases (fold_left (solve_section areas ang)
                   (seq k (List.length rest)) st)) j
       = array_get (bases st) j)
    /\ (forall j, (j < k)%nat ->
          array_get
            (lengths (fold_left (solve_section areas ang)
                        (seq k (List.length rest)) st)) j
          = array_get (lengths st) j)
    /\ (forall j, (j < List.length rest)%nat ->
          exists l bj bj' : Qc,
            array_get
              (lengths (fold_left (solve_section areas ang)
                          (seq k (List.length rest)) st)) (k + j)
            = Fin l
            /\ array_get
                 (bases (fold_left (solve_section areas ang)
                           (seq k (List.length rest)) st)) (k + j)
               = Fin bj
            /\ array_get
                 (bases (fold_left (solve_section areas ang)
                           (seq k (List.length rest)) st)) (k + j + 1)
               = Fin bj'
            /\ (0 < l)%Qc
            /\ bj' = (bj - Qc_of_Z 2 * l * t)%Qc
            /\ (bj <= b)%Qc
            /\ (b - Qc_of_Z 2 * H * t <= bj')%Qc
            /\ (l * (bj - l * t) <= nth j rest 0)%Qc
            /\ (nth j rest 0 - l * (bj - l * t)
                <= Q2Qc (1 # 10000) * nth j rest 0)%Qc)
    /\ List.length
         (bases (fold_left (solve_section areas ang)
                   (seq k (List.length rest)) st))
       = Nat.max (List.length (bases st))
           (match rest with
            | [] => 0
            | _ :: _ => k + List.length rest + 1
            end).
Proof.
  intros Et. induction rest as [|a rest IH];
    intros k st b H s Hareas Hpos Hfits HH Eb Es.
  - cbn [List.length seq fold_left]. split; [reflexivity |].
    split; [reflexivity |]. split; [| lia]. intros j Hj. cbn in Hj. lia.
  - inversion Hpos as [|? ? Ha Hrest]; subst.
    cbn [List.length seq fold_left]. cbn [Qc_sum fold_right] in Hfits.
    fold (Qc_sum rest) in Hfits.
    pose proof (Qc_sum_nonneg rest Hrest) as Hsum.
    assert (HaR : (a <= a + Qc_sum rest)%Qc) by (qc2q; lra).
    assert (Ea : array_get areas k = Fin a).
    { rewrite <- (Nat.add_0_r k) at 1. apply (Hareas 0%nat). simpl. lia. }
    assert (Ht : (0 <= t)%Qc) by apply Hfits.
    destruct (solve_section_close areas ang st k a b t s H (a + Qc_sum rest)
                Ea Eb Et Es Ha HaR Hfits HH)
      as (l & (Hl0 & HlH & Hla & Hdef & Htl) & Ebases & Elengths & Elsum).
    destruct (narrowing b t H l Ht Hl0 HlH) as [Hn1 Hn2].
    assert (Eb1 : array_get (bases (solve_section areas ang st k)) (S k)
                  = Fin (b - Qc_of_Z 2 * l * t)%Qc).
    { rewrite Ebases, Nat.add_1_r. apply array_get_set_same. }
    destruct (IH (S k) (solve_section areas ang st k)
                (b - Qc_of_Z 2 * l * t)%Qc (H - l)%Qc (s + l)%Qc)
      as (P1 & P2 & P3 & P4).
    + intros j Hj. replace (S k + j)%nat with (k + S j)%nat by lia.
      apply (Hareas (S j)). simpl. lia.
    + assumption.
    + now apply fits_rest with (a := a).
    + qc2q. lra.
    + exact Eb1.
    + assumption.
    + split; [| split; [| split]];
        [| | | rewrite P4, Ebases, array_set_length;
               destruct rest; cbn [List.length]; lia].
      * intros j Hj. rewrite P1 by lia. rewrite Ebases.
        apply array_get_set_other. lia.
      * intros j Hj. rewrite P2 by lia. rewrite Elengths.
        apply array_get_set_other. lia.
      * intros [|j] Hj.
        -- exists l, b, (b - Qc_of_Z 2 * l * t)%Qc.
           rewrite Nat.add_0_r.
           split; [| split; [| split; [| split; [| split; [| split]]]]].
           ++ rewrite P2 by lia. rewrite Elengths.
              apply array_get_set_same.
           ++ rewrite P1 by lia. rewrite Ebases.
              rewrite array_get_set_other by lia. exact Eb.
           ++ rewrite Nat.add_1_r, P1 by lia. exact Eb1.
           ++ exact Hl0.
           ++ reflexivity.
           ++ qc2q. lra.
           ++ split; [exact Hn2 |]. split; [exact Hla |].
              cbn [nth]. clear - Hdef Htl. qc2q. lra.
        -- destruct (P3 j) as (l' & bj & bj' & E1 & E2 & E3 & Q1 & Q2 & Q3
                               & Q4 & Q5); [cbn in Hj; lia |].
           exists l', bj, bj'.
           replace (k + S j)%nat with (S k + j)%nat by lia.
           split; [exact E1 |]. split; [exact E2 |]. split; [exact E3 |].
           split; [exact Q1 |]. split; [exact Q2 |].
           split; [| split; [| exact Q5]].
           ++ clear - Q3 Hn1. qc2q. lra.
           ++ replace (b - Qc_of_Z 2 * H * t)%Qc
                with (b - Qc_of_Z 2 * l * t - Qc_of_Z 2 * (H - l) * t)%Qc
                by ring.
              exact Q4.
Qed.

(** X5.  Take a series whose [_areas] is empty, a plot area [pw] wide and
    [ph] high, each of at least one pixel and below [1000000], a
    [widthRatio] [wr] between [0] and [1], and weights of at least a
    billionth each that sum to [1].  Then each section [i] gets a
    positive length [l], an upper base [b] and a lower base [b'] with
    [0 <= b' <= b <= pw]: the funnel never widens downwards.  And the
    area [l * (b + b') / 2] of the trapezoid of the section is within
    a thousandth of the share of the total area that belongs to the
    weight of the section.  (In the exact arithmetic of this file the
    trapezoid holds at most that share, and all of it but a
    ten-thousandth at most; the bounds stated leave room for the
    rounding of the numbers.) *)
Theorem draw_sections_layout
    (this : series_t) (cw ch : number) (gd : list datapoint)
    (legendInfo : option legendInfo_t) (pw ph wr : Qc) (ws : list Qc) :
  _areas this = [] ->
  (cw - loff this legendInfo - roff this legendInfo)%js = Fin pw ->
  (ch - toff this legendInfo - boff this legendInfo)%js = Fin ph ->
  widthRatio this = Fin wr ->
  map snd gd = map Fin ws ->
  Forall (fun w => (Q2Qc (1 # 1000000000) <= w)%Qc) ws ->
  Qc_sum ws = 1%Qc ->
  (1 <= pw)%Qc -> (pw < Qc_of_Z 1000000)%Qc ->
  (1 <= ph)%Qc -> (ph < Qc_of_Z 1000000)%Qc ->
  (0 <= wr)%Qc -> (wr <= 1)%Qc ->
  forall i, (i < List.length gd)%nat ->
    exists l b b' : Qc,
      array_get (_lengths (draw this cw ch gd legendInfo)) i = Fin l
      /\ array_get (_bases (draw this cw ch gd legendInfo)) i = Fin b
      /\ array_get (_bases (draw this cw ch gd legendInfo)) (i + 1) = Fin b'
      /\ (0 < l)%Qc
      /\ (0 <= b' /\ b' <= b /\ b <= pw)%Qc
      /\ (Q2Qc (999 # 1000)
          * (nth i ws 0 * (ph / Qc_of_Z 2 * (pw + pw * wr)))
          <= l * ((b + b') / Qc_of_Z 2))%Qc
      /\ (l * ((b + b') / Qc_of_Z 2)
          <= Q2Qc (1001 # 1000)
             * (nth i ws 0 * (ph / Qc_of_Z 2 * (pw + pw * wr))))%Qc.
Proof.
  intros Hareas Epw Eph Ewr Ews Hws9 Hsum Hpw1 _ Hph1 Hph6 Hwr0 Hwr1 i Hi.
  pose proof (below_sentinel ph Hph6) as Hbound.
  assert (Hpw : (0 < pw)%Qc).
  { apply Qclt_le_trans with 1%Qc; [reflexivity | exact Hpw1]. }
  assert (Hph : (0 < ph)%Qc).
  { apply Qclt_le_trans with 1%Qc; [reflexivity | exact Hph1]. }
  assert (Hws : Forall (fun w => (0 < w)%Qc) ws).
  { apply Forall_forall. intros w Hw. rewrite Forall_forall in Hws9.
    apply Qclt_le_trans with (Q2Qc (1 # 1000000000));
      [reflexivity | now apply Hws9]. }
  destruct (envelope_fits pw ph wr Hpw Hph Hwr0 Hwr1) as [Hfits HA].
  set (A := (ph / Qc_of_Z 2 * (pw + pw * wr))%Qc) in *.
  set (t := ((pw - pw * wr) / Qc_of_Z 2 / ph)%Qc) in *.
  assert (H2 : Qc_of_Z 2 <> 0%Qc) by (intros E; discriminate E).
  assert (Eb0 : array_get (draw_bases0 this cw legendInfo) 0 = Fin pw).
  { unfold draw_bases0. now rewrite array_get_set_same. }
  assert (Eatot : draw_atot this cw ch legendInfo = Fin A).
  { unfold draw_atot, draw_ltot. rewrite Eb0, Eph, Ewr.
    change (of_Z 2) with (Fin (Qc_of_Z 2)). now rewrite div_Fin. }
  assert (Et : Math_tan (draw_angle this cw ch legendInfo) = Fin t).
  { unfold draw_angle, draw_hend, draw_ltot, Math_tan, Math_atan.
    cbn [tangent]. rewrite Eb0, Eph, Ewr.
    change (of_Z 2) with (Fin (Qc_of_Z 2)). cbn [mul sub add neg].
    rewrite div_Fin by assumption.
    rewrite div_Fin by (now apply Qc_pos_neq). reflexivity. }
  assert (Ear : draw_areas this cw ch gd legendInfo
                = map Fin (map (fun w => (w * A)%Qc) ws)).
  { unfold draw_areas. rewrite Hareas, Eatot. cbn [app].
    rewrite <- (map_map snd (fun x => (x * Fin A)%js)), Ews, !map_map.
    reflexivity. }
  assert (Hlen : List.length gd = List.length ws).
  { pose proof (f_equal (@List.length number) Ews) as E.
    now rewrite !length_map in E. }
  assert (Hn : List.length (draw_areas this cw ch gd legendInfo)
               = List.length (map (fun w => (w * A)%Qc) ws))
    by (now rewrite Ear, length_map).
  destruct (solve_sections_layout (draw_areas this cw ch gd legendInfo)
              (draw_angle this cw ch legendInfo) t Et
              (map (fun w => (w * A)%Qc) ws) 0
              {| bases := draw_bases0 this cw legendInfo;
                 lengths := _lengths this;
                 guess := NaN; err := NaN; count := 0; lsum := of_Z 0 |}
              pw ph (Qc_of_Z 0))
    as (_ & _ & P3 & _).
  - intros j Hj. rewrite Ear. now apply array_get_map_Fin.
  - apply Forall_forall. intros x Hx.
    apply in_map_iff in Hx as (w & <- & Hw).
    rewrite Forall_forall in Hws. specialize (Hws w Hw).
    clear - Hws HA. qc2q. apply Qmult_lt_0_compat; assumption.
  - rewrite Qc_sum_scale, Hsum. replace (1 * A)%Qc with A by ring.
    exact Hfits.
  - assumption.
  - exact Eb0.
  - reflexivity.
  - destruct (P3 i) as (l & b & b' & E1 & E2 & E3 & Hl & Hb' & Hb & Hlow
                        & Harea & Hclose); [rewrite length_map; lia |].
    rewrite <- Hn in E1, E2, E3. cbn [Nat.add] in E1, E2, E3.
    assert (Ht : (0 <= t)%Qc) by apply Hfits.
    destruct (narrowing b t l l Ht Hl) as [Hdown _]; [qc2q; lra |].
    rewrite <- Hb' in Hdown.
    assert (Enth : nth i (map (fun w => (w * A)%Qc) ws) 0%Qc
                   = (nth i ws 0 * A)%Qc).
    { rewrite (nth_indep _ 0%Qc ((fun w => (w * A)%Qc) 0%Qc))
        by (rewrite length_map; lia).
      apply (map_nth (fun w => (w * A)%Qc)). }
    rewrite Enth in Harea, Hclose.
    assert (Hph0 : ph <> 0%Qc) by now apply Qc_pos_neq.
    assert (Hphq : (0 < Qcanon.this ph)%Q) by exact Hph.
    assert (Hai : (0 < nth i ws 0 * A)%Qc).
    { assert (Hw : (0 < nth i ws 0)%Qc).
      { rewrite Forall_forall in Hws. apply Hws. apply nth_In. lia. }
      clear - Hw HA. qc2q. apply Qmult_lt_0_compat; assumption. }
    assert (Earea : (l * ((b + b') / Qc_of_Z 2) = l * (b - l * t))%Qc).
    { rewrite Hb'. apply Qc_is_canon. unfold Qc_of_Z.
      repeat (rewrite ?this_plus, ?this_mult, ?this_opp, ?this_minus,
                ?this_inv, ?this_div, ?this_Q2Qc).
      unfold inject_Z. field. }
    assert (Elow : (pw - Qc_of_Z 2 * ph * t = pw * wr)%Qc).
    { unfold t, Qc_of_Z. apply Qc_is_canon.
      repeat (rewrite ?this_plus, ?this_mult, ?this_opp, ?this_minus,
                ?this_inv, ?this_div, ?this_Q2Qc).
      unfold inject_Z. field. lra. }
    exists l, b, b'.
    split; [exact E1 |]. split; [exact E2 |]. split; [exact E3 |].
    split; [exact Hl |]. split; [| split].
    + split; [| split; [exact Hdown | exact Hb]].
      rewrite Elow in Hlow.
      assert (Hprod : (0 <= pw * wr)%Qc).
      { clear - Hpw Hwr0. qc2q. apply Qmult_le_0_compat; lra. }
      clear - Hlow Hprod. qc2q. lra.
    + rewrite Earea. clear - Hclose Hai. qc2q. lra.
    + rewrite Earea. clear - Harea Hai. qc2q. lra.
Qed.

(** The funnel of three data points of values [30], [20] and [10] with
    the default options on a canvas of [300] by [300]. *)
Lemma draw_sections_layout_witness :
  _areas three_series = []
  /\ (of_Z 300 - loff three_series None - roff three_series None)%js
     = Fin (Qc_of_Z 260)
  /\ (of_Z 300 - toff three_series None - boff three_series None)%js
     = Fin (Qc_of_Z 260)
  /\ widthRatio three_series = Fin (Q2Qc (2 # 10))
  /\ map snd (gridData three_series)
     = map Fin [Q2Qc (1 # 2); Q2Qc (1 # 3); Q2Qc (1 # 6)]
  /\ Forall (fun w => (Q2Qc (1 # 1000000000) <= w)%Qc)
       [Q2Qc (1 # 2); Q2Qc (1 # 3); Q2Qc (1 # 6)]
  /\ Qc_sum [Q2Qc (1 # 2); Q2Qc (1 # 3); Q2Qc (1 # 6)] = 1%Qc
  /\ (1 <= Qc_of_Z 260)%Qc
  /\ (Qc_of_Z 260 < Qc_of_Z 1000000)%Qc
  /\ (0 <= Q2Qc (2 # 10))%Qc
  /\ (Q2Qc (2 # 10) <= 1)%Qc
  /\ (1 < List.length (gridData three_series))%nat
  /\ exists l b b' : Qc,
       array_get (_lengths (draw three_series (of_Z 300) (of_Z 300)
                              (gridData three_series) None)) 1
       = Fin l
       /\ array_get (_bases (draw three_series (of_Z 300) (of_Z 300)
                               (gridData three_series) None)) 1
          = Fin b
       /\ array_get (_bases (draw three_series (of_Z 300) (of_Z 300)
                               (gridData three_series) None)) (1 + 1)
          = Fin b'
       /\ (0 < l)%Qc
       /\ (0 <= b' /\ b' <= b /\ b <= Qc_of_Z 260)%Qc
       /\ (Q2Qc (999 # 1000)
           * (nth 1 [Q2Qc (1 # 2); Q2Qc (1 # 3); Q2Qc (1 # 6)] 0
              * (Qc_of_Z 260 / Qc_of_Z 2
                 * (Qc_of_Z 260 + Qc_of_Z 260 * Q2Qc (2 # 10))))
           <= l * ((b + b') / Qc_of_Z 2))%Qc
       /\ (l * ((b + b') / Qc_of_Z 2)
           <= Q2Qc (1001 # 1000)
              * (nth 1 [Q2Qc (1 # 2); Q2Qc (1 # 3); Q2Qc (1 # 6)] 0
                 * (Qc_of_Z 260 / Qc_of_Z 2
                    * (Qc_of_Z 260 + Qc_of_Z 260 * Q2Qc (2 # 10)))))%Qc.
Proof.
  assert (H1 : _areas three_series = []) by (vm_compute; reflexivity).
  assert (H2 : (of_Z 300 - loff three_series None - roff three_series None)%js
               = Fin (Qc_of_Z 260))
    by (apply number_eqb_eq; vm_compute; reflexivity).
  assert (H3 : (of_Z 300 - toff three_series None - boff three_series None)%js
               = Fin (Qc_of_Z 260))
    by (apply number_eqb_eq; vm_compute; reflexivity).
  assert (H4 : widthRatio three_series = Fin (Q2Qc (2 # 10)))
    by (apply number_eqb_eq; vm_compute; reflexivity).
  assert (H5 : map snd (gridData three_series)
               = map Fin [Q2Qc (1 # 2); Q2Qc (1 # 3); Q2Qc (1 # 6)])
    by (apply (list_eqb_eq number_eqb number_eqb_eq); vm_compute; reflexivity).
  assert (H6 : Forall (fun w => (Q2Qc (1 # 1000000000) <= w)%Qc)
                 [Q2Qc (1 # 2); Q2Qc (1 # 3); Q2Qc (1 # 6)])
    by (repeat (constructor; [intros E; discriminate E |]); constructor).
  assert (H7 : Qc_sum [Q2Qc (1 # 2); Q2Qc (1 # 3); Q2Qc (1 # 6)] = 1%Qc)
    by (apply Qc_is_canon; reflexivity).
  assert (H8 : (1 <= Qc_of_Z 260)%Qc) by (intros E; discriminate E).
  assert (H9 : (Qc_of_Z 260 < Qc_of_Z 1000000)%Qc) by reflexivity.
  assert (H10 : (0 <= Q2Qc (2 # 10))%Qc) by (intros E; discriminate E).
  assert (H11 : (Q2Qc (2 # 10) <= 1)%Qc) by (intros E; discriminate E).
  assert (H12 : (1 < List.length (gridData three_series))%nat)
    by (vm_compute; lia).
  repeat (split; [assumption |]).
  exact (draw_sections_layout three_series (of_Z 300) (of_Z 300)
           (gridData three_series) None (Qc_of_Z 260) (Qc_of_Z 260)
           (Q2Qc (2 # 10)) [Q2Qc (1 # 2); Q2Qc (1 # 3); Q2Qc (1 # 6)]
           H1 H2 H3 H4 H5 H6 H7 H8 H9 H8 H9 H10 H11 1%nat H12).
Defined.

(** ** [checkIntersection] *)

Lemma nth_error_last_Some (A : Type) (x : A) (l : list A) :
  exists y, nth_error (x :: l) (List.length (x :: l) - 1) = Some y.
Proof.
  destruct (nth_error (x :: l) (List.length (x :: l) - 1)) as [y|] eqn:E.
  - now exists y.
  - apply nth_error_None in E. cbn [List.length] in E. lia.
Qed.

(** X13.  [checkIntersection] raises a [TypeError] exactly when the plot has
    no series or the first series has no vertices (as before [draw] has
    run, or for empty data); in every other case it returns. *)
Theorem checkIntersection_TypeError (gridpos : point) (plot : plot_t) :
  checkIntersection gridpos plot = TypeError
  <-> series plot = []
      \/ exists s others, series plot = s :: others /\ _vertices s = [].
Proof.
  unfold checkIntersection. destruct (series plot) as [|s others].
  - split; [now left | reflexivity].
  - destruct (_vertices s) as [|vfirst rest] eqn:Ev.
    + split; [| reflexivity]. intros _. right. now exists s, others.
    + destruct (nth_error_last_Some quad vfirst rest) as [vlast E].
      rewrite E. split; [discriminate |].
      intros [H | (s' & others' & H & Hv)]; [discriminate |].
      injection H as <- <-. rewrite Ev in Hv. discriminate.
Qed.

(** X14.  A hit [[k, i, d]] returned by [checkIntersection] names the first
    series of the plot by its [index], a section [i] that exists and
    whose vertical range holds the [y] of the pointer, and the data
    point [data[i]]; no section before [i] holds the [y] of the pointer
    in its vertical range. *)
Theorem checkIntersection_hit (gridpos : point) (plot : plot_t)
    (k i : nat) (d : option datapoint) :
  checkIntersection gridpos plot = Return (Some (k, i, d)) ->
  exists s others cv,
    series plot = s :: others
    /\ k = index s
    /\ d = nth_error (data s) i
    /\ nth_error (_vertices s) i = Some cv
    /\ (snd gridpos >=? snd (v0 cv))%js = true
    /\ (snd gridpos <=? snd (v3 cv))%js = true
    /\ forall j cv', (j < i)%nat -> nth_error (_vertices s) j = Some cv' ->
         ((snd gridpos >=? snd (v0 cv'))%js
          && (snd gridpos <=? snd (v3 cv'))%js) = false.
Proof.
  unfold checkIntersection. destruct (series plot) as [|s others];
    [discriminate |].
  destruct (_vertices s) as [|vfirst rest] eqn:Ev; [discriminate |].
  destruct (nth_error (vfirst :: rest) (List.length (vfirst :: rest) - 1))
    as [vlast|]; [| discriminate].
  cbv zeta. rewrite check_sections_first_over.
  destruct (first_over _ (vfirst :: rest) 0) as [i'|] eqn:Ef;
    [| discriminate].
  cbn [option_map]. intros H. injection H as <- <- <-.
  apply first_over_Some in Ef as (_ & (cv & Ecv & Htest) & Hfirst).
  rewrite Nat.sub_0_r in Ecv, Hfirst.
  unfold over_section in Htest.
  apply andb_prop in Htest as [Htest Hrex].
  apply andb_prop in Htest as [Htest Hlex].
  apply andb_prop in Htest as [Htop Hbottom].
  exists s, others, cv. rewrite Ev.
  repeat (split; [reflexivity || assumption |]).
  intros j cv' Hj Ej. specialize (Hfirst j cv' Hj Ej).
  unfold over_section in Hfirst. rewrite Hlex, Hrex, !andb_true_r in Hfirst.
  exact Hfirst.
Qed.

(** The pointer at [(150, 100)] over the funnel of one data point. *)
Lemma checkIntersection_hit_witness :
  checkIntersection (of_Z 150, of_Z 100) (plot_of one_drawn)
  = Return (Some (0%nat, 0%nat, nth_error (data one_drawn) 0))
  /\ exists s others cv,
       series (plot_of one_drawn) = s :: others
       /\ 0%nat = index s
       /\ nth_error (data one_drawn) 0 = nth_error (data s) 0
       /\ nth_error (_vertices s) 0 = Some cv
       /\ (snd (of_Z 150, of_Z 100) >=? snd (v0 cv))%js = true
       /\ (snd (of_Z 150, of_Z 100) <=? snd (v3 cv))%js = true
       /\ forall j cv', (j < 0)%nat -> nth_error (_vertices s) j = Some cv' ->
            ((snd (of_Z 150, of_Z 100) >=? snd (v0 cv'))%js
             && (snd (of_Z 150, of_Z 100) <=? snd (v3 cv'))%js) = false.
Proof.
  assert (H : checkIntersection (of_Z 150, of_Z 100) (plot_of one_drawn)
              = Return (Some (0%nat, 0%nat, nth_error (data one_drawn) 0)))
    by (vm_compute; reflexivity).
  split; [exact H |].
  exact (checkIntersection_hit (of_Z 150, of_Z 100) (plot_of one_drawn)
           0 0 (nth_error (data one_drawn) 0) H).
Defined.

(** ** What the loop for one section touches *)

Lemma solve_while_frame (areas : list number) (ang : angle) (i : nat) :
  forall (fuel : nat) (st : solver),
    (count st <= 100)%nat ->
    (count (solve_while fuel areas ang i st) <= 100)%nat
    /\ (forall j, j <> (i + 1)%nat ->
          array_get (bases (solve_while fuel areas ang i st)) j
          = array_get (bases st) j).
Proof.
  induction fuel as [|fuel IH]; intros st Hc; cbn [solve_while].
  - now split.
  - destruct (solve_test i st) eqn:E; [| now split].
    unfold solve_test in E. apply andb_prop in E as [_ E].
    apply Nat.ltb_lt in E.
    destruct (IH (solve_step areas ang i st)) as [H1 H2].
    { unfold solve_step. cbn [count]. lia. }
    split; [exact H1 |].
    intros j Hne. rewrite (H2 j Hne). unfold solve_step. cbn [bases].
    apply array_get_set_other. congruence.
Qed.

(** X4.  Whatever the numbers are ([NaN] and the infinities included), the
    loop for section [i] runs at most a hundred updates, writes no
    entry of the lengths other than [i] and no entry of the bases other
    than [i + 1], and adds the length it leaves for the section to the
    running sum. *)
Theorem solve_section_frame (areas : list number) (ang : angle)
    (st : solver) (i : nat) :
  (count (solve_section areas ang st i) <= 100)%nat
  /\ (forall j, j <> i ->
        array_get (lengths (solve_section areas ang st i)) j
        = array_get (lengths st) j)
  /\ (forall j, j <> (i + 1)%nat ->
        array_get (bases (solve_section areas ang st i)) j
        = array_get (bases st) j)
  /\ lsum (solve_section areas ang st i)
     = (lsum st + array_get (lengths (solve_section areas ang st i)) i)%js.
Proof.
  destruct (solve_section_others areas ang st i) as [Hsum Hlen].
  destruct (solve_while_frame areas ang i 100 (solve_start areas i st))
    as [Hc Hb]; [cbn; lia |].
  split; [exact Hc |]. split; [exact Hlen |]. split; [| exact Hsum].
  intros j Hne. unfold solve_section. cbn [bases].
  rewrite (Hb j Hne). reflexivity.
Qed.

(** ** [draw] on a series that kept the areas of an earlier call *)

Lemma solve_while_ext (areas areas' : list number) (ang : angle) (i : nat) :
  array_get areas i = array_get areas' i ->
  forall (fuel : nat) (st : solver),
    solve_while fuel areas ang i st = solve_while fuel areas' ang i st.
Proof.
  intros E. induction fuel as [|fuel IH]; intros st; cbn [solve_while].
  - reflexivity.
  - destruct (solve_test i st); [| reflexivity].
    rewrite IH. unfold solve_step. now rewrite E.
Qed.

Lemma solve_section_ext (areas areas' : list number) (ang : angle)
    (st : solver) (i : nat) :
  array_get areas i = array_get areas' i ->
  solve_section areas ang st i = solve_section areas' ang st i.
Proof.
  intros E. unfold solve_section, solve_start.
  rewrite (solve_while_ext areas areas' ang i E), E. reflexivity.
Qed.

Lemma solve_prefix_ext (areas areas' : list number) (ang : angle) :
  forall (m k : nat) (st : solver),
    (forall j, (k <= j < k + m)%nat ->
               array_get areas j = array_get areas' j) ->
    fold_left (solve_section areas ang) (seq k m) st
    = fold_left (solve_section areas' ang) (seq k m) st.
Proof.
  induction m as [|m IH]; intros k st E; cbn [seq fold_left].
  - reflexivity.
  - rewrite (solve_section_ext areas areas' ang st k) by (apply E; lia).
    apply IH. intros j Hj. apply E. lia.
Qed.

Lemma array_get_app_l (a b : list number) (j : nat) :
  (j < List.length a)%nat -> array_get (a ++ b) j = array_get a j.
Proof. intros Hj. unfold array_get. now apply app_nth1. Qed.

(** X7.  [draw] never empties [_areas]: the areas of the grid data are
    added behind those left by earlier calls, and the loop for the
    lengths runs over all of them.  So on a series that still holds
    [m] areas, the first [m] lengths are computed from those areas:
    they are the same whatever grid data is passed to [draw]. *)
Theorem draw_keeps_stale_areas
    (this : series_t) (cw ch : number) (gd gd' : list datapoint)
    (legendInfo : option legendInfo_t) :
  List.length (_areas (draw this cw ch gd legendInfo))
  = (List.length (_areas this) + List.length gd)%nat
  /\ forall i, (i < List.length (_areas this))%nat ->
       array_get (_areas (draw this cw ch gd legendInfo)) i
       = array_get (_areas this) i
       /\ array_get (_lengths (draw this cw ch gd legendInfo)) i
          = array_get (_lengths (draw this cw ch gd' legendInfo)) i.
Proof.
  split.
  - unfold draw. cbn [_areas]. unfold draw_areas.
    now rewrite length_app, length_map.
  - intros i Hi. split.
    + unfold draw. cbn [_areas]. unfold draw_areas.
      now apply array_get_app_l.
    + unfold draw. cbn [_lengths]. unfold draw_solver, solve_sections.
      unfold draw_areas at 2 4. rewrite !length_app, !length_map.
      rewrite !seq_app, !fold_left_app. cbn [Nat.add].
      rewrite !(solve_sections_keep _ _ _ (List.length (_areas this)))
        by exact Hi.
      rewrite (solve_prefix_ext (draw_areas this cw ch gd legendInfo)
                 (draw_areas this cw ch gd' legendInfo)); [reflexivity |].
      intros j Hj. unfold draw_areas.
      rewrite !array_get_app_l by lia. reflexivity.
Qed.

(** The funnel of one data point, drawn once and then drawn again with
    the weight [1/2] in the place of [1]. *)
Lemma draw_keeps_stale_areas_witness :
  (0 < List.length (_areas one_drawn))%nat
  /\ array_get
       (_lengths (draw one_drawn (of_Z 300) (of_Z 300)
                    (gridData one_series) None)) 0
     = array_get
         (_lengths (draw one_drawn (of_Z 300) (of_Z 300)
                      [("A"%string, of_frac 1 2)] None)) 0.
Proof.
  assert (H : (0 < List.length (_areas one_drawn))%nat) by (vm_compute; lia).
  split; [exact H |].
  exact (proj2 (proj2 (draw_keeps_stale_areas one_drawn (of_Z 300) (of_Z 300)
                         (gridData one_series) [("A"%string, of_frac 1 2)]
                         None) 0%nat H)).
Defined.

(** ** The pointer handlers *)

Lemma since_clear_from_app (l m shown : list ctx_call) :
  since_clear_from shown (l ++ m)
  = since_clear_from (since_clear_from shown l) m.
Proof.
  revert shown. induction l as [|c l IH]; intros shown; cbn [app].
  - reflexivity.
  - destruct c; cbn [since_clear_from]; apply IH.
Qed.

Lemma since_clear_polygon (this : paint_t) (q : quad) (c : option color)
    (calls : list ctx_call) (x y w h : number) :
  since_clear (calls ++ ctx_clearRect x y w h :: polygon this q c)
  = polygon this q c.
Proof.
  unfold since_clear. rewrite since_clear_from_app. cbn [since_clear_from].
  unfold polygon. destruct (truthy (fill this)); reflexivity.
Qed.

Lemma since_clear_cleared (calls : list ctx_call) (x y w h : number) :
  since_clear (calls ++ [ctx_clearRect x y w h]) = [].
Proof.
  unfold since_clear. rewrite since_clear_from_app. reflexivity.
Qed.

Lemma as_plot_check (plot : funnel_plot) (s : funnel_series)
    (others : list funnel_series) (gridpos : point) :
  all_series plot = s :: others ->
  checkIntersection gridpos (as_plot plot)
  = checkIntersection gridpos (plot_of (layout s)).
Proof. intros E. unfold checkIntersection, as_plot. cbn [series]. now rewrite E. Qed.

Lemma plot_of_hit (s : series_t) (gridpos : point) (k i : nat)
    (d : option datapoint) :
  checkIntersection gridpos (plot_of s) = Return (Some (k, i, d)) ->
  k = index s /\ exists cv, nth_error (_vertices s) i = Some cv.
Proof.
  unfold checkIntersection, plot_of. cbn [series].
  destruct (_vertices s) as [|vfirst rest] eqn:Ev; [discriminate |].
  destruct (nth_error (vfirst :: rest) (List.length (vfirst :: rest) - 1))
    as [vlast|]; [| discriminate].
  cbv zeta. rewrite check_sections_first_over.
  destruct (first_over _ (vfirst :: rest) 0) as [i'|] eqn:Ef;
    [| discriminate].
  cbn [option_map]. intros H. injection H as <- <- <-.
  apply first_over_Some in Ef as (_ & (cv & Ecv & _) & _).
  rewrite Nat.sub_0_r in Ecv. split; [reflexivity |]. now exists cv.
Qed.

Lemma plot_of_drawn (s : series_t) (gridpos : point) :
  _vertices s <> [] -> checkIntersection gridpos (plot_of s) <> TypeError.
Proof.
  intros Hv. unfold checkIntersection, plot_of. cbn [series].
  destruct (_vertices s) as [|vfirst rest] eqn:Ev; [congruence |].
  destruct (nth_error_last_Some quad vfirst rest) as [vlast E].
  rewrite E. discriminate.
Qed.

Lemma funnel_first_ext (plot plot' : funnel_plot) :
  all_series plot' = all_series plot -> funnel_first plot -> funnel_first plot'.
Proof. unfold funnel_first. intros ->. exact (fun H => H). Qed.

Lemma highlight_shown_ext (plot plot' : funnel_plot) :
  all_series plot' = all_series plot ->
  highlightedSeriesIndex plot' = highlightedSeriesIndex plot ->
  highlightCanvas plot' = highlightCanvas plot ->
  highlight_shown plot -> highlight_shown plot'.
Proof. unfold highlight_shown. intros -> -> ->. exact (fun H => H). Qed.

Lemma trigger_keeps (e : event) (plot : funnel_plot) :
  funnel_first plot -> highlight_shown plot ->
  exists plot',
    trigger e plot = Some (plot', Return tt)
    /\ funnel_first plot' /\ highlight_shown plot'.
Proof.
  intros Hf Hs. eexists. split; [reflexivity |]. split.
  - now apply (funnel_first_ext plot).
  - now apply (highlight_shown_ext plot).
Qed.

Lemma unhighlight_keeps (plot : funnel_plot) :
  funnel_first plot ->
  exists plot',
    unhighlight plot = Some (plot', Return tt)
    /\ funnel_first plot' /\ highlight_shown plot'.
Proof.
  intros (s & others & Es & Hidx & Hren & Hv).
  eexists. split; [reflexivity |]. split.
  - unfold funnel_first. cbn [all_series]. rewrite Es. cbn [map].
    exists (mark s None), (map (fun s => mark s None) others).
    now repeat split.
  - unfold highlight_shown. cbn [highlightedSeriesIndex highlightCanvas].
    apply since_clear_cleared.
Qed.

Lemma highlight_keeps (plot : funnel_plot) (s : funnel_series)
    (others : list funnel_series) (i : nat) (cv : quad) :
  all_series plot = s :: others ->
  index (layout s) = 0%nat ->
  renderer (layout s) = FunnelRenderer ->
  nth_error (_vertices (layout s)) i = Some cv ->
  exists plot',
    highlight 0 i plot = Some (plot', Return tt)
    /\ funnel_first plot' /\ highlight_shown plot'.
Proof.
  intros Es Hidx Hren Ecv. unfold highlight. rewrite Es. cbn [nth_error].
  unfold then_, bind, clear_canvas, on_canvas, set_series.
  cbn [all_series]. rewrite Hren, Ecv. cbn [drawSection paint_then doDraw].
  eexists. split; [reflexivity |]. split.
  - unfold funnel_first. cbn [all_series replace_nth].
    exists (mark s (Some i)), others. repeat split; try assumption.
    cbn. intros E. rewrite E in Ecv. destruct i; discriminate.
  - unfold highlight_shown. cbn [highlightedSeriesIndex].
    split; [reflexivity |].
    exists (mark s (Some i)), others, i, cv. cbn [all_series replace_nth].
    split; [reflexivity |]. split; [reflexivity |]. split; [exact Ecv |].
    cbn [highlightCanvas canvas_width canvas_height paint mark].
    rewrite <- app_assoc. cbn [app].
    apply (since_clear_polygon (paint s) cv).
Qed.

Lemma keeps_ret : keeps_shown (ret tt).
Proof. intros plot Hf Hs. exists plot. now repeat split. Qed.

Lemma keeps_trigger (e : event) : keeps_shown (trigger e).
Proof. intros plot. apply trigger_keeps. Qed.

Lemma keeps_unhighlight : keeps_shown unhighlight.
Proof. intros plot Hf _. now apply unhighlight_keeps. Qed.

Lemma keeps_then (m m' : action unit) :
  keeps_shown m -> keeps_shown m' -> keeps_shown (then_ m m').
Proof.
  intros Hm Hm' plot Hf Hs.
  destruct (Hm plot Hf Hs) as (plot1 & E1 & Hf1 & Hs1).
  destruct (Hm' plot1 Hf1 Hs1) as (plot2 & E2 & Hf2 & Hs2).
  exists plot2. unfold then_, bind. rewrite E1. now repeat split.
Qed.

Lemma keeps_highlight_hit (gridpos : point) (k i : nat)
    (d : option datapoint) (plot : funnel_plot) (s : funnel_series)
    (others : list funnel_series) :
  all_series plot = s :: others ->
  index (layout s) = 0%nat ->
  renderer (layout s) = FunnelRenderer ->
  checkIntersection gridpos (plot_of (layout s)) = Return (Some (k, i, d)) ->
  k = 0%nat
  /\ nth_error (all_series plot) k = Some s
  /\ exists plot',
       then_ (trigger (jqplotDataHighlight (k, i, d))) (highlight k i) plot
       = Some (plot', Return tt)
       /\ funnel_first plot' /\ highlight_shown plot'.
Proof.
  intros Es Hidx Hren Ec.
  apply plot_of_hit in Ec as [-> [cv Ecv]]. rewrite Hidx.
  split; [reflexivity |]. split; [now rewrite Es |].
  unfold then_, bind, trigger.
  apply (highlight_keeps _ s others i cv); assumption.
Qed.

Lemma keeps_handleMouseUp : keeps_shown handleMouseUp.
Proof.
  intros plot Hf Hs. unfold handleMouseUp.
  destruct (highlightedSeriesIndex plot) as [idx|] eqn:Eh.
  - assert (Hs' := Hs). unfold highlight_shown in Hs'. rewrite Eh in Hs'.
    destruct Hs' as (-> & s & others & i & cv & Es & _).
    rewrite Es. cbn [nth_error].
    destruct (truthy (highlightMouseDown (layout s))).
    + now apply keeps_unhighlight.
    + now apply keeps_ret.
  - now apply keeps_ret.
Qed.

Lemma keeps_handle (e : pointer_event) : keeps_shown (handle e).
Proof.
  destruct e as [gridpos|gridpos| |gridpos|gridpos|]; cbn [handle].
  - intros plot Hf Hs. assert (Hf' := Hf).
    destruct Hf' as (s & others & Es & Hidx & Hren & Hv).
    unfold handleMove. rewrite (as_plot_check plot s others gridpos Es).
    pose proof (plot_of_drawn (layout s) gridpos Hv) as Hne.
    destruct (checkIntersection gridpos (plot_of (layout s)))
      as [[[[k i] d]|]|] eqn:Ec; [| | congruence].
    + destruct (trigger_keeps (jqplotDataMouseOver (k, i, d)) plot Hf Hs)
        as (plot1 & E1 & Hf1 & Hs1).
      unfold then_ at 1. unfold bind at 1. rewrite E1.
      assert (Es1 : all_series plot1 = s :: others).
      { unfold trigger in E1. injection E1 as <-. exact Es. }
      destruct (keeps_highlight_hit gridpos k i d plot1 s others
                  Es1 Hidx Hren Ec) as (-> & En & Hh).
      rewrite En.
      destruct (truthy (highlightMouseOver (layout s))
                && negb (is_highlighted plot1 s 0 i)).
      * exact Hh.
      * now apply keeps_ret.
    + now apply keeps_unhighlight.
  - intros plot Hf Hs. assert (Hf' := Hf).
    destruct Hf' as (s & others & Es & Hidx & Hren & Hv).
    unfold handleMouseDown. rewrite (as_plot_check plot s others gridpos Es).
    pose proof (plot_of_drawn (layout s) gridpos Hv) as Hne.
    destruct (checkIntersection gridpos (plot_of (layout s)))
      as [[[[k i] d]|]|] eqn:Ec; [| | congruence].
    + destruct (keeps_highlight_hit gridpos k i d plot s others
                  Es Hidx Hren Ec) as (-> & En & Hh).
      rewrite En.
      destruct (truthy (highlightMouseDown (layout s))
                && negb (is_highlighted plot s 0 i)).
      * exact Hh.
      * now apply keeps_ret.
    + now apply keeps_unhighlight.
  - apply keeps_handleMouseUp.
  - intros plot Hf Hs. assert (Hf' := Hf).
    destruct Hf' as (s & others & Es & Hidx & Hren & Hv).
    unfold handleClick. rewrite (as_plot_check plot s others gridpos Es).
    pose proof (plot_of_drawn (layout s) gridpos Hv) as Hne.
    destruct (checkIntersection gridpos (plot_of (layout s)))
      as [[ins|]|] eqn:Ec; [| | congruence].
    + now apply keeps_trigger.
    + now apply keeps_ret.
  - intros plot Hf Hs. assert (Hf' := Hf).
    destruct Hf' as (s & others & Es & Hidx & Hren & Hv).
    unfold handleRightClick. rewrite (as_plot_check plot s others gridpos Es).
    pose proof (plot_of_drawn (layout s) gridpos Hv) as Hne.
    destruct (checkIntersection gridpos (plot_of (layout s)))
      as [[ins|]|] eqn:Ec; [| | congruence].
    + apply keeps_then; [apply keeps_handleMouseUp | apply keeps_trigger |
                         assumption | assumption].
    + apply keeps_then; [apply keeps_handleMouseUp | apply keeps_ret |
                         assumption | assumption].
  - apply keeps_unhighlight.
Qed.

(** X19.  Take a plot whose first series is a drawn funnel series of index
    [0], with the highlight canvas in agreement with the highlight
    state (as when nothing has been highlighted yet).  Then every
    sequence of pointer events is handled without an exception, and
    afterwards the canvas still agrees with the state: it shows the
    section recorded as highlighted, in its highlight colour, or
    nothing when no section is recorded. *)
Theorem handlers_keep_highlight_shown (events : list pointer_event)
    (plot : funnel_plot) :
  funnel_first plot -> highlight_shown plot ->
  exists plot',
    handle_all events plot = Some (plot', Return tt)
    /\ funnel_first plot' /\ highlight_shown plot'.
Proof.
  revert plot. induction events as [|e events IH]; cbn [handle_all].
  - apply keeps_ret.
  - apply keeps_then; [apply keeps_handle | exact IH].
Qed.

(** The funnel of one data point: a move onto the section, a click on
    it, and a move off it. *)
Lemma handlers_keep_highlight_shown_witness :
  funnel_first (pointer_plot one_drawn)
  /\ highlight_shown (pointer_plot one_drawn)
  /\ exists plot',
       handle_all
         [jqplotMouseMove (of_Z 150, of_Z 100);
          jqplotClick (of_Z 150, of_Z 100);
          jqplotMouseMove (of_Z 0, of_Z 0)]
         (pointer_plot one_drawn)
       = Some (plot', Return tt)
       /\ funnel_first plot' /\ highlight_shown plot'.
Proof.
  assert (H1 : funnel_first (pointer_plot one_drawn)).
  { exists {| layout := one_drawn; paint := example_paint |}, [].
    split; [reflexivity |]. split; [reflexivity |]. split; [reflexivity |].
    intros E. apply (f_equal (@List.length quad)) in E.
    vm_compute in E. discriminate E. }
  assert (H2 : highlight_shown (pointer_plot one_drawn)) by reflexivity.
  split; [exact H1 |]. split; [exact H2 |].
  exact (handlers_keep_highlight_shown _ (pointer_plot one_drawn) H1 H2).
Defined.

(** ** A move of the pointer over a section *)

Lemma check_sections_marked (s : series_t) (p : option nat) (x y : number)
    (lex rex : point) (v : list quad) (i : nat) :
  check_sections (set_highlightedPoint s p) x y lex rex v i
  = check_sections s x y lex rex v i.
Proof.
  revert i. induction v as [|cv v IH]; intros i; cbn [check_sections].
  - reflexivity.
  - now rewrite IH.
Qed.

Lemma checkIntersection_marked (s : series_t) (p : option nat)
    (gridpos : point) :
  checkIntersection gridpos (plot_of (set_highlightedPoint s p))
  = checkIntersection gridpos (plot_of s).
Proof.
  unfold checkIntersection, plot_of. cbn [series _vertices set_highlightedPoint].
  destruct (_vertices s) as [|vfirst rest]; [reflexivity |].
  destruct (nth_error (vfirst :: rest) (List.length (vfirst :: rest) - 1));
    [| reflexivity].
  cbv zeta. now rewrite check_sections_marked.
Qed.

Lemma is_highlighted_marked (plot : funnel_plot) (s : funnel_series)
    (i : nat) :
  highlightedSeriesIndex plot = Some 0%nat ->
  is_highlighted plot (mark s (Some i)) 0 i = true.
Proof.
  intros E. unfold is_highlighted. rewrite E. cbn. now rewrite Nat.eqb_refl.
Qed.

(** X15.  Moving the pointer onto a section that is not highlighted, on a
    series with [highlightMouseOver] on, triggers [jqplotDataMouseOver]
    and [jqplotDataHighlight], records the section, clears the
    highlight canvas and paints the section on it in its highlight
    colour.  A second move over the same section only triggers
    [jqplotDataMouseOver]: nothing is recorded and nothing is
    painted. *)
Theorem handleMove_highlights_once (gridpos : point) (plot : funnel_plot)
    (s : funnel_series) (others : list funnel_series) (k i : nat)
    (d : option datapoint) :
  all_series plot = s :: others ->
  index (layout s) = 0%nat ->
  renderer (layout s) = FunnelRenderer ->
  checkIntersection gridpos (as_plot plot) = Return (Some (k, i, d)) ->
  truthy (highlightMouseOver (layout s)) = true ->
  is_highlighted plot s 0 i = false ->
  exists cv plot1 plot2,
    nth_error (_vertices (layout s)) i = Some cv
    /\ handleMove gridpos plot = Some (plot1, Return tt)
    /\ all_series plot1 = mark s (Some i) :: others
    /\ highlightedSeriesIndex plot1 = Some 0%nat
    /\ triggered plot1
       = triggered plot
         ++ [jqplotDataMouseOver (0%nat, i, d);
             jqplotDataHighlight (0%nat, i, d)]
    /\ highlightCanvas plot1
       = highlightCanvas plot
         ++ clearRect_all plot
            :: polygon (paint s) cv (nth_error (highlightColors (paint s)) i)
    /\ handleMove gridpos plot1 = Some (plot2, Return tt)
    /\ all_series plot2 = all_series plot1
    /\ highlightedSeriesIndex plot2 = highlightedSeriesIndex plot1
    /\ triggered plot2
       = triggered plot1 ++ [jqplotDataMouseOver (0%nat, i, d)]
    /\ highlightCanvas plot2 = highlightCanvas plot1.
Proof.
  intros Es Hidx Hren Ec Hover Hnot.
  rewrite (as_plot_check plot s others gridpos Es) in Ec.
  destruct (plot_of_hit (layout s) gridpos k i d Ec) as [Ek [cv Ecv]].
  rewrite Hidx in Ek. subst k.
  exists cv.
  exists {| all_series := mark s (Some i) :: others;
            processGetNeighbor := processGetNeighbor plot;
            highlightedSeriesIndex := Some 0%nat;
            canvas_width := canvas_width plot;
            canvas_height := canvas_height plot;
            highlightCanvas :=
              highlightCanvas plot
              ++ clearRect_all plot
                 :: polygon (paint s) cv
                      (nth_error (highlightColors (paint s)) i);
            triggered :=
              triggered plot
              ++ [jqplotDataMouseOver (0%nat, i, d);
                  jqplotDataHighlight (0%nat, i, d)] |}.
  eexists.
  split; [exact Ecv |].
  split.
  { unfold handleMove. rewrite (as_plot_check plot s others gridpos Es), Ec.
    unfold then_ at 1. unfold bind at 1. unfold trigger at 1.
    cbn [all_series]. rewrite Es. cbn [nth_error].
    change (is_highlighted _ s 0 i) with (is_highlighted plot s 0 i).
    rewrite Hover, Hnot.
    cbn [andb negb]. unfold then_, bind, trigger, highlight.
    cbn [all_series nth_error].
    unfold then_, bind, clear_canvas, on_canvas, set_series.
    rewrite Hren, Ecv.
    cbn [drawSection paint_then doDraw all_series processGetNeighbor
           highlightedSeriesIndex canvas_width canvas_height
           highlightCanvas triggered replace_nth app].
    rewrite <- !app_assoc. reflexivity. }
  split; [reflexivity |]. split; [reflexivity |].
  split; [reflexivity |]. split; [reflexivity |].
  split.
  { unfold handleMove.
    rewrite (as_plot_check _ (mark s (Some i)) others gridpos)
      by reflexivity.
    cbn [layout mark]. rewrite checkIntersection_marked, Ec.
    unfold then_ at 1. unfold bind at 1. unfold trigger at 1.
    cbn [all_series replace_nth nth_error].
    change (highlightMouseOver (layout (mark s (Some i))))
      with (highlightMouseOver (layout s)).
    rewrite Hover, is_highlighted_marked by reflexivity.
    cbn [andb negb]. reflexivity. }
  repeat split; reflexivity.
Qed.

Lemma handleMove_highlights_once_witness :
  checkIntersection (of_Z 150, of_Z 100) (as_plot (pointer_plot one_drawn))
  = Return (Some (0%nat, 0%nat, nth_error (data one_drawn) 0))
  /\ truthy (highlightMouseOver one_drawn) = true
  /\ exists cv plot1 plot2,
       nth_error (_vertices one_drawn) 0 = Some cv
       /\ handleMove (of_Z 150, of_Z 100) (pointer_plot one_drawn)
          = Some (plot1, Return tt)
       /\ all_series plot1
          = [mark {| layout := one_drawn; paint := example_paint |}
               (Some 0%nat)]
       /\ highlightedSeriesIndex plot1 = Some 0%nat
       /\ triggered plot1
          = [jqplotDataMouseOver (0%nat, 0%nat, nth_error (data one_drawn) 0);
             jqplotDataHighlight (0%nat, 0%nat, nth_error (data one_drawn) 0)]
       /\ highlightCanvas plot1
          = clearRect_all (pointer_plot one_drawn)
            :: polygon example_paint cv
                 (Some (rgb (of_Z 147) (of_Z 208) (of_Z 220)))
       /\ handleMove (of_Z 150, of_Z 100) plot1 = Some (plot2, Return tt)
       /\ all_series plot2 = all_series plot1
       /\ highlightedSeriesIndex plot2 = highlightedSeriesIndex plot1
       /\ triggered plot2
          = triggered plot1
            ++ [jqplotDataMouseOver
                  (0%nat, 0%nat, nth_error (data one_drawn) 0)]
       /\ highlightCanvas plot2 = highlightCanvas plot1.
Proof.
  assert (H1 : checkIntersection (of_Z 150, of_Z 100)
                 (as_plot (pointer_plot one_drawn))
               = Return (Some (0%nat, 0%nat, nth_error (data one_drawn) 0)))
    by (vm_compute; reflexivity).
  assert (H2 : truthy (highlightMouseOver one_drawn) = true)
    by (vm_compute; reflexivity).
  split; [exact H1 |]. split; [exact H2 |].
  exact (handleMove_highlights_once (of_Z 150, of_Z 100)
           (pointer_plot one_drawn)
           {| layout := one_drawn; paint := example_paint |} []
           0 0 (nth_error (data one_drawn) 0)
           eq_refl eq_refl eq_refl H1 H2 eq_refl).
Defined.

(** ** Off the sections, and before [draw] *)

(** X16.  A move of the pointer, or a press of the button, at a place where
    the hit test finds no section clears the highlight canvas, forgets
    the highlighted point of every series and the highlighted series,
    and triggers [jqplotDataUnhighlight]: each time, also when nothing
    was highlighted. *)
Theorem handleMove_off_sections (gridpos : point) (plot : funnel_plot) :
  checkIntersection gridpos (as_plot plot) = Return None ->
  exists plot',
    handleMove gridpos plot = Some (plot', Return tt)
    /\ handleMouseDown gridpos plot = Some (plot', Return tt)
    /\ highlightedSeriesIndex plot' = None
    /\ Forall (fun s => _highlightedPoint (layout s) = None) (all_series plot')
    /\ highlightCanvas plot' = highlightCanvas plot ++ [clearRect_all plot]
    /\ triggered plot' = triggered plot ++ [jqplotDataUnhighlight].
Proof.
  intros Ec. unfold handleMove, handleMouseDown. rewrite Ec.
  eexists. split; [reflexivity |]. split; [reflexivity |].
  split; [reflexivity |]. split; [| split; reflexivity].
  cbn [all_series]. apply Forall_map. apply Forall_forall. reflexivity.
Qed.

Lemma handleMove_off_sections_witness :
  checkIntersection (of_Z 0, of_Z 0) (as_plot (pointer_plot one_drawn))
  = Return None
  /\ exists plot',
       handleMove (of_Z 0, of_Z 0) (pointer_plot one_drawn)
       = Some (plot', Return tt)
       /\ handleMouseDown (of_Z 0, of_Z 0) (pointer_plot one_drawn)
          = Some (plot', Return tt)
       /\ highlightedSeriesIndex plot' = None
       /\ Forall (fun s => _highlightedPoint (layout s) = None)
            (all_series plot')
       /\ highlightCanvas plot'
          = highlightCanvas (pointer_plot one_drawn)
            ++ [clearRect_all (pointer_plot one_drawn)]
       /\ triggered plot'
          = triggered (pointer_plot one_drawn) ++ [jqplotDataUnhighlight].
Proof.
  assert (H : checkIntersection (of_Z 0, of_Z 0)
                (as_plot (pointer_plot one_drawn)) = Return None)
    by (vm_compute; reflexivity).
  split; [exact H |].
  exact (handleMove_off_sections (of_Z 0, of_Z 0) (pointer_plot one_drawn) H).
Defined.

(** X18.  While the plot has no series, or its first series has no vertices
    yet, each of the four handlers that test the place of the pointer
    ends with a [TypeError] and changes nothing. *)
Theorem handlers_before_draw (gridpos : point) (plot : funnel_plot) :
  all_series plot = []
  \/ (exists s others, all_series plot = s :: others
                       /\ _vertices (layout s) = []) ->
  handleMove gridpos plot = Some (plot, TypeError)
  /\ handleMouseDown gridpos plot = Some (plot, TypeError)
  /\ handleClick gridpos plot = Some (plot, TypeError)
  /\ handleRightClick gridpos plot = Some (plot, TypeError).
Proof.
  intros H.
  assert (Ec : checkIntersection gridpos (as_plot plot) = TypeError).
  { unfold checkIntersection, as_plot. cbn [series].
    destruct H as [-> | (s & others & -> & Ev)]; [reflexivity |].
    cbn [map]. now rewrite Ev. }
  unfold handleMove, handleMouseDown, handleClick, handleRightClick.
  rewrite Ec. now repeat split.
Qed.

Lemma handlers_before_draw_witness :
  (all_series (pointer_plot one_series) = []
   \/ exists s others, all_series (pointer_plot one_series) = s :: others
                       /\ _vertices (layout s) = [])
  /\ handleMove (of_Z 150, of_Z 100) (pointer_plot one_series)
     = Some (pointer_plot one_series, TypeError).
Proof.
  assert (H : all_series (pointer_plot one_series) = []
              \/ exists s others,
                   all_series (pointer_plot one_series) = s :: others
                   /\ _vertices (layout s) = []).
  { right. exists {| layout := one_series; paint := example_paint |}, [].
    split; reflexivity. }
  split; [exact H |].
  exact (proj1 (handlers_before_draw (of_Z 150, of_Z 100)
                  (pointer_plot one_series) H)).
Defined.

(** ** A press and a release of the button *)

(** X17.  On a series with [highlightMouseDown] on, a press of the button
    over a section that is not highlighted triggers
    [jqplotDataHighlight] and paints the section on the cleared
    highlight canvas; the release that follows clears the canvas
    again, forgets the section and triggers [jqplotDataUnhighlight]. *)
Theorem press_then_release (gridpos : point) (plot : funnel_plot)
    (s : funnel_series) (others : list funnel_series) (k i : nat)
    (d : option datapoint) :
  all_series plot = s :: others ->
  index (layout s) = 0%nat ->
  renderer (layout s) = FunnelRenderer ->
  checkIntersection gridpos (as_plot plot) = Return (Some (k, i, d)) ->
  truthy (highlightMouseDown (layout s)) = true ->
  is_highlighted plot s 0 i = false ->
  exists cv plot1 plot2,
    nth_error (_vertices (layout s)) i = Some cv
    /\ handleMouseDown gridpos plot = Some (plot1, Return tt)
    /\ all_series plot1 = mark s (Some i) :: others
    /\ highlightedSeriesIndex plot1 = Some 0%nat
    /\ handleMouseUp plot1 = Some (plot2, Return tt)
    /\ highlightedSeriesIndex plot2 = None
    /\ Forall (fun s => _highlightedPoint (layout s) = None) (all_series plot2)
    /\ triggered plot2
       = triggered plot
         ++ [jqplotDataHighlight (0%nat, i, d); jqplotDataUnhighlight]
    /\ highlightCanvas plot2
       = highlightCanvas plot
         ++ clearRect_all plot
            :: polygon (paint s) cv (nth_error (highlightColors (paint s)) i)
         ++ [clearRect_all plot].
Proof.
  intros Es Hidx Hren Ec Hdown Hnot.
  rewrite (as_plot_check plot s others gridpos Es) in Ec.
  destruct (plot_of_hit (layout s) gridpos k i d Ec) as [Ek [cv Ecv]].
  rewrite Hidx in Ek. subst k.
  exists cv.
  exists {| all_series := mark s (Some i) :: others;
            processGetNeighbor := processGetNeighbor plot;
            highlightedSeriesIndex := Some 0%nat;
            canvas_width := canvas_width plot;
            canvas_height := canvas_height plot;
            highlightCanvas :=
              highlightCanvas plot
              ++ clearRect_all plot
                 :: polygon (paint s) cv
                      (nth_error (highlightColors (paint s)) i);
            triggered :=
              triggered plot ++ [jqplotDataHighlight (0%nat, i, d)] |}.
  eexists.
  split; [exact Ecv |].
  split.
  { unfold handleMouseDown.
    rewrite (as_plot_check plot s others gridpos Es), Ec, Es.
    cbn [nth_error]. rewrite Hdown, Hnot.
    cbn [andb negb]. unfold then_, bind, trigger, highlight.
    cbn [all_series]. rewrite Es. cbn [nth_error].
    unfold then_, bind, clear_canvas, on_canvas, set_series.
    rewrite Hren, Ecv.
    cbn [drawSection paint_then doDraw all_series processGetNeighbor
           highlightedSeriesIndex canvas_width canvas_height
           highlightCanvas triggered replace_nth app].
    rewrite <- !app_assoc. reflexivity. }
  split; [reflexivity |]. split; [reflexivity |].
  split.
  { unfold handleMouseUp. cbn [highlightedSeriesIndex all_series nth_error].
    change (highlightMouseDown (layout (mark s (Some i))))
      with (highlightMouseDown (layout s)).
    rewrite Hdown. reflexivity. }
  split; [reflexivity |].
  split.
  { cbn [all_series]. apply Forall_map. apply Forall_forall. reflexivity. }
  split.
  { cbn [triggered]. rewrite <- app_assoc. reflexivity. }
  cbn [highlightCanvas]. rewrite <- app_assoc. reflexivity.
Qed.

Lemma press_then_release_witness :
  checkIntersection (of_Z 150, of_Z 100)
    (as_plot (pointer_plot mouse_down_drawn))
  = Return (Some (0%nat, 0%nat, nth_error (data mouse_down_drawn) 0))
  /\ truthy (highlightMouseDown mouse_down_drawn) = true
  /\ exists cv plot1 plot2,
       nth_error (_vertices mouse_down_drawn) 0 = Some cv
       /\ handleMouseDown (of_Z 150, of_Z 100) (pointer_plot mouse_down_drawn)
          = Some (plot1, Return tt)
       /\ all_series plot1
          = [mark {| layout := mouse_down_drawn; paint := example_paint |}
               (Some 0%nat)]
       /\ highlightedSeriesIndex plot1 = Some 0%nat
       /\ handleMouseUp plot1 = Some (plot2, Return tt)
       /\ highlightedSeriesIndex plot2 = None
       /\ Forall (fun s => _highlightedPoint (layout s) = None)
            (all_series plot2)
       /\ triggered plot2
          = [jqplotDataHighlight
               (0%nat, 0%nat, nth_error (data mouse_down_drawn) 0);
             jqplotDataUnhighlight]
       /\ highlightCanvas plot2
          = clearRect_all (pointer_plot mouse_down_drawn)
            :: polygon example_paint cv
                 (Some (rgb (of_Z 147) (of_Z 208) (of_Z 220)))
            ++ [clearRect_all (pointer_plot mouse_down_drawn)].
Proof.
  assert (H1 : checkIntersection (of_Z 150, of_Z 100)
                 (as_plot (pointer_plot mouse_down_drawn))
               = Return
                   (Some (0%nat, 0%nat, nth_error (data mouse_down_drawn) 0)))
    by (vm_compute; reflexivity).
  assert (H2 : truthy (highlightMouseDown mouse_down_drawn) = true)
    by (vm_compute; reflexivity).
  split; [exact H1 |]. split; [exact H2 |].
  exact (press_then_release (of_Z 150, of_Z 100)
           (pointer_plot mouse_down_drawn)
           {| layout := mouse_down_drawn; paint := example_paint |} []
           0 0 (nth_error (data mouse_down_drawn) 0)
           eq_refl eq_refl eq_refl H1 H2 eq_refl).
Defined.

(** ** [drawSection] *)

Lemma paint_fold_returns (body : nat -> painting)
    (calls : nat -> list ctx_call) (n k : nat) :
  (forall i, (k <= i < k + n)%nat -> body i = Some (calls i, Return tt)) ->
  fold_right (fun i rest => paint_then (body i) rest)
    (Some ([], Return tt)) (seq k n)
  = Some (flat_map calls (seq k n), Return tt).
Proof.
  revert k. induction n as [|n IH]; intros k Hb; cbn [seq fold_right flat_map].
  - reflexivity.
  - rewrite IH by (intros i Hi; apply Hb; lia).
    rewrite Hb by lia. reflexivity.
Qed.

Lemma paint_loop_returns (body : nat -> painting)
    (calls : nat -> list ctx_call) (n : nat) :
  (forall i, (i < n)%nat -> body i = Some (calls i, Return tt)) ->
  paint_loop body n = Some (flat_map calls (seq 0 n), Return tt).
Proof.
  intros Hb. unfold paint_loop. apply paint_fold_returns.
  intros i Hi. apply Hb. lia.
Qed.

Lemma stack_after_app (a b : list ctx_call) (depth : nat) :
  stack_after (a ++ b) depth
  = match stack_after a depth with
    | Some depth' => stack_after b depth'
    | None => None
    end.
Proof.
  revert depth. induction a as [|c a IH]; intros depth; cbn [app].
  - reflexivity.
  - destruct c; cbn [stack_after]; try apply IH.
    destruct depth; [reflexivity | apply IH].
Qed.

Lemma painted_app (a b : list ctx_call) :
  painted (a ++ b) = (painted a + painted b)%nat.
Proof. unfold painted. now rewrite filter_app, length_app. Qed.

Lemma stack_after_level (turn : list ctx_call) (l : list nat) :
  (forall depth, stack_after turn depth = Some depth) ->
  forall depth, stack_after (flat_map (fun _ => turn) l) depth = Some depth.
Proof.
  intros Ht. induction l as [|x l IH]; intros depth; cbn [flat_map].
  - reflexivity.
  - now rewrite stack_after_app, Ht.
Qed.

Lemma stack_after_saves (turn : list ctx_call) (l : list nat) :
  (forall depth, stack_after turn depth = Some (S depth)) ->
  forall depth,
    stack_after (flat_map (fun _ => turn) l) depth
    = Some (List.length l + depth)%nat.
Proof.
  intros Ht. induction l as [|x l IH]; intros depth; cbn [flat_map].
  - reflexivity.
  - rewrite stack_after_app, Ht, IH. cbn [List.length]. f_equal. lia.
Qed.

Lemma stack_after_restores (l : list nat) (depth : nat) :
  stack_after (flat_map (fun _ => [ctx_restore]) l) (List.length l + depth)
  = Some depth.
Proof.
  induction l as [|x l IH]; cbn [flat_map List.length Nat.add app stack_after].
  - reflexivity.
  - exact IH.
Qed.

Lemma painted_turns (turn : list ctx_call) (l : list nat) :
  painted (flat_map (fun _ => turn) l) = (List.length l * painted turn)%nat.
Proof.
  induction l as [|x l IH]; cbn [flat_map List.length].
  - reflexivity.
  - rewrite painted_app, IH. lia.
Qed.

Lemma stack_after_polygon (this : paint_t) (q : quad) (c : option color)
    (depth : nat) :
  stack_after (polygon this q c) depth = Some depth.
Proof. unfold polygon. destruct (truthy (fill this)); reflexivity. Qed.

Lemma painted_polygon (this : paint_t) (q : quad) (c : option color) :
  painted (polygon this q c) = 1%nat.
Proof. unfold polygon. destruct (truthy (fill this)); reflexivity. Qed.

Lemma drawSection_plain (this : paint_t) (q : quad) (c : option color) :
  drawSection this (Some q) c false = Some (polygon this q c, Return tt).
Proof. reflexivity. Qed.

Lemma stack_after_path (this : paint_t) (q : quad) (c : option color)
    (depth : nat) :
  stack_after (path this q c) depth = Some depth.
Proof. unfold path. destruct (truthy (fill this)); reflexivity. Qed.

Lemma painted_path (this : paint_t) (q : quad) (c : option color) :
  painted (path this q c) = 1%nat.
Proof. unfold path. destruct (truthy (fill this)); reflexivity. Qed.

Lemma drawSection_shadow (this : paint_t) (q : quad) (c : option color)
    (n : nat) :
  turns (shadowDepth this) = Some n ->
  drawSection this (Some q) c true
  = Some (shadow_polygon this q c n, Return tt).
Proof.
  intros Hn. unfold drawSection. rewrite Hn.
  rewrite (paint_loop_returns _
             (fun _ =>
                ctx_save
                :: ctx_translate_polar (shadowOffset this) (shadowAngle this)
                :: path this q c) n) by reflexivity.
  rewrite (paint_loop_returns _ (fun _ => [ctx_restore]) n) by reflexivity.
  reflexivity.
Qed.

Lemma stack_after_shadow_polygon (this : paint_t) (q : quad)
    (c : option color) (n depth : nat) :
  stack_after (shadow_polygon this q c n) depth = Some depth.
Proof.
  unfold shadow_polygon. cbn [stack_after].
  rewrite stack_after_app.
  rewrite (stack_after_saves
             (ctx_save
              :: ctx_translate_polar (shadowOffset this) (shadowAngle this)
              :: path this q c))
    by (intros d; cbn [stack_after]; apply stack_after_path).
  rewrite length_seq, stack_after_app.
  pose proof (stack_after_restores (seq 0 n) (S depth)) as Hr.
  rewrite length_seq in Hr. rewrite Hr. reflexivity.
Qed.

Lemma painted_shadow_polygon (this : paint_t) (q : quad) (c : option color)
    (n : nat) :
  painted (shadow_polygon this q c n) = n.
Proof.
  unfold shadow_polygon. change (ctx_save :: ?l) with ([ctx_save] ++ l).
  rewrite !painted_app, !painted_turns, length_seq.
  change (painted (?a :: ?b :: path this q c)) with (painted (path this q c)).
  rewrite painted_path. cbn. lia.
Qed.

(** X8.  A call of [drawSection] on a quadrilateral, with a [shadowDepth]
    of at most [2^53] (so that the loops over it end), returns; it
    leaves the stack of saved states of the context as
    deep as it found it, without ever restoring a state it did not
    save; and it paints one path for a section, and as many paths as
    the loop over [shadowDepth] has turns for a shadow. *)
Theorem drawSection_balanced (this : paint_t) (q : quad) (c : option color)
    (isShadow : bool) (n : nat) :
  turns (shadowDepth this) = Some n ->
  exists calls,
    drawSection this (Some q) c isShadow = Some (calls, Return tt)
    /\ (forall depth, stack_after calls depth = Some depth)
    /\ painted calls = (if isShadow then n else 1%nat).
Proof.
  intros Hn. destruct isShadow.
  - exists (shadow_polygon this q c n).
    split; [now apply drawSection_shadow |].
    split; [intros depth; apply stack_after_shadow_polygon |].
    apply painted_shadow_polygon.
  - exists (polygon this q c). split; [reflexivity |].
    split; [intros depth; apply stack_after_polygon | apply painted_polygon].
Qed.

Lemma drawSection_balanced_witness :
  turns (shadowDepth example_paint) = Some 5%nat
  /\ exists calls,
       drawSection example_paint
         (Some {| v0 := (of_Z 0, of_Z 0); v1 := (of_Z 4, of_Z 0);
                  v2 := (of_Z 3, of_Z 2); v3 := (of_Z 1, of_Z 2) |})
         (Some (css "black")) true
       = Some (calls, Return tt)
       /\ (forall depth, stack_after calls depth = Some depth)
       /\ painted calls = 5%nat.
Proof.
  assert (H : turns (shadowDepth example_paint) = Some 5%nat) by reflexivity.
  split; [exact H |].
  exact (drawSection_balanced example_paint
           {| v0 := (of_Z 0, of_Z 0); v1 := (of_Z 4, of_Z 0);
              v2 := (of_Z 3, of_Z 2); v3 := (of_Z 1, of_Z 2) |}
           (Some (css "black")) true 5 H).
Defined.

(** ** The painting at the end of [draw] *)

Lemma stack_after_flat_map (f : nat -> list ctx_call) (l : list nat) :
  (forall i depth, stack_after (f i) depth = Some depth) ->
  forall depth, stack_after (flat_map f l) depth = Some depth.
Proof.
  intros Hf. induction l as [|x l IH]; intros depth; cbn [flat_map].
  - reflexivity.
  - now rewrite stack_after_app, Hf.
Qed.

Lemma painted_flat_map (f : nat -> list ctx_call) (l : list nat) (m : nat) :
  (forall i, In i l -> painted (f i) = m) ->
  painted (flat_map f l) = (List.length l * m)%nat.
Proof.
  induction l as [|x l IH]; intros Hf; cbn [flat_map List.length].
  - reflexivity.
  - rewrite painted_app, IH, Hf; [lia | now left |].
    intros i Hi. apply Hf. now right.
Qed.

(** X9.  With a [shadowDepth] of at most [2^53] (so that the loops over
    it end), the painting at the end of [draw] returns.  It paints the shadows of all the sections
    first, when [shadow] is on, and then the sections in their order,
    section [i] in the colour [seriesColors[i]] ([undefined] when the
    series has fewer colours than sections); the stack of saved states
    of the context ends as deep as it was, and the number of paths
    painted is the number of sections times one more than the number
    of strokes of a shadow. *)
Theorem draw_painting_sections (this : paint_t) (verts : list quad)
    (n : nat) :
  turns (shadowDepth this) = Some n ->
  draw_painting this verts (List.length verts)
  = Some ((if truthy (shadow this)
           then flat_map (section_shadow this verts n)
                  (seq 0 (List.length verts))
           else [])
          ++ flat_map (section_polygon this verts)
               (seq 0 (List.length verts)),
          Return tt)
  /\ (forall depth,
        stack_after
          ((if truthy (shadow this)
            then flat_map (section_shadow this verts n)
                   (seq 0 (List.length verts))
            else [])
           ++ flat_map (section_polygon this verts)
                (seq 0 (List.length verts)))
          depth
        = Some depth)
  /\ painted
       ((if truthy (shadow this)
         then flat_map (section_shadow this verts n)
                (seq 0 (List.length verts))
         else [])
        ++ flat_map (section_polygon this verts)
             (seq 0 (List.length verts)))
     = (List.length verts * (if truthy (shadow this) then S n else 1))%nat.
Proof.
  intros Hn.
  assert (Hq : forall i, (i < List.length verts)%nat ->
                 exists q, nth_error verts i = Some q).
  { intros i Hi. destruct (nth_error verts i) as [q|] eqn:E.
    - now exists q.
    - apply nth_error_None in E. lia. }
  assert (Hsections :
            paint_loop
              (fun i =>
                 drawSection this (nth_error verts i)
                   (option_map css (nth_error (seriesColors this) i)) false)
              (List.length verts)
            = Some (flat_map (section_polygon this verts)
                      (seq 0 (List.length verts)), Return tt)).
  { apply paint_loop_returns. intros i Hi.
    destruct (Hq i Hi) as [q Eq]. unfold section_polygon. now rewrite Eq. }
  assert (Hshadows :
            paint_loop
              (fun i =>
                 drawSection this (nth_error verts i)
                   (Some (rgba (of_Z 0) (of_Z 0) (of_Z 0) (shadowAlpha this)))
                   true)
              (List.length verts)
            = Some (flat_map (section_shadow this verts n)
                      (seq 0 (List.length verts)), Return tt)).
  { apply paint_loop_returns. intros i Hi.
    destruct (Hq i Hi) as [q Eq]. unfold section_shadow. rewrite Eq.
    now apply drawSection_shadow. }
  assert (Hstack1 : forall i depth,
             stack_after (section_polygon this verts i) depth = Some depth).
  { intros i depth. unfold section_polygon.
    destruct (nth_error verts i); [apply stack_after_polygon | reflexivity]. }
  assert (Hstack2 : forall i depth,
             stack_after (section_shadow this verts n i) depth = Some depth).
  { intros i depth. unfold section_shadow.
    destruct (nth_error verts i);
      [apply stack_after_shadow_polygon | reflexivity]. }
  assert (Hp1 : forall i, In i (seq 0 (List.length verts)) ->
             painted (section_polygon this verts i) = 1%nat).
  { intros i Hi. apply in_seq in Hi. destruct (Hq i) as [q Eq]; [lia |].
    unfold section_polygon. rewrite Eq. apply painted_polygon. }
  assert (Hp2 : forall i, In i (seq 0 (List.length verts)) ->
             painted (section_shadow this verts n i) = n).
  { intros i Hi. apply in_seq in Hi. destruct (Hq i) as [q Eq]; [lia |].
    unfold section_shadow. rewrite Eq. apply painted_shadow_polygon. }
  split; [| split].
  - unfold draw_painting. rewrite Hsections.
    destruct (truthy (shadow this)); [rewrite Hshadows |]; reflexivity.
  - intros depth. rewrite stack_after_app.
    destruct (truthy (shadow this)).
    + rewrite (stack_after_flat_map _ _ Hstack2).
      apply (stack_after_flat_map _ _ Hstack1).
    + apply (stack_after_flat_map _ _ Hstack1).
  - rewrite painted_app, (painted_flat_map _ _ 1 Hp1), length_seq.
    destruct (truthy (shadow this)).
    + rewrite (painted_flat_map _ _ n Hp2), length_seq. lia.
    + cbn. lia.
Qed.

Lemma draw_painting_sections_witness :
  turns (shadowDepth example_paint) = Some 5%nat
  /\ painted
       ((if truthy (shadow example_paint)
         then flat_map (section_shadow example_paint (_vertices one_drawn) 5)
                (seq 0 (List.length (_vertices one_drawn)))
         else [])
        ++ flat_map (section_polygon example_paint (_vertices one_drawn))
             (seq 0 (List.length (_vertices one_drawn))))
     = (List.length (_vertices one_drawn)
        * (if truthy (shadow example_paint) then 6 else 1))%nat.
Proof.
  assert (H : turns (shadowDepth example_paint) = Some 5%nat) by reflexivity.
  split; [exact H |].
  exact (proj2 (proj2 (draw_painting_sections example_paint
                         (_vertices one_drawn) 5 H))).
Defined.

(** ** The highlight colours *)

Lemma add_of_Z (a b : Z) : (of_Z a + of_Z b)%js = of_Z (a + b).
Proof.
  unfold of_Z, add. f_equal. apply Qc_is_canon.
  rewrite this_plus, !this_Q2Qc. now rewrite inject_Z_plus.
Qed.

Lemma gt_of_Z (a b : Z) : (of_Z a >? of_Z b)%js = (b <? a)%Z.
Proof.
  unfold of_Z, num_gt, num_compare, Qccompare. rewrite !this_Q2Qc.
  unfold Qcompare, inject_Z. cbn [Qnum Qden]. rewrite !Z.mul_1_r.
  rewrite (Z.ltb_compare b a), (Z.compare_antisym b a).
  destruct (b ?= a)%Z; reflexivity.
Qed.

Lemma darken_all :
  forallb
    (fun c =>
       number_eqb (parseInt10 (of_Z c * of_frac 8 10)%js) (of_Z (4 * c / 5)))
    (map Z.of_nat (seq 0 256))
  = true.
Proof. vm_compute. reflexivity. Qed.

Lemma lighten_all :
  forallb
    (fun c =>
       number_eqb
         (parseInt10 (of_Z c + of_frac 4 10 * (of_Z 255 - of_Z c))%js)
         (of_Z ((3 * c + 510) / 5)))
    (map Z.of_nat (seq 0 256))
  = true.
Proof. vm_compute. reflexivity. Qed.

Lemma component_in_range (c : Z) :
  (0 <= c <= 255)%Z -> In c (map Z.of_nat (seq 0 256)).
Proof.
  intros Hc. apply in_map_iff. exists (Z.to_nat c). split; [lia |].
  apply in_seq. lia.
Qed.

Lemma highlight_component_valid (s c : Z) :
  (0 <= c <= 255)%Z ->
  highlight_component (of_Z s) (of_Z c)
  = of_Z (if (570 <? s)%Z then 4 * c / 5 else (3 * c + 510) / 5).
Proof.
  intros Hc. unfold highlight_component. rewrite gt_of_Z.
  destruct (570 <? s)%Z; apply number_eqb_eq.
  - exact (proj1 (forallb_forall _ _) darken_all c (component_in_range c Hc)).
  - exact (proj1 (forallb_forall _ _) lighten_all c (component_in_range c Hc)).
Qed.

(** X2.  Take a series without highlight colours of its own, and a series
    colour [i] whose components [r], [g], [b] are integers from [0] to
    [255].  Then [init] gives section [i] a highlight colour whose
    components are again integers from [0] to [255], and which differs
    from the series colour.  A light colour (the components add up to
    more than [570]) is darkened, each component to four fifths of its
    value, rounded down, which is at least [48]; any other colour is
    lightened, each component [c] to [(3 c + 510) / 5], rounded down. *)
Theorem init_highlightColors_valid
    (getColorComponents : string -> list number) (this : paint_t)
    (i : nat) (c : string) (r g b : Z) (rest : list number) :
  highlightColors this = [] ->
  nth_error (seriesColors this) i = Some c ->
  getColorComponents c = of_Z r :: of_Z g :: of_Z b :: rest ->
  (0 <= r <= 255)%Z -> (0 <= g <= 255)%Z -> (0 <= b <= 255)%Z ->
  exists r' g' b' : Z,
    nth_error (highlightColors (init_highlightColors getColorComponents this))
      i
    = Some (rgb (of_Z r') (of_Z g') (of_Z b'))
    /\ (0 <= r' <= 255 /\ 0 <= g' <= 255 /\ 0 <= b' <= 255)%Z
    /\ ((570 < r + g + b)%Z ->
        (r' = 4 * r / 5 /\ g' = 4 * g / 5 /\ b' = 4 * b / 5)%Z
        /\ (48 <= r' < r /\ 48 <= g' < g /\ 48 <= b' < b)%Z)
    /\ ((r + g + b <= 570)%Z ->
        (r' = (3 * r + 510) / 5 /\ g' = (3 * g + 510) / 5
         /\ b' = (3 * b + 510) / 5)%Z
        /\ (r <= r' /\ g <= g' /\ b <= b')%Z)
    /\ (r', g', b') <> (r, g, b).
Proof.
  intros Hnone Hc Hgcc Hr Hg Hb.
  exists (if (570 <? r + g + b)%Z then 4 * r / 5 else (3 * r + 510) / 5)%Z,
         (if (570 <? r + g + b)%Z then 4 * g / 5 else (3 * g + 510) / 5)%Z,
         (if (570 <? r + g + b)%Z then 4 * b / 5 else (3 * b + 510) / 5)%Z.
  split.
  { unfold init_highlightColors. rewrite Hnone. cbn [List.length Nat.eqb].
    cbn [highlightColors]. rewrite nth_error_map, Hc. cbn [option_map].
    rewrite Hgcc. unfold highlight_of, array_get. cbn [nth].
    rewrite !add_of_Z, !highlight_component_valid by assumption.
    reflexivity. }
  destruct (570 <? r + g + b)%Z eqn:E;
    [apply Z.ltb_lt in E | apply Z.ltb_ge in E].
  - split; [| split; [| split]].
    + repeat split; try (apply Z.div_le_lower_bound; lia);
        apply Z.div_le_upper_bound; lia.
    + intros _. split; [now repeat split |].
      repeat split; try (apply Z.div_le_lower_bound; lia);
        apply Z.div_lt_upper_bound; lia.
    + intros H. lia.
    + intros H. assert (H1 : (4 * r / 5 = r)%Z) by congruence.
      assert (4 * r / 5 < r)%Z by (apply Z.div_lt_upper_bound; lia). lia.
  - split; [| split; [| split]].
    + repeat split; try (apply Z.div_le_lower_bound; lia);
        apply Z.div_le_upper_bound; lia.
    + intros H. lia.
    + intros _. split; [now repeat split |].
      repeat split; apply Z.div_le_lower_bound; lia.
    + intros H.
      assert (H1 : ((3 * r + 510) / 5 = r)%Z) by congruence.
      assert (H2 : ((3 * g + 510) / 5 = g)%Z) by congruence.
      assert (H3 : ((3 * b + 510) / 5 = b)%Z) by congruence.
      assert (Hlt : forall x, (0 <= x <= 252)%Z -> (x < (3 * x + 510) / 5)%Z).
      { intros x Hx.
        assert (x + 1 <= (3 * x + 510) / 5)%Z
          by (apply Z.div_le_lower_bound; lia).
        lia. }
      destruct (Z.le_gt_cases r 252) as [Hr'|Hr'];
        [specialize (Hlt r); lia |].
      destruct (Z.le_gt_cases g 252) as [Hg'|Hg'];
        [specialize (Hlt g); lia |].
      destruct (Z.le_gt_cases b 252) as [Hb'|Hb'];
        [specialize (Hlt b); lia | lia].
Qed.

(** The series colour ["#4bb2c5"], of components [75], [178] and
    [197]. *)
Lemma init_highlightColors_valid_witness :
  highlightColors fresh_paint = []
  /\ nth_error (seriesColors fresh_paint) 0 = Some "#4bb2c5"%string
  /\ example_components "#4bb2c5"
     = of_Z 75 :: of_Z 178 :: of_Z 197 :: [of_Z 1]
  /\ (0 <= 75 <= 255)%Z /\ (0 <= 178 <= 255)%Z /\ (0 <= 197 <= 255)%Z
  /\ exists r' g' b' : Z,
       nth_error
         (highlightColors (init_highlightColors example_components fresh_paint))
         0
       = Some (rgb (of_Z r') (of_Z g') (of_Z b'))
       /\ (0 <= r' <= 255 /\ 0 <= g' <= 255 /\ 0 <= b' <= 255)%Z
       /\ ((570 < 75 + 178 + 197)%Z ->
           (r' = 4 * 75 / 5 /\ g' = 4 * 178 / 5 /\ b' = 4 * 197 / 5)%Z
           /\ (48 <= r' < 75 /\ 48 <= g' < 178 /\ 48 <= b' < 197)%Z)
       /\ ((75 + 178 + 197 <= 570)%Z ->
           (r' = (3 * 75 + 510) / 5 /\ g' = (3 * 178 + 510) / 5
            /\ b' = (3 * 197 + 510) / 5)%Z
           /\ (75 <= r' /\ 178 <= g' /\ 197 <= b')%Z)
       /\ (r', g', b') <> (75, 178, 197)%Z.
Proof.
  assert (H1 : (0 <= 75 <= 255)%Z) by lia.
  assert (H2 : (0 <= 178 <= 255)%Z) by lia.
  assert (H3 : (0 <= 197 <= 255)%Z) by lia.
  repeat (split; [reflexivity || assumption |]).
  exact (init_highlightColors_valid example_components fresh_paint 0
           "#4bb2c5" 75 178 197 [of_Z 1] eq_refl eq_refl eq_refl H1 H2 H3).
Defined.

(** ** [parseInt]: the first digit is a digit

    The fuel given to the two searches for the first digit is
    enough. *)

Section FirstDigit.

Local Open Scope Z_scope.

Lemma first_digit_from_digit (fuel : nat) :
  forall z, 1 <= z -> Z.log2 z < Z.of_nat fuel ->
            1 <= first_digit_from fuel z <= 9.
Proof.
  induction fuel as [|fuel IH]; intros z Hz Hlog; cbn [first_digit_from].
  - pose proof (Z.log2_nonneg z). lia.
  - destruct (z <? 10) eqn:E; [apply Z.ltb_lt in E; lia |].
    apply Z.ltb_ge in E. apply IH.
    + apply Z.div_le_lower_bound; lia.
    + assert (H1 : z / 10 < 2 ^ Z.log2 z).
      { apply Z.div_lt_upper_bound; [lia |].
        pose proof (proj2 (Z.log2_spec z ltac:(lia))) as H.
        rewrite Z.pow_succ_r in H by apply Z.log2_nonneg. lia. }
      assert (H2 : 0 < z / 10) by (apply Z.div_str_pos; lia).
      apply (Z.log2_lt_pow2 _ _ H2) in H1. lia.
Qed.

Lemma first_digit_below_digit (fuel : nat) :
  forall n d, 0 < n -> n < 10 * d -> d < n * 2 ^ Z.of_nat fuel ->
              1 <= first_digit_below (S fuel) n d <= 9.
Proof.
  induction fuel as [|fuel IH]; intros n d Hn Hnd Hd;
    cbn [first_digit_below].
  - cbn in Hd. destruct (d <=? n) eqn:E; [| apply Z.leb_gt in E; lia].
    apply Z.leb_le in E. split.
    + apply Z.div_le_lower_bound; lia.
    + assert (n / d < 10) by (apply Z.div_lt_upper_bound; lia). lia.
  - destruct (d <=? n) eqn:E.
    + apply Z.leb_le in E. split.
      * apply Z.div_le_lower_bound; lia.
      * assert (n / d < 10) by (apply Z.div_lt_upper_bound; lia). lia.
    + apply Z.leb_gt in E. apply IH; [lia | lia |].
      replace (Z.of_nat (S fuel)) with (Z.succ (Z.of_nat fuel)) in Hd by lia.
      rewrite Z.pow_succ_r in Hd by lia.
      nia.
Qed.

Lemma first_digit_is_digit (n d : Z) :
  0 < n -> 0 < d -> 1 <= first_digit n d <= 9.
Proof.
  intros Hn Hd. unfold first_digit. destruct (d <=? n) eqn:E.
  - apply Z.leb_le in E. unfold first_digit_int.
    assert (1 <= n / d) by (apply Z.div_le_lower_bound; lia).
    apply first_digit_from_digit; [assumption |].
    pose proof (Z.log2_nonneg (n / d)). lia.
  - apply Z.leb_gt in E. apply first_digit_below_digit; [lia | lia |].
    pose proof (proj2 (Z.log2_spec d Hd)) as H.
    rewrite Z.pow_succ_r in H by apply Z.log2_nonneg.
    pose proof (Z.log2_nonneg d).
    replace (Z.of_nat (S (Z.to_nat (Z.log2 d)))) with (Z.succ (Z.log2 d))
      by lia.
    rewrite Z.pow_succ_r by assumption. nia.
Qed.

End FirstDigit.

(** ** [preInit] *)

Lemma setopts_loop (l : list series_options) (set : bool) :
  fold_left (fun set o => if is_funnel o then true else set) l set
  = set || existsb is_funnel l.
Proof.
  revert set. induction l as [|o l IH]; intros set; cbn [fold_left existsb].
  - now rewrite orb_false_r.
  - rewrite IH. destruct (is_funnel o), set; reflexivity.
Qed.

Lemma is_funnel_true (o : series_options) :
  is_funnel o = true <-> series_renderer o = Some FunnelRenderer.
Proof.
  unfold is_funnel. destruct (series_renderer o) as [[|]|]; split;
    congruence.
Qed.

Lemma setopts_asks (o : plot_options) :
  setopts o = true <-> asks_for_funnel o.
Proof.
  unfold setopts, asks_for_funnel.
  destruct (seriesDefaults o) as [d|]; cbn [or_empty].
  - destruct (is_funnel d) eqn:Ed.
    + split; [| reflexivity]. intros _. left. exists d.
      split; [reflexivity | now apply is_funnel_true].
    + destruct (series_opts o) as [l|].
      * rewrite setopts_loop. cbn [orb]. rewrite existsb_exists. split.
        -- intros (s & Hs & Hf). right. exists l, s.
           split; [reflexivity |]. split; [assumption |].
           now apply is_funnel_true.
        -- intros [(d' & E & Hf) | (l' & s & E & Hs & Hf)].
           ++ injection E as <-. apply is_funnel_true in Hf. congruence.
           ++ injection E as <-. exists s. split; [assumption |].
              now apply is_funnel_true.
      * split; [discriminate |].
        intros [(d' & E & Hf) | (l' & s & E & _)]; [| discriminate].
        injection E as <-. apply is_funnel_true in Hf. congruence.
  - cbn [is_funnel series_renderer].
    destruct (series_opts o) as [l|].
    + rewrite setopts_loop. cbn [orb]. rewrite existsb_exists. split.
      * intros (s & Hs & Hf). right. exists l, s.
        split; [reflexivity |]. split; [assumption |].
        now apply is_funnel_true.
      * intros [(d' & E & _) | (l' & s & E & Hs & Hf)]; [discriminate |].
        injection E as <-. exists s. split; [assumption |].
        now apply is_funnel_true.
    + split; [discriminate |].
      intros [(d' & E & _) | (l' & s & E & _)]; discriminate.
Qed.

(** X12.  [preInit] installs the axis renderer and the legend renderer of
    the funnel, and sets [legend.preDraw], exactly when some series
    asks for the funnel renderer, in its own options or through the
    defaults of the series; a renderer that the user gave for the axes
    or for the legend is then replaced.  Otherwise the options keep
    what the user gave, the missing objects being made empty.  The
    options of the series are never changed, a second call changes
    nothing more, and a call without options leaves the caller without
    options. *)
Theorem preInit_installs_funnel_renderers (o : plot_options) :
  preInit None = None
  /\ exists o',
       preInit (Some o) = Some o'
       /\ series_opts o' = series_opts o
       /\ seriesDefaults o'
          = Some (or_empty (seriesDefaults o) {| series_renderer := None |})
       /\ (asks_for_funnel o ->
           axesDefaults o' = Some {| axes_renderer := Some FunnelAxisRenderer |}
           /\ legend o'
              = Some {| legend_renderer := Some FunnelLegendRenderer;
                        preDraw := Boolean true |})
       /\ (~ asks_for_funnel o ->
           axesDefaults o'
           = Some (or_empty (axesDefaults o) {| axes_renderer := None |})
           /\ legend o'
              = Some (or_empty (legend o)
                        {| legend_renderer := None; preDraw := Undefined |}))
       /\ preInit (Some o') = Some o'.
Proof.
  split; [reflexivity |].
  pose proof (setopts_asks o) as Hasks.
  unfold preInit. destruct (setopts o) eqn:E.
  - eexists. split; [reflexivity |]. split; [reflexivity |].
    split; [reflexivity |]. split; [now split |].
    split; [intros Hn; exfalso; apply Hn; now apply Hasks |].
    assert (E' : setopts
                   {| axesDefaults :=
                        Some {| axes_renderer := Some FunnelAxisRenderer |};
                      legend :=
                        Some {| legend_renderer := Some FunnelLegendRenderer;
                                preDraw := Boolean true |};
                      seriesDefaults :=
                        Some (or_empty (seriesDefaults o)
                                {| series_renderer := None |});
                      series_opts := series_opts o |} = true).
    { revert E. unfold setopts. cbn [seriesDefaults series_opts or_empty].
      exact (fun H => H). }
    rewrite E'. reflexivity.
  - eexists. split; [reflexivity |]. split; [reflexivity |].
    split; [reflexivity |].
    split; [intros Ha; apply Hasks in Ha; discriminate |].
    split; [now split |].
    assert (E' : setopts
                   {| axesDefaults :=
                        Some (or_empty (axesDefaults o)
                                {| axes_renderer := None |});
                      legend :=
                        Some (or_empty (legend o)
                                {| legend_renderer := None;
                                   preDraw := Undefined |});
                      seriesDefaults :=
                        Some (or_empty (seriesDefaults o)
                                {| series_renderer := None |});
                      series_opts := series_opts o |} = false).
    { revert E. unfold setopts. cbn [seriesDefaults series_opts or_empty].
      exact (fun H => H). }
    rewrite E'. reflexivity.
Qed.

Lemma preInit_installs_funnel_renderers_witness :
  asks_for_funnel funnel_options
  /\ exists o',
       preInit (Some funnel_options) = Some o'
       /\ legend o'
          = Some {| legend_renderer := Some FunnelLegendRenderer;
                    preDraw := Boolean true |}.
Proof.
  assert (H : asks_for_funnel funnel_options).
  { right. exists [ {| series_renderer := Some FunnelRenderer |} ],
      {| series_renderer := Some FunnelRenderer |}.
    split; [reflexivity |]. split; [now left | reflexivity]. }
  split; [exact H |].
  destruct (proj2 (preInit_installs_funnel_renderers funnel_options))
    as (o' & E & _ & _ & Hf & _).
  exists o'. split; [exact E | exact (proj2 (Hf H))].
Defined.

(** ** The legend *)

Lemma legend_row_cells (next : nat -> option string) (this : legend_t)
    (pd : list datapoint) (i : nat) :
  forall (c : nat) (st : legend_loop),
    nexts st = Nat.min (idx st) (List.length pd) ->
    idx (legend_row next this pd i c st) = (idx st + c)%nat
    /\ nexts (legend_row next this pd i c st)
       = Nat.min (idx st + c) (List.length pd)
    /\ cells (legend_row next this pd i c st)
       = cells st
         ++ map (legend_entry_at next this pd i)
              (seq (Nat.min (idx st) (List.length pd))
                 (Nat.min (idx st + c) (List.length pd)
                  - Nat.min (idx st) (List.length pd))).
Proof.
  induction c as [|c IH]; intros st Hst; cbn [legend_row].
  - rewrite Nat.add_0_r, Nat.sub_diag. cbn [seq map].
    now rewrite app_nil_r.
  - unfold legend_cell at 1 2 3.
    destruct (idx st <? List.length pd)%nat eqn:E.
    + apply Nat.ltb_lt in E.
      destruct (IH {| idx := S (idx st); nexts := S (nexts st);
                      cells :=
                        cells st
                        ++ [ {| swatch := next (nexts st);
                                label := label_of this pd (idx st);
                                padding_top :=
                                  if (0 <? i)%nat then rowSpacing this
                                  else "0"%string;
                                as_text := truthy (escapeHtml this) |} ] |})
        as (H1 & H2 & H3).
      { cbn [idx nexts]. rewrite Hst. lia. }
      cbn [idx nexts cells] in H1, H2, H3.
      split; [rewrite H1; lia |]. split; [rewrite H2; f_equal; lia |].
      rewrite H3, <- app_assoc. f_equal.
      rewrite Hst.
      replace (Nat.min (idx st) (List.length pd)) with (idx st) by lia.
      replace (Nat.min (idx st + S c) (List.length pd) - idx st)%nat
        with (S (Nat.min (S (idx st) + c) (List.length pd)
                 - Nat.min (S (idx st)) (List.length pd)))
        by lia.
      cbn [seq map app].
      replace (Nat.min (S (idx st)) (List.length pd)) with (S (idx st))
        by lia.
      reflexivity.
    + apply Nat.ltb_ge in E.
      destruct (IH {| idx := S (idx st); nexts := nexts st;
                      cells := cells st |})
        as (H1 & H2 & H3).
      { cbn [idx nexts]. rewrite Hst. lia. }
      cbn [idx nexts cells] in H1, H2, H3.
      split; [rewrite H1; lia |]. split; [rewrite H2; lia |].
      rewrite H3. f_equal.
      replace (Nat.min (S (idx st) + c) (List.length pd)
               - Nat.min (S (idx st)) (List.length pd))%nat
        with 0%nat by lia.
      replace (Nat.min (idx st + S c) (List.length pd)
               - Nat.min (idx st) (List.length pd))%nat
        with 0%nat by lia.
      reflexivity.
Qed.

Lemma legend_rows_closed (next : nat -> option string) (this : legend_t)
    (pd : list datapoint) (c : nat) :
  forall (r i : nat) (st : legend_loop),
    idx st = (i * c)%nat ->
    nexts st = Nat.min (idx st) (List.length pd) ->
    legend_rows next this pd (Some c) r i st
    = Some (map (legend_row_at next this pd c) (seq i r)).
Proof.
  induction r as [|r IH]; intros i st Hidx Hnexts;
    cbn [legend_rows seq map].
  - reflexivity.
  - destruct (legend_row_cells next this pd i c
                {| idx := idx st; nexts := nexts st; cells := [] |} Hnexts)
      as (H1 & H2 & H3).
    cbn [idx nexts cells] in H1, H2, H3.
    rewrite (IH (S i)).
    + rewrite H3. cbn [app]. unfold legend_row_at at 2.
      rewrite Hidx. replace (i * c + c)%nat with (S i * c)%nat by lia.
      reflexivity.
    + rewrite H1, Hidx. lia.
    + rewrite H2, H1. reflexivity.
Qed.

Lemma legend_rows_concat (next : nat -> option string) (this : legend_t)
    (pd : list datapoint) (c : nat) :
  forall (r i : nat),
    concat (map (fun row => map (fun e => (label e, swatch e)) row)
              (map (legend_row_at next this pd c) (seq i r)))
    = map (fun k => (label_of this pd k, next k))
        (seq (Nat.min (i * c) (List.length pd))
           (Nat.min ((i + r) * c) (List.length pd)
            - Nat.min (i * c) (List.length pd))).
Proof.
  induction r as [|r IH]; intros i; cbn [seq map concat].
  - rewrite Nat.add_0_r, Nat.sub_diag. reflexivity.
  - rewrite IH. unfold legend_row_at. rewrite map_map. cbn [label swatch legend_entry_at].
    rewrite <- map_app. f_equal.
    replace ((S i + r) * c)%nat with ((i + S r) * c)%nat by lia.
    assert (H1 : (Nat.min (i * c) (List.length pd)
                  <= Nat.min (S i * c) (List.length pd))%nat) by lia.
    assert (H2 : (Nat.min (S i * c) (List.length pd)
                  <= Nat.min ((i + S r) * c) (List.length pd))%nat).
    { apply Nat.min_le_compat_r. apply Nat.mul_le_mono_r. lia. }
    replace (Nat.min ((i + S r) * c) (List.length pd)
             - Nat.min (i * c) (List.length pd))%nat
      with ((Nat.min (S i * c) (List.length pd)
             - Nat.min (i * c) (List.length pd))
            + (Nat.min ((i + S r) * c) (List.length pd)
               - Nat.min (S i * c) (List.length pd)))%nat by lia.
    rewrite seq_app. f_equal. f_equal. lia.
Qed.

Lemma legend_draw_table (next : nat -> option string) (this : legend_t)
    (s : legend_series) (others : list legend_series) (nr nc : number)
    (r c : nat) :
  truthy (show this) = true ->
  _series this = s :: others ->
  truthy (series_show s) = true ->
  legend_grid this (List.length (series_data s)) = (nr, nc) ->
  turns nr = Some r ->
  turns nc = Some c ->
  legend_draw next this
  = Some (Return
            (Some {| style := legend_style this;
                     rows := map (legend_row_at next this (series_data s) c)
                               (seq 0 r) |})).
Proof.
  intros Hshow Hs Hsshow Hgrid Hr Hc.
  unfold legend_draw. rewrite Hshow, Hs, Hsshow, Hgrid, Hr, Hc.
  rewrite (legend_rows_closed next this (series_data s) c r 0)
    by reflexivity.
  reflexivity.
Qed.

Lemma legend_table_reading (next : nat -> option string) (this : legend_t)
    (pd : list datapoint) (r c : nat) :
  map (fun e => (label e, swatch e))
    (concat (map (legend_row_at next this pd c) (seq 0 r)))
  = map (fun k => (label_of this pd k, next k))
      (seq 0 (Nat.min (r * c) (List.length pd))).
Proof.
  rewrite concat_map, legend_rows_concat.
  cbn [Nat.mul Nat.min Nat.add]. now rewrite Nat.sub_0_r.
Qed.

(** X10.  When the two loops of [draw] have [r] and [c] turns, the legend is
    a table of [r] rows; the row [i] holds the pairs of cells of the
    data points [i * c], [i * c + 1], ... of the first series, up to
    [c] of them, the first row without padding and the others with
    the [rowSpacing] above them.  Read row by row, the table lists the
    first [r * c] data points in their order, point [k] with the label
    [labels[k]], or its own label when that one is missing or empty,
    and with the colour of the call number [k] to the colour
    generator: the data points from [r * c] on are left out. *)
Theorem legend_draw_rows (next : nat -> option string) (this : legend_t)
    (s : legend_series) (others : list legend_series) (nr nc : number)
    (r c : nat) :
  truthy (show this) = true ->
  _series this = s :: others ->
  truthy (series_show s) = true ->
  legend_grid this (List.length (series_data s)) = (nr, nc) ->
  turns nr = Some r ->
  turns nc = Some c ->
  exists t,
    legend_draw next this = Some (Return (Some t))
    /\ style t = legend_style this
    /\ rows t = map (legend_row_at next this (series_data s) c) (seq 0 r)
    /\ map (fun e => (label e, swatch e)) (concat (rows t))
       = map (fun k => (label_of this (series_data s) k, next k))
           (seq 0 (Nat.min (r * c) (List.length (series_data s)))).
Proof.
  intros Hshow Hs Hsshow Hgrid Hr Hc.
  exists {| style := legend_style this;
            rows := map (legend_row_at next this (series_data s) c)
                      (seq 0 r) |}.
  split; [now apply (legend_draw_table next this s others nr nc) |].
  split; [reflexivity |]. split; [reflexivity |].
  apply legend_table_reading.
Qed.

(** ** The legend lists every data point *)

Lemma turns_Fin (q : Qc) (r : nat) :
  turns (Fin q) = Some r -> r = Z.to_nat (Qceiling (this q)).
Proof.
  unfold turns. destruct (Qceiling (this q) <=? counter_limit)%Z;
    [| discriminate].
  intros E. now injection E as <-.
Qed.

Lemma turns_of_nat (n r : nat) :
  turns (of_Z (Z.of_nat n)) = Some r -> r = n.
Proof.
  intros E. apply turns_Fin in E. rewrite E.
  rewrite (Qceiling_comp _ _ (this_Q2Qc (inject_Z (Z.of_nat n)))).
  rewrite Qceiling_Z. lia.
Qed.

Lemma ceil_cover (q : Q) (n : nat) :
  (0 < q)%Q ->
  (n <= Z.to_nat (Qceiling q)
        * Z.to_nat (Qceiling (inject_Z (Z.of_nat n) / q)))%nat.
Proof.
  intros Hq.
  set (x := (inject_Z (Z.of_nat n) / q)%Q).
  pose proof (Qle_ceiling q) as H1. pose proof (Qle_ceiling x) as H2.
  assert (Hn : (0 <= inject_Z (Z.of_nat n))%Q).
  { change 0%Q with (inject_Z 0). rewrite <- Zle_Qle. lia. }
  assert (Hx : (0 <= x)%Q).
  { unfold x. apply Qle_shift_div_l; [assumption |]. lra. }
  assert (Hxq : (x * q == inject_Z (Z.of_nat n))%Q).
  { unfold x. field. lra. }
  assert (Hc1 : (0 < Qceiling q)%Z).
  { rewrite Zlt_Qlt. change (inject_Z 0) with 0%Q. lra. }
  assert (Hc2 : (0 <= Qceiling x)%Z).
  { rewrite Zle_Qle. change (inject_Z 0) with 0%Q. lra. }
  assert (Hprod : (inject_Z (Z.of_nat n)
                   <= inject_Z (Qceiling q) * inject_Z (Qceiling x))%Q).
  { rewrite <- Hxq.
    apply Qle_trans with (inject_Z (Qceiling q) * x)%Q.
    - rewrite (Qmult_comm x q). apply Qmult_le_compat_r; assumption.
    - apply Qmult_le_l; [| assumption]. lra. }
  rewrite <- inject_Z_mult, <- Zle_Qle in Hprod. nia.
Qed.

Lemma truthy_positive (q : Qc) :
  (0 < q)%Qc -> truthy_number (Some (Fin q)) = true.
Proof.
  intros Hq. cbn [truthy_number].
  now rewrite (Qc_is_zero_false q (Qc_pos_neq q Hq)).
Qed.

Lemma turns_ceil_div (n : nat) (q : Qc) (r : nat) :
  (0 < q)%Qc ->
  turns (Math_ceil (of_Z (Z.of_nat n) / Fin q)%js) = Some r ->
  r = Z.to_nat (Qceiling (inject_Z (Z.of_nat n) / this q)).
Proof.
  intros Hq. unfold of_Z at 1. rewrite (div_Fin _ q (Qc_pos_neq q Hq)).
  cbn [Math_ceil]. unfold of_Z. intros E. apply turns_Fin in E. rewrite E.
  rewrite (Qceiling_comp _ _ (this_Q2Qc _)), Qceiling_Z. f_equal.
  apply Qceiling_comp. rewrite this_div, this_Q2Qc. reflexivity.
Qed.

Lemma legend_covered (n r c : nat) :
  (n <= r * c)%nat -> Nat.min (r * c) n = n.
Proof. lia. Qed.

(** X11.  When at most one of [numberRows] and [numberColumns] is set, and
    to a positive number, and the two loops of [draw] end (neither
    count exceeds [2^53]), the legend lists every data point of the
    first series once, in the order of the data: point [k] with the
    label [labels[k]], or its own label when that one is missing or
    empty, and with the colour of the call number [k] to the colour
    generator. *)
Theorem legend_lists_every_point (next : nat -> option string)
    (this : legend_t) (s : legend_series) (others : list legend_series)
    (nr nc : number) (r c : nat) :
  truthy (show this) = true ->
  _series this = s :: others ->
  truthy (series_show s) = true ->
  truthy_number (numberRows this) = false
  \/ truthy_number (numberColumns this) = false ->
  unlimited_or_positive (numberRows this) ->
  unlimited_or_positive (numberColumns this) ->
  legend_grid this (List.length (series_data s)) = (nr, nc) ->
  turns nr = Some r ->
  turns nc = Some c ->
  exists t,
    legend_draw next this = Some (Return (Some t))
    /\ map (fun e => (label e, swatch e)) (concat (rows t))
       = map (fun k => (label_of this (series_data s) k, next k))
           (seq 0 (List.length (series_data s))).
Proof.
  intros Hshow Hs Hsshow Hone Hrows Hcols Hgrid Hr Hc.
  set (n := List.length (series_data s)) in *.
  assert (Hcover : (n <= r * c)%nat).
  { unfold legend_grid in Hgrid.
    destruct Hrows as [Er | (q & Eq & Hq)].
    - rewrite Er in Hgrid. destruct Hcols as [Ec | (q & Eq & Hq)].
      + rewrite Ec in Hgrid. injection Hgrid as <- <-.
        apply turns_of_nat in Hr. apply (turns_of_nat 1) in Hc. subst. lia.
      + rewrite Eq, (truthy_positive q Hq) in Hgrid. cbn [number_of] in Hgrid.
        injection Hgrid as <- <-.
        apply turns_ceil_div in Hr; [| exact Hq]. apply turns_Fin in Hc.
        subst r c. rewrite Nat.mul_comm. apply ceil_cover. exact Hq.
    - rewrite Eq, (truthy_positive q Hq) in *. cbn [number_of] in Hgrid.
      destruct Hone as [Hone | Ec]; [discriminate |]. rewrite Ec in Hgrid.
      injection Hgrid as <- <-.
      apply turns_ceil_div in Hc; [| exact Hq]. apply turns_Fin in Hr.
      subst r c. apply ceil_cover. exact Hq. }
  eexists. split.
  - exact (legend_draw_table next this s others nr nc r c
             Hshow Hs Hsshow Hgrid Hr Hc).
  - cbn [rows]. rewrite legend_table_reading.
    fold n. now rewrite (legend_covered n r c Hcover).
Qed.

(** The legend of three data points in two rows. *)
Lemma legend_draw_rows_witness :
  truthy (show example_legend) = true
  /\ truthy (series_show
               {| series_show := Boolean true;
                  series_data := data three_series;
                  series_colors :=
                    ["#4bb2c5"%string; "#EAA228"%string; "#c5b47f"%string] |})
     = true
  /\ turns (fst (legend_grid example_legend (List.length (data three_series))))
     = Some 2%nat
  /\ turns (snd (legend_grid example_legend (List.length (data three_series))))
     = Some 2%nat
  /\ exists t,
       legend_draw example_next example_legend = Some (Return (Some t))
       /\ style t = legend_style example_legend
       /\ rows t
          = map (legend_row_at example_next example_legend
                   (data three_series) 2)
              (seq 0 2)
       /\ map (fun e => (label e, swatch e)) (concat (rows t))
          = map (fun k =>
                   (label_of example_legend (data three_series) k,
                    example_next k))
              (seq 0 (Nat.min (2 * 2) (List.length (data three_series)))).
Proof.
  assert (H1 : turns (fst (legend_grid example_legend
                             (List.length (data three_series))))
               = Some 2%nat) by (vm_compute; reflexivity).
  assert (H2 : turns (snd (legend_grid example_legend
                             (List.length (data three_series))))
               = Some 2%nat) by (vm_compute; reflexivity).
  split; [reflexivity |]. split; [reflexivity |].
  split; [exact H1 |]. split; [exact H2 |].
  exact (legend_draw_rows example_next example_legend
           {| series_show := Boolean true;
              series_data := data three_series;
              series_colors :=
                ["#4bb2c5"%string; "#EAA228"%string; "#c5b47f"%string] |}
           []
           (fst (legend_grid example_legend (List.length (data three_series))))
           (snd (legend_grid example_legend (List.length (data three_series))))
           2 2 eq_refl eq_refl eq_refl
           (surjective_pairing
              (legend_grid example_legend (List.length (data three_series))))
           H1 H2).
Defined.

Lemma legend_lists_every_point_witness :
  truthy (show example_legend) = true
  /\ (truthy_number (numberRows example_legend) = false
      \/ truthy_number (numberColumns example_legend) = false)
  /\ unlimited_or_positive (numberRows example_legend)
  /\ unlimited_or_positive (numberColumns example_legend)
  /\ turns (fst (legend_grid example_legend (List.length (data three_series))))
     = Some 2%nat
  /\ turns (snd (legend_grid example_legend (List.length (data three_series))))
     = Some 2%nat
  /\ exists t,
       legend_draw example_next example_legend = Some (Return (Some t))
       /\ map (fun e => (label e, swatch e)) (concat (rows t))
          = map (fun k =>
                   (label_of example_legend (data three_series) k,
                    example_next k))
              (seq 0 (List.length (data three_series))).
Proof.
  assert (H1 : truthy_number (numberRows example_legend) = false
               \/ truthy_number (numberColumns example_legend) = false)
    by (right; reflexivity).
  assert (H2 : unlimited_or_positive (numberRows example_legend)).
  { right. exists (Qc_of_Z 2). split; reflexivity. }
  assert (H3 : unlimited_or_positive (numberColumns example_legend))
    by (left; reflexivity).
  assert (H4 : turns (fst (legend_grid example_legend
                             (List.length (data three_series))))
               = Some 2%nat) by (vm_compute; reflexivity).
  assert (H5 : turns (snd (legend_grid example_legend
                             (List.length (data three_series))))
               = Some 2%nat) by (vm_compute; reflexivity).
  split; [reflexivity |]. split; [exact H1 |].
  split; [exact H2 |]. split; [exact H3 |].
  split; [exact H4 |]. split; [exact H5 |].
  exact (legend_lists_every_point example_next example_legend
           {| series_show := Boolean true;
              series_data := data three_series;
              series_colors :=
                ["#4bb2c5"%string; "#EAA228"%string; "#c5b47f"%string] |}
           []
           (fst (legend_grid example_legend (List.length (data three_series))))
           (snd (legend_grid example_legend (List.length (data three_series))))
           2 2 eq_refl eq_refl eq_refl H1 H2 H3
           (surjective_pairing
              (legend_grid example_legend (List.length (data three_series))))
           H4 H5).
Defined.

(** ** A funnel with [widthRatio = 1] *)

Lemma mul_not_finite (m y : number) :
  is_finite m = false -> is_finite (m * y)%js = false.
Proof.
  destruct m as [q| | |]; [discriminate | | |]; intros _;
    destruct y as [r| | |]; cbn; try reflexivity;
    now destruct (Qc_sign r).
Qed.

Lemma sub_not_finite (a b : number) :
  is_finite b = false -> is_finite (a - b)%js = false.
Proof.
  destruct b as [q| | |]; [discriminate | | |]; intros _;
    destruct a as [r| | |]; reflexivity.
Qed.

Lemma div_not_finite (a b : number) :
  is_finite a = false -> is_finite b = false -> (a / b)%js = NaN.
Proof.
  destruct a as [q| | |]; [discriminate | | |]; intros _;
    (destruct b as [r| | |]; [discriminate | | |]); reflexivity.
Qed.

(** The line through two points of the same [x]: its [x] at any height
    is [NaN]. *)
Lemma line_x_at_vertical (x : Qc) (a b y : number) :
  line_x_at (Fin x, a) (Fin x, b) y = NaN.
Proof.
  unfold line_x_at. cbn [fst snd].
  assert (E : (Fin x - Fin x)%js = Fin 0%Qc).
  { cbn. f_equal. ring. }
  rewrite E. apply div_not_finite; [| apply div_zero_not_finite].
  apply sub_not_finite, sub_not_finite, mul_not_finite, div_zero_not_finite.
Qed.

Lemma line_x_at_NaN (p q : point) (y : number) :
  fst p = NaN -> line_x_at p q y = NaN.
Proof.
  intros E. unfold line_x_at. rewrite E.
  assert (Em : ((snd p - snd q) / (NaN - fst q))%js = NaN).
  { destruct (fst q), (snd p - snd q)%js; reflexivity. }
  rewrite Em. now destruct (y - (snd p - NaN * NaN))%js.
Qed.

Lemma over_section_NaN (x y : number) (lex rex : point) (cv : quad) :
  fst lex = NaN -> over_section x y lex rex cv = false.
Proof.
  intros E. unfold over_section. rewrite E.
  assert (Ex : (x >=? NaN)%js = false) by (destruct x; reflexivity).
  rewrite Ex. now rewrite andb_false_r.
Qed.

Lemma findleft_line (p q : point) (l : number) :
  fst (findleft p q l) = line_x_at p q (l + snd p)%js.
Proof. reflexivity. Qed.

Lemma findright_line (p q : point) (l : number) :
  fst (findright p q l) = line_x_at p q (l + snd p)%js.
Proof. reflexivity. Qed.

(** ** Data whose values are all zero *)

(** A section whose area is [NaN] leaves the bases as they are: its
    guess is [NaN], and the first test of its loop fails. *)
Lemma solve_section_NaN_area (areas : list number) (ang : angle)
    (st : solver) (i : nat) :
  array_get areas i = NaN ->
  bases (solve_section areas ang st i) = bases st.
Proof.
  intros E. unfold solve_section, solve_start. rewrite E. cbn [bases].
  assert (Eg : (NaN / array_get (bases st) i)%js = NaN)
    by (now destruct (array_get (bases st) i)).
  rewrite Eg. cbn [solve_while].
  unfold solve_test at 1. cbn [err lengths count].
  rewrite array_get_set_same. reflexivity.
Qed.

Lemma solve_sections_NaN_areas (areas : list number) (ang : angle) :
  Forall (fun a => a = NaN) areas ->
  forall (m k : nat) (st : solver),
    (k + m <= List.length areas)%nat ->
    bases (fold_left (solve_section areas ang) (seq k m) st) = bases st.
Proof.
  intros Hall. induction m as [|m IH]; intros k st Hk; cbn [seq fold_left].
  - reflexivity.
  - rewrite IH by lia. apply solve_section_NaN_area.
    unfold array_get. rewrite Forall_forall in Hall. apply Hall.
    apply nth_In. lia.
Qed.

(** The line to a point without an [x]: its [x] at any height is
    [NaN]. *)
Lemma line_x_at_NaN_end (p q : point) (y : number) :
  fst q = NaN -> line_x_at p q y = NaN.
Proof.
  intros E. unfold line_x_at. rewrite E.
  assert (Em : ((snd p - snd q) / (fst p - NaN))%js = NaN).
  { assert (Ed : (fst p - NaN)%js = NaN) by (now destruct (fst p)).
    rewrite Ed. now destruct (snd p - snd q)%js. }
  rewrite Em. now destruct (y - (snd p - NaN * fst p))%js.
Qed.

Lemma array_get_new_Array (n i : nat) : array_get (new_Array n) i = NaN.
Proof.
  unfold array_get, new_Array.
  destruct (Nat.lt_ge_cases i n) as [Hi | Hi].
  - now apply nth_repeat_lt.
  - apply nth_overflow. now rewrite repeat_length.
Qed.

(** [draw] on weights that are all [NaN], for a series as [init] and
    [setGridData] leave it: no loop of the solver is entered, the last
    base stays a hole, and no corner gets an [x]. *)
Lemma draw_NaN_weights (this : series_t) (cw ch : number)
    (legendInfo : option legendInfo_t) :
  _areas this = [] ->
  Forall (fun p => snd p = NaN) (gridData (setGridData this)) ->
  Forall (fun q => fst (v0 q) = NaN /\ fst (v1 q) = NaN
                   /\ fst (v2 q) = NaN /\ fst (v3 q) = NaN)
    (_vertices (draw (setGridData this) cw ch
                  (gridData (setGridData this)) legendInfo)).
Proof.
  intros Hareas Hnan.
  set (s := setGridData this) in *.
  set (n := List.length (gridData s)).
  destruct (Nat.eq_dec n 0) as [Hn0 | Hn0].
  { rewrite draw_vertices. fold n. rewrite Hn0. constructor. }
  assert (Hs_areas : _areas s = []).
  { unfold s, setGridData.
    destruct (sum_and_copy (data this) (of_Z 0) []) as [sum td].
    exact Hareas. }
  assert (Hs_bases : _bases s = new_Array (n + 1)).
  { unfold n, s, setGridData.
    destruct (sum_and_copy (data this) (of_Z 0) []) as [sum td].
    reflexivity. }
  assert (Hall : Forall (fun a => a = NaN)
                   (draw_areas s cw ch (gridData s) legendInfo)).
  { unfold draw_areas. rewrite Hs_areas. cbn [app].
    apply Forall_forall. intros a Ha.
    apply in_map_iff in Ha as (p & <- & Hp).
    rewrite Forall_forall in Hnan. now rewrite (Hnan p Hp). }
  assert (Hb : bases (draw_solver s cw ch (gridData s) legendInfo)
               = draw_bases0 s cw legendInfo).
  { unfold draw_solver, solve_sections.
    now rewrite (solve_sections_NaN_areas _ _ Hall) by (cbn; lia). }
  assert (Hlast : array_get (draw_bases0 s cw legendInfo)
                    (List.length (draw_bases0 s cw legendInfo) - 1) = NaN).
  { unfold draw_bases0. rewrite array_set_length, Hs_bases.
    unfold new_Array at 2. rewrite repeat_length.
    rewrite array_get_set_other by lia. apply array_get_new_Array. }
  assert (Ep2 : fst (p2 (draw_corners s cw ch (gridData s) legendInfo)) = NaN).
  { unfold draw_corners, corners. cbn [p2 fst]. rewrite Hb, Hlast.
    assert (E : (array_get (draw_bases0 s cw legendInfo) 0 - NaN)%js = NaN)
      by (now destruct (array_get (draw_bases0 s cw legendInfo) 0)).
    rewrite E. cbn [div]. now destruct (loff s legendInfo). }
  assert (Ep3 : fst (p3 (draw_corners s cw ch (gridData s) legendInfo)) = NaN).
  { unfold draw_corners, corners. cbn [p3 fst]. rewrite Hb, Hlast.
    now destruct (loff s legendInfo
                  + (array_get (draw_bases0 s cw legendInfo) 0 - NaN)
                    / of_Z 2)%js. }
  rewrite draw_vertices. apply Forall_forall. intros q Hq.
  apply in_map_iff in Hq as (i & <- & _).
  unfold section_quad. cbn [v0 v1 v2 v3].
  rewrite ?findleft_line, ?findright_line.
  now rewrite !line_x_at_NaN_end by assumption.
Qed.

(** C3, as the code has it.  When the total of the values is zero or
    negative, [setGridData] raises nothing: it still stores one weight
    per data point, the value divided by the total.  When all the
    values are zero, every weight is [NaN]; and [draw], on a series
    whose [_areas] is empty (as [init] leaves it), then returns one
    quadrilateral for each data point, with [NaN] as the [x] of every
    corner: the layout goes through, and nothing is raised. *)
Theorem setGridData_degenerate (this : series_t) (cw ch : number)
    (legendInfo : option legendInfo_t) :
  (total (data this) <=? of_Z 0)%js = true ->
  gridData (setGridData this)
  = map (fun p => (fst p, (snd p / total (data this))%js)) (data this)
  /\ List.length (gridData (setGridData this)) = List.length (data this)
  /\ (Forall (fun p => snd p = of_Z 0) (data this) ->
      Forall (fun p => snd p = NaN) (gridData (setGridData this))
      /\ (_areas this = [] ->
          List.length
            (_vertices (draw (setGridData this) cw ch
                          (gridData (setGridData this)) legendInfo))
          = List.length (data this)
          /\ Forall (fun q => fst (v0 q) = NaN /\ fst (v1 q) = NaN
                              /\ fst (v2 q) = NaN /\ fst (v3 q) = NaN)
               (_vertices (draw (setGridData this) cw ch
                             (gridData (setGridData this)) legendInfo)))).
Proof.
  intros _.
  assert (Hlen : List.length (gridData (setGridData this))
                 = List.length (data this))
    by (rewrite setGridData_gridData; apply length_map).
  split; [apply setGridData_gridData |]. split; [exact Hlen |].
  intros Hzero.
  assert (Htotal : total (data this) = of_Z 0).
  { unfold total.
    assert (E : forall d : list datapoint,
               Forall (fun p => snd p = of_Z 0) d ->
               fold_left add (map snd d) (of_Z 0) = of_Z 0).
    { assert (E0 : (of_Z 0 + of_Z 0)%js = of_Z 0)
        by (apply number_eqb_eq; vm_compute; reflexivity).
      induction 1 as [|p d Hp _ IH]; cbn [map fold_left]; [reflexivity |].
      now rewrite Hp, E0. }
    now apply E. }
  assert (Hnan : Forall (fun p => snd p = NaN) (gridData (setGridData this))).
  { rewrite setGridData_gridData, Htotal. apply Forall_forall. intros p Hp.
    apply in_map_iff in Hp as (p0 & <- & Hp0).
    rewrite Forall_forall in Hzero. cbn [snd]. now rewrite (Hzero p0 Hp0). }
  split; [exact Hnan |]. intros Hareas. split.
  - rewrite draw_vertices, length_map, length_seq. exact Hlen.
  - now apply draw_NaN_weights.
Qed.

(** The two data points of value zero, on a canvas of [300] by [300]. *)
Lemma setGridData_degenerate_witness :
  (total (data (init (new_series zeros) no_options)) <=? of_Z 0)%js = true
  /\ Forall (fun p => snd p = of_Z 0)
       (data (init (new_series zeros) no_options))
  /\ _areas (init (new_series zeros) no_options) = []
  /\ Forall (fun p => snd p = NaN) (gridData zeros_series)
  /\ List.length
       (_vertices (draw zeros_series (of_Z 300) (of_Z 300)
                     (gridData zeros_series) None))
     = List.length (data (init (new_series zeros) no_options))
  /\ Forall (fun q => fst (v0 q) = NaN /\ fst (v1 q) = NaN
                      /\ fst (v2 q) = NaN /\ fst (v3 q) = NaN)
       (_vertices (draw zeros_series (of_Z 300) (of_Z 300)
                     (gridData zeros_series) None)).
Proof.
  assert (H1 : (total (data (init (new_series zeros) no_options))
                <=? of_Z 0)%js = true) by (vm_compute; reflexivity).
  assert (H2 : Forall (fun p => snd p = of_Z 0)
                 (data (init (new_series zeros) no_options))).
  { apply Forall_forall. intros p Hp. vm_compute in Hp.
    destruct Hp as [<- | [<- | []]]; reflexivity. }
  assert (H3 : _areas (init (new_series zeros) no_options) = [])
    by reflexivity.
  split; [exact H1 |]. split; [exact H2 |]. split; [exact H3 |].
  pose proof (setGridData_degenerate (init (new_series zeros) no_options)
                (of_Z 300) (of_Z 300) None H1) as H.
  destruct H as (_ & _ & H).
  destruct (H H2) as [Hw Hd]. destruct (Hd H3) as [Hl Hv].
  split; [exact Hw |]. split; [exact Hl | exact Hv].
Defined.

(** X20.  With [widthRatio = 1] (a funnel as wide at the bottom as at
    the top) and an input that is valid otherwise, the two sides of
    the envelope are vertical, their slopes are divisions by zero, and
    every corner of every section gets the [x] coordinate [NaN]: no
    section can be painted, and the hit test finds no section wherever
    the pointer is. *)
Theorem draw_widthRatio_one
    (this : series_t) (cw ch : number) (gd : list datapoint)
    (legendInfo : option legendInfo_t) (pw ph x0 : Qc) (ws : list Qc) :
  _areas this = [] ->
  (List.length (_bases this) <= List.length gd + 1)%nat ->
  (cw - loff this legendInfo - roff this legendInfo)%js = Fin pw ->
  (ch - toff this legendInfo - boff this legendInfo)%js = Fin ph ->
  loff this legendInfo = Fin x0 ->
  widthRatio this = Fin 1%Qc ->
  map snd gd = map Fin ws ->
  Forall (fun w => (0 < w)%Qc) ws ->
  Qc_sum ws = 1%Qc ->
  (0 < pw)%Qc -> (0 < ph)%Qc -> (ph < Qc_of_Z 9999990000)%Qc ->
  List.length (_vertices (draw this cw ch gd legendInfo)) = List.length gd
  /\ Forall (fun q => fst (v0 q) = NaN /\ fst (v1 q) = NaN
                      /\ fst (v2 q) = NaN /\ fst (v3 q) = NaN)
       (_vertices (draw this cw ch gd legendInfo))
  /\ forall gridpos others gn,
       checkIntersection gridpos
         {| series := draw this cw ch gd legendInfo :: others;
            _processGetNeighbor := gn |}
       = Return None.
Proof.
  intros Hareas Hlenb Epw Eph Eloff Ewr Ews Hws Hsum Hpw Hph Hbound.
  assert (Hwr0 : (0 <= 1)%Qc) by (intros E; discriminate E).
  assert (Hwr1 : (1 <= 1)%Qc) by (intros E; discriminate E).
  destruct (envelope_fits pw ph 1 Hpw Hph Hwr0 Hwr1) as [Hfits HA].
  set (A := (ph / Qc_of_Z 2 * (pw + pw * 1))%Qc) in *.
  set (t := ((pw - pw * 1) / Qc_of_Z 2 / ph)%Qc) in *.
  assert (H2 : Qc_of_Z 2 <> 0%Qc) by (intros E; discriminate E).
  assert (Hph0 : ph <> 0%Qc) by now apply Qc_pos_neq.
  assert (Ht0 : t = 0%Qc) by (unfold t; field; now split).
  assert (Eb0 : array_get (draw_bases0 this cw legendInfo) 0 = Fin pw).
  { unfold draw_bases0. now rewrite array_get_set_same. }
  assert (Eatot : draw_atot this cw ch legendInfo = Fin A).
  { unfold draw_atot, draw_ltot. rewrite Eb0, Eph, Ewr.
    change (of_Z 2) with (Fin (Qc_of_Z 2)). now rewrite div_Fin. }
  assert (Et : Math_tan (draw_angle this cw ch legendInfo) = Fin t).
  { unfold draw_angle, draw_hend, draw_ltot, Math_tan, Math_atan.
    cbn [tangent]. rewrite Eb0, Eph, Ewr.
    change (of_Z 2) with (Fin (Qc_of_Z 2)). cbn [mul sub add neg].
    rewrite div_Fin by assumption.
    rewrite div_Fin by assumption. reflexivity. }
  assert (Ear : draw_areas this cw ch gd legendInfo
                = map Fin (map (fun w => (w * A)%Qc) ws)).
  { unfold draw_areas. rewrite Hareas, Eatot. cbn [app].
    rewrite <- (map_map snd (fun x => (x * Fin A)%js)), Ews, !map_map.
    reflexivity. }
  assert (Hlen : List.length gd = List.length ws).
  { pose proof (f_equal (@List.length number) Ews) as E.
    now rewrite !length_map in E. }
  assert (Hn : List.length (draw_areas this cw ch gd legendInfo)
               = List.length (map (fun w => (w * A)%Qc) ws))
    by (now rewrite Ear, length_map).
  assert (Hne : ws <> []).
  { intros ->. cbn in Hsum. discriminate Hsum. }
  destruct (solve_sections_layout (draw_areas this cw ch gd legendInfo)
              (draw_angle this cw ch legendInfo) t Et
              (map (fun w => (w * A)%Qc) ws) 0
              {| bases := draw_bases0 this cw legendInfo;
                 lengths := _lengths this;
                 guess := NaN; err := NaN; count := 0; lsum := of_Z 0 |}
              pw ph (Qc_of_Z 0))
    as (P1 & _ & P3 & P4).
  - intros j Hj. rewrite Ear. now apply array_get_map_Fin.
  - apply Forall_forall. intros x Hx.
    apply in_map_iff in Hx as (w & <- & Hw).
    rewrite Forall_forall in Hws. specialize (Hws w Hw).
    clear - Hws HA. qc2q. apply Qmult_lt_0_compat; assumption.
  - rewrite Qc_sum_scale, Hsum. replace (1 * A)%Qc with A by ring.
    exact Hfits.
  - assumption.
  - exact Eb0.
  - reflexivity.
  - rewrite <- Hn in P1, P3, P4. cbn [Nat.add bases] in P1, P3, P4.
    fold (solve_sections (draw_areas this cw ch gd legendInfo)
            (draw_angle this cw ch legendInfo)
            {| bases := draw_bases0 this cw legendInfo;
               lengths := _lengths this;
               guess := NaN; err := NaN; count := 0; lsum := of_Z 0 |})
      in P1, P3, P4.
    fold (draw_solver this cw ch gd legendInfo) in P1, P3, P4.
    set (st := draw_solver this cw ch gd legendInfo) in *.
    assert (Hbases : forall j, (j <= List.length ws)%nat ->
                       array_get (bases st) j = Fin pw).
    { induction j as [|j IHj]; intros Hj.
      - rewrite P1 by lia. exact Eb0.
      - destruct (P3 j) as (l & bj & bj' & _ & E2 & E3 & _ & Hb' & _);
          [rewrite Hn, length_map; lia |].
        rewrite IHj in E2 by lia. injection E2 as <-.
        replace (S j) with (j + 1)%nat by lia. rewrite E3, Hb', Ht0.
        f_equal. ring. }
    assert (Hlast : List.length (bases st) = (List.length ws + 1)%nat).
    { rewrite P4, Hn, length_map.
      assert (Hl0 : (List.length (draw_bases0 this cw legendInfo)
                     <= List.length ws + 1)%nat).
      { unfold draw_bases0. rewrite array_set_length. lia. }
      destruct ws as [|w ws']; [congruence |].
      cbn [map List.length] in *. lia. }
    assert (Ep0 : p0 (draw_corners this cw ch gd legendInfo)
                  = (Fin x0, toff this legendInfo)).
    { unfold draw_corners, corners. cbn [p0]. now rewrite Eloff. }
    assert (Ep2 : p2 (draw_corners this cw ch gd legendInfo)
                  = (Fin x0,
                     (toff this legendInfo + draw_ltot this ch legendInfo)%js)).
    { unfold draw_corners, corners. cbn [p2]. fold st.
      rewrite Hlast, Eloff. replace (List.length ws + 1 - 1)%nat
        with (List.length ws) by lia.
      rewrite !Hbases by lia.
      change (of_Z 2) with (Fin (Qc_of_Z 2)). cbn [sub add neg].
      rewrite div_Fin by assumption. cbn [add]. f_equal. f_equal.
      field. assumption. }
    assert (Ep1 : p1 (draw_corners this cw ch gd legendInfo)
                  = (Fin (x0 + pw)%Qc, toff this legendInfo)).
    { unfold draw_corners, corners. cbn [p1]. fold st.
      rewrite Eloff, !Hbases by lia. reflexivity. }
    assert (Ep3 : p3 (draw_corners this cw ch gd legendInfo)
                  = (Fin (x0 + pw)%Qc,
                     (toff this legendInfo + draw_ltot this ch legendInfo)%js)).
    { unfold draw_corners, corners. cbn [p3 fst snd]. fold st.
      rewrite Hlast, Eloff. replace (List.length ws + 1 - 1)%nat
        with (List.length ws) by lia.
      rewrite !Hbases by lia.
      change (of_Z 2) with (Fin (Qc_of_Z 2)). cbn [sub add neg].
      rewrite div_Fin by assumption. cbn [add]. f_equal. f_equal.
      field. assumption. }
    assert (Hverts : Forall (fun q => fst (v0 q) = NaN /\ fst (v1 q) = NaN
                                      /\ fst (v2 q) = NaN /\ fst (v3 q) = NaN)
                       (_vertices (draw this cw ch gd legendInfo))).
    { rewrite draw_vertices, Ep0, Ep1, Ep2, Ep3.
      apply Forall_forall. intros q Hq.
      apply in_map_iff in Hq as (i & <- & _).
      unfold section_quad. cbn [v0 v1 v2 v3].
      rewrite ?findleft_line, ?findright_line.
      now rewrite !line_x_at_vertical. }
    assert (Hcount : List.length (_vertices (draw this cw ch gd legendInfo))
                     = List.length gd).
    { rewrite draw_vertices. now rewrite length_map, length_seq. }
    split; [exact Hcount |]. split; [exact Hverts |].
    intros gridpos others gn. unfold checkIntersection. cbn [series].
    destruct (_vertices (draw this cw ch gd legendInfo))
      as [|vfirst rest] eqn:Ev.
    { cbn in Hcount. destruct ws; [congruence | cbn in Hlen; lia]. }
    destruct (nth_error_last_Some quad vfirst rest) as [vlast El].
    rewrite El. cbv zeta. rewrite check_sections_first_over.
    assert (Hnone : first_over
                      (over_section (fst gridpos) (snd gridpos)
                         (findedge (snd gridpos) (v0 vfirst) (v3 vlast))
                         (findedge (snd gridpos) (v1 vfirst) (v2 vlast)))
                      (vfirst :: rest) 0 = None).
    { apply first_over_None. apply Forall_forall. intros cv _.
      apply over_section_NaN. rewrite findedge_line. cbn [fst].
      apply line_x_at_NaN.
      inversion Hverts as [|? ? (Hv0 & _) _]; subst. exact Hv0. }
    rewrite Hnone. reflexivity.
Qed.

(** The funnel of one data point with [widthRatio = 1] on a canvas of
    [300] by [300]. *)
Lemma draw_widthRatio_one_witness :
  _areas cylinder_series = []
  /\ (List.length (_bases cylinder_series)
      <= List.length (gridData cylinder_series) + 1)%nat
  /\ (of_Z 300 - loff cylinder_series None - roff cylinder_series None)%js
     = Fin (Qc_of_Z 260)
  /\ (of_Z 300 - toff cylinder_series None - boff cylinder_series None)%js
     = Fin (Qc_of_Z 260)
  /\ loff cylinder_series None = Fin (Qc_of_Z 20)
  /\ widthRatio cylinder_series = Fin 1%Qc
  /\ map snd (gridData cylinder_series) = map Fin [1%Qc]
  /\ Forall (fun w => (0 < w)%Qc) [1%Qc]
  /\ Qc_sum [1%Qc] = 1%Qc
  /\ (0 < Qc_of_Z 260)%Qc
  /\ (Qc_of_Z 260 < Qc_of_Z 9999990000)%Qc
  /\ List.length
       (_vertices (draw cylinder_series (of_Z 300) (of_Z 300)
                     (gridData cylinder_series) None))
     = List.length (gridData cylinder_series)
  /\ Forall (fun q => fst (v0 q) = NaN /\ fst (v1 q) = NaN
                      /\ fst (v2 q) = NaN /\ fst (v3 q) = NaN)
       (_vertices (draw cylinder_series (of_Z 300) (of_Z 300)
                     (gridData cylinder_series) None))
  /\ forall gridpos others gn,
       checkIntersection gridpos
         {| series :=
              draw cylinder_series (of_Z 300) (of_Z 300)
                (gridData cylinder_series) None :: others;
            _processGetNeighbor := gn |}
       = Return None.
Proof.
  assert (H1 : _areas cylinder_series = []) by (vm_compute; reflexivity).
  assert (H2 : (List.length (_bases cylinder_series)
                <= List.length (gridData cylinder_series) + 1)%nat)
    by (vm_compute; lia).
  assert (H3 : (of_Z 300 - loff cylinder_series None
                - roff cylinder_series None)%js = Fin (Qc_of_Z 260))
    by (apply number_eqb_eq; vm_compute; reflexivity).
  assert (H4 : (of_Z 300 - toff cylinder_series None
                - boff cylinder_series None)%js = Fin (Qc_of_Z 260))
    by (apply number_eqb_eq; vm_compute; reflexivity).
  assert (H5 : loff cylinder_series None = Fin (Qc_of_Z 20))
    by (apply number_eqb_eq; vm_compute; reflexivity).
  assert (H6 : widthRatio cylinder_series = Fin 1%Qc)
    by (apply number_eqb_eq; vm_compute; reflexivity).
  assert (H7 : map snd (gridData cylinder_series) = map Fin [1%Qc])
    by (apply (list_eqb_eq number_eqb number_eqb_eq); vm_compute; reflexivity).
  assert (H8 : Forall (fun w => (0 < w)%Qc) [1%Qc])
    by (constructor; [reflexivity | constructor]).
  assert (H9 : Qc_sum [1%Qc] = 1%Qc) by (apply Qc_is_canon; reflexivity).
  assert (H10 : (0 < Qc_of_Z 260)%Qc) by reflexivity.
  assert (H11 : (Qc_of_Z 260 < Qc_of_Z 9999990000)%Qc) by reflexivity.
  repeat (split; [assumption |]).
  exact (draw_widthRatio_one cylinder_series (of_Z 300) (of_Z 300)
           (gridData cylinder_series) None (Qc_of_Z 260) (Qc_of_Z 260)
           (Qc_of_Z 20) [1%Qc] H1 H2 H3 H4 H5 H6 H7 H8 H9 H10 H10 H11).
Defined.

(** ** Sections shorter than their margins *)

Lemma hit_in_range (gridpos : point) (plot : plot_t) (k i : nat)
    (d : option datapoint) :
  checkIntersection gridpos plot = Return (Some (k, i, d)) ->
  exists s others cv,
    series plot = s :: others
    /\ nth_error (_vertices s) i = Some cv
    /\ (snd gridpos >=? snd (v0 cv))%js = true
    /\ (snd gridpos <=? snd (v3 cv))%js = true.
Proof.
  unfold checkIntersection. destruct (series plot) as [|s others];
    [discriminate |].
  destruct (_vertices s) as [|vfirst rest] eqn:Ev; [discriminate |].
  destruct (nth_error (vfirst :: rest) (List.length (vfirst :: rest) - 1))
    as [vlast|]; [| discriminate].
  cbv zeta. rewrite check_sections_first_over.
  destruct (first_over _ (vfirst :: rest) 0) as [i'|] eqn:Ef;
    [| discriminate].
  cbn [option_map]. intros H. injection H as <- <- <-.
  apply first_over_Some in Ef as (_ & (cv & Ecv & Htest) & _).
  rewrite Nat.sub_0_r in Ecv. unfold over_section in Htest.
  apply andb_prop in Htest as [Htest _].
  apply andb_prop in Htest as [Htest _].
  apply andb_prop in Htest as [Htop Hbottom].
  exists s, others, cv. rewrite Ev. now repeat split.
Qed.

Lemma between_Fin (y : number) (a b : Qc) :
  (y >=? Fin a)%js = true -> (y <=? Fin b)%js = true -> (a <= b)%Qc.
Proof.
  destruct y as [q| | |]; try discriminate.
  unfold num_ge, num_le, num_compare. intros H1 H2.
  assert (Ha : (a <= q)%Qc).
  { destruct (q ?= a)%Qc eqn:E; try discriminate.
    - apply Qceq_alt in E. subst. apply Qcle_refl.
    - apply Qclt_le_weak. now apply Qcgt_alt. }
  assert (Hb : (q <= b)%Qc).
  { destruct (q ?= b)%Qc eqn:E; try discriminate.
    - apply Qceq_alt in E. subst. apply Qcle_refl.
    - apply Qclt_le_weak. now apply Qclt_alt. }
  now apply Qcle_trans with q.
Qed.

(** X21.  The margins are taken from the sections: the top edge of a
    section is moved down and its bottom edge is moved up.  When the
    two moves add up to more than the length of the section (for a
    section other than the first two and the last: when the section is
    shorter than [sectionMargin]), its bottom edge lies above its top
    edge, and the hit test never returns the section, wherever the
    pointer is. *)
Theorem thin_section_never_hit
    (this : series_t) (cw ch : number) (gd : list datapoint)
    (legendInfo : option legendInfo_t) (i : nat) (h l ta ba y0 : Qc) :
  (i < List.length gd)%nat ->
  height_above (_lengths (draw this cw ch gd legendInfo)) i = Fin h ->
  array_get (_lengths (draw this cw ch gd legendInfo)) i = Fin l ->
  top_adj (sectionMargin this) (List.length gd) i (of_Z 0) = Fin ta ->
  bottom_adj (sectionMargin this) (List.length gd) i (of_Z 0) = Fin ba ->
  toff this legendInfo = Fin y0 ->
  (l + ba < ta)%Qc ->
  forall gridpos others gn k d,
    checkIntersection gridpos
      {| series := draw this cw ch gd legendInfo :: others;
         _processGetNeighbor := gn |}
    <> Return (Some (k, i, d)).
Proof.
  intros Hi Eh El Eta Eba Ey0 Hthin gridpos others gn k d E.
  apply hit_in_range in E as (s & others' & cv & Es & Ecv & Htop & Hbottom).
  cbn [series] in Es. injection Es as <- <-.
  pose proof (draw_edge_ys this cw ch gd legendInfo i Hi) as Hys.
  rewrite Ecv in Hys. cbn [option_map] in Hys. unfold edge_ys in Hys.
  injection Hys as E0 E3.
  change (lengths (draw_solver this cw ch gd legendInfo))
    with (_lengths (draw this cw ch gd legendInfo)) in E0, E3.
  rewrite height_above_S, Eh, El, Eba, Ey0 in E3.
  rewrite Eh, Eta, Ey0 in E0. cbn [add] in E0, E3.
  rewrite E0 in Htop. rewrite E3 in Hbottom.
  pose proof (between_Fin _ _ _ Htop Hbottom) as Hle.
  clear - Hle Hthin. qc2q. lra.
Qed.

(** The values [999] and [1] on a canvas of [300] by [300]: the second
    section is less than a pixel high, and the margin at its top edge
    is two pixels. *)
Lemma thin_section_never_hit_witness :
  (1 < List.length (gridData thin_series))%nat
  /\ top_adj (sectionMargin thin_series) (List.length (gridData thin_series))
       1 (of_Z 0)
     = Fin (Qc_of_Z 2)
  /\ bottom_adj (sectionMargin thin_series)
       (List.length (gridData thin_series)) 1 (of_Z 0)
     = Fin (Qc_of_Z 0)
  /\ toff thin_series None = Fin (Qc_of_Z 20)
  /\ exists h l : Qc,
       height_above
         (_lengths (draw thin_series (of_Z 300) (of_Z 300)
                      (gridData thin_series) None)) 1
       = Fin h
       /\ array_get
            (_lengths (draw thin_series (of_Z 300) (of_Z 300)
                         (gridData thin_series) None)) 1
          = Fin l
       /\ (l + Qc_of_Z 0 < Qc_of_Z 2)%Qc
       /\ forall gridpos others gn k d,
            checkIntersection gridpos
              {| series :=
                   draw thin_series (of_Z 300) (of_Z 300)
                     (gridData thin_series) None :: others;
                 _processGetNeighbor := gn |}
            <> Return (Some (k, 1%nat, d)).
Proof.
  assert (H1 : (1 < List.length (gridData thin_series))%nat)
    by (vm_compute; lia).
  assert (H2 : top_adj (sectionMargin thin_series)
                 (List.length (gridData thin_series)) 1 (of_Z 0)
               = Fin (Qc_of_Z 2))
    by (apply number_eqb_eq; vm_compute; reflexivity).
  assert (H3 : bottom_adj (sectionMargin thin_series)
                 (List.length (gridData thin_series)) 1 (of_Z 0)
               = Fin (Qc_of_Z 0))
    by (apply number_eqb_eq; vm_compute; reflexivity).
  assert (H4 : toff thin_series None = Fin (Qc_of_Z 20))
    by (apply number_eqb_eq; vm_compute; reflexivity).
  split; [exact H1 |]. split; [exact H2 |]. split; [exact H3 |].
  split; [exact H4 |].
  assert (Hall :
            (let lens :=
               _lengths (draw thin_series (of_Z 300) (of_Z 300)
                           (gridData thin_series) None) in
             is_finite (height_above lens 1)
             && is_finite (array_get lens 1)
             && (array_get lens 1 <? Fin (Qc_of_Z 2))%js) = true)
    by (vm_compute; reflexivity).
  cbv zeta in Hall.
  apply andb_prop in Hall as [Hall Hlt].
  apply andb_prop in Hall as [Hfh Hfl].
  destruct (height_above
              (_lengths (draw thin_series (of_Z 300) (of_Z 300)
                           (gridData thin_series) None)) 1)
    as [h| | |] eqn:Eh; try discriminate Hfh.
  destruct (array_get
              (_lengths (draw thin_series (of_Z 300) (of_Z 300)
                           (gridData thin_series) None)) 1)
    as [l| | |] eqn:El; try discriminate Hfl.
  assert (Hl : (l + Qc_of_Z 0 < Qc_of_Z 2)%Qc).
  { unfold num_lt, num_compare in Hlt.
    destruct (l ?= Qc_of_Z 2)%Qc eqn:Ec; try discriminate Hlt.
    apply Qclt_alt in Ec. clear - Ec. unfold Qc_of_Z in *. qc2q.
    unfold inject_Z in *. lra. }
  exists h, l. split; [reflexivity |]. split; [reflexivity |].
  split; [exact Hl |].
  exact (thin_section_never_hit thin_series (of_Z 300) (of_Z 300)
           (gridData thin_series) None 1 h l (Qc_of_Z 2) (Qc_of_Z 0)
           (Qc_of_Z 20) H1 Eh El H2 H3 H4 Hl).
Defined.

(** ** The corners of the sections of a valid funnel *)

Lemma height_above_Fin (lens : list number) (i : nat) :
  (forall j, (j < i)%nat -> exists l, array_get lens j = Fin l) ->
  exists h, height_above lens i = Fin h.
Proof.
  induction i as [|i IH]; intros Hl.
  - now exists (Qc_of_Z 0).
  - destruct IH as [h Eh]; [intros j Hj; apply Hl; lia |].
    destruct (Hl i) as [l El]; [lia |].
    exists (h + l)%Qc. now rewrite height_above_S, Eh, El.
Qed.

Lemma top_adj_Fin (m : Qc) (n i : nat) :
  exists ta, top_adj (Fin m) n i (of_Z 0) = Fin ta.
Proof.
  unfold top_adj.
  change (of_Z 3) with (Fin (Qc_of_Z 3)).
  change (of_Z 2) with (Fin (Qc_of_Z 2)). cbn [mul].
  rewrite !div_Fin by (intros E; discriminate E).
  destruct (i =? 1)%nat; [eexists; reflexivity |].
  destruct ((0 <? i)%nat && (i <? n - 1)%nat); [eexists; reflexivity |].
  destruct (i =? n - 1)%nat; [eexists; reflexivity |].
  destruct (i =? 0)%nat; eexists; reflexivity.
Qed.

Lemma bottom_adj_Fin (m : Qc) (n i : nat) :
  exists ba, bottom_adj (Fin m) n i (of_Z 0) = Fin ba.
Proof.
  unfold bottom_adj.
  change (of_Z 3) with (Fin (Qc_of_Z 3)).
  change (of_Z 2) with (Fin (Qc_of_Z 2)).
  change (of_Z (-2)) with (Fin (Qc_of_Z (-2))). cbn [mul neg].
  rewrite !div_Fin by (intros E; discriminate E).
  destruct (i =? 0)%nat; [eexists; reflexivity |].
  destruct ((0 <? i)%nat && (i <? n - 1)%nat); [eexists; reflexivity |].
  destruct (i =? n - 1)%nat; eexists; reflexivity.
Qed.

(** The line through two points of different [x] and different [y],
    at a finite height. *)
Lemma line_x_at_Fin (x0 y0 x2 y2 y : Qc) :
  x0 <> x2 -> y0 <> y2 ->
  line_x_at (Fin x0, Fin y0) (Fin x2, Fin y2) (Fin y)
  = Fin (x0 + (y - y0) * (x2 - x0) / (y2 - y0))%Qc.
Proof.
  intros Hx Hy. unfold line_x_at. cbn [fst snd sub add neg].
  assert (Hdx : (x0 + - x2)%Qc <> 0%Qc).
  { intros E. apply Hx. rewrite <- (Qcplus_0_r x2), <- E. ring. }
  assert (Hdy : (y0 + - y2)%Qc <> 0%Qc).
  { intros E. apply Hy. rewrite <- (Qcplus_0_r y2), <- E. ring. }
  assert (Hdy' : (y2 - y0)%Qc <> 0%Qc).
  { intros E. apply Hy. rewrite <- (Qcplus_0_r y0), <- E. ring. }
  rewrite (div_Fin _ _ Hdx). cbn [mul add neg].
  assert (Hm : ((y0 + - y2) / (x0 + - x2))%Qc <> 0%Qc).
  { intros E. apply Hdy.
    replace (y0 + - y2)%Qc
      with ((y0 + - y2) / (x0 + - x2) * (x0 + - x2))%Qc
      by (field; assumption).
    rewrite E. ring. }
  rewrite (div_Fin _ _ Hm). f_equal. field. repeat split; assumption.
Qed.

Lemma findleft_eq (p q : point) (l : number) :
  findleft p q l = (line_x_at p q (l + snd p)%js, (l + snd p)%js).
Proof. reflexivity. Qed.

Lemma findright_eq (p q : point) (l : number) :
  findright p q l = (line_x_at p q (l + snd p)%js, (l + snd p)%js).
Proof. reflexivity. Qed.

(** The variables of the solver after [draw], for a valid input. *)
Lemma draw_solver_layout
    (this : series_t) (cw ch : number) (gd : list datapoint)
    (legendInfo : option legendInfo_t) (pw ph wr : Qc) (ws : list Qc) :
  _areas this = [] ->
  (cw - loff this legendInfo - roff this legendInfo)%js = Fin pw ->
  (ch - toff this legendInfo - boff this legendInfo)%js = Fin ph ->
  widthRatio this = Fin wr ->
  map snd gd = map Fin ws ->
  Forall (fun w => (0 < w)%Qc) ws ->
  Qc_sum ws = 1%Qc ->
  (0 < pw)%Qc -> (0 < ph)%Qc -> (ph < Qc_of_Z 9999990000)%Qc ->
  (0 <= wr)%Qc -> (wr <= 1)%Qc ->
  List.length gd = List.length ws
  /\ ws <> []
  /\ array_get (bases (draw_solver this cw ch gd legendInfo)) 0 = Fin pw
  /\ (forall j, (j < List.length ws)%nat ->
        exists l bj bj' : Qc,
          array_get (lengths (draw_solver this cw ch gd legendInfo)) j = Fin l
          /\ array_get (bases (draw_solver this cw ch gd legendInfo)) j
             = Fin bj
          /\ array_get (bases (draw_solver this cw ch gd legendInfo)) (j + 1)
             = Fin bj'
          /\ (0 < l)%Qc
          /\ bj' = (bj - Qc_of_Z 2 * l * ((pw - pw * wr) / Qc_of_Z 2 / ph))%Qc
          /\ (bj <= pw)%Qc)
  /\ List.length (bases (draw_solver this cw ch gd legendInfo))
     = Nat.max (List.length (_bases this)) (List.length ws + 1).
Proof.
  intros Hareas Epw Eph Ewr Ews Hws Hsum Hpw Hph Hbound Hwr0 Hwr1.
  destruct (envelope_fits pw ph wr Hpw Hph Hwr0 Hwr1) as [Hfits HA].
  set (A := (ph / Qc_of_Z 2 * (pw + pw * wr))%Qc) in *.
  set (t := ((pw - pw * wr) / Qc_of_Z 2 / ph)%Qc) in *.
  assert (H2 : Qc_of_Z 2 <> 0%Qc) by (intros E; discriminate E).
  assert (Eb0 : array_get (draw_bases0 this cw legendInfo) 0 = Fin pw).
  { unfold draw_bases0. now rewrite array_get_set_same. }
  assert (Eatot : draw_atot this cw ch legendInfo = Fin A).
  { unfold draw_atot, draw_ltot. rewrite Eb0, Eph, Ewr.
    change (of_Z 2) with (Fin (Qc_of_Z 2)). now rewrite div_Fin. }
  assert (Et : Math_tan (draw_angle this cw ch legendInfo) = Fin t).
  { unfold draw_angle, draw_hend, draw_ltot, Math_tan, Math_atan.
    cbn [tangent]. rewrite Eb0, Eph, Ewr.
    change (of_Z 2) with (Fin (Qc_of_Z 2)). cbn [mul sub add neg].
    rewrite div_Fin by assumption.
    rewrite div_Fin by (now apply Qc_pos_neq). reflexivity. }
  assert (Ear : draw_areas this cw ch gd legendInfo
                = map Fin (map (fun w => (w * A)%Qc) ws)).
  { unfold draw_areas. rewrite Hareas, Eatot. cbn [app].
    rewrite <- (map_map snd (fun x => (x * Fin A)%js)), Ews, !map_map.
    reflexivity. }
  assert (Hlen : List.length gd = List.length ws).
  { pose proof (f_equal (@List.length number) Ews) as E.
    now rewrite !length_map in E. }
  assert (Hn : List.length (draw_areas this cw ch gd legendInfo)
               = List.length (map (fun w => (w * A)%Qc) ws))
    by (now rewrite Ear, length_map).
  assert (Hne : ws <> []).
  { intros ->. cbn in Hsum. discriminate Hsum. }
  destruct (solve_sections_layout (draw_areas this cw ch gd legendInfo)
              (draw_angle this cw ch legendInfo) t Et
              (map (fun w => (w * A)%Qc) ws) 0
              {| bases := draw_bases0 this cw legendInfo;
                 lengths := _lengths this;
                 guess := NaN; err := NaN; count := 0; lsum := of_Z 0 |}
              pw ph (Qc_of_Z 0))
    as (P1 & _ & P3 & P4).
  - intros j Hj. rewrite Ear. now apply array_get_map_Fin.
  - apply Forall_forall. intros x Hx.
    apply in_map_iff in Hx as (w & <- & Hw).
    rewrite Forall_forall in Hws. specialize (Hws w Hw).
    clear - Hws HA. qc2q. apply Qmult_lt_0_compat; assumption.
  - rewrite Qc_sum_scale, Hsum. replace (1 * A)%Qc with A by ring.
    exact Hfits.
  - assumption.
  - exact Eb0.
  - reflexivity.
  - rewrite <- Hn in P1, P3, P4. cbn [Nat.add bases] in P1, P3, P4.
    fold (solve_sections (draw_areas this cw ch gd legendInfo)
            (draw_angle this cw ch legendInfo)
            {| bases := draw_bases0 this cw legendInfo;
               lengths := _lengths this;
               guess := NaN; err := NaN; count := 0; lsum := of_Z 0 |})
      in P1, P3, P4.
    fold (draw_solver this cw ch gd legendInfo) in P1, P3, P4.
    split; [exact Hlen |]. split; [exact Hne |].
    split; [rewrite P1 by lia; exact Eb0 |]. split.
    + intros j Hj.
      destruct (P3 j) as (l & bj & bj' & E1 & E2 & E3 & Q1 & Q2 & Q3 & _);
        [rewrite Hn, length_map; lia |].
      exists l, bj, bj'. now repeat split.
    + rewrite P4, Hn, length_map. unfold draw_bases0.
      rewrite array_set_length.
      destruct ws as [|w ws']; [congruence |].
      cbn [map List.length]. lia.
Qed.

(** X22.  Let the input be valid (a fresh series, positive weights
    that sum to [1]) with a plot area at least [1] and less than
    [1000000] wide and high, offsets and a [sectionMargin] of
    magnitude below [1000000], and a [widthRatio] between [0] and
    [0.99].  Then all the coordinates of all the corners of all the
    sections are finite numbers: no corner is [NaN] or an infinity, and
    the two corners of each horizontal edge are level. *)
Theorem draw_vertices_finite
    (this : series_t) (cw ch : number) (gd : list datapoint)
    (legendInfo : option legendInfo_t) (pw ph wr x0 y0 m : Qc)
    (ws : list Qc) :
  _areas this = [] ->
  (List.length (_bases this) <= List.length gd + 1)%nat ->
  (cw - loff this legendInfo - roff this legendInfo)%js = Fin pw ->
  (ch - toff this legendInfo - boff this legendInfo)%js = Fin ph ->
  loff this legendInfo = Fin x0 ->
  toff this legendInfo = Fin y0 ->
  sectionMargin this = Fin m ->
  widthRatio this = Fin wr ->
  map snd gd = map Fin ws ->
  Forall (fun w => (0 < w)%Qc) ws ->
  Qc_sum ws = 1%Qc ->
  (1 <= pw)%Qc -> (pw < Qc_of_Z 1000000)%Qc ->
  (1 <= ph)%Qc -> (ph < Qc_of_Z 1000000)%Qc ->
  (- Qc_of_Z 1000000 < x0)%Qc -> (x0 < Qc_of_Z 1000000)%Qc ->
  (- Qc_of_Z 1000000 < y0)%Qc -> (y0 < Qc_of_Z 1000000)%Qc ->
  (- Qc_of_Z 1000000 < m)%Qc -> (m < Qc_of_Z 1000000)%Qc ->
  (0 <= wr)%Qc -> (wr <= Q2Qc (99 # 100))%Qc ->
  Forall
    (fun q =>
       exists a b c d ya yb : Qc,
         v0 q = (Fin a, Fin ya) /\ v1 q = (Fin b, Fin ya)
         /\ v2 q = (Fin c, Fin yb) /\ v3 q = (Fin d, Fin yb))
    (_vertices (draw this cw ch gd legendInfo)).
Proof.
  intros Hareas Hlenb Epw Eph Eloff Etoff Esm Ewr Ews Hws Hsum Hpw1 _ Hph1
    Hph6 _ _ _ _ _ _ Hwr0 Hwr99.
  pose proof (below_sentinel ph Hph6) as Hbound.
  assert (Hpw : (0 < pw)%Qc).
  { clear - Hpw1. qc2q. change (Qcanon.this 0%Qc) with 0%Q.
    change (Qcanon.this 1%Qc) with 1%Q in Hpw1. lra. }
  assert (Hph : (0 < ph)%Qc).
  { clear - Hph1. qc2q. change (Qcanon.this 0%Qc) with 0%Q.
    change (Qcanon.this 1%Qc) with 1%Q in Hph1. lra. }
  assert (Hwr1 : (wr < 1)%Qc).
  { clear - Hwr99. qc2q. change (Qcanon.this 1%Qc) with 1%Q. lra. }
  assert (Hwr1' : (wr <= 1)%Qc) by now apply Qclt_le_weak.
  destruct (draw_solver_layout this cw ch gd legendInfo pw ph wr ws
              Hareas Epw Eph Ewr Ews Hws Hsum Hpw Hph Hbound Hwr0 Hwr1')
    as (Hlen & Hne & Eb0 & Hsec & Hblen).
  set (t := ((pw - pw * wr) / Qc_of_Z 2 / ph)%Qc) in *.
  set (st := draw_solver this cw ch gd legendInfo) in *.
  assert (H2 : Qc_of_Z 2 <> 0%Qc) by (intros E; discriminate E).
  assert (Hph0 : ph <> 0%Qc) by now apply Qc_pos_neq.
  assert (Ht : (0 < t)%Qc).
  { unfold t, Qc_of_Z. clear - Hpw Hph Hwr1. qc2q. unfold inject_Z.
    assert (Hprod : (this pw * this wr < this pw * 1)%Q).
    { rewrite !(Qmult_comm (this pw)). apply Qmult_lt_compat_r; lra. }
    apply Qlt_shift_div_l; [assumption |].
    apply Qlt_shift_div_l; lra. }
  assert (Hn : (0 < List.length ws)%nat).
  { destruct ws; [congruence | cbn; lia]. }
  assert (Hlast : exists last,
             array_get (bases st) (List.length (bases st) - 1) = Fin last
             /\ (last < pw)%Qc).
  { rewrite Hblen. replace (Nat.max (List.length (_bases this))
                              (List.length ws + 1) - 1)%nat
      with (List.length ws - 1 + 1)%nat by lia.
    destruct (Hsec (List.length ws - 1)%nat)
      as (l & bj & bj' & _ & _ & E3 & Hl & Hb' & Hb); [lia |].
    exists bj'. split; [exact E3 |].
    assert (Hlt : (0 < l * t)%Qc).
    { clear - Hl Ht. qc2q. now apply Qmult_lt_0_compat. }
    rewrite Hb'. clear - Hlt Hb. unfold Qc_of_Z. qc2q. unfold inject_Z.
    assert (E : ((2 # 1) * this l * this t == (2 # 1) * (this l * this t))%Q)
      by ring.
    lra. }
  destruct Hlast as (last & Elast & Hlastlt).
  assert (Hd : ((pw - last) / Qc_of_Z 2)%Qc <> 0%Qc).
  { intros E.
    assert (E' : (pw - last)%Qc = 0%Qc).
    { replace (pw - last)%Qc with ((pw - last) / Qc_of_Z 2 * Qc_of_Z 2)%Qc
        by (field; assumption).
      rewrite E. ring. }
    clear - E' Hlastlt. qc2q. lra. }
  assert (Eltot : draw_ltot this ch legendInfo = Fin ph) by exact Eph.
  assert (Ep0 : p0 (draw_corners this cw ch gd legendInfo)
                = (Fin x0, Fin y0)).
  { unfold draw_corners, corners. cbn [p0]. now rewrite Eloff, Etoff. }
  assert (Ep1 : p1 (draw_corners this cw ch gd legendInfo)
                = (Fin (x0 + pw)%Qc, Fin y0)).
  { unfold draw_corners, corners. cbn [p1]. fold st.
    now rewrite Eloff, Etoff, Eb0. }
  assert (Ep2 : p2 (draw_corners this cw ch gd legendInfo)
                = (Fin (x0 + (pw - last) / Qc_of_Z 2)%Qc,
                   Fin (y0 + ph)%Qc)).
  { unfold draw_corners, corners. cbn [p2]. fold st.
    rewrite Eloff, Etoff, Eb0, Elast, Eltot.
    change (of_Z 2) with (Fin (Qc_of_Z 2)). cbn [sub add neg].
    rewrite div_Fin by assumption. reflexivity. }
  assert (Ep3 : p3 (draw_corners this cw ch gd legendInfo)
                = (Fin (x0 + (pw - last) / Qc_of_Z 2 + last)%Qc,
                   Fin (y0 + ph)%Qc)).
  { unfold draw_corners, corners. cbn [p3 fst snd]. fold st.
    rewrite Eloff, Etoff, Eb0, Elast, Eltot.
    change (of_Z 2) with (Fin (Qc_of_Z 2)). cbn [sub add neg].
    rewrite div_Fin by assumption. reflexivity. }
  assert (HphQ : (0 < Qcanon.this ph)%Q) by (clear - Hph; qc2q; exact Hph).
  assert (HdQ : (Qcanon.this last < Qcanon.this pw)%Q)
    by (clear - Hlastlt; qc2q; exact Hlastlt).
  assert (Hx02 : x0 <> (x0 + (pw - last) / Qc_of_Z 2)%Qc).
  { intros E. apply Hd. clear - E. unfold Qc_of_Z in *.
    apply Qc_eq_iff in E. apply Qc_is_canon.
    rewrite this_plus in E. change (Qcanon.this 0%Qc) with 0%Q. lra. }
  assert (Hx13 : (x0 + pw)%Qc <> (x0 + (pw - last) / Qc_of_Z 2 + last)%Qc).
  { intros E. clear - E HdQ. unfold Qc_of_Z in *. apply Qc_eq_iff in E.
    rewrite !this_plus, this_div, this_minus, this_Q2Qc in E.
    unfold inject_Z in E.
    assert (E2 : ((Qcanon.this pw - Qcanon.this last) / (2 # 1) * (2 # 1)
                  == Qcanon.this pw - Qcanon.this last)%Q) by field.
    lra. }
  assert (Hy : y0 <> (y0 + ph)%Qc).
  { intros E. apply Hph0.
    replace ph with (y0 + ph - y0)%Qc by ring. rewrite <- E. ring. }
  rewrite draw_vertices, Ep0, Ep1, Ep2, Ep3, Esm.
  apply Forall_forall. intros q Hq.
  apply in_map_iff in Hq as (i & <- & Hi). apply in_seq in Hi.
  change (_lengths (draw this cw ch gd legendInfo)) with (lengths st).
  assert (Hfin : forall k, (k <= List.length ws)%nat ->
                   exists h, height_above (lengths st) k = Fin h).
  { intros k Hk. apply height_above_Fin. intros j Hj.
    destruct (Hsec j) as (l & _ & _ & El & _); [lia |]. now exists l. }
  destruct (Hfin i) as [h Eh]; [lia |].
  destruct (Hfin (S i)) as [h' Eh']; [lia |].
  destruct (top_adj_Fin m (List.length gd) i) as [ta Eta].
  destruct (bottom_adj_Fin m (List.length gd) i) as [ba Eba].
  unfold section_quad. rewrite ?findleft_eq, ?findright_eq.
  rewrite Eh, Eh', Eta, Eba. cbn [snd add].
  rewrite !line_x_at_Fin by assumption.
  eexists. eexists. eexists. eexists. eexists. eexists.
  split; [reflexivity |]. split; [reflexivity |].
  split; reflexivity.
Qed.

(** The funnel of three data points with the default options. *)
Lemma draw_vertices_finite_witness :
  _areas three_series = []
  /\ widthRatio three_series = Fin (Q2Qc (2 # 10))
  /\ map snd (gridData three_series)
     = map Fin [Q2Qc (1 # 2); Q2Qc (1 # 3); Q2Qc (1 # 6)]
  /\ Forall
       (fun q =>
          exists a b c d ya yb : Qc,
            v0 q = (Fin a, Fin ya) /\ v1 q = (Fin b, Fin ya)
            /\ v2 q = (Fin c, Fin yb) /\ v3 q = (Fin d, Fin yb))
       (_vertices (draw three_series (of_Z 300) (of_Z 300)
                     (gridData three_series) None)).
Proof.
  assert (H1 : _areas three_series = []) by (vm_compute; reflexivity).
  assert (H1' : (List.length (_bases three_series)
                 <= List.length (gridData three_series) + 1)%nat)
    by (vm_compute; lia).
  assert (H2 : (of_Z 300 - loff three_series None - roff three_series None)%js
               = Fin (Qc_of_Z 260))
    by (apply number_eqb_eq; vm_compute; reflexivity).
  assert (H3 : (of_Z 300 - toff three_series None - boff three_series None)%js
               = Fin (Qc_of_Z 260))
    by (apply number_eqb_eq; vm_compute; reflexivity).
  assert (H3a : loff three_series None = Fin (Qc_of_Z 20))
    by (apply number_eqb_eq; vm_compute; reflexivity).
  assert (H3b : toff three_series None = Fin (Qc_of_Z 20))
    by (apply number_eqb_eq; vm_compute; reflexivity).
  assert (H3c : sectionMargin three_series = Fin (Qc_of_Z 6))
    by (apply number_eqb_eq; vm_compute; reflexivity).
  assert (H4 : widthRatio three_series = Fin (Q2Qc (2 # 10)))
    by (apply number_eqb_eq; vm_compute; reflexivity).
  assert (H5 : map snd (gridData three_series)
               = map Fin [Q2Qc (1 # 2); Q2Qc (1 # 3); Q2Qc (1 # 6)])
    by (apply (list_eqb_eq number_eqb number_eqb_eq); vm_compute; reflexivity).
  assert (H6 : Forall (fun w => (0 < w)%Qc)
                 [Q2Qc (1 # 2); Q2Qc (1 # 3); Q2Qc (1 # 6)])
    by (repeat (constructor; [reflexivity |]); constructor).
  assert (H7 : Qc_sum [Q2Qc (1 # 2); Q2Qc (1 # 3); Q2Qc (1 # 6)] = 1%Qc)
    by (apply Qc_is_canon; reflexivity).
  assert (H8 : (1 <= Qc_of_Z 260)%Qc) by (intros E; discriminate E).
  assert (H9 : (Qc_of_Z 260 < Qc_of_Z 1000000)%Qc) by reflexivity.
  assert (H10 : (- Qc_of_Z 1000000 < Qc_of_Z 20)%Qc) by reflexivity.
  assert (H11 : (Qc_of_Z 20 < Qc_of_Z 1000000)%Qc) by reflexivity.
  assert (H12 : (- Qc_of_Z 1000000 < Qc_of_Z 6)%Qc) by reflexivity.
  assert (H13 : (Qc_of_Z 6 < Qc_of_Z 1000000)%Qc) by reflexivity.
  assert (H14 : (0 <= Q2Qc (2 # 10))%Qc) by (intros E; discriminate E).
  assert (H15 : (Q2Qc (2 # 10) <= Q2Qc (99 # 100))%Qc)
    by (intros E; discriminate E).
  split; [exact H1 |]. split; [exact H4 |]. split; [exact H5 |].
  exact (draw_vertices_finite three_series (of_Z 300) (of_Z 300)
           (gridData three_series) None (Qc_of_Z 260) (Qc_of_Z 260)
           (Q2Qc (2 # 10)) (Qc_of_Z 20) (Qc_of_Z 20) (Qc_of_Z 6)
           [Q2Qc (1 # 2); Q2Qc (1 # 3); Q2Qc (1 # 6)]
           H1 H1' H2 H3 H3a H3b H3c H4 H5 H6 H7 H8 H9 H8 H9
           H10 H11 H10 H11 H12 H13 H14 H15).
Defined.

(** ** The hit test of a funnel at the top of the canvas *)

Lemma add_zero_r (y : number) : (y + of_Z 0)%js = y.
Proof.
  destruct y as [q| | |]; try reflexivity.
  unfold of_Z. cbn [add]. f_equal.
  change (Q2Qc (inject_Z 0)) with 0%Qc. ring.
Qed.

Lemma first_over_ext (test test' : quad -> bool) (v : list quad) (i : nat) :
  (forall cv, test cv = test' cv) ->
  first_over test v i = first_over test' v i.
Proof.
  intros H. revert i. induction v as [|cv v IH]; intros i; cbn [first_over].
  - reflexivity.
  - now rewrite H, IH.
Qed.

(** When the top corners of the first section lie at the height [0],
    the two boundary lines are evaluated at the height of the
    pointer. *)
Lemma checkIntersection_top_at_zero
    (gridpos : point) (s : series_t) (others : list series_t) (gn : bool)
    (vfirst : quad) (rest : list quad) :
  _vertices s = vfirst :: rest ->
  snd (v0 vfirst) = of_Z 0 ->
  snd (v1 vfirst) = of_Z 0 ->
  checkIntersection gridpos
    {| series := s :: others; _processGetNeighbor := gn |}
  = Return
      (option_map (fun j => (index s, j, nth_error (data s) j))
         (hitTest gridpos (_vertices s))).
Proof.
  intros Ev E0 E1.
  destruct gridpos as [x y].
  destruct (nth_error_last_Some quad vfirst rest) as [vlast El].
  assert (El' : nth_error (vfirst :: rest) (List.length rest) = Some vlast).
  { rewrite <- El. f_equal. cbn [List.length]. lia. }
  rewrite (checkIntersection_first_over x y s others gn vfirst vlast rest
             Ev El').
  unfold hitTest. rewrite Ev, El. cbn [fst snd].
  rewrite E0, E1, !add_zero_r. reflexivity.
Qed.

(** X23.  When the funnel starts at the top of the canvas (the top
    offset is [0]) and has at least two sections, the hit test of
    [checkIntersection] evaluates the two side lines at the height of
    the pointer: it returns the first section, from the top, whose
    vertical range contains the pointer and between whose side lines,
    taken at the pointer's own height, the pointer lies. *)
Theorem checkIntersection_top_offset_zero
    (this : series_t) (cw ch : number) (gd : list datapoint)
    (legendInfo : option legendInfo_t) (gridpos : point)
    (others : list series_t) (gn : bool) :
  (1 < List.length gd)%nat ->
  toff this legendInfo = of_Z 0 ->
  checkIntersection gridpos
    {| series := draw this cw ch gd legendInfo :: others;
       _processGetNeighbor := gn |}
  = Return
      (option_map
         (fun j => (index this, j, nth_error (data this) j))
         (hitTest gridpos (_vertices (draw this cw ch gd legendInfo)))).
Proof.
  intros Hn Et.
  pose proof (draw_vertices this cw ch gd legendInfo) as Ev.
  destruct (List.length gd) as [|[|n]] eqn:En; [lia | lia |].
  rewrite <- cons_seq in Ev. cbn [map] in Ev.
  apply (checkIntersection_top_at_zero gridpos _ others gn _ _ Ev).
  - unfold section_quad, findleft. cbn [v0 snd].
    unfold draw_corners, corners. cbn [p0 snd]. rewrite Et.
    apply number_eqb_eq. vm_compute. reflexivity.
  - unfold section_quad, findright. cbn [v1 snd].
    unfold draw_corners, corners. cbn [p1 snd]. rewrite Et.
    apply number_eqb_eq. vm_compute. reflexivity.
Qed.

(** The values [10], [30] and [20] with [padding.top = 0] on a canvas
    of [300] by [300], and the pointer at [(150, 10)]. *)
Lemma checkIntersection_top_offset_zero_witness :
  (1 < List.length (gridData flush_series))%nat
  /\ toff flush_series None = of_Z 0
  /\ checkIntersection (of_Z 150, of_Z 10)
       {| series :=
            [draw flush_series (of_Z 300) (of_Z 300)
               (gridData flush_series) None];
          _processGetNeighbor := true |}
     = Return
         (option_map
            (fun j => (index flush_series, j, nth_error (data flush_series) j))
            (hitTest (of_Z 150, of_Z 10)
               (_vertices (draw flush_series (of_Z 300) (of_Z 300)
                             (gridData flush_series) None)))).
Proof.
  assert (H1 : (1 < List.length (gridData flush_series))%nat)
    by (vm_compute; lia).
  assert (H2 : toff flush_series None = of_Z 0)
    by (apply number_eqb_eq; vm_compute; reflexivity).
  split; [exact H1 |]. split; [exact H2 |].
  exact (checkIntersection_top_offset_zero flush_series (of_Z 300) (of_Z 300)
           (gridData flush_series) None (of_Z 150, of_Z 10) [] true H1 H2).
Defined.
